(* ===== verification/_CoqProject ===== *)
-Q . S2P
Prelude.v
GoBytes.v
GoUrl.v
GoUrlParse.v
UrlText.v
GoHash.v
GoTime.v
GoJson.v
JsonWire.v
GoFloat.v
Errors.v
GoHttp.v
Env.v
Signature.v
Manager.v
Step.v
Program.v
Functions.v
Handler.v
Invoke.v
Unwind.v
Replay.v
Groups.v
Durable.v
Executor.v
Configs.v
Serve.v
Sync.v
ServeProps.v
Wire.v
Client.v
Buffer.v
WorkerPool.v
ConnectInvoke.v
EndToEnd.v
Handshake.v
Heartbeat.v
WorkerFlow.v
WorkerCalls.v
Connection.v
RunLoop.v
StartWorker.v
Examples.v
Mains.v
Package.v
TestUtils.v
