(* ===== verification/Prelude.v ===== *)
(** * Verification of the Inngest Go SDK

    The SDK lets a Go program register functions with Inngest.  An executor calls such a
    function over HTTP, or over a WebSocket the program opened, again and again: every
    call replays the function with the results that are already known, the first step
    without a result runs or is reported, and the function is unwound by a panic.  This
    library models the SDK as Rocq definitions that follow its source, file by file, and
    proves what makes it correct, together with the places where it is not.

    ** Files and the code they model

    The standard library of Go, as far as the SDK uses it:
    - [Prelude]: results of fallible functions, 64-bit integers, list searches, tactics
      and the hint database [inngest].
    - [GoBytes]: strings as bytes, strings, strconv, encoding/hex.
    - [GoUrl], [GoUrlParse]: net/url, queries and URLs; [UrlText]: the text of a web
      server's URL is parsed back to it.
    - [GoHash]: SHA-1, SHA-256 and HMAC, executable.
    - [GoTime]: time.Time and time.Duration with their overflows and formats.
    - [GoJson]: encoding/json, printer, parser and struct decoding; [JsonWire]: what is
      printed is parsed back, up to the bytes that are not UTF-8; [GoFloat]: numbers that
      become float64 on the way, and decoding into [any].
    - [GoHttp]: headers, requests, the response writer.

    The SDK:
    - [Errors]: errors/errors.go, errors.go and connect/handshake.go's error values, with
      [errors.Is] and [errors.As] over chains of wrapped errors.
    - [Env]: env.go, headers.go, consts.go, platform.go and [HandlerOpts].
    - [Signature]: signature.go, keys, signing and both validators.
    - [Manager]: internal/sdkrequest, the request of the executor, the manager of one
      invocation, its interface and the hashes that identify steps.
    - [Step]: step/*.go and experimental/group, the tools in a monad of stateful
      computations that may panic.
    - [Program]: user functions as syntax, [exec] runs them with the tools of [Step].
    - [Functions]: funcs.go.  [Handler]: the handler, [Register] and the choice of a
      function.  [Configs]: createFunctionConfigs.
    - [Invoke]: the function [invoke] of handler.go and the reply made of its result.
    - [Serve]: handler.invoke, inspect and trust.  [Sync]: register, inBandSync,
      outOfBandSync, net.go and [ServeHTTP].
    - [Wire]: the JSON of the executor's requests (internal/sdkrequest) and of the
      operations in a response, as the two ends read them.
    - [Client]: client.go and event.go.
    - [Buffer]: connect/buffer.go.  [WorkerPool]: connect/worker_pool.go.
    - [ConnectInvoke]: connect/invoke.go and connect.go.
    - [Handshake]: connect/workerapi.go, connect/handshake.go, and prepareConnection, the
      read loop and the end of handleConnection in connect/connection.go.
    - [Heartbeat]: the two heartbeat goroutines of handleConnection.
    - [WorkerFlow]: what happens to the requests of a worker: the read loop, the pool,
      processExecutorRequest and the buffer in one step relation.
    - [WorkerCalls]: a worker of [WorkerFlow] with the executor of [Executor] at its other
      end, and messages and replies on their way between the two.
    - [Connection]: handleConnection from its first flush to its end.
    - [RunLoop]: connectHandler.Connect, Close and State in connect/handler.go, and
      connect in connect/connection.go.  [StartWorker]: the way to that loop, from
      handler.Connect over connect.Connect, and the connect message.
    - [Package]: the default handler and client, and the functions that use them.

    Programs that use the SDK: [Examples] has the functions of examples/http/main.go and
    examples/connect/main.go, [Mains] what their main functions set up, [TestUtils] the
    helpers of tests/utils.go.

    The other end: the executor is a service, and not code of this repository.  [Durable]
    has the ideal execution of a function, in which every tool is called once and answered
    at once, and what one call of the function reports of it; [Executor] has an executor
    with every freedom in the order of its calls and answers; [EndToEnd] lets it call a
    function in process, over HTTP and over a worker connection.

    Theorems only: [Unwind], [Replay] and [Groups] on invocations, [ServeProps] on the
    endpoint.

    ** How state and effects are kept

    The manager and the log of observable actions are threaded through the monad of
    [Step], whose computations end with a value or a panic; [ControlHijack] is one of the
    panics.  A user function is any [prog]: it computes, logs, calls tools and groups, in
    the context it got or in one of its own, and returns or panics.  HTTP handlers take
    and return the response writer; what they send over the network is a list of
    requests, answered by a parameter.  The concurrent parts of connect/ are step
    relations: operations on the buffer hold its lock and so are single steps, the pool
    has a step per channel operation, and the connection loop, its caller, the goroutine
    that waits for it and the connections meet over channels without room.  [WorkerFlow]
    composes the buffer and the pool: each of its events is a run of either, so that what
    was proved of them holds of the worker, and [Connection] shows that a connection only
    does such events.  Heartbeats and [waitForRun] are functions of the times at which
    messages come and rounds begin.

    Where parts meet there is an interface: [InvocationManager] with its laws, against
    which the numbering of operations is proved; [Tool], what a step tool does in a call,
    with an instance for each; [View] and [Caller], what the executor relies on, with an
    instance for each way to call a function.

    ** What the theorems show

    - Every schedule ([EndToEnd]): an executor that calls a function, calls its planned
      steps and answers its operations, in any order, with calls that overlap and answers
      as old as the plan, ends after a bounded number of steps, is never stuck, runs each
      step once, and ends as the ideal execution does, with a value, an error, a panic or
      an answer that cannot be read; over signed HTTP requests and over a worker
      connection as in process.
    - Executor and worker together ([WorkerCalls]): whatever the order in which a worker
      reads, handles and answers the requests of an execution and those of others, and
      however its writes fare, the executor sees the replies of calls in process, each of
      its messages is in one place and its function called once at most, and the execution
      can be brought to its end.
    - Durable execution ([Replay], [Groups], [Program], [Unwind]): replaying a sequential
      function with stored answers is executing it once; a group of steps is planned, run
      in any order and collected in its own order, if its names are distinct, and what
      goes wrong if they are not; an invocation runs at most one step
      to its end ([exec_traced] marks the functions of steps that are entered and that
      return), nothing happens after it, a target runs alone, a plan runs nothing, a known
      result is not computed again; a function that was unwound is not taken for a finished one,
      except when its target is missed.
    - The wire ([JsonWire], [Wire]): requests and the operations of a response survive
      their JSON; what an endpoint reports is well formed; the value of a step that ran
      comes back to the function through both.
    - Identity ([Manager], [Handler], [Configs]): operations are numbered by use and told
      apart by their hashes; the URL a function is registered with leads back to it,
      through its text.
    - Authentication ([Signature], [ServeProps]): the validators accept exactly what
      signing produces; outside of development an invocation that is not signed runs nothing;
      responses verify.
    - The endpoint ([ServeProps], [Client]): status, headers and body of every response,
      the use of the fallback key, events and their delivery.
    - Connections ([Buffer], [WorkerPool], [ConnectInvoke], [Handshake], [WorkerFlow],
      [Connection], [RunLoop], [StartWorker]): when a worker starts and with what; no
      request is dropped inside a worker, and no reply is lost that is the only one to its
      request, in every interleaving; a worker can drain, and a graceful shutdown leaves nothing behind; flushing ends;
      both transports answer alike; the loop keeps its bounds, on the connections that it
      starts, and its keys; and its faults: a connection that is closed or at its end is
      not replaced, and a caller that gives up can hang.
    - Heartbeats ([Heartbeat]): when a silent gateway is dropped, and that one that
      answers in time is not.
    - Programs ([Examples], [Mains], [TestUtils]): the workflow of the example is executed as it is
      written when its rate limit is a number, and why it ends at its first step when there
      is none; the main functions serve and connect what
      they register; polling a run ends.

    Theorems that show a fault of the code say so in their comments; each is a theorem
    about the model of the code as it is.

    ** Bounds and fuel

    Integers that can overflow are kept at 64 bits with [wrap64]; sizes and positions are
    unbounded.  Decimal printing has the number of binary digits as fuel, which bounds the
    number of decimal ones ([parse_dec_go]); reading and quoting of JSON strings have the
    length of the text, of which every step consumes a byte.  [drive] in [Replay] has the
    number of rounds as fuel and the theorem gives a bound that is enough.  The executor of
    [Executor] is a step relation without fuel, whose runs are bounded by a measure: four
    steps for every tool call and three more.  A float64 has at most seventeen significant
    digits, which is the fuel of the search for the shortest decimal.  User
    functions are finite trees, so running them is structural.  Flushing makes five
    attempts, as in the code, and its theorem is that it ends.  [waitForRun] has fifty-two rounds of fuel:
    every round sleeps a tenth of a second and the timeout is five.

    ** What is not modelled

    Third-party code is a parameter, with a concrete function in the examples: the JSON
    canonicaliser, slug.Make, protocol buffers, WebSockets, the network, the environment.
    Go values of user types are a universe with the operations reflection and
    encoding/json offer ([gotype]).  Goroutines inside one invocation are not modelled:
    group.Parallel awaits each of its functions before it starts the next, and the locks
    of the handler and of the manager are left out, their operations being atomic.
    Logging is left out, but for what [processExecutorRequest] logs.  Data races on the
    connection's state and on the time of the last heartbeat are not modelled.  In
    [RunLoop] a missed heartbeat is one of the ways a connection ends; [Heartbeat] says
    when that is.  [time.Parse] is a parameter of the example that uses it.  Of the
    programs, starting servers, printing and the tests themselves are left out.

    [EndToEnd] is about functions with distinct names of steps, whose steps neither call
    tools nor panic, and whose groups consist of functions that return; that it does not
    hold for repeated names in groups is shown in [Groups].  A step that panics fails its
    invocation ([Unwind]), and what is done about it is the executor's choice.  The gateway
    of [WorkerCalls] delivers a message once, unless it was not acknowledged.  What the
    executor itself does with its answers, its retries and timeouts, is not code of this
    repository. *)

From stdpp Require Export base gmap strings list sets fin_maps sorting.
From Stdlib Require Export ZArith Lia.
From Stdlib Require Strings.Ascii Strings.String.
Export Stdlib.Strings.Ascii (ascii(..), N_of_ascii, ascii_of_N, ascii_N_embedding,
  N_ascii_embedding).
Export (notations) Stdlib.Strings.Ascii.

#[export] Set Default Goal Selector "!".

(** ** Notations of the development *)

Declare Scope inngest_scope.
Delimit Scope inngest_scope with inngest.
#[global] Open Scope inngest_scope.

(** Results of fallible Go functions: a value, or an error value. *)
Inductive res (E A : Type) : Type :=
  | Ok (a : A)
  | Err (e : E).
Arguments Ok {E A} a.
Arguments Err {E A} e.

Definition res_bind {E A B} (r : res E A) (k : A → res E B) : res E B :=
  match r with Ok a => k a | Err e => Err e end.

Definition res_map_err {E F A} (f : E → F) (r : res E A) : res F A :=
  match r with Ok a => Ok a | Err e => Err (f e) end.

Definition is_ok {E A} (r : res E A) : bool :=
  match r with Ok _ => true | Err _ => false end.

Definition res_of_option {E A} (e : E) (o : option A) : res E A :=
  match o with Some a => Ok a | None => Err e end.

Notation "'try' x <- r ; k" := (res_bind r (fun x => k))
  (at level 100, x binder, r at next level, right associativity,
   format "'[v' 'try'  x  <-  r ; '/' k ']'") : inngest_scope.

(** ** Machine integers *)

(** [wrap64 z] is the int64 that has the low 64 bits of [z]. *)
Definition wrap64 (z : Z) : Z := ((z + 2 ^ 63) mod 2 ^ 64 - 2 ^ 63)%Z.

Definition min_int64 : Z := (- 2 ^ 63)%Z.
Definition max_int64 : Z := (2 ^ 63 - 1)%Z.

Definition in_int64 (z : Z) : Prop := (min_int64 ≤ z ≤ max_int64)%Z.

#[export] Instance in_int64_dec z : Decision (in_int64 z).
Proof. unfold in_int64. apply _. Defined.

Lemma wrap64_small z : in_int64 z → wrap64 z = z.
Proof.
  unfold in_int64, min_int64, max_int64, wrap64. intros ?.
  rewrite Z.mod_small; lia.
Qed.

Lemma wrap64_range z : in_int64 (wrap64 z).
Proof.
  unfold in_int64, min_int64, max_int64, wrap64.
  pose proof (Z.mod_pos_bound (z + 2 ^ 63) (2 ^ 64) ltac:(lia)). lia.
Qed.

Lemma wrap64_add_wrap z y : wrap64 (wrap64 z + y) = wrap64 (z + y).
Proof.
  unfold wrap64. f_equal.
  replace ((z + 2 ^ 63) mod 2 ^ 64 - 2 ^ 63 + y + 2 ^ 63)%Z
    with ((z + 2 ^ 63) mod 2 ^ 64 + y)%Z by lia.
  rewrite Zplus_mod_idemp_l. f_equal. lia.
Qed.

(** ** Lists *)

Section lists.
Context {A B : Type}.

(** The last element of [l] on which [f] answers, scanning left to right. *)
Definition find_last (f : A → option B) (l : list A) : option B :=
  foldl (λ acc x, match f x with Some b => Some b | None => acc end) None l.

(** [go_find] is Go's [for _, x := range l { if p(x) { r = x; break } }]. *)
Fixpoint go_find (p : A → bool) (l : list A) : option A :=
  match l with
  | [] => None
  | x :: l => if p x then Some x else go_find p l
  end.

Lemma go_find_Some p l x :
  go_find p l = Some x ↔
    ∃ l1 l2, l = l1 ++ x :: l2 ∧ p x = true ∧ Forall (λ y, p y = false) l1.
Proof.
  split.
  - induction l as [|y l IH]; [done|]. simpl. destruct (p y) eqn:Hy.
    + intros [= ->]. by exists [], l.
    + intros Hf. apply IH in Hf as (l1 & l2 & -> & ? & ?).
      exists (y :: l1), l2. by repeat constructor.
  - intros (l1 & l2 & -> & Hx & Hl). induction Hl as [|y l1 Hy Hl' IH]; simpl.
    + by rewrite Hx.
    + by rewrite Hy.
Qed.

Lemma go_find_None p l : go_find p l = None ↔ Forall (λ y, p y = false) l.
Proof.
  induction l as [|y l IH]; simpl; [done|].
  rewrite Forall_cons, <- IH. destruct (p y); naive_solver.
Qed.
End lists.

(** ** Automation *)

Create HintDb inngest discriminated.
Create Rewrite HintDb inngest_str.

#[export] Hint Resolve wrap64_small wrap64_range : inngest.

(** [inv_res] inverts hypotheses about [res] values and [option]s. *)
Ltac inv_res :=
  repeat match goal with
  | H : Ok _ = Ok _ |- _ => injection H as H
  | H : Err _ = Err _ |- _ => injection H as H
  | H : Ok _ = Err _ |- _ => discriminate H
  | H : Err _ = Ok _ |- _ => discriminate H
  end; simplify_eq/=.

(** [case_step] destructs the scrutinee of the outermost [match] or [if] of the
    goal, keeping the equation. *)
Ltac case_step :=
  match goal with
  | |- context [match ?x with _ => _ end] =>
      lazymatch x with context [match _ with _ => _ end] => fail | _ => destruct x eqn:? end
  end; simplify_eq/=.
