(* ===== verification/GoBytes.v ===== *)
(** * Go strings and byte slices

    Go strings and [[]byte] are byte sequences: both are [string] here, a
    sequence of 8-bit [ascii].  This file holds the parts of the standard
    library packages [strings], [strconv] and [encoding/hex] the SDK uses. *)

From S2P Require Import Prelude.

Open Scope Z_scope.

(** ** Bytes *)

Definition ord (c : ascii) : Z := Z.of_N (N_of_ascii c).
Definition chr (n : Z) : ascii := ascii_of_N (Z.to_N n).

Lemma ord_range c : 0 ≤ ord c < 256.
Proof. destruct c as [[] [] [] [] [] [] [] []]; vm_compute; split; congruence. Qed.

Lemma chr_ord c : chr (ord c) = c.
Proof. unfold chr, ord. rewrite N2Z.id. apply ascii_N_embedding. Qed.

Lemma ord_chr n : 0 ≤ n < 256 → ord (chr n) = n.
Proof.
  intros ?. unfold chr, ord. rewrite N_ascii_embedding, Z2N.id; lia.
Qed.

Definition in_range (lo hi : Z) (n : Z) : bool := (lo <=? n) && (n <=? hi).

Definition is_digit (c : ascii) : bool := in_range 48 57 (ord c).
Definition is_lower (c : ascii) : bool := in_range 97 122 (ord c).
Definition is_upper (c : ascii) : bool := in_range 65 90 (ord c).

(** Go's regexp class [\w]. *)
Definition is_word (c : ascii) : bool :=
  is_digit c || is_lower c || is_upper c || (ord c =? 95).

Definition to_lower_byte (c : ascii) : ascii :=
  if is_upper c then chr (ord c + 32) else c.
Definition to_upper_byte (c : ascii) : ascii :=
  if is_lower c then chr (ord c - 32) else c.

Fixpoint str_map (f : ascii → ascii) (s : string) : string :=
  match s with "" => "" | String c s => String (f c) (str_map f s) end.

Fixpoint str_all (p : ascii → bool) (s : string) : bool :=
  match s with "" => true | String c s => p c && str_all p s end.

Definition str_empty (s : string) : bool := match s with "" => true | _ => false end.

(** ** Package strings *)

(** [strings.Cut s sep] for a one-byte separator. *)
Fixpoint cut (sep : ascii) (s : string) : string * string * bool :=
  match s with
  | "" => ("", "", false)
  | String c s' =>
      if decide (c = sep) then ("", s', true)
      else let '(a, b, found) := cut sep s' in (String c a, b, found)
  end.

Fixpoint contains_byte (c : ascii) (s : string) : bool :=
  match s with "" => false | String d s => bool_decide (c = d) || contains_byte c s end.

(** [strip_prefix p s] is [Some r] when [s = p +:+ r]. *)
Fixpoint strip_prefix (p s : string) : option string :=
  match p, s with
  | "", _ => Some s
  | String a p, String b s => if decide (a = b) then strip_prefix p s else None
  | _, _ => None
  end.

(** [strings.TrimSuffix s sfx] *)
Fixpoint trim_suffix (sfx s : string) : string :=
  if decide (s = sfx) then ""
  else match s with "" => "" | String c s' => String c (trim_suffix sfx s') end.

(** [strings.ToLower]: ASCII letters are lowered.  Non-ASCII letters, which Go
    also lowers, are left alone: the only caller compares the result with two
    ASCII constants. *)
Definition to_lower : string → string := str_map to_lower_byte.

Fixpoint str_join (sep : string) (l : list string) : string :=
  match l with
  | [] => ""
  | [s] => s
  | s :: l => s +:+ sep +:+ str_join sep l
  end.

Fixpoint str_repeat (n : nat) (s : string) : string :=
  match n with O => "" | S n => s +:+ str_repeat n s end.

(** ** String lemmas *)

Lemma app_nil_l s : "" +:+ s = s.
Proof. done. Qed.

Lemma app_cons c s t : String c s +:+ t = String c (s +:+ t).
Proof. done. Qed.

Lemma app_nil_r' s : s +:+ "" = s.
Proof. induction s as [|c s IH]; [done|]. rewrite app_cons. by f_equal. Qed.

Lemma app_assoc' s t u : (s +:+ t) +:+ u = s +:+ t +:+ u.
Proof. induction s as [|c s IH]; [done|]. rewrite !app_cons. by f_equal. Qed.

Lemma app_inj_l s t u : s +:+ t = s +:+ u → t = u.
Proof. apply (inj (String.app s)). Qed.

Lemma length_app' s t : String.length (s +:+ t) = (String.length s + String.length t)%nat.
Proof. induction s as [|c s IH]; [done|]. simpl; rewrite ?app_cons; simpl. by f_equal. Qed.

Lemma str_all_app p s t : str_all p (s +:+ t) = str_all p s && str_all p t.
Proof.
  induction s as [|c s IH]; [done|]. simpl; rewrite ?app_cons; simpl.
  rewrite IH. by destruct (p c).
Qed.

Lemma app_inj_same_length s1 s2 t1 t2 :
  String.length s1 = String.length s2 → s1 +:+ t1 = s2 +:+ t2 → s1 = s2 ∧ t1 = t2.
Proof.
  revert s2. induction s1 as [|c s1 IH]; intros [|d s2]; simpl; try done.
  rewrite !app_cons. intros [= ?] [= -> ?]. naive_solver.
Qed.

Lemma contains_byte_app c s t :
  contains_byte c (s +:+ t) = contains_byte c s || contains_byte c t.
Proof.
  induction s as [|d s IH]; [done|]. simpl; rewrite ?app_cons; simpl.
  rewrite IH. by rewrite orb_assoc.
Qed.

Lemma cut_app sep s t :
  contains_byte sep s = false → cut sep (s +:+ String sep t) = (s, t, true).
Proof.
  induction s as [|c s IH]; simpl.
  - intros _. by rewrite decide_True.
  - intros [Hc Hs]%orb_false_iff. rewrite ?app_cons; simpl.
    apply bool_decide_eq_false in Hc. rewrite decide_False by congruence.
    by rewrite IH.
Qed.

Lemma cut_none sep s : contains_byte sep s = false → cut sep s = (s, "", false).
Proof.
  induction s as [|c s IH]; simpl; [done|].
  intros [Hc Hs]%orb_false_iff. apply bool_decide_eq_false in Hc.
  rewrite decide_False by congruence. by rewrite IH.
Qed.

Lemma strip_prefix_app p s : strip_prefix p (p +:+ s) = Some s.
Proof.
  induction p as [|c p IH]; [done|]. simpl; rewrite ?app_cons; simpl. by rewrite decide_True.
Qed.

Lemma strip_prefix_Some p s r : strip_prefix p s = Some r ↔ s = p +:+ r.
Proof.
  split; [|intros ->; apply strip_prefix_app].
  revert s. induction p as [|c p IH]; intros s; simpl.
  - intros [= ->]. done.
  - destruct s as [|d s]; [done|]. case_decide; [|done]. subst.
    intros Hs. apply IH in Hs as ->. done.
Qed.

Lemma str_all_no_byte (p : ascii → bool) c s :
  str_all p s = true → p c = false → contains_byte c s = false.
Proof.
  induction s as [|d s IH]; simpl; [done|].
  intros [Hd Hs]%andb_true_iff Hc. rewrite IH by done.
  rewrite orb_false_r. apply bool_decide_eq_false. congruence.
Qed.

#[export] Hint Rewrite app_assoc' app_nil_r' app_nil_l : inngest_str.

(** ** Package strconv *)

Definition digit (d : Z) : ascii := chr (48 + d).

(** Decimal digits of [n], most significant first, in front of [acc].  The fuel
    is the number of binary digits of [n], an upper bound on the decimal ones. *)
Fixpoint dec_go (fuel : nat) (n : Z) (acc : string) : string :=
  match fuel with
  | O => acc
  | S fuel =>
      let acc := String (digit (n mod 10)) acc in
      if n <? 10 then acc else dec_go fuel (n / 10) acc
  end.

Definition format_uint (n : Z) : string := dec_go (S (Z.to_nat (Z.log2 n))) n "".

(** [strconv.FormatInt n 10], also [fmt]'s [%d]. *)
Definition format_int (n : Z) : string :=
  if n <? 0 then "-" +:+ format_uint (- n) else format_uint n.

Fixpoint parse_digits (s : string) (acc : Z) : option Z :=
  match s with
  | "" => Some acc
  | String c s => if is_digit c then parse_digits s (acc * 10 + (ord c - 48)) else None
  end.

(** [strconv.Atoi]: an optional sign and decimal digits, within the range of a
    64-bit [int]. *)
Definition atoi (s : string) : option Z :=
  let '(neg, rest) :=
    match s with
    | String c r =>
        if decide (c = "-"%char) then (true, r)
        else if decide (c = "+"%char) then (false, r) else (false, s)
    | "" => (false, s)
    end in
  if str_empty rest then None
  else n ← parse_digits rest 0;
       let n := if (neg : bool) then - n else n in
       if decide (in_int64 n) then Some n else None.

(** The value [strconv.Atoi] returns beside its error: 0 for what is no numeral, the
    nearest [int] for one out of range; digits are read until they exceed 64 bits. *)
Fixpoint parse_uint64 (s : string) (acc : Z) : option Z :=
  match s with
  | "" => Some acc
  | String c s =>
      if is_digit c then
        let acc := acc * 10 + (ord c - 48) in
        if acc <? 2 ^ 64 then parse_uint64 s acc else Some (2 ^ 64 - 1)
      else None
  end.

Definition atoi_error_value (s : string) : Z :=
  let '(neg, rest) :=
    match s with
    | String c r => if decide (c = "-"%char) then (true, r)
                    else if decide (c = "+"%char) then (false, r) else (false, s)
    | "" => (false, s)
    end in
  match (if str_empty rest then None else parse_uint64 rest 0) with
  | None => 0
  | Some n => if (neg : bool) then Z.max (- n) min_int64 else Z.min n max_int64
  end.

(** ** Decimal numbers *)

Lemma digit_val d : 0 ≤ d < 10 → ord (digit d) = 48 + d.
Proof. intros. unfold digit. apply ord_chr. lia. Qed.

Lemma is_digit_digit d : 0 ≤ d < 10 → is_digit (digit d) = true.
Proof. intros. unfold is_digit, in_range. rewrite digit_val by lia. lia. Qed.

Lemma dec_go_digits fuel n acc :
  0 ≤ n → str_all is_digit acc = true → str_all is_digit (dec_go fuel n acc) = true.
Proof.
  revert n acc. induction fuel as [|fuel IH]; intros n acc Hn Hacc; simpl; [done|].
  assert (str_all is_digit (String (digit (n mod 10)) acc) = true) as Hacc'.
  { simpl. rewrite is_digit_digit, Hacc; [done|]. apply Z.mod_pos_bound. lia. }
  destruct (n <? 10); [done|]. apply IH; [|done]. apply Z.div_pos; lia.
Qed.

Lemma dec_go_nonempty fuel n acc : str_empty (dec_go (S fuel) n acc) = false.
Proof.
  assert (∀ acc', str_empty acc' = false → str_empty (dec_go fuel (n / 10) acc') = false).
  { revert n acc. induction fuel as [|fuel IH]; intros n acc acc' ?; simpl; [done|].
    destruct (_ <? _); [done|]. by apply IH. }
  simpl. destruct (_ <? _); auto.
Qed.

Lemma parse_dec_go fuel n acc :
  0 ≤ n < 2 ^ Z.of_nat fuel → (0 < fuel)%nat →
  ∃ k, 0 ≤ k ∧ ∀ a, parse_digits (dec_go fuel n acc) a = parse_digits acc (a * 10 ^ k + n).
Proof.
  revert n acc. induction fuel as [|fuel IH]; intros n acc Hn Hf; [lia|].
  pose proof (Z.mod_pos_bound n 10 ltac:(lia)).
  pose proof (Z.div_mod n 10 ltac:(lia)). simpl.
  destruct (Z.ltb_spec n 10).
  - exists 1. split; [lia|]. intros a. simpl.
    rewrite is_digit_digit, digit_val by lia. f_equal.
    rewrite Z.mod_small by lia. lia.
  - rewrite Nat2Z.inj_succ, Z.pow_succ_r in Hn by lia.
    destruct (IH (n / 10) (String (digit (n mod 10)) acc)) as (k & ? & Hk).
    { split; [apply Z.div_pos; lia|]. apply Z.div_lt_upper_bound; lia. }
    { destruct fuel; [|lia]. simpl in Hn. lia. }
    exists (k + 1). split; [lia|]. intros a. rewrite Hk. simpl.
    rewrite is_digit_digit, digit_val by lia. f_equal.
    rewrite Z.pow_add_r by lia. change (10 ^ 1) with 10. lia.
Qed.

Lemma format_uint_digits n : 0 ≤ n → str_all is_digit (format_uint n) = true.
Proof. intros. by apply dec_go_digits. Qed.

Lemma format_uint_nonempty n : str_empty (format_uint n) = false.
Proof. apply dec_go_nonempty. Qed.

Lemma parse_format_uint n : 0 ≤ n → parse_digits (format_uint n) 0 = Some n.
Proof.
  intros Hn. unfold format_uint.
  assert (n < 2 ^ Z.of_nat (S (Z.to_nat (Z.log2 n)))).
  { rewrite Nat2Z.inj_succ, Z2Nat.id by apply Z.log2_nonneg.
    destruct (decide (n = 0)) as [->|]; [done|]. apply Z.log2_spec. lia. }
  destruct (parse_dec_go (S (Z.to_nat (Z.log2 n))) n "") as (k & ? & Hk); [lia|lia|].
  by rewrite Hk.
Qed.

(** A digit string does not start with a sign. *)
Lemma digits_head s :
  str_all is_digit s = true → str_empty s = false →
  ∃ c r, s = String c r ∧ c ≠ "-"%char ∧ c ≠ "+"%char.
Proof.
  destruct s as [|c r]; [done|]. simpl. intros [Hc _]%andb_true_iff _.
  exists c, r. split; [done|]. split; intros ->; discriminate Hc.
Qed.

Lemma atoi_format_int n : in_int64 n → atoi (format_int n) = Some n.
Proof.
  intros Hn. unfold format_int, atoi. destruct (Z.ltb_spec n 0).
  - simpl. rewrite app_nil_l, format_uint_nonempty, parse_format_uint by lia.
    simpl. rewrite Z.opp_involutive. by rewrite decide_True.
  - pose proof (format_uint_digits n ltac:(lia)) as Hd.
    pose proof (format_uint_nonempty n) as Hne.
    pose proof (parse_format_uint n ltac:(lia)) as Hp.
    destruct (digits_head _ Hd Hne) as (c & r & Hs & ? & ?).
    rewrite Hs in *. rewrite !decide_False by done. rewrite Hne, Hp. simpl.
    by rewrite decide_True.
Qed.

(** A decimal number holds none of the separators used by the SDK. *)
Lemma format_int_no_byte n c :
  is_digit c = false → c ≠ "-"%char → contains_byte c (format_int n) = false.
Proof.
  intros Hc Hm. unfold format_int. destruct (Z.ltb_spec n 0).
  - change ("-" +:+ format_uint (- n)) with (String "-" (format_uint (- n))). simpl.
    rewrite bool_decide_eq_false_2 by done.
    eapply str_all_no_byte; [apply format_uint_digits; lia|done].
  - eapply str_all_no_byte; [apply format_uint_digits; lia|done].
Qed.

Lemma format_int_nonempty n : format_int n ≠ "".
Proof.
  unfold format_int. destruct (_ <? _); [done|].
  intros H. pose proof (format_uint_nonempty n). by rewrite H in *.
Qed.

(** ** Package encoding/hex *)

Definition hex_digit (d : Z) : ascii := if d <? 10 then chr (48 + d) else chr (87 + d).

Fixpoint hex_encode (s : string) : string :=
  match s with
  | "" => ""
  | String c s => String (hex_digit (ord c / 16)) (String (hex_digit (ord c mod 16)) (hex_encode s))
  end.

(** Digits of either case are accepted. *)
Definition unhex (c : ascii) : option Z :=
  let n := ord c in
  if in_range 48 57 n then Some (n - 48)
  else if in_range 97 102 n then Some (n - 87)
  else if in_range 65 70 n then Some (n - 55)
  else None.

(** [hex.Decode]: [None] is its error (a byte that is no hex digit, or an odd
    length). *)
Fixpoint hex_decode (s : string) : option string :=
  match s with
  | "" => Some ""
  | String a (String b s) =>
      x ← unhex a; y ← unhex b; r ← hex_decode s; Some (String (chr (x * 16 + y)) r)
  | String _ "" => None
  end.

Lemma unhex_hex_digit d : 0 ≤ d < 16 → unhex (hex_digit d) = Some d.
Proof.
  intros Hd. unfold hex_digit, unhex, in_range. destruct (Z.ltb_spec d 10).
  - rewrite ord_chr by lia.
    replace (_ && _) with true by lia. f_equal. lia.
  - rewrite ord_chr by lia.
    replace ((48 <=? 87 + d) && (87 + d <=? 57)) with false by lia.
    replace ((97 <=? 87 + d) && (87 + d <=? 102)) with true by lia. f_equal. lia.
Qed.

Lemma nibbles c : 0 ≤ ord c / 16 < 16 ∧ 0 ≤ ord c mod 16 < 16.
Proof. pose proof (ord_range c). Z.to_euclidean_division_equations. lia. Qed.

Lemma hex_decode_encode s : hex_decode (hex_encode s) = Some s.
Proof.
  induction s as [|c s IH]; [done|]. simpl.
  destruct (nibbles c). rewrite !unhex_hex_digit by done.
  simpl. rewrite IH. simpl. do 2 f_equal.
  rewrite Z.mul_comm, <- Z.div_mod by lia. apply chr_ord.
Qed.

(** Lower-case hex digits are digits or one of [a]..[f]. *)
Definition is_hex_lower (c : ascii) : bool := is_digit c || in_range 97 102 (ord c).

Lemma hex_encode_all s : str_all is_hex_lower (hex_encode s) = true.
Proof.
  assert (∀ d, 0 ≤ d < 16 → is_hex_lower (hex_digit d) = true) as Hd.
  { intros d ?. unfold is_hex_lower, is_digit, in_range, hex_digit.
    destruct (Z.ltb_spec d 10); rewrite ord_chr by lia; [|rewrite orb_true_iff; right]; lia. }
  induction s as [|c s IH]; [done|]. simpl. destruct (nibbles c).
  by rewrite IH, !Hd.
Qed.

Lemma hex_encode_inj s t : hex_encode s = hex_encode t → s = t.
Proof. intros H. pose proof (hex_decode_encode s) as E. rewrite H, hex_decode_encode in E. congruence. Qed.

Lemma hex_encode_length s : String.length (hex_encode s) = (2 * String.length s)%nat.
Proof. induction s as [|c s IH]; simpl; [done|]. rewrite IH. lia. Qed.
