(* ===== verification/GoUrl.v ===== *)
(** * URL queries (package net/url)

    Query escaping, [url.ParseQuery] and the [url.Values] operations the SDK
    uses, with the round trip between [Values.Encode] and [ParseQuery]. *)

From S2P Require Import Prelude GoBytes.

Open Scope Z_scope.

(** ** Escaping *)

Definition query_safe (c : ascii) : bool :=
  is_digit c || is_lower c || is_upper c ||
  bool_decide (c ∈ ["-"; "_"; "."; "~"]%char).

Definition hex_upper (d : Z) : ascii := if d <? 10 then chr (48 + d) else chr (55 + d).

(** [url.QueryEscape] *)
Fixpoint query_escape (s : string) : string :=
  match s with
  | "" => ""
  | String c s =>
      if query_safe c then String c (query_escape s)
      else if decide (c = " "%char) then String "+" (query_escape s)
      else String "%" (String (hex_upper (ord c / 16))
             (String (hex_upper (ord c mod 16)) (query_escape s)))
  end.

(** [url.QueryUnescape]; [None] is its error, a [%] not followed by two
    hexadecimal digits. *)
Fixpoint query_unescape (s : string) : option string :=
  match s with
  | "" => Some ""
  | String c s' =>
      if decide (c = "%"%char) then
        match s' with
        | String a (String b r) =>
            x ← unhex a; y ← unhex b; t ← query_unescape r;
            Some (String (chr (x * 16 + y)) t)
        | _ => None
        end
      else t ← query_unescape s';
           Some (String (if decide (c = "+"%char) then " "%char else c) t)
  end.

(** ** Values *)

Abbreviation values := (gmap string (list string)).

(** [Values.Get]: the first value of the key, or the empty string. *)
Definition values_get (k : string) (m : values) : string :=
  match m !! k with Some (v :: _) => v | _ => "" end.

Definition values_set (k v : string) (m : values) : values := <[k := [v]]> m.
Definition values_del (k : string) (m : values) : values := delete k m.
Definition values_append (k v : string) (m : values) : values :=
  <[k := default [] (m !! k) ++ [v]]> m.

Fixpoint split_on (sep : ascii) (s : string) : list string :=
  match s with
  | "" => [""]
  | String c s =>
      if decide (c = sep) then "" :: split_on sep s
      else match split_on sep s with
           | seg :: segs => String c seg :: segs
           | [] => [String c ""]
           end
  end.

(** One iteration of the loop of [url.ParseQuery]; the boolean is [false] once
    an error has been met.  A malformed segment is skipped. *)
Definition parse_seg (acc : values * bool) (seg : string) : values * bool :=
  let '(m, ok) := acc in
  if contains_byte ";" seg then (m, false)
  else if str_empty seg then (m, ok)
  else
    let '(key, value, _) := cut "=" seg in
    match query_unescape key, query_unescape value with
    | Some key, Some value => (values_append key value m, ok)
    | _, _ => (m, false)
    end.

(** [url.ParseQuery]: the values parsed and whether there was no error. *)
Definition parse_query (q : string) : values * bool :=
  foldl parse_seg (∅, true) (split_on "&" q).

(** [URL.Query] ignores the error of [ParseQuery]. *)
Definition url_query (raw : string) : values := (parse_query raw).1.

Definition values_keys (m : values) : list string :=
  merge_sort String.le ((map_to_list m).*1).

Definition values_pairs (m : values) : list (string * string) :=
  k ← values_keys m; v ← default [] (m !! k); [(k, v)].

Definition encode_pair (kv : string * string) : string :=
  query_escape kv.1 +:+ String "=" (query_escape kv.2).

(** [Values.Encode]: sorted by key. *)
Definition values_encode (m : values) : string :=
  str_join "&" (encode_pair <$> values_pairs m).

(** ** Round trips *)

Lemma unhex_hex_upper d : 0 ≤ d < 16 → unhex (hex_upper d) = Some d.
Proof.
  intros Hd. unfold hex_upper, unhex, in_range. destruct (Z.ltb_spec d 10).
  - rewrite ord_chr by lia.
    replace (_ && _) with true by lia. f_equal. lia.
  - rewrite ord_chr by lia.
    replace ((48 <=? 55 + d) && (55 + d <=? 57)) with false by lia.
    replace ((97 <=? 55 + d) && (55 + d <=? 102)) with false by lia.
    replace ((65 <=? 55 + d) && (55 + d <=? 70)) with true by lia. f_equal. lia.
Qed.

Lemma query_unescape_escape s : query_unescape (query_escape s) = Some s.
Proof.
  induction s as [|c s IH]; [done|]. simpl. destruct (query_safe c) eqn:Hc.
  - simpl. rewrite !decide_False by (by intros ->). by rewrite IH.
  - destruct (decide (c = " "%char)) as [->|].
    + simpl. by rewrite IH.
    + simpl. destruct (nibbles c). rewrite !unhex_hex_upper by done. simpl.
      rewrite IH. simpl. rewrite Z.mul_comm, <- Z.div_mod by lia. by rewrite chr_ord.
Qed.

(** The escaped text holds no separator of the query syntax. *)
Lemma query_escape_no_sep s c :
  c ∈ ["&"; "="; ";"]%char → contains_byte c (query_escape s) = false.
Proof.
  assert (∀ d, 0 ≤ d < 16 → is_digit (hex_upper d) || is_upper (hex_upper d) = true) as Hd.
  { intros d ?. unfold is_digit, is_upper, in_range, hex_upper.
    destruct (Z.ltb_spec d 10); rewrite ord_chr by lia; lia. }
  intros Hc. assert (query_safe c = false ∧ is_digit c || is_upper c = false ∧
    c ≠ "+"%char ∧ c ≠ "%"%char) as (? & Hcd & ? & ?).
  { set_unfold in Hc. destruct Hc as [->|[->|[->|[]]]]; done. }
  assert (∀ d, 0 ≤ d < 16 → c ≠ hex_upper d) as Hn.
  { intros d ?%Hd ->. congruence. }
  induction s as [|b s IH]; [done|]. simpl. destruct (nibbles b).
  destruct (query_safe b) eqn:Hb; [|destruct (decide _)]; simpl; rewrite IH, ?orb_false_r.
  - apply bool_decide_eq_false. congruence.
  - by apply bool_decide_eq_false.
  - by rewrite !bool_decide_eq_false_2 by auto.
Qed.

Lemma split_on_app sep s t :
  contains_byte sep s = false → split_on sep (s +:+ String sep t) = s :: split_on sep t.
Proof.
  induction s as [|c s IH]; simpl.
  - intros _. by rewrite decide_True.
  - intros [Hc Hs]%orb_false_iff. apply bool_decide_eq_false in Hc.
    rewrite decide_False by congruence. by rewrite IH.
Qed.

Lemma split_on_none sep s : contains_byte sep s = false → split_on sep s = [s].
Proof.
  induction s as [|c s IH]; simpl; [done|].
  intros [Hc Hs]%orb_false_iff. apply bool_decide_eq_false in Hc.
  rewrite decide_False by congruence. by rewrite IH.
Qed.

Lemma split_on_join sep l :
  l ≠ [] → Forall (λ s, contains_byte sep s = false) l →
  split_on sep (str_join (String sep "") l) = l.
Proof.
  intros Hne Hl. induction Hl as [|s l Hs Hl IH]; [done|].
  destruct l as [|s' l]; [by apply split_on_none|].
  change (str_join (String sep "") (s :: s' :: l))
    with (s +:+ String sep (str_join (String sep "") (s' :: l))).
  by rewrite split_on_app, IH.
Qed.

Lemma encode_pair_no_byte kv c :
  c ∈ ["&"; ";"]%char → contains_byte c (encode_pair kv) = false.
Proof.
  intros Hc. unfold encode_pair. rewrite contains_byte_app. simpl.
  rewrite !query_escape_no_sep by set_solver.
  set_unfold in Hc. by destruct Hc as [->|[->|[]]].
Qed.

Lemma parse_seg_pair m ok k v :
  parse_seg (m, ok) (encode_pair (k, v)) = (values_append k v m, ok).
Proof.
  unfold parse_seg. rewrite encode_pair_no_byte by set_solver.
  assert (str_empty (encode_pair (k, v)) = false) as ->.
  { unfold encode_pair. by destruct (query_escape _). }
  unfold encode_pair. simpl. rewrite cut_app by (apply query_escape_no_sep; set_solver).
  by rewrite !query_unescape_escape.
Qed.

Lemma parse_encoded_pairs l m ok :
  foldl parse_seg (m, ok) (encode_pair <$> l) =
  (foldl (λ m kv, values_append kv.1 kv.2 m) m l, ok).
Proof.
  revert m. induction l as [|[k v] l IH]; intros m; [done|].
  rewrite fmap_cons. cbn [foldl]. by rewrite parse_seg_pair, IH.
Qed.

(** The values a key has in a list of pairs. *)
Definition pair_values (k : string) (l : list (string * string)) : list string :=
  snd <$> filter (λ kv, kv.1 = k) l.

Lemma append_pairs_lookup l m k :
  foldl (λ m kv, values_append kv.1 kv.2 m) m l !! k =
  match pair_values k l with
  | [] => m !! k
  | vs => Some (default [] (m !! k) ++ vs)
  end.
Proof.
  revert m. induction l as [|[k' v] l IH]; intros m; [done|].
  cbn [foldl]. rewrite IH. unfold pair_values. rewrite filter_cons. cbn [fst snd].
  unfold values_append. case_decide as Hk; [subst k'|].
  - rewrite lookup_insert_eq, fmap_cons. destruct (snd <$> _) as [|w ws]; simpl; [done|].
    by rewrite <- app_assoc.
  - by rewrite lookup_insert_ne by done.
Qed.

Lemma values_keys_spec (m : values) k : k ∈ values_keys m ↔ is_Some (m !! k).
Proof.
  unfold values_keys. rewrite merge_sort_Permutation, list_elem_of_fmap.
  split.
  - intros ([k' v] & -> & Hk%elem_of_map_to_list). by eexists.
  - intros [v Hv]. exists (k, v). split; [done|]. by apply elem_of_map_to_list.
Qed.

Lemma values_keys_NoDup m : NoDup (values_keys m).
Proof.
  unfold values_keys. rewrite merge_sort_Permutation. apply NoDup_fst_map_to_list.
Qed.

Lemma pair_values_keys (m : values) k l :
  NoDup l →
  pair_values k (k' ← l; v ← default [] (m !! k'); [(k', v)]) =
  if decide (k ∈ l) then default [] (m !! k) else [].
Proof.
  assert (∀ k' vs, pair_values k (v ← vs; [(k', v)]) = if decide (k' = k) then vs else []) as Hone.
  { intros k' vs. unfold pair_values. induction vs as [|v vs IH]; [by case_decide|].
    rewrite bind_cons, filter_app, fmap_app, IH. simpl.
    rewrite filter_cons, filter_nil. simpl. by case_decide. }
  intros Hl. induction Hl as [|k' l Hk' Hl IH]; [by rewrite decide_False by set_solver|].
  unfold pair_values in *. rewrite bind_cons, filter_app, fmap_app, IH.
  specialize (Hone k' (default [] (m !! k'))). rewrite Hone. clear Hone IH.
  destruct (decide (k' = k)) as [->|].
  - rewrite decide_False, app_nil_r by done. by rewrite decide_True by set_solver.
  - simpl. destruct (decide (k ∈ l)).
    + by rewrite decide_True by set_solver.
    + by rewrite decide_False by set_solver.
Qed.

(** [url.ParseQuery] inverts [Values.Encode]. *)
Lemma parse_query_encode (m : values) :
  map_Forall (λ _ vs, vs ≠ []) m → parse_query (values_encode m) = (m, true).
Proof.
  intros Hm. unfold parse_query, values_encode.
  assert (foldl parse_seg (∅, true)
    (split_on "&" (str_join "&" (encode_pair <$> values_pairs m))) =
    foldl parse_seg (∅, true) (encode_pair <$> values_pairs m)) as ->.
  { destruct (values_pairs m) as [|kv l] eqn:E; [done|].
    rewrite split_on_join; [done|done|]. apply Forall_fmap, Forall_true.
    intros ?. simpl. apply encode_pair_no_byte. set_solver. }
  rewrite parse_encoded_pairs. f_equal. apply map_eq. intros k.
  rewrite append_pairs_lookup. unfold values_pairs.
  rewrite pair_values_keys by apply values_keys_NoDup. rewrite lookup_empty. simpl.
  case_decide as Hk; rewrite values_keys_spec in Hk.
  - destruct Hk as [vs Hvs]. rewrite Hvs. simpl. specialize (Hm _ _ Hvs).
    destruct vs; done.
  - by destruct (m !! k); [destruct Hk; eauto|].
Qed.

Lemma values_get_set k v m : values_get k (values_set k v m) = v.
Proof. unfold values_get, values_set. by rewrite lookup_insert_eq. Qed.

Lemma values_get_set_ne k k' v m : k ≠ k' → values_get k (values_set k' v m) = values_get k m.
Proof. intros. unfold values_get, values_set. by rewrite lookup_insert_ne. Qed.

(** Parsing never yields a key without values. *)
Lemma parse_query_nonempty q : map_Forall (λ _ vs, vs ≠ []) (url_query q).
Proof.
  unfold url_query, parse_query.
  assert (map_Forall (λ (_ : string) (vs : list string), vs ≠ []) (∅ : values)) as Hm
    by apply map_Forall_empty.
  revert Hm. generalize (split_on "&" q). intros l.
  generalize (∅ : values) true. induction l as [|seg l IH]; intros m ok Hm; [exact Hm|].
  cbn [foldl]. destruct (parse_seg (m, ok) seg) as [m' ok'] eqn:E.
  apply IH. revert E. unfold parse_seg.
  destruct (contains_byte _ _); [by intros [= <- <-]|].
  destruct (str_empty _); [by intros [= <- <-]|].
  destruct (cut _ _) as [[a b] ?]. destruct (query_unescape a), (query_unescape b);
    try by intros [= <- <-].
  intros [= <- <-]. apply map_Forall_insert_2; [|done]. by destruct (default _ _).
Qed.

Lemma values_get_append k v (m : values) : m !! k = None → values_get k (values_append k v m) = v.
Proof. intros Hm. unfold values_get, values_append. by rewrite lookup_insert_eq, Hm. Qed.

Lemma values_get_append_ne k k' v m :
  k ≠ k' → values_get k (values_append k' v m) = values_get k m.
Proof. intros. unfold values_get, values_append. by rewrite lookup_insert_ne. Qed.
