(* ===== verification/UrlText.v ===== *)
(** * URLs and their text (package net/url)

    The text of the URL of a web server is parsed back to the URL. *)

From S2P Require Import Prelude GoBytes GoUrl GoUrlParse.

Open Scope Z_scope.

(** ** Properties of all bytes *)

Definition all_bytes : list ascii := chr <$> seqZ 0 256.

(** A boolean property of bytes holds if it does of each of them. *)
Lemma bytes_forall (p : ascii → bool) : forallb p all_bytes = true → ∀ c, p c = true.
Proof.
  rewrite forallb_forall. intros Hp c. apply Hp. apply list_elem_of_In, list_elem_of_fmap.
  exists (ord c). split; [by rewrite chr_ord|]. apply elem_of_seqZ. pose proof (ord_range c). lia.
Qed.

Lemma bytes_impl (p q : ascii → bool) :
  forallb (λ c, negb (p c) || q c) all_bytes = true → ∀ c, p c = true → q c = true.
Proof. intros Hall c Hp. pose proof (bytes_forall _ Hall c) as Hc. simpl in Hc. by rewrite Hp in Hc. Qed.

Lemma str_all_weaken (p q : ascii → bool) s :
  (∀ c, p c = true → q c = true) → str_all p s = true → str_all q s = true.
Proof.
  intros Hpq. induction s as [|c s IH]; [done|]. simpl. rewrite !andb_true_iff.
  intros [Hc Hs]. split; [by apply Hpq|by apply IH].
Qed.

(** ** Escaping *)

Lemma url_unescape_escape m s : m ≠ EncHost → url_unescape m (url_escape m s) = Some s.
Proof.
  intros Hm. induction s as [|c s IH]; [done|]. simpl. destruct (should_escape m c) eqn:Hc.
  - cbn [url_unescape]. rewrite decide_True by done. destruct (nibbles c) as [H1 H2].
    rewrite !unhex_hex_upper by done. simpl.
    rewrite IH. destruct m; try done; simpl;
      rewrite Z.mul_comm, <- Z.div_mod by lia; by rewrite chr_ord.
  - cbn [url_unescape]. rewrite decide_False by (intros ->; by destruct m). rewrite IH.
    by destruct m.
Qed.

(** The bytes of an escaped path. *)
Definition path_byte (c : ascii) : bool := negb (should_escape EncPath c) || bool_decide (c = "%"%char).

Lemma hex_upper_path d : 0 ≤ d < 16 → path_byte (hex_upper d) = true.
Proof.
  intros Hd. assert (is_alnum (hex_upper d) = true) as Ha.
  { unfold is_alnum, is_digit, is_lower, is_upper, in_range, hex_upper.
    destruct (Z.ltb_spec d 10); rewrite ord_chr by lia; lia. }
  unfold path_byte, should_escape. by rewrite Ha.
Qed.

Lemma escape_path_bytes s : str_all path_byte (url_escape EncPath s) = true.
Proof.
  induction s as [|c s IH]; [done|]. simpl. destruct (should_escape EncPath c) eqn:Hc; simpl; rewrite IH.
  - destruct (nibbles c). by rewrite !hex_upper_path.
  - unfold path_byte. by rewrite Hc.
Qed.

(** The bytes that end no part of a URL's text and are no control characters. *)
Definition text_byte (c : ascii) : bool := negb (is_ctl c) && negb (bool_decide (c = "#"%char)).
Definition hier_byte (c : ascii) : bool := text_byte c && negb (bool_decide (c = "?"%char)).

Lemma path_byte_hier c : path_byte c = true → hier_byte c = true.
Proof. apply (bytes_impl path_byte hier_byte). vm_compute. reflexivity. Qed.

Lemma hier_byte_text c : hier_byte c = true → text_byte c = true.
Proof. by intros [? _]%andb_true_iff. Qed.

(** *** Queries *)

Definition query_byte (c : ascii) : bool := query_safe c || byte_in "%+&=" c.

Lemma query_byte_text c : query_byte c = true → text_byte c = true.
Proof. apply (bytes_impl query_byte text_byte). vm_compute. reflexivity. Qed.

Lemma query_escape_bytes s : str_all query_byte (query_escape s) = true.
Proof.
  assert (∀ d, 0 ≤ d < 16 → query_byte (hex_upper d) = true) as Hd.
  { intros d ?. unfold query_byte, query_safe, is_digit, is_lower, is_upper, in_range, hex_upper.
    destruct (Z.ltb_spec d 10); rewrite ord_chr by lia; [|]; rewrite !orb_true_iff; lia. }
  induction s as [|c s IH]; [done|]. simpl. destruct (query_safe c) eqn:Hc.
  - simpl. rewrite IH. unfold query_byte. by rewrite Hc.
  - destruct (decide _); simpl; rewrite IH; [done|]. destruct (nibbles c). by rewrite !Hd.
Qed.

Lemma str_all_join (p : ascii → bool) sep l :
  str_all p sep = true → Forall (λ s, str_all p s = true) l → str_all p (str_join sep l) = true.
Proof.
  intros Hsep. induction 1 as [|s l Hs Hl IH]; [done|]. simpl.
  destruct l as [|t l]; [done|]. by rewrite !str_all_app, Hs, Hsep, IH.
Qed.

Lemma values_encode_bytes m : str_all query_byte (values_encode m) = true.
Proof.
  apply str_all_join; [done|]. apply Forall_forall. intros s (kv & -> & _)%list_elem_of_fmap.
  unfold encode_pair. rewrite str_all_app. simpl. by rewrite !query_escape_bytes.
Qed.

(** ** Parts of a URL's text *)

Lemma escape_id m s : str_all (λ c, negb (should_escape m c)) s = true → url_escape m s = s.
Proof.
  induction s as [|c s IH]; [done|]. simpl. intros [Hc Hs]%andb_true_iff.
  apply negb_true_iff in Hc. by rewrite Hc, IH.
Qed.

Definition scheme_byte (c : ascii) : bool := is_lower c || is_digit c || byte_in "+-." c.

Lemma scheme_go_scheme s first acc rest whole :
  str_all scheme_byte s = true →
  match s with "" => first = false | String c _ => first = true → is_lower c = true end →
  scheme_go first (s +:+ String ":" rest) acc whole = Some (acc +:+ s, rest).
Proof.
  revert first acc. induction s as [|c s IH]; intros first acc Hs Hfirst.
  { subst first. rewrite app_nil_r'. done. }
  cbn [str_all] in Hs. apply andb_true_iff in Hs as [Hc Hs]. rewrite app_cons. cbn [scheme_go].
  destruct (is_lower c) eqn:Hl; cbn [orb].
  - rewrite (IH false) by (done || by destruct s). by rewrite app_assoc'.
  - destruct first; [by specialize (Hfirst eq_refl)|].
    unfold scheme_byte in Hc. rewrite Hl in Hc. cbn [orb] in Hc. rewrite Hc.
    destruct (is_upper c); rewrite (IH false) by (done || by destruct s); by rewrite app_assoc'.
Qed.

Lemma scheme_lower s : str_all scheme_byte s = true → to_lower s = s.
Proof.
  assert (∀ c, scheme_byte c = true → bool_decide (to_lower_byte c = c) = true) as Hb.
  { apply (bytes_impl scheme_byte (λ c, bool_decide (to_lower_byte c = c))). vm_compute. reflexivity. }
  induction s as [|c s IH]; [done|]. cbn [str_all]. intros [Hc Hs]%andb_true_iff.
  unfold to_lower in *. cbn [str_map]. rewrite IH by done. by rewrite (bool_decide_eq_true_1 _ (Hb c Hc)).
Qed.

(** Host bytes: no separator, and none that is escaped. *)
Definition host_byte (c : ascii) : bool := is_alnum c || byte_in "-._~:[]" c.

Lemma host_byte_facts c : host_byte c = true →
  hier_byte c && negb (should_escape EncHost c) && negb (byte_in "/@" c) = true.
Proof. revert c. apply bytes_impl. vm_compute. reflexivity. Qed.

(** A byte that is not among those of a text. *)
Lemma all_not_contains (p : ascii → bool) c s :
  p c = false → str_all p s = true → contains_byte c s = false.
Proof. intros Hp Hs. by apply (str_all_no_byte p). Qed.

Lemma last_index_none c s : contains_byte c s = false → last_index c s = None.
Proof.
  unfold last_index. generalize 0%nat. induction s as [|d s IH]; intros n; [done|]. simpl.
  intros [Hd Hs]%orb_false_iff. apply bool_decide_eq_false in Hd.
  rewrite decide_False by congruence. by apply IH.
Qed.

(** ** URLs of web servers *)

(** An absolute URL with a host: no user, no fragment, and a path in its default
    encoding that is empty or begins with a slash. *)
Record web_url (u : url) : Prop := {
  web_scheme : ∃ c s, u_Scheme u = String c s ∧ is_lower c = true ∧
               str_all scheme_byte (u_Scheme u) = true;
  web_host : u_Host u ≠ "" ∧ str_all host_byte (u_Host u) = true ∧
             parse_host (u_Host u) = Some (u_Host u);
  web_path : u_Path u = "" ∨ ∃ p, u_Path u = String "/" p;
  web_query : str_all text_byte (u_RawQuery u) = true;
  web_plain : u_Opaque u = "" ∧ u_User u = None ∧ u_RawPath u = "" ∧ u_OmitHost u = false ∧
              u_ForceQuery u = false ∧ u_Fragment u = "" ∧ u_RawFragment u = "" }.

Definition query_text (u : url) : string :=
  if str_empty (u_RawQuery u) then "" else String "?" (u_RawQuery u).

(** The escaped path is empty or begins with a slash. *)
Lemma web_escaped_path u :
  web_url u → url_escape EncPath (u_Path u) = "" ∨
  ∃ p, url_escape EncPath (u_Path u) = String "/" p ∧ str_all path_byte p = true.
Proof.
  intros Hu. destruct (web_path u Hu) as [->|[p ->]]; [by left|right].
  exists (url_escape EncPath p). split; [done|apply escape_path_bytes].
Qed.

Lemma web_url_string u :
  web_url u → url_string u =
    u_Scheme u +:+ String ":" (String "/" (String "/" (u_Host u +:+ url_escape EncPath (u_Path u) +:+
      query_text u))).
Proof.
  intros Hu. pose proof (web_escaped_path u Hu) as Hesc.
  destruct Hu as [(c & s & Hscheme & _) (Hne & Hhost & _) Hpath _ (Ho & Hus & Hr & Hom & Hf & Hfr & _)].
  assert (escaped_path u = url_escape EncPath (u_Path u)) as Hp.
  { unfold escaped_path. rewrite Hr. cbn [str_empty]. rewrite bool_decide_eq_false_2; [done|].
    destruct Hpath as [->|[p ->]]; done. }
  assert (url_escape EncHost (u_Host u) = u_Host u) as Hh.
  { apply escape_id. eapply str_all_weaken; [|exact Hhost]. intros d Hd%host_byte_facts.
    by apply andb_true_iff in Hd as [[_ Hd]%andb_true_iff _]. }
  unfold url_string. rewrite Hp, Hh, Ho, Hus, Hom, Hf, Hfr, Hscheme.
  assert (str_empty (u_Host u) = false) as -> by by destruct (u_Host u).
  unfold query_text. cbn [str_empty negb orb andb].
  destruct Hesc as [->|(p & -> & _)]; cbn [str_empty negb orb andb has_prefix strip_prefix];
    rewrite ?decide_True by done; rewrite ?app_nil_r', ?app_nil_l;
    destruct (str_empty (u_RawQuery u)); cbn [negb]; rewrite ?app_nil_r'; simpl; by rewrite ?app_assoc'.
Qed.

(** The text before the query, after the scheme. *)
Definition hier_text (u : url) : string :=
  String "/" (String "/" (u_Host u +:+ url_escape EncPath (u_Path u))).

Lemma hier_text_bytes u : web_url u → str_all hier_byte (hier_text u) = true.
Proof.
  intros Hu. destruct (web_host u Hu) as (_ & Hhost & _). unfold hier_text. cbn [str_all].
  rewrite str_all_app. rewrite !andb_true_iff. split_and!; try done.
  - eapply str_all_weaken; [|exact Hhost]. intros c Hc%host_byte_facts.
    by apply andb_true_iff in Hc as [[Hc _]%andb_true_iff _].
  - eapply str_all_weaken; [exact path_byte_hier|apply escape_path_bytes].
Qed.

Lemma scheme_bytes_text s : str_all scheme_byte s = true → str_all text_byte s = true.
Proof. apply str_all_weaken, bytes_impl. vm_compute. reflexivity. Qed.

Lemma query_text_bytes u : web_url u → str_all text_byte (query_text u) = true.
Proof.
  intros Hu. unfold query_text. destruct (str_empty _); [done|]. cbn [str_all].
  by rewrite (web_query u Hu).
Qed.

(** The query is cut off, and an empty one is not forced. *)
Lemma cut_query u : web_url u →
  ∃ found, cut "?" (hier_text u +:+ query_text u) = (hier_text u, u_RawQuery u, found) ∧
    found && str_empty (u_RawQuery u) = false.
Proof.
  intros Hu. assert (contains_byte "?" (hier_text u) = false) as Hno.
  { apply (all_not_contains hier_byte); [done|by apply hier_text_bytes]. }
  unfold query_text. destruct (u_RawQuery u) as [|c q]; cbn [str_empty].
  - rewrite app_nil_r'. exists false. by rewrite cut_none.
  - exists true. by rewrite (cut_app "?" (hier_text u)).
Qed.

(** The authority and the path. *)
Lemma cut_authority u : web_url u →
  ∃ path slash, cut "/" (u_Host u +:+ url_escape EncPath (u_Path u)) = (u_Host u, path, slash) ∧
    set_path (if slash then "/" +:+ path else "") = Some (u_Path u, u_RawPath u).
Proof.
  intros Hu. destruct (web_host u Hu) as (_ & Hhost & _).
  destruct (web_plain u Hu) as (_ & _ & Hr & _).
  assert (contains_byte "/" (u_Host u) = false) as Hno by by apply (all_not_contains host_byte).
  assert (∀ p, u_Path u = p → set_path (url_escape EncPath p) = Some (p, "")) as Hset.
  { intros p _. unfold set_path. rewrite url_unescape_escape by done. simpl. by rewrite decide_True. }
  rewrite Hr. destruct (web_path u Hu) as [Hp|[p Hp]]; specialize (Hset _ Hp); rewrite Hp in *.
  - exists "", false. cbn [url_escape]. rewrite app_nil_r'. by rewrite cut_none.
  - exists (url_escape EncPath p), true. split; [|exact Hset].
    change (url_escape EncPath (String "/" p)) with (String "/" (url_escape EncPath p)).
    by rewrite (cut_app "/" (u_Host u)).
Qed.

Lemma parse_host_authority u : web_url u → parse_authority (u_Host u) = Some (None, u_Host u).
Proof.
  intros Hu. destruct (web_host u Hu) as (_ & Hhost & Hparse). unfold parse_authority.
  rewrite last_index_none by by apply (all_not_contains host_byte). by rewrite Hparse.
Qed.

(** The text of a web server's URL is parsed to the URL. *)
Lemma web_url_round_trip u : web_url u → url_parse (url_string u) = Some u.
Proof.
  intros Hu.
  assert (url_string u = u_Scheme u +:+ String ":" (hier_text u +:+ query_text u)) as ->.
  { rewrite web_url_string by done. unfold hier_text. by rewrite !app_cons, app_assoc'. }
  set (raw := u_Scheme u +:+ String ":" (hier_text u +:+ query_text u)).
  destruct (web_scheme u Hu) as (c & s & Hc & Hl & Hs).
  assert (str_all text_byte raw = true) as Htext.
  { unfold raw. rewrite str_all_app. cbn [str_all]. rewrite str_all_app, !andb_true_iff.
    split_and!; [by apply scheme_bytes_text|done| |by apply query_text_bytes].
    eapply str_all_weaken; [exact hier_byte_text|by apply hier_text_bytes]. }
  unfold url_parse. rewrite cut_none by by apply (all_not_contains text_byte). cbv beta iota.
  assert (parse_no_fragment raw = Some u) as ->; [|done].
  unfold parse_no_fragment.
  assert (str_all (λ c, negb (is_ctl c)) raw = true) as ->.
  { eapply str_all_weaken; [|exact Htext]. by intros d [? _]%andb_true_iff. }
  cbn [negb]. rewrite decide_False.
  2: { unfold raw. rewrite Hc. intros [= -> Heq]. by destruct s. }
  assert (get_scheme raw = Some (u_Scheme u, hier_text u +:+ query_text u)) as ->.
  { unfold get_scheme, raw. rewrite scheme_go_scheme; [by rewrite app_nil_l|done|by rewrite Hc]. }
  cbn [mbind option_bind]. cbv beta iota zeta. rewrite scheme_lower by done.
  destruct (cut_query u Hu) as (found & -> & Hforce). rewrite Hforce.
  assert (has_prefix "/" (hier_text u) = true) as -> by done.
  assert (has_prefix "//" (hier_text u) = true) as -> by done.
  assert (str_empty (u_Scheme u) = false) as -> by by rewrite Hc.
  cbn [negb andb orb]. unfold hier_text. cbn [str_drop].
  destruct (cut_authority u Hu) as (path & slash & -> & Hpath).
  rewrite parse_host_authority by done. cbn [mbind option_bind]. cbv beta iota.
  rewrite Hpath. cbn [mbind option_bind]. cbv beta iota.
  destruct (web_plain u Hu) as (Ho & Hus & Hr & Hom & Hf & Hfr & Hrf).
  destruct u; simpl in *. by subst.
Qed.
