(* ===== verification/GoHash.v ===== *)
(** * Hashes (packages crypto/sha1, crypto/sha256, crypto/hmac)

    The digests of the standard library on byte strings, executable: step
    identifiers are SHA-1 digests and signatures are HMAC-SHA-256 tags. *)

From S2P Require Import Prelude GoBytes.

Open Scope Z_scope.

(** ** 32-bit words *)

Definition w32 (n : Z) : Z := Z.land n 4294967295.
Definition add32 (a b : Z) : Z := w32 (a + b).
Definition rotl32 (k n : Z) : Z := Z.lor (w32 (Z.shiftl n k)) (Z.shiftr n (32 - k)).
Definition rotr32 (k n : Z) : Z := rotl32 (32 - k) n.
Definition not32 (n : Z) : Z := Z.lxor n 4294967295.

Fixpoint bytes_of_string (s : string) : list Z :=
  match s with "" => [] | String c s => ord c :: bytes_of_string s end.

Fixpoint string_of_bytes (l : list Z) : string :=
  match l with [] => "" | n :: l => String (chr n) (string_of_bytes l) end.

(** Big-endian bytes of a word of [n] bytes. *)
Fixpoint be_bytes (n : nat) (w : Z) : list Z :=
  match n with
  | O => []
  | S n => Z.land (Z.shiftr w (8 * Z.of_nat n)) 255 :: be_bytes n w
  end.

Definition be_word (b : list Z) : Z := foldl (λ acc x, acc * 256 + x) 0 b.

(** [chunks k n l] is the first [n] groups of [k] elements of [l]. *)
Fixpoint chunks {A} (k n : nat) (l : list A) : list (list A) :=
  match n with O => [] | S n => take k l :: chunks k n (drop k l) end.

(** The message followed by [0x80], zeros and its length in bits, a multiple of
    64 bytes in total. *)
Definition pad64 (msg : list Z) : list Z :=
  let len := Z.of_nat (length msg) in
  msg ++ 128 :: replicate (Z.to_nat ((55 - len) mod 64)) 0 ++ be_bytes 8 (8 * len).

Definition blocks (msg : list Z) : list (list Z) :=
  let p := pad64 msg in
  (λ b, be_word <$> chunks 4 16 b) <$> chunks 64 (length p / 64) p.

(** ** SHA-1 *)

Record sha1_state := Sha1 { s1a : Z; s1b : Z; s1c : Z; s1d : Z; s1e : Z }.

(** The message schedule is kept as the last 16 words, oldest first. *)
Definition sha1_next (w : list Z) : Z :=
  rotl32 1 (Z.lxor (Z.lxor (nth 13 w 0) (nth 8 w 0)) (Z.lxor (nth 2 w 0) (nth 0 w 0))).

Definition sha1_f (t b c d : Z) : Z * Z :=
  if t <? 20 then (Z.lor (Z.land b c) (Z.land (not32 b) d), 1518500249)
  else if t <? 40 then (Z.lxor (Z.lxor b c) d, 1859775393)
  else if t <? 60 then
    (Z.lor (Z.lor (Z.land b c) (Z.land b d)) (Z.land c d), 2400959708)
  else (Z.lxor (Z.lxor b c) d, 3395469782).

Fixpoint sha1_rounds (n : nat) (t : Z) (w : list Z) (s : sha1_state) : sha1_state :=
  match n with
  | O => s
  | S n =>
      let '(f, k) := sha1_f t (s1b s) (s1c s) (s1d s) in
      let tmp := w32 (rotl32 5 (s1a s) + f + s1e s + k + nth 0 w 0) in
      sha1_rounds n (t + 1) (tail w ++ [sha1_next w])
        (Sha1 tmp (s1a s) (rotl32 30 (s1b s)) (s1c s) (s1d s))
  end.

Definition sha1_block (s : sha1_state) (w : list Z) : sha1_state :=
  let r := sha1_rounds 80 0 w s in
  Sha1 (add32 (s1a s) (s1a r)) (add32 (s1b s) (s1b r)) (add32 (s1c s) (s1c r))
    (add32 (s1d s) (s1d r)) (add32 (s1e s) (s1e r)).

(** [sha1.Sum] *)
Definition sha1_sum (msg : string) : string :=
  let r := foldl sha1_block
    (Sha1 1732584193 4023233417 2562383102 271733878 3285377520)
    (blocks (bytes_of_string msg)) in
  string_of_bytes ([s1a r; s1b r; s1c r; s1d r; s1e r] ≫= be_bytes 4).

(** ** SHA-256 *)

Definition sha256_k : list Z :=
  [1116352408; 1899447441; 3049323471; 3921009573; 961987163; 1508970993; 2453635748;
   2870763221; 3624381080; 310598401; 607225278; 1426881987; 1925078388; 2162078206;
   2614888103; 3248222580; 3835390401; 4022224774; 264347078; 604807628; 770255983;
   1249150122; 1555081692; 1996064986; 2554220882; 2821834349; 2952996808; 3210313671;
   3336571891; 3584528711; 113926993; 338241895; 666307205; 773529912; 1294757372;
   1396182291; 1695183700; 1986661051; 2177026350; 2456956037; 2730485921; 2820302411;
   3259730800; 3345764771; 3516065817; 3600352804; 4094571909; 275423344; 430227734;
   506948616; 659060556; 883997877; 958139571; 1322822218; 1537002063; 1747873779;
   1955562222; 2024104815; 2227730452; 2361852424; 2428436474; 2756734187; 3204031479;
   3329325298].

Definition sha256_next (w : list Z) : Z :=
  let x := nth 1 w 0 in
  let y := nth 14 w 0 in
  let s0 := Z.lxor (Z.lxor (rotr32 7 x) (rotr32 18 x)) (Z.shiftr x 3) in
  let s1 := Z.lxor (Z.lxor (rotr32 17 y) (rotr32 19 y)) (Z.shiftr y 10) in
  w32 (nth 0 w 0 + s0 + nth 9 w 0 + s1).

Definition sha256_round (k w0 : Z) (s : list Z) : list Z :=
  match s with
  | [a; b; c; d; e; f; g; h] =>
      let S1 := Z.lxor (Z.lxor (rotr32 6 e) (rotr32 11 e)) (rotr32 25 e) in
      let ch := Z.lxor (Z.land e f) (Z.land (not32 e) g) in
      let t1 := w32 (h + S1 + ch + k + w0) in
      let S0 := Z.lxor (Z.lxor (rotr32 2 a) (rotr32 13 a)) (rotr32 22 a) in
      let maj := Z.lxor (Z.lxor (Z.land a b) (Z.land a c)) (Z.land b c) in
      [add32 t1 (w32 (S0 + maj)); a; b; c; add32 d t1; e; f; g]
  | _ => s
  end.

Fixpoint sha256_rounds (ks : list Z) (w s : list Z) : list Z :=
  match ks with
  | [] => s
  | k :: ks => sha256_rounds ks (tail w ++ [sha256_next w]) (sha256_round k (nth 0 w 0) s)
  end.

Definition sha256_block (s w : list Z) : list Z :=
  zip_with add32 s (sha256_rounds sha256_k w s).

(** [sha256.Sum256] *)
Definition sha256_sum (msg : string) : string :=
  string_of_bytes (foldl sha256_block
    [1779033703; 3144134277; 1013904242; 2773480762; 1359893119; 2600822924; 528734635;
     1541459225] (blocks (bytes_of_string msg)) ≫= be_bytes 4).

(** ** HMAC with SHA-256 *)

Definition hmac_pad (c : Z) (key : string) : string :=
  let k := bytes_of_string (if decide (64 < String.length key)%nat
                            then sha256_sum key else key) in
  string_of_bytes ((λ b, Z.lxor b c) <$> (k ++ replicate (64 - length k)%nat 0)).

(** [hmac.New(sha256.New, key)], [Write] of [msg] and [Sum(nil)]. *)
Definition hmac_sha256 (key msg : string) : string :=
  sha256_sum (hmac_pad 92 key +:+ sha256_sum (hmac_pad 54 key +:+ msg)).

(** ** Published test vectors (FIPS 180-4, RFC 4231) *)

Example sha1_abc :
  hex_encode (sha1_sum "abc") = "a9993e364706816aba3e25717850c26c9cd0d89d".
Proof. vm_compute. reflexivity. Qed.

Example sha256_abc :
  hex_encode (sha256_sum "abc") =
  "ba7816bf8f01cfea414140de5dae2223b00361a396177a9cb410ff61f20015ad".
Proof. vm_compute. reflexivity. Qed.

Example hmac_rfc4231_2 :
  hex_encode (hmac_sha256 "Jefe" "what do ya want for nothing?") =
  "5bdcc146bf60754e6a042426089575c75a003f089d2739839dec58b964ec3843".
Proof. vm_compute. reflexivity. Qed.

(** ** Shape of the digests *)

Lemma be_bytes_length n w : length (be_bytes n w) = n.
Proof. induction n; simpl; congruence. Qed.

Lemma string_of_bytes_length l : String.length (string_of_bytes l) = length l.
Proof. induction l; simpl; congruence. Qed.

Lemma be_words_length l : length (l ≫= be_bytes 4) = (4 * length l)%nat.
Proof.
  induction l as [|w l IH]; [done|]. rewrite bind_cons, length_app, be_bytes_length, IH.
  simpl. lia.
Qed.

Lemma sha1_sum_length s : String.length (sha1_sum s) = 20%nat.
Proof. unfold sha1_sum. by rewrite string_of_bytes_length, be_words_length. Qed.

Lemma sha256_rounds_length ks w s :
  length s = 8%nat → length (sha256_rounds ks w s) = 8%nat.
Proof.
  revert w s. induction ks as [|k ks IH]; intros w s Hs; [done|]. apply IH.
  unfold sha256_round. repeat (destruct s as [|? s]; try done).
Qed.

Lemma sha256_blocks_length l s : length s = 8%nat → length (foldl sha256_block s l) = 8%nat.
Proof.
  revert s. induction l as [|w l IH]; intros s Hs; [done|]. apply IH.
  unfold sha256_block. by rewrite length_zip_with, sha256_rounds_length, Hs.
Qed.

Lemma sha256_sum_length s : String.length (sha256_sum s) = 32%nat.
Proof.
  unfold sha256_sum. by rewrite string_of_bytes_length, be_words_length, sha256_blocks_length.
Qed.
