(* ===== verification/GoTime.v ===== *)
(** * Instants and durations (package time)

    A [time.Time] is the pair Go keeps: seconds since year 1 as an int64 and
    nanoseconds.  Durations are int64 nanoseconds. *)

From S2P Require Import Prelude GoBytes.

Open Scope Z_scope.

(** Seconds from January 1, year 1 to the Unix epoch. *)
Definition unix_to_internal : Z := 62135596800.
Definition second : Z := 1000000000.
Definition minute : Z := 60 * second.

Record time := Time { t_ext : Z; t_nsec : Z; t_offset : Z }.

(** A clock reading, at or after the Unix epoch. *)
Definition clock_ok (now : time) : Prop :=
  unix_to_internal ≤ t_ext now ≤ max_int64 ∧ 0 ≤ t_nsec now < second.

(** [time.Unix sec 0]: the addition wraps in int64. *)
Definition time_unix (sec : Z) : time := Time (wrap64 (sec + unix_to_internal)) 0 0.

(** [Time.Unix] *)
Definition to_unix (t : time) : Z := wrap64 (t_ext t - unix_to_internal).

(** [Time.Add], without monotonic readings. *)
Definition time_add (t : time) (d : Z) : time :=
  let nsec := t_nsec t + d in
  Time (wrap64 (t_ext t + nsec / second)) (nsec mod second) (t_offset t).

Definition is_zero (t : time) : bool := (t_ext t =? 0) && (t_nsec t =? 0).

(** [Time.Sub]: the difference in nanoseconds, saturated to a [Duration]. *)
Definition time_sub (t u : time) : Z :=
  let d := (t_ext t - t_ext u) * second + (t_nsec t - t_nsec u) in
  if d <? min_int64 then min_int64 else if max_int64 <? d then max_int64 else d.

Lemma to_unix_time_unix sec : in_int64 sec → to_unix (time_unix sec) = sec.
Proof.
  intros Hs. unfold to_unix, time_unix. simpl.
  replace (wrap64 (sec + unix_to_internal) - unix_to_internal)
    with (wrap64 (sec + unix_to_internal) + - unix_to_internal) by lia.
  rewrite wrap64_add_wrap.
  replace (sec + unix_to_internal + - unix_to_internal) with sec by lia.
  by apply wrap64_small.
Qed.

Lemma to_unix_int64 t : in_int64 (to_unix t).
Proof. apply wrap64_range. Qed.

(** ** Formatting *)

(** [n] in decimal, padded with zeros to [w] digits. *)
Definition pad_int (w : nat) (n : Z) : string :=
  let s := format_int n in str_repeat (w - String.length s) "0" +:+ s.

(** Year, month and day of a day count from the Unix epoch (proleptic Gregorian). *)
Definition civil (days : Z) : Z * Z * Z :=
  let z := days + 719468 in
  let era := z / 146097 in
  let doe := z mod 146097 in
  let yoe := (doe - doe / 1460 + doe / 36524 - doe / 146096) / 365 in
  let doy := doe - (365 * yoe + yoe / 4 - yoe / 100) in
  let mp := (5 * doy + 2) / 153 in
  let d := doy - (153 * mp + 2) / 5 + 1 in
  let m := if mp <? 10 then mp + 3 else mp - 9 in
  (yoe + era * 400 + (if m <=? 2 then 1 else 0), m, d).

(** The layout of RFC 3339, with the text [frac] after the seconds. *)
Definition format_frac (frac : string) (t : time) : string :=
  let local := t_ext t - unix_to_internal + t_offset t in
  let '(y, m, d) := civil (local / 86400) in
  let sod := local mod 86400 in
  let zone := Z.abs (t_offset t) / 60 in
  pad_int 4 y +:+ "-" +:+ pad_int 2 m +:+ "-" +:+ pad_int 2 d +:+ "T" +:+
  pad_int 2 (sod / 3600) +:+ ":" +:+ pad_int 2 (sod / 60 mod 60) +:+ ":" +:+
  pad_int 2 (sod mod 60) +:+ frac +:+
  (if t_offset t =? 0 then "Z"
   else (if t_offset t <? 0 then "-" else "+") +:+ pad_int 2 (zone / 60) +:+ ":" +:+
        pad_int 2 (zone mod 60)).

(** [Time.Format(time.RFC3339)] *)
Definition format_rfc3339 : time → string := format_frac "".

Example format_leap_day :
  format_rfc3339 (Time (1709164800 + unix_to_internal) 0 3600) = "2024-02-29T01:00:00+01:00".
Proof. vm_compute. reflexivity. Qed.

(** ** Durations (vendored str2duration) *)

(** One unit of a duration, left out when it is zero. *)
Definition unit_text (n : Z) (name : string) : string :=
  if n =? 0 then "" else format_uint n +:+ name.

(** [str2duration.String]: weeks, days, hours, minutes, seconds and fractions. *)
Definition str2duration_string (d : Z) : string :=
  if d =? 0 then "0s"
  else
    let u := Z.abs d in
    let us := u / 1000 in
    let ms := us / 1000 in
    let s := ms / 1000 in
    let m := s / 60 in
    let h := m / 60 in
    let days := h / 24 in
    (if d <? 0 then "-" else "") +:+
    unit_text (days / 7) "w" +:+ unit_text (days mod 7) "d" +:+ unit_text (h mod 24) "h" +:+
    unit_text (m mod 60) "m" +:+ unit_text (s mod 60) "s" +:+ unit_text (ms mod 1000) "ms" +:+
    unit_text (us mod 1000) "us" +:+ unit_text (u mod 1000) "ns".

Example str2duration_week : str2duration_string (604800 * second + 90 * second) = "1w1m30s".
Proof. vm_compute. reflexivity. Qed.

(** ** [Duration.String] *)

Fixpoint trim_zeros (s : string) : string :=
  match s with
  | "" => ""
  | String c s =>
      match trim_zeros s with
      | "" => if decide (c = "0"%char) then "" else String c ""
      | t => String c t
      end
  end.

(** [n] units of [10 ^ prec], with the fraction but no trailing zeros. *)
Definition frac_text (n : Z) (prec : nat) : string :=
  let base := 10 ^ Z.of_nat prec in
  let frac := trim_zeros (pad_int prec (n mod base)) in
  format_uint (n / base) +:+ (if str_empty frac then "" else "." +:+ frac).

Definition micro : string := String (chr 194) (String (chr 181) "s").

(** The text of a duration: below a second in the largest unit that fits, else in
    hours, minutes and seconds, without leading zero units. *)
Definition duration_string (d : Z) : string :=
  let u := Z.abs d in
  let text :=
    if u =? 0 then "0s"
    else if u <? 1000 then format_uint u +:+ "ns"
    else if u <? 1000000 then frac_text u 3 +:+ micro
    else if u <? second then frac_text u 6 +:+ "ms"
    else
      let m := u / minute in
      (if m =? 0 then ""
       else (if m / 60 =? 0 then "" else format_uint (m / 60) +:+ "h") +:+
            format_uint (m mod 60) +:+ "m") +:+
      frac_text (u mod minute) 9 +:+ "s" in
  (if d <? 0 then "-" else "") +:+ text.

Example duration_strings :
  duration_string <$> [0; 15; 1500; 2 * second; 90 * second; - (3600 * second); 1500000000;
                       5445 * second + 1000000] =
  ["0s"; "15ns"; "1.5" +:+ micro; "2s"; "1m30s"; "-1h0m0s"; "1.5s"; "1h30m45.001s"].
Proof. vm_compute. reflexivity. Qed.

(** ** [Time.MarshalJSON] *)

(** RFC 3339 with the nanoseconds; [None] is the error for years of other than four
    digits and zones of a day or more. *)
Definition marshal_time (t : time) : option string :=
  let year := (civil ((t_ext t - unix_to_internal + t_offset t) / 86400)).1.1 in
  if (0 <=? year) && (year <=? 9999) && (Z.abs (t_offset t) <? 86400) then
    let frac := trim_zeros (pad_int 9 (t_nsec t)) in
    Some (format_frac (if str_empty frac then "" else "." +:+ frac) t)
  else None.

Example marshal_time_nano :
  marshal_time (Time (1709164800 + unix_to_internal) 120000000 0) = Some "2024-02-29T00:00:00.12Z".
Proof. vm_compute. reflexivity. Qed.
