(* ===== verification/GoJson.v ===== *)
(** * JSON (package encoding/json)

    Syntax trees, the printer ([json.Marshal], [Encoder.Encode]), the parser
    ([json.Unmarshal]'s first pass) and the struct decoding rules: fields are
    matched exactly or case-insensitively, a [null] leaves a string, number or
    boolean field alone, a type mismatch is an error reported at the end. *)

From S2P Require Import Prelude GoBytes.

Open Scope Z_scope.

(** A [json.RawMessage] that the decoder has filled is well-formed JSON: it is
    its syntax tree here, and an empty [RawMessage] is [None] of [option json].
    Numbers keep their literal; objects keep the order and the duplicates of
    their members. *)
Inductive json :=
  | JNull
  | JBool (b : bool)
  | JNum (lit : string)
  | JStr (s : string)
  | JArr (l : list json)
  | JObj (kvs : list (string * json)).

Definition jint (n : Z) : json := JNum (format_int n).

(** ** UTF-8 *)

(** The length of the valid UTF-8 sequence a string starts with, 0 if there is none. *)
Definition utf8_len (s : string) : nat :=
  let cont lo hi c := in_range lo hi (ord c) in
  match s with
  | "" => O
  | String a r =>
      let n := ord a in
      if n <? 128 then 1%nat
      else match r with
      | "" => O
      | String b r =>
          if in_range 194 223 n then if cont 128 191 b then 2%nat else O
          else match r with
          | "" => O
          | String c r =>
              let lo := if n =? 224 then 160 else 128 in
              let hi := if n =? 237 then 159 else 191 in
              if in_range 224 239 n then if cont lo hi b && cont 128 191 c then 3%nat else O
              else match r with
              | "" => O
              | String d _ =>
                  let lo := if n =? 240 then 144 else 128 in
                  let hi := if n =? 244 then 143 else 191 in
                  if in_range 240 244 n
                  then if cont lo hi b && cont 128 191 c && cont 128 191 d then 4%nat else O
                  else O
              end
          end
      end
  end.

Fixpoint str_split_at (n : nat) (s : string) : string * string :=
  match n, s with
  | S n, String c s => let '(a, b) := str_split_at n s in (String c a, b)
  | _, _ => ("", s)
  end.

(** UTF-8 encoding of a code point. *)
Definition utf8_encode (r : Z) : string :=
  let c n := String (chr n) "" in
  if r <? 128 then c r
  else if r <? 2048 then c (192 + r / 64) +:+ c (128 + r mod 64)
  else if r <? 65536 then
    c (224 + r / 4096) +:+ c (128 + r / 64 mod 64) +:+ c (128 + r mod 64)
  else c (240 + r / 262144) +:+ c (128 + r / 4096 mod 64) +:+
       c (128 + r / 64 mod 64) +:+ c (128 + r mod 64).

Definition replacement_char : Z := 65533.

(** ** Printing *)

Definition quote_char : ascii := chr 34.
Definition backslash : ascii := chr 92.
Definition newline : string := String (chr 10) "".

Definition esc (s : string) : string := String backslash s.

(** One ASCII byte inside a JSON string, with the HTML escaping of
    [json.Marshal]. *)
Definition quote_byte (c : ascii) : string :=
  let n := ord c in
  if n =? 34 then esc (String quote_char "")
  else if n =? 92 then esc (String backslash "")
  else if n =? 8 then esc "b"
  else if n =? 12 then esc "f"
  else if n =? 10 then esc "n"
  else if n =? 13 then esc "r"
  else if n =? 9 then esc "t"
  else if (n <? 32) || (n =? 60) || (n =? 62) || (n =? 38) then
    esc ("u00" +:+ String (hex_digit (n / 16)) (String (hex_digit (n mod 16)) ""))
  else String c "".

Fixpoint quote_go (fuel : nat) (s : string) : string :=
  match fuel, s with
  | S fuel, String c r =>
      if ord c <? 128 then quote_byte c +:+ quote_go fuel r
      else match utf8_len s with
      | O => esc "ufffd" +:+ quote_go fuel r
      | n =>
          let '(seq, rest) := str_split_at n s in
          (if decide (seq = utf8_encode 8232) then esc "u2028"
           else if decide (seq = utf8_encode 8233) then esc "u2029" else seq)
          +:+ quote_go fuel rest
      end
  | _, _ => ""
  end.

Definition json_quote (s : string) : string :=
  String quote_char (quote_go (String.length s) s +:+ String quote_char "").

(** [json.Marshal] *)
Fixpoint json_print (j : json) : string :=
  match j with
  | JNull => "null"
  | JBool true => "true"
  | JBool false => "false"
  | JNum lit => lit
  | JStr s => json_quote s
  | JArr l => "[" +:+ str_join "," (json_print <$> l) +:+ "]"
  | JObj kvs =>
      "{" +:+ str_join "," ((λ kv, json_quote kv.1 +:+ ":" +:+ json_print kv.2) <$> kvs) +:+ "}"
  end.

(** [json.NewEncoder(w).Encode] writes a newline after the value. *)
Definition json_encode (j : json) : string := json_print j +:+ newline.

(** ** Parsing *)

Definition is_space (c : ascii) : bool :=
  bool_decide (ord c ∈ [32; 9; 10; 13]).

Fixpoint skip_ws (s : string) : string :=
  match s with String c r => if is_space c then skip_ws r else s | "" => "" end.

Fixpoint hex_value (n : nat) (s : string) (acc : Z) : option (Z * string) :=
  match n, s with
  | O, _ => Some (acc, s)
  | S n, String c r => d ← unhex c; hex_value n r (acc * 16 + d)
  | S _, "" => None
  end.

(** The rune of a [\u] escape whose digits start [s]: a surrogate pair is joined,
    a lone surrogate is the replacement character. *)
Definition unquote_u (s : string) : option (Z * string) :=
  '(r, s) ← hex_value 4 s 0;
  if in_range 55296 57343 r then
    match strip_prefix (esc "u") s with
    | Some s' =>
        match hex_value 4 s' 0 with
        | Some (r', s'') =>
            if in_range 55296 56319 r && in_range 56320 57343 r'
            then Some ((r - 55296) * 1024 + (r' - 56320) + 65536, s'')
            else Some (replacement_char, s)
        | None => Some (replacement_char, s)
        end
    | None => Some (replacement_char, s)
    end
  else Some (r, s).

Definition simple_escape (c : ascii) : option ascii :=
  let n := ord c in
  if (n =? 34) || (n =? 92) || (n =? 47) then Some c
  else if n =? 98 then Some (chr 8)
  else if n =? 102 then Some (chr 12)
  else if n =? 110 then Some (chr 10)
  else if n =? 114 then Some (chr 13)
  else if n =? 116 then Some (chr 9)
  else None.

(** The contents of a string literal after its opening quote, and what follows
    the closing one. *)
Fixpoint unquote_go (fuel : nat) (s : string) : option (string * string) :=
  match fuel, s with
  | S fuel, String c r =>
      let n := ord c in
      if n =? 34 then Some ("", r)
      else if n =? 92 then
        match r with
        | String e r =>
            if ord e =? 117 then
              '(u, r) ← unquote_u r;
              '(t, rest) ← unquote_go fuel r; Some (utf8_encode u +:+ t, rest)
            else
              c ← simple_escape e;
              '(t, rest) ← unquote_go fuel r; Some (String c t, rest)
        | "" => None
        end
      else if n <? 32 then None
      else if n <? 128 then '(t, rest) ← unquote_go fuel r; Some (String c t, rest)
      else match utf8_len s with
      | O => '(t, rest) ← unquote_go fuel r; Some (utf8_encode replacement_char +:+ t, rest)
      | k =>
          let '(seq, r) := str_split_at k s in
          '(t, rest) ← unquote_go fuel r; Some (seq +:+ t, rest)
      end
  | _, _ => None
  end.

Fixpoint span_digits (s : string) : string * string :=
  match s with
  | String c r =>
      if is_digit c then let '(a, b) := span_digits r in (String c a, b) else ("", s)
  | "" => ("", "")
  end.

(** One or more digits. *)
Definition digits1 (s : string) : option (string * string) :=
  let '(a, b) := span_digits s in if str_empty a then None else Some (a, b).

(** The parts of a number literal, each with what follows it. *)
Definition number_sign (s : string) : string * string :=
  match strip_prefix "-" s with Some r => ("-", r) | None => ("", s) end.

Definition number_int (s : string) : option (string * string) :=
  match strip_prefix "0" s with Some r => Some ("0", r) | None => digits1 s end.

Definition number_frac (s : string) : option (string * string) :=
  match strip_prefix "." s with
  | Some r => '(d, r) ← digits1 r; Some ("." +:+ d, r)
  | None => Some ("", s)
  end.

Definition number_exp (s : string) : option (string * string) :=
  match s with
  | String e r =>
      if decide (e ∈ ["e"; "E"]%char) then
        let '(sg, r) := match r with
                        | String c r' =>
                            if decide (c ∈ ["+"; "-"]%char)
                            then (String c "", r') else ("", r)
                        | "" => ("", r)
                        end in
        '(d, r) ← digits1 r; Some (String e (sg +:+ d), r)
      else Some ("", s)
  | "" => Some ("", s)
  end.

(** The literal of a number and what follows it. *)
Definition parse_number (s : string) : option (string * string) :=
  let '(sign, s) := number_sign s in
  '(int, s) ← number_int s;
  '(frac, s) ← number_frac s;
  '(exp, s) ← number_exp s;
  Some (sign +:+ int +:+ frac +:+ exp, s).

(** The elements of an array after its opening bracket, and the members of an object
    after its opening brace, given the parser of a value. *)
Fixpoint parse_elems (value : string → option (json * string)) (n : nat) (s : string) :
  option (list json * string) :=
  match n with
  | O => None
  | S n =>
      '(v, s) ← value s;
      match skip_ws s with
      | String c r =>
          if decide (c = ","%char) then
            '(vs, s) ← parse_elems value n r; Some (v :: vs, s)
          else if decide (c = "]"%char) then Some ([v], r) else None
      | "" => None
      end
  end.

Fixpoint parse_members (value : string → option (json * string)) (n : nat) (s : string) :
  option (list (string * json) * string) :=
  match n with
  | O => None
  | S n =>
      match skip_ws s with
      | String q r =>
          if decide (q = quote_char) then
            '(k, s) ← unquote_go (String.length r) r;
            match skip_ws s with
            | String col r =>
                if decide (col = ":"%char) then
                  '(v, s) ← value r;
                  match skip_ws s with
                  | String c r =>
                      if decide (c = ","%char) then
                        '(kvs, s) ← parse_members value n r; Some ((k, v) :: kvs, s)
                      else if decide (c = "}"%char) then Some ([(k, v)], r) else None
                  | "" => None
                  end
                else None
            | "" => None
            end
          else None
      | "" => None
      end
  end.

(** A literal name, or a number. *)
Definition parse_scalar (s : string) : option (json * string) :=
  match strip_prefix "null" s, strip_prefix "true" s, strip_prefix "false" s with
  | Some r, _, _ => Some (JNull, r)
  | _, Some r, _ => Some (JBool true, r)
  | _, _, Some r => Some (JBool false, r)
  | None, None, None => '(lit, r) ← parse_number s; Some (JNum lit, r)
  end.

(** The parser.  Each call consumes a byte, so the length of the text is fuel
    enough. *)
Fixpoint parse_value (fuel : nat) (s : string) : option (json * string) :=
  match fuel with
  | O => None
  | S fuel =>
      match skip_ws s with
      | "" => None
      | String c r as s =>
          if decide (c = quote_char) then
            '(t, s) ← unquote_go (String.length r) r; Some (JStr t, s)
          else if decide (c = "["%char) then
            match skip_ws r with
            | String d r' =>
                if decide (d = "]"%char) then Some (JArr [], r')
                else '(l, s) ← parse_elems (parse_value fuel) fuel r; Some (JArr l, s)
            | "" => None
            end
          else if decide (c = "{"%char) then
            match skip_ws r with
            | String d r' =>
                if decide (d = "}"%char) then Some (JObj [], r')
                else '(l, s) ← parse_members (parse_value fuel) fuel r; Some (JObj l, s)
            | "" => None
            end
          else parse_scalar s
      end
  end.

(** The tree of a JSON text; [None] is a syntax error (the empty text included). *)
Definition json_parse (s : string) : option json :=
  '(j, rest) ← parse_value (S (String.length s)) s;
  if str_empty (skip_ws rest) then Some j else None.

(** ** Decoding into Go values *)

(** A decoder updates a value of type [S] and says whether it met no type
    mismatch. *)
Definition decoder (S : Type) : Type := json → S → S * bool.

(** Go's case folding of member names, exact for names with an ASCII equivalent:
    ASCII letters, the long s and the Kelvin sign. *)
Fixpoint fold_name (s : string) : string :=
  match s with
  | "" => ""
  | String a r =>
      match r with
      | "" => String (to_upper_byte a) ""
      | String b r1 =>
          if decide (String a (String b "") = utf8_encode 383) then String "S" (fold_name r1)
          else match r1 with
          | String c r2 =>
              if decide (String a (String b (String c "")) = utf8_encode 8490)
              then String "K" (fold_name r2)
              else String (to_upper_byte a) (fold_name r)
          | "" => String (to_upper_byte a) (fold_name r)
          end
      end
  end.

(** The decoder of the field a member name selects. *)
Definition find_field {S} (fields : list (string * decoder S)) (k : string) :
  option (decoder S) :=
  match go_find (λ f, bool_decide (f.1 = k)) fields with
  | Some f => Some f.2
  | None => snd <$> go_find (λ f, bool_decide (fold_name f.1 = fold_name k)) fields
  end.

Definition decode_struct {S} (fields : list (string * decoder S)) : decoder S := λ j s,
  match j with
  | JNull => (s, true)
  | JObj kvs =>
      foldl (λ acc kv,
        match find_field fields kv.1 with
        | Some d => let '(s, ok) := d kv.2 acc.1 in (s, ok && acc.2)
        | None => acc
        end) (s, true) kvs
  | _ => (s, false)
  end.

(** Field decoders, given the setter of the field. *)
Definition dec_string {S} (set : string → S → S) : decoder S := λ j s,
  match j with JStr v => (set v s, true) | JNull => (s, true) | _ => (s, false) end.

Definition dec_bool {S} (set : bool → S → S) : decoder S := λ j s,
  match j with JBool v => (set v s, true) | JNull => (s, true) | _ => (s, false) end.

Definition dec_int {S} (set : Z → S → S) : decoder S := λ j s,
  match j with
  | JNum lit => match atoi lit with Some n => (set n s, true) | None => (s, false) end
  | JNull => (s, true)
  | _ => (s, false)
  end.

(** A [json.RawMessage] takes any value, [null] included. *)
Definition dec_raw {S} (set : json → S → S) : decoder S := λ j s, (set j s, true).

(** [json.Unmarshal] into a fresh struct: [None] is its error. *)
Definition unmarshal {S} (d : decoder S) (zero : S) (j : json) : option S :=
  let '(s, ok) := d j zero in if ok then Some s else None.

(** [json.Unmarshal] into a fresh [map[string]json.RawMessage]. *)
Definition unmarshal_raw_map (j : json) : option (gmap string json) :=
  match j with
  | JNull => Some ∅
  | JObj kvs => Some (foldl (λ m kv, <[kv.1 := kv.2]> m) ∅ kvs)
  | _ => None
  end.

(** ** Examples *)

Example parse_print_example :
  let j := JObj [("data", JArr [JNull; JBool true; JNum "-1.5e3"; JStr "a<b"]);
                 ("k", JObj [])] in
  json_parse (json_print j) = Some j.
Proof. vm_compute. reflexivity. Qed.

Example print_escapes : json_print (JStr "a<b") =
  String quote_char (String "a" (esc "u003cb") +:+ String quote_char "").
Proof. vm_compute. reflexivity. Qed.

Example parse_rejects_trailing : json_parse "{} x" = None.
Proof. vm_compute. reflexivity. Qed.

Example parse_rejects_empty : json_parse "" = None.
Proof. vm_compute. reflexivity. Qed.
