(* ===== verification/JsonWire.v ===== *)
(** * JSON survives the wire

    Parsing what was printed gives the tree back, with the bytes that are not UTF-8
    replaced in its strings, as long as its numbers are number literals.  Laws are stated
    with whatever follows the text, so that they compose along the grammar. *)

From S2P Require Import Prelude GoBytes GoJson.

Open Scope Z_scope.

(** ** What is read back *)

(** A string with the bytes that are not UTF-8 replaced, and whether there is none;
    every step consumes a byte. *)
Fixpoint clean_from (fuel : nat) (s : string) : string :=
  match fuel, s with
  | S fuel, String c r =>
      match utf8_len s with
      | O => utf8_encode replacement_char +:+ clean_from fuel r
      | k => let '(seq, rest) := str_split_at k s in seq +:+ clean_from fuel rest
      end
  | _, _ => ""
  end.

(** [strings.ToValidUTF8(s, "\uFFFD")] byte by byte, and [utf8.ValidString]. *)
Definition clean (s : string) : string := clean_from (String.length s) s.
Definition valid_utf8 (s : string) : bool := bool_decide (clean s = s).

(** A number literal and nothing else. *)
Definition number_ok (lit : string) : bool := bool_decide (parse_number lit = Some (lit, "")).

(** All numbers are literals. *)
Fixpoint json_ok (j : json) : bool :=
  match j with
  | JNull | JBool _ | JStr _ => true
  | JNum lit => number_ok lit
  | JArr l => forallb json_ok l
  | JObj kvs => forallb (λ kv, json_ok kv.2) kvs
  end.

Fixpoint json_clean (j : json) : json :=
  match j with
  | JStr s => JStr (clean s)
  | JArr l => JArr (json_clean <$> l)
  | JObj kvs => JObj ((λ kv, (clean kv.1, json_clean kv.2)) <$> kvs)
  | j => j
  end.

(** ** Strings *)

Lemma quote_byte_unquote c fuel t :
  ord c < 128 →
  unquote_go (S fuel) (quote_byte c +:+ t) =
  match unquote_go fuel t with Some (a, r) => Some (String c a, r) | None => None end.
Proof.
  destruct c as [b0 b1 b2 b3 b4 b5 b6 b7].
  destruct b7; [intros H; exfalso; revert H; by destruct b0, b1, b2, b3, b4, b5, b6|intros _].
  destruct b0, b1, b2, b3, b4, b5, b6; reflexivity.
Qed.

(** The two line separators of JavaScript, which are escaped. *)
Lemma unquote_u2028 fuel t :
  unquote_go (S fuel) (esc "u2028" +:+ t) =
  match unquote_go fuel t with Some (a, r) => Some (utf8_encode 8232 +:+ a, r) | None => None end.
Proof. reflexivity. Qed.

Lemma unquote_u2029 fuel t :
  unquote_go (S fuel) (esc "u2029" +:+ t) =
  match unquote_go fuel t with Some (a, r) => Some (utf8_encode 8233 +:+ a, r) | None => None end.
Proof. reflexivity. Qed.

Lemma split_at_app a b : str_split_at (String.length a) (a +:+ b) = (a, b).
Proof. induction a as [|c a IH]; [done|]. rewrite app_cons. simpl. by rewrite IH. Qed.

(** The sequence found is at the front, and is found before any other text. *)
Lemma utf8_len_front s k :
  utf8_len s = S k →
  ∃ a b, s = a +:+ b ∧ String.length a = S k ∧ ∀ x, utf8_len (a +:+ x) = S k.
Proof.
  destruct s as [|c0 s]; [done|]. unfold utf8_len at 1.
  destruct (ord c0 <? 128) eqn:E0.
  { intros [= <-]. exists (String c0 ""), s. split_and!; [done..|]. intros x. simpl. by rewrite E0. }
  destruct s as [|c1 s]; [done|].
  destruct (in_range 194 223 (ord c0)) eqn:E1.
  { destruct (in_range 128 191 (ord c1)) eqn:F1; [|done]. intros [= <-].
    exists (String c0 (String c1 "")), s. split_and!; [done..|]. intros x. simpl.
    by rewrite E0, E1, F1. }
  destruct s as [|c2 s]; [done|].
  destruct (in_range 224 239 (ord c0)) eqn:E2.
  { destruct (_ && _) eqn:F2; [|done]. intros [= <-].
    exists (String c0 (String c1 (String c2 ""))), s. split_and!; [done..|]. intros x. simpl.
    by rewrite E0, E1, E2, F2. }
  destruct s as [|c3 s]; [done|].
  destruct (in_range 240 244 (ord c0)) eqn:E3; [|done].
  destruct (_ && _) eqn:F3; [|done]. intros [= <-].
  exists (String c0 (String c1 (String c2 (String c3 "")))), s. split_and!; [done..|]. intros x.
  simpl. by rewrite E0, E1, E2, E3, F3.
Qed.

(** How the printer, the parser and [clean] see the front of a string: a byte below 128,
    a sequence, or a byte that is not UTF-8. *)
Inductive front : string → Prop :=
  | front_byte c r : ord c < 128 → front (String c r)
  | front_seq c a r :
      128 ≤ ord c → (∀ x, utf8_len (String c a +:+ x) = S (String.length a)) →
      front (String c a +:+ r)
  | front_bad c r : 128 ≤ ord c → utf8_len (String c r) = O → front (String c r).

Lemma string_front s : s ≠ "" → front s.
Proof.
  destruct s as [|c s]; [done|]. intros _.
  destruct (Z.ltb_spec (ord c) 128) as [Hlt|Hge]; [by constructor|].
  destruct (utf8_len (String c s)) as [|k] eqn:Hk; [by constructor|].
  destruct (utf8_len_front _ _ Hk) as (a & b & Hs & Ha & Hx).
  destruct a as [|c' a]; [done|]. injection Ha as Ha. subst k.
  rewrite Hs. rewrite app_cons in Hs. injection Hs as <- _. by constructor.
Qed.

Lemma clean_byte n c r : ord c < 128 → clean_from (S n) (String c r) = String c (clean_from n r).
Proof. intros Hc. cbn [clean_from]. unfold utf8_len. by rewrite (proj2 (Z.ltb_lt _ _) Hc). Qed.

Lemma clean_seq n c a r :
  (∀ x, utf8_len (String c a +:+ x) = S (String.length a)) →
  clean_from (S n) (String c a +:+ r) = String c a +:+ clean_from n r.
Proof.
  intros Hx. rewrite app_cons. cbn [clean_from]. rewrite <- app_cons, Hx.
  change (S (String.length a)) with (String.length (String c a)). by rewrite split_at_app.
Qed.

Lemma clean_bad n c r :
  utf8_len (String c r) = O →
  clean_from (S n) (String c r) = utf8_encode replacement_char +:+ clean_from n r.
Proof. intros Hx. cbn [clean_from]. by rewrite Hx. Qed.

(** Bytes below 128 are UTF-8, and what is left after cleaning is. *)
Lemma clean_ascii (p : ascii → bool) s :
  (∀ c, p c = true → ord c < 128) → str_all p s = true → clean s = s.
Proof.
  intros Hp. unfold clean. induction s as [|c s IH]; [done|]. cbn [str_all String.length].
  intros [Hc Hs]%andb_true_iff.
  rewrite clean_byte, IH; auto.
Qed.

Lemma clean_from_again n s m :
  (String.length s ≤ n)%nat → (String.length (clean_from n s) ≤ m)%nat →
  clean_from m (clean_from n s) = clean_from n s.
Proof.
  revert s m. induction n as [|n IH]; intros s m Hs Hm; [by destruct m|].
  destruct (decide (s = "")) as [->|Hne]; [by destruct m|].
  destruct (string_front s Hne) as [c r Hc|c a r Hc Hx|c r Hc Hx].
  - rewrite clean_byte in * by done. simpl in Hs, Hm. destruct m as [|m]; [lia|].
    rewrite clean_byte, IH by (done || lia). done.
  - rewrite clean_seq in * by done. rewrite length_app' in Hs, Hm. simpl in Hs, Hm.
    destruct m as [|m]; [lia|]. rewrite clean_seq, IH by (done || lia). done.
  - rewrite clean_bad in * by done. rewrite length_app' in Hm. simpl in Hs, Hm.
    destruct m as [|m]; [lia|].
    change (utf8_encode replacement_char) with (String (chr 239) (String (chr 191) (String (chr 189) ""))).
    rewrite clean_seq, IH by (lia || reflexivity). done.
Qed.

Lemma clean_valid s : valid_utf8 (clean s) = true.
Proof. apply bool_decide_eq_true. unfold clean. by apply clean_from_again. Qed.

Lemma unquote_ufffd fuel t :
  unquote_go (S fuel) (esc "ufffd" +:+ t) =
  match unquote_go fuel t with
  | Some (a, r) => Some (utf8_encode replacement_char +:+ a, r)
  | None => None
  end.
Proof. reflexivity. Qed.

Lemma unquote_seq fuel c a t :
  128 ≤ ord c → (∀ x, utf8_len (String c a +:+ x) = S (String.length a)) →
  unquote_go (S fuel) (String c a +:+ t) =
  match unquote_go fuel t with Some (b, r) => Some (String c a +:+ b, r) | None => None end.
Proof.
  intros Hc Hx. rewrite app_cons. cbn [unquote_go].
  replace (ord c =? 34) with false by (symmetry; apply Z.eqb_neq; lia).
  replace (ord c =? 92) with false by (symmetry; apply Z.eqb_neq; lia).
  replace (ord c <? 32) with false by (symmetry; apply Z.ltb_ge; lia).
  rewrite (proj2 (Z.ltb_ge _ _) Hc), <- app_cons, Hx.
  change (S (String.length a)) with (String.length (String c a)). by rewrite split_at_app.
Qed.

(** What the printer writes for the front of a string. *)
Definition quote_front (a : string) : string :=
  if decide (a = utf8_encode 8232) then esc "u2028"
  else if decide (a = utf8_encode 8233) then esc "u2029" else a.

Lemma quote_seq n c a r :
  128 ≤ ord c → (∀ x, utf8_len (String c a +:+ x) = S (String.length a)) →
  quote_go (S n) (String c a +:+ r) = quote_front (String c a) +:+ quote_go n r.
Proof.
  intros Hc Hx. rewrite app_cons. cbn [quote_go].
  rewrite (proj2 (Z.ltb_ge _ _) Hc), <- app_cons, Hx.
  change (S (String.length a)) with (String.length (String c a)). by rewrite split_at_app.
Qed.

Lemma quote_unquote n s fuel rest :
  (String.length s ≤ n < fuel)%nat →
  unquote_go fuel (quote_go n s +:+ String quote_char rest) = Some (clean_from n s, rest).
Proof.
  revert s fuel. induction n as [|n IH]; intros s fuel Hf; (destruct fuel as [|fuel]; [lia|]).
  { destruct s; [done|simpl in Hf; lia]. }
  destruct (decide (s = "")) as [->|Hne]; [done|].
  destruct (string_front s Hne) as [c r Hc|c a r Hc Hx|c r Hc Hx].
  - cbn [quote_go]. rewrite (proj2 (Z.ltb_lt _ _) Hc), clean_byte by done.
    rewrite app_assoc', quote_byte_unquote, IH by (simpl in Hf; lia). done.
  - rewrite quote_seq, clean_seq by done. rewrite app_assoc'. rewrite length_app' in Hf.
    unfold quote_front. destruct (decide _) as [->|_]; [|destruct (decide _) as [->|_]].
    + rewrite unquote_u2028, IH by (simpl in Hf; lia). done.
    + rewrite unquote_u2029, IH by (simpl in Hf; lia). done.
    + rewrite unquote_seq, IH by (done || simpl in Hf; lia). done.
  - cbn [quote_go]. rewrite (proj2 (Z.ltb_ge _ _) Hc), Hx, clean_bad by done.
    rewrite app_assoc', unquote_ufffd, IH by (simpl in Hf; lia). done.
Qed.

Lemma quote_byte_length c : (1 ≤ String.length (quote_byte c))%nat.
Proof. unfold quote_byte, esc. repeat case_match; simpl; lia. Qed.

Lemma quote_length n s :
  (String.length s ≤ n → String.length s ≤ String.length (quote_go n s))%nat.
Proof.
  revert s. induction n as [|n IH]; intros s Hf; [by destruct s; simpl in *; lia|].
  destruct (decide (s = "")) as [->|Hne]; [simpl; lia|].
  destruct (string_front s Hne) as [c r Hc|c a r Hc Hx|c r Hc Hx].
  - cbn [quote_go]. rewrite (proj2 (Z.ltb_lt _ _) Hc), length_app'.
    pose proof (quote_byte_length c). specialize (IH r ltac:(simpl in *; lia)). simpl. lia.
  - rewrite quote_seq by done. rewrite !length_app' in *.
    specialize (IH r ltac:(simpl in *; lia)). unfold quote_front.
    destruct (decide _) as [->|_]; [|destruct (decide _) as [->|_]]; simpl in *; lia.
  - cbn [quote_go]. rewrite (proj2 (Z.ltb_ge _ _) Hc), Hx, length_app'.
    specialize (IH r ltac:(simpl in *; lia)). simpl in *. lia.
Qed.

(** ** Numbers *)

(** Text that cannot continue a number. *)
Definition ends_number (s : string) : bool :=
  match s with
  | "" => true
  | String c _ => negb (is_digit c) && bool_decide (c ∉ ["-"; "+"; "."; "e"; "E"]%char)
  end.

Lemma strip_byte_app c s rest :
  match rest with String d _ => d ≠ c | "" => True end →
  strip_prefix (String c "") (s +:+ rest) =
  match strip_prefix (String c "") s with Some r => Some (r +:+ rest) | None => None end.
Proof.
  intros Hr. destruct s as [|d s].
  - rewrite app_nil_l. destruct rest as [|d rest]; [done|]. simpl.
    by rewrite decide_False by congruence.
  - rewrite app_cons. simpl. by destruct (decide _).
Qed.

Lemma span_digits_app s rest :
  match rest with String d _ => is_digit d = false | "" => True end →
  span_digits (s +:+ rest) = ((span_digits s).1, (span_digits s).2 +:+ rest).
Proof.
  intros Hr. induction s as [|c s IH].
  - rewrite app_nil_l. destruct rest as [|d rest]; [done|]. simpl. by rewrite Hr.
  - rewrite app_cons. simpl. destruct (is_digit c); [|done]. rewrite IH.
    by destruct (span_digits s).
Qed.

Lemma digits1_app s rest :
  match rest with String d _ => is_digit d = false | "" => True end →
  digits1 (s +:+ rest) =
  match digits1 s with Some (a, b) => Some (a, b +:+ rest) | None => None end.
Proof.
  intros Hr. unfold digits1. rewrite span_digits_app by done.
  destruct (span_digits s) as [a b]. simpl. by destruct (str_empty a).
Qed.

(** The first byte of [s] is none of [cs]. *)
Definition head_not (cs : list ascii) (s : string) : Prop :=
  match s with String d _ => d ∉ cs | "" => True end.

Lemma ends_number_head rest :
  ends_number rest = true →
  match rest with String d _ => is_digit d = false | "" => True end ∧
  head_not ["-"; "+"; "."; "e"; "E"; "0"]%char rest.
Proof.
  destruct rest as [|d rest]; [done|]. simpl. intros [Hd Hin]%andb_true_iff.
  apply negb_true_iff in Hd. apply bool_decide_eq_true in Hin. split; [done|]. intros H.
  assert (d = "0"%char) as -> by (clear Hd; set_solver). done.
Qed.

(** A stage finds the same part when text that ends a number follows. *)
Definition stable (stage : string → option (string * string)) : Prop := ∀ s rest l r,
  ends_number rest = true → stage s = Some (l, r) → stage (s +:+ rest) = Some (l, r +:+ rest).

Lemma strip_byte_ends c s rest :
  c ∈ ["-"; "+"; "."; "e"; "E"; "0"]%char → ends_number rest = true →
  strip_prefix (String c "") (s +:+ rest) =
  match strip_prefix (String c "") s with Some r => Some (r +:+ rest) | None => None end.
Proof.
  intros Hc [_ Hr]%ends_number_head. apply strip_byte_app. destruct rest; [done|].
  intros ->. by apply Hr.
Qed.

Lemma digits1_stable : stable digits1.
Proof.
  intros s rest l r [Hr _]%ends_number_head Hs. by rewrite digits1_app, Hs.
Qed.

Lemma number_int_stable : stable number_int.
Proof.
  intros s rest l r Hr. unfold number_int. rewrite strip_byte_ends by (done || set_solver).
  destruct (strip_prefix "0" s); [by intros [= <- <-]|]. by apply digits1_stable.
Qed.

Lemma number_frac_stable : stable number_frac.
Proof.
  intros s rest l r Hr. unfold number_frac. rewrite strip_byte_ends by (done || set_solver).
  destruct (strip_prefix "." s) as [r1|]; [|by intros [= <- <-]].
  destruct (digits1 r1) as [[d r2]|] eqn:Hd; simpl; [|done]. intros [= <- <-].
  by rewrite (digits1_stable _ _ _ _ Hr Hd).
Qed.

Lemma number_exp_stable : stable number_exp.
Proof.
  intros s rest l r Hr. destruct s as [|e s]; simpl.
  { intros [= <- <-]. rewrite !app_nil_l. apply ends_number_head in Hr as [_ Hr].
    destruct rest as [|c rest]; [done|]. simpl in *. rewrite decide_False; [done|].
    intros Hc. apply Hr. set_solver. }
  rewrite app_cons. simpl. destruct (decide _); [|by intros [= <- <-]].
  destruct s as [|c s]; [done|]. rewrite app_cons. destruct (decide (c ∈ _)).
  - destruct (digits1 s) as [[d r']|] eqn:Hd; simpl; [|done]. intros [= <- <-].
    by rewrite (digits1_stable _ _ _ _ Hr Hd).
  - rewrite <- app_cons. destruct (digits1 (String c s)) as [[d r']|] eqn:Hd; simpl; [|done].
    intros [= <- <-]. by rewrite (digits1_stable _ _ _ _ Hr Hd).
Qed.

Lemma parse_number_stable : stable parse_number.
Proof.
  intros s rest l r Hr. unfold parse_number.
  assert (number_sign (s +:+ rest) = ((number_sign s).1, (number_sign s).2 +:+ rest)) as ->.
  { unfold number_sign. rewrite strip_byte_ends by (done || set_solver).
    by destruct (strip_prefix "-" s). }
  destruct (number_sign s) as [sign s1]. cbn [fst snd].
  destruct (number_int s1) as [[int s2]|] eqn:Hi; simpl; [|done].
  rewrite (number_int_stable _ _ _ _ Hr Hi). simpl.
  destruct (number_frac s2) as [[frac s3]|] eqn:Hf; simpl; [|done].
  rewrite (number_frac_stable _ _ _ _ Hr Hf). simpl.
  destruct (number_exp s3) as [[exp s4]|] eqn:He; simpl; [|done].
  rewrite (number_exp_stable _ _ _ _ Hr He). simpl. by intros [= <- <-].
Qed.

(** ** Values *)

(** Induction over the tree, elements and members included. *)
Section json_ind.
Variable P : json → Prop.
Hypothesis HNull : P JNull.
Hypothesis HBool : ∀ b, P (JBool b).
Hypothesis HNum : ∀ lit, P (JNum lit).
Hypothesis HStr : ∀ s, P (JStr s).
Hypothesis HArr : ∀ l, Forall P l → P (JArr l).
Hypothesis HObj : ∀ kvs, Forall (λ kv, P kv.2) kvs → P (JObj kvs).

Fixpoint json_nested_ind (j : json) : P j :=
  match j with
  | JNull => HNull
  | JBool b => HBool b
  | JNum lit => HNum lit
  | JStr s => HStr s
  | JArr l =>
      HArr l ((fix go l : Forall P l :=
                 match l with
                 | [] => Forall_nil_2 P
                 | j :: l => Forall_cons_2 P j l (json_nested_ind j) (go l)
                 end) l)
  | JObj kvs =>
      HObj kvs ((fix go l : Forall (λ kv, P kv.2) l :=
                   match l with
                   | [] => Forall_nil_2 _
                   | kv :: l => Forall_cons_2 _ kv l (json_nested_ind kv.2) (go l)
                   end) kvs)
  end.
End json_ind.

(** The number of nodes. *)
Fixpoint json_size (j : json) : nat :=
  match j with
  | JArr l => S (sum_list (json_size <$> l))
  | JObj kvs => S (sum_list ((λ kv, json_size kv.2) <$> kvs))
  | _ => 1
  end.

Lemma json_size_pos j : (1 ≤ json_size j)%nat.
Proof. destruct j; simpl; lia. Qed.

(** Text the parser does not skip or take for the end of an array. *)
Definition starts_value (s : string) : Prop :=
  match s with String c _ => is_space c = false ∧ c ≠ "]"%char | "" => False end.

Lemma starts_value_app s t : starts_value s → starts_value (s +:+ t).
Proof. by destruct s. Qed.

Lemma starts_value_skip s : starts_value s → skip_ws s = s.
Proof. destruct s as [|c s]; [done|]. simpl. by intros [-> _]. Qed.

Lemma skip_ws_byte c r : is_space c = false → skip_ws (String c r) = String c r.
Proof. intros Hc. cbn [skip_ws]. by rewrite Hc. Qed.

Lemma byte_app c s : String c "" +:+ s = String c s.
Proof. done. Qed.

(** A number starts with a sign or a digit. *)
Lemma number_head s l r :
  parse_number s = Some (l, r) →
  match s with String c _ => c = "-"%char ∨ is_digit c = true | "" => False end.
Proof.
  destruct s as [|c s]; [done|]. unfold parse_number, number_sign.
  destruct (decide (c = "-"%char)) as [->|Hne]; [by left|].
  simpl. rewrite decide_False by congruence. intros Hp. right.
  destruct (is_digit c) eqn:Hd; [done|]. exfalso. revert Hp. unfold number_int. simpl.
  rewrite decide_False by (intros <-; done). unfold digits1. simpl. by rewrite Hd.
Qed.

Lemma number_ok_head lit :
  number_ok lit = true →
  match lit with String c _ => c = "-"%char ∨ is_digit c = true | "" => False end.
Proof. intros H%bool_decide_eq_true. by eapply number_head. Qed.

Lemma print_starts j : json_ok j = true → starts_value (json_print j).
Proof.
  destruct j as [| [] |lit|s|l|kvs]; simpl; try done. intros H%number_ok_head.
  destruct lit as [|c lit]; [done|]. destruct H as [->|Hd]; [done|].
  destruct c as [[] [] [] [] [] [] [] []]; by vm_compute in Hd.
Qed.

(** A parser that reads back the text of a tree, whatever follows. *)
Definition reads (value : string → option (json * string)) (j : json) : Prop := ∀ rest,
  ends_number rest = true → value (json_print j +:+ rest) = Some (json_clean j, rest).

Lemma elems_print value n l rest :
  l ≠ [] → (length l ≤ n)%nat → Forall (reads value) l →
  parse_elems value n (str_join "," (json_print <$> l) +:+ String "]" rest) =
  Some (json_clean <$> l, rest).
Proof.
  revert n. induction l as [|j l IH]; intros n Hne Hn Hl; [done|].
  apply Forall_cons in Hl as [Hj Hl]. destruct n as [|n]; [simpl in Hn; lia|].
  destruct l as [|j2 l].
  - cbn [fmap list_fmap str_join parse_elems]. rewrite Hj by done. done.
  - specialize (IH n ltac:(done) ltac:(simpl in *; lia) Hl).
    change (str_join "," (json_print <$> j :: j2 :: l)) with
      (json_print j +:+ "," +:+ str_join "," (json_print <$> j2 :: l)).
    rewrite !app_assoc'. cbn [parse_elems]. rewrite Hj by done. cbn [mbind option_bind].
    rewrite byte_app, skip_ws_byte by done. rewrite decide_True by done.
    rewrite IH. done.
Qed.

(** A member without what follows it. *)
Definition print_member (kv : string * json) : string :=
  json_quote kv.1 +:+ ":" +:+ json_print kv.2.

Lemma json_quote_app s rest :
  json_quote s +:+ rest =
  String quote_char (quote_go (String.length s) s +:+ String quote_char rest).
Proof. unfold json_quote. by rewrite app_cons, app_assoc'. Qed.

Lemma quoted_unquote s rest :
  let r := quote_go (String.length s) s +:+ String quote_char rest in
  unquote_go (String.length r) r = Some (clean s, rest).
Proof.
  intros r. apply quote_unquote. unfold r. rewrite length_app'.
  pose proof (quote_length (String.length s) s ltac:(done)). simpl. lia.
Qed.

Definition clean_member (kv : string * json) : string * json := (clean kv.1, json_clean kv.2).

Lemma members_print value n kvs rest :
  kvs ≠ [] → (length kvs ≤ n)%nat →
  Forall (λ kv, reads value kv.2) kvs →
  parse_members value n (str_join "," (print_member <$> kvs) +:+ String "}" rest) =
  Some (clean_member <$> kvs, rest).
Proof.
  revert n. induction kvs as [|[k v] kvs IH]; intros n Hne Hn Hl; [done|].
  apply Forall_cons in Hl as [Hv Hl]. destruct n as [|n]; [simpl in Hn; lia|].
  assert (∀ tail, ends_number tail = true →
    parse_members value (S n) (print_member (k, v) +:+ tail) =
    match skip_ws tail with
    | String c r =>
        if decide (c = ","%char) then
          '(kvs, s) ← parse_members value n r; Some (clean_member (k, v) :: kvs, s)
        else if decide (c = "}"%char) then Some ([clean_member (k, v)], r) else None
    | "" => None
    end) as Hone.
  { intros tail Htail. unfold print_member. cbn [fst snd]. rewrite !app_assoc', json_quote_app.
    cbn [parse_members]. rewrite skip_ws_byte, decide_True by done.
    rewrite quoted_unquote. cbn [mbind option_bind].
    rewrite byte_app, skip_ws_byte, decide_True by done. by rewrite Hv. }
  destruct kvs as [|kv2 kvs].
  - cbn [fmap list_fmap str_join]. rewrite Hone by done. done.
  - specialize (IH n ltac:(done) ltac:(simpl in *; lia) Hl).
    change (str_join "," (print_member <$> (k, v) :: kv2 :: kvs)) with
      (print_member (k, v) +:+ "," +:+ str_join "," (print_member <$> kv2 :: kvs)).
    rewrite !app_assoc', Hone by done. rewrite byte_app, skip_ws_byte by done.
    rewrite decide_True by done. rewrite IH. done.
Qed.

Lemma join_nonempty_starts f (l : list json) rest :
  l ≠ [] → Forall (λ j, starts_value (f j)) l → starts_value (str_join "," (f <$> l) +:+ rest).
Proof.
  intros Hne Hl. destruct l as [|j [|j2 l]]; [done|..]; apply Forall_cons in Hl as [Hj _].
  - by apply starts_value_app.
  - change (str_join "," (f <$> j :: j2 :: l)) with (f j +:+ "," +:+ str_join "," (f <$> j2 :: l)).
    rewrite app_assoc'. by apply starts_value_app.
Qed.

Lemma scalar_number lit rest :
  number_ok lit = true → ends_number rest = true →
  parse_scalar (lit +:+ rest) = Some (JNum lit, rest).
Proof.
  intros Hok Hr. pose proof (number_ok_head lit Hok) as Hh.
  apply bool_decide_eq_true in Hok. unfold parse_scalar.
  rewrite (parse_number_stable _ _ _ _ Hr Hok), app_nil_l.
  destruct lit as [|c lit]; [done|]. rewrite app_cons. simpl.
  rewrite !decide_False; [done|..]; by destruct Hh as [->|Hd]; [|intros <-].
Qed.

Lemma forallb_Forall_true {A} (f : A → bool) l : forallb f l = true ↔ Forall (λ x, f x = true) l.
Proof.
  induction l as [|x l IH]; simpl; [done|]. by rewrite andb_true_iff, Forall_cons, IH.
Qed.

(** Every size is at most the sum, and so is the number of summands. *)
Lemma sizes_bound {A} (f : A → nat) l :
  Forall (λ x, 1 ≤ f x)%nat l →
  (length l ≤ sum_list (f <$> l))%nat ∧ Forall (λ x, f x ≤ sum_list (f <$> l))%nat l.
Proof.
  induction 1 as [|x l Hx _ [IH1 IH2]]; [by split|].
  change (sum_list (f <$> x :: l)) with (f x + sum_list (f <$> l))%nat. simpl length.
  split; [lia|]. constructor; [lia|]. eapply Forall_impl; [exact IH2|]. simpl. intros; lia.
Qed.

Lemma parse_print fuel j : json_ok j = true → (json_size j ≤ fuel)%nat → reads (parse_value fuel) j.
Proof.
  revert fuel. induction j as [|b|lit|s|l IH|kvs IH] using json_nested_ind;
    intros fuel Hok Hf rest Hr; (destruct fuel as [|fuel]; [simpl in Hf; lia|]).
  - done.
  - by destruct b.
  - cbn [json_print parse_value].
    rewrite (starts_value_skip (lit +:+ rest)) by (apply starts_value_app; by apply (print_starts (JNum lit))).
    pose proof (number_ok_head lit Hok) as Hh. pose proof (scalar_number lit rest Hok Hr) as Hs.
    destruct lit as [|c lit]; [done|]. rewrite app_cons in *.
    rewrite !decide_False; [done|..]; by destruct Hh as [->|Hd]; [|intros ->].
  - cbn [json_print parse_value]. rewrite json_quote_app, skip_ws_byte, decide_True by done.
    by rewrite quoted_unquote.
  - cbn [json_print parse_value]. rewrite !app_assoc', byte_app, skip_ws_byte by done.
    rewrite decide_False, decide_True by done.
    destruct (decide (l = [])) as [->|Hne]; [done|].
    cbn [json_ok] in Hok. apply forallb_Forall_true in Hok.
    assert (starts_value (str_join "," (json_print <$> l) +:+ "]" +:+ rest)) as Hst.
    { apply join_nonempty_starts; [done|]. eapply Forall_impl; [exact Hok|]. apply print_starts. }
    rewrite starts_value_skip by done.
    destruct (sizes_bound json_size l) as [Hlen Hsizes].
    { apply Forall_true. apply json_size_pos. }
    cbn [json_size] in Hf. pose proof (elems_print (parse_value fuel) fuel l rest Hne) as He.
    rewrite byte_app in *. rewrite He; [|lia|].
    + destruct (str_join "," (json_print <$> l) +:+ String "]" rest) as [|c r]; [done|].
      destruct Hst as [_ Hc]. by rewrite decide_False.
    + rewrite Forall_forall in IH, Hok, Hsizes. apply Forall_forall. intros j Hj.
      apply IH; [done|by apply Hok|]. specialize (Hsizes j Hj). simpl in Hsizes. lia.
  - cbn [json_print parse_value]. rewrite !app_assoc', byte_app, skip_ws_byte by done.
    rewrite !decide_False, decide_True by done.
    destruct (decide (kvs = [])) as [->|Hne]; [done|].
    cbn [json_ok] in Hok. apply forallb_Forall_true in Hok.
    fold print_member. change (λ kv, json_quote kv.1 +:+ ":" +:+ json_print kv.2) with print_member.
    assert (∃ r, str_join "," (print_member <$> kvs) +:+ "}" +:+ rest = String quote_char r) as [r Hst].
    { destruct kvs as [|[k v] [|kv2 kvs]]; [done|..]; by eexists. }
    destruct (sizes_bound (λ kv, json_size kv.2) kvs) as [Hlen Hsizes].
    { apply Forall_true. intros. apply json_size_pos. }
    cbn [json_size] in Hf. pose proof (members_print (parse_value fuel) fuel kvs rest Hne) as He.
    rewrite byte_app in *. rewrite He; [|lia|].
    + rewrite Hst, skip_ws_byte by done. by rewrite decide_False.
    + rewrite Forall_forall in IH, Hok, Hsizes. apply Forall_forall. intros kv Hkv.
      apply IH; [done|by apply Hok|]. specialize (Hsizes kv Hkv). simpl in Hsizes. lia.
Qed.

(** The text of a tree has a byte for every node. *)
Lemma json_size_length j : json_ok j = true → (json_size j ≤ String.length (json_print j))%nat.
Proof.
  assert (∀ sep l, (sum_list (String.length <$> l) ≤ String.length (str_join sep l))%nat) as Hjoin.
  { intros sep l. induction l as [|s [|s2 l] IH]; [done|simpl; lia|].
    change (str_join sep (s :: s2 :: l)) with (s +:+ sep +:+ str_join sep (s2 :: l)).
    rewrite !length_app'. change (sum_list (String.length <$> s :: s2 :: l)) with
      (String.length s + sum_list (String.length <$> s2 :: l))%nat. lia. }
  assert (∀ {A} (f g : A → nat) l, Forall (λ x, f x ≤ g x)%nat l →
    (sum_list (f <$> l) ≤ sum_list (g <$> l))%nat) as Hsum.
  { intros A f g l. induction 1 as [|x l Hx _ IH]; [done|].
    change (sum_list (f <$> x :: l)) with (f x + sum_list (f <$> l))%nat.
    change (sum_list (g <$> x :: l)) with (g x + sum_list (g <$> l))%nat. lia. }
  induction j as [|[]|lit|s|l IH|kvs IH] using json_nested_ind; intros Hok; simpl; try lia.
  - apply number_ok_head in Hok. destruct lit; [done|simpl; lia].
  - cbn [json_ok] in Hok. apply forallb_Forall_true in Hok. rewrite !length_app'.
    pose proof (Hjoin "," (json_print <$> l)) as Hj. rewrite <- list_fmap_compose in Hj.
    assert (Forall (λ j, json_size j ≤ (String.length ∘ json_print) j)%nat l) as Hl.
    { rewrite Forall_forall in *. intros j Hj'. by apply IH, Hok. }
    apply Hsum in Hl. simpl in *. lia.
  - cbn [json_ok] in Hok. apply forallb_Forall_true in Hok. rewrite !length_app'.
    fold print_member. change (λ kv, json_quote kv.1 +:+ ":" +:+ json_print kv.2) with print_member.
    pose proof (Hjoin "," (print_member <$> kvs)) as Hj. rewrite <- list_fmap_compose in Hj.
    assert (Forall (λ kv, json_size kv.2 ≤ (String.length ∘ print_member) kv)%nat kvs) as Hl.
    { rewrite Forall_forall in *. intros kv Hkv. specialize (Hok kv Hkv).
      specialize (IH kv Hkv Hok).
      unfold print_member. simpl. rewrite !length_app'. lia. }
    apply Hsum in Hl. simpl in *. lia.
Qed.

(** Printing, with white space after it, and parsing. *)
Lemma json_parse_print j ws :
  json_ok j = true → str_all is_space ws = true →
  json_parse (json_print j +:+ ws) = Some (json_clean j).
Proof.
  intros Hok Hws. unfold json_parse.
  assert (skip_ws ws = "") as Hskip.
  { induction ws as [|c ws IH]; [done|]. simpl in *. apply andb_true_iff in Hws as [-> Hws]. by apply IH. }
  rewrite (parse_print _ j Hok).
  - simpl. by rewrite Hskip.
  - rewrite length_app'. pose proof (json_size_length j Hok). lia.
  - destruct ws as [|c ws]; [done|]. simpl in Hws. apply andb_true_iff in Hws as [Hc _].
    by destruct c as [[] [] [] [] [] [] [] []].
Qed.

Lemma json_parse_encode j : json_ok j = true → json_parse (json_encode j) = Some (json_clean j).
Proof. intros Hok. by apply json_parse_print. Qed.

Lemma json_parse_text j : json_ok j = true → json_parse (json_print j) = Some (json_clean j).
Proof. intros Hok. rewrite <- (app_nil_r' (json_print j)). by apply json_parse_print. Qed.

#[export] Hint Resolve json_parse_encode json_parse_text : inngest.

(** ** Trees that are not changed *)

(** Every string, keys included, is UTF-8. *)
Fixpoint json_utf8 (j : json) : bool :=
  match j with
  | JStr s => valid_utf8 s
  | JArr l => forallb json_utf8 l
  | JObj kvs => forallb (λ kv, valid_utf8 kv.1 && json_utf8 kv.2) kvs
  | _ => true
  end.

Lemma json_clean_id j : json_utf8 j = true → json_clean j = j.
Proof.
  induction j as [| | |s|l IH|kvs IH] using json_nested_ind; intros Hok; try done.
  - cbn [json_clean]. f_equal. by apply bool_decide_eq_true in Hok.
  - cbn [json_utf8] in Hok. apply forallb_Forall_true in Hok. cbn [json_clean]. f_equal.
    transitivity (id <$> l); [|by apply list_fmap_id]. apply list_fmap_ext.
    intros i j Hj. rewrite Forall_lookup in IH, Hok. by eapply IH, Hok.
  - cbn [json_utf8] in Hok. apply forallb_Forall_true in Hok. cbn [json_clean]. f_equal.
    transitivity (id <$> kvs); [|by apply list_fmap_id]. apply list_fmap_ext.
    intros i [k v] Hj. rewrite Forall_lookup in IH, Hok.
    specialize (Hok _ _ Hj). apply andb_true_iff in Hok as [Hk Hv].
    apply bool_decide_eq_true in Hk. simpl in *. unfold id. rewrite Hk. f_equal.
    by eapply (IH _ _ Hj).
Qed.

Lemma json_clean_utf8 j : json_utf8 (json_clean j) = true.
Proof.
  induction j as [| | |s|l IH|kvs IH] using json_nested_ind; cbn [json_clean json_utf8]; try done.
  - apply clean_valid.
  - apply forallb_Forall_true, Forall_fmap. exact IH.
  - apply forallb_Forall_true, Forall_fmap. eapply Forall_impl; [exact IH|].
    intros kv Hkv. simpl. by rewrite clean_valid.
Qed.

Lemma json_clean_ok j : json_ok (json_clean j) = json_ok j.
Proof.
  induction j as [| | |s|l IH|kvs IH] using json_nested_ind; cbn [json_clean json_ok]; try done.
  - induction IH as [|j l Hj _ IH]; [done|]. cbn [fmap list_fmap forallb]. by rewrite Hj, <- IH.
  - induction IH as [|kv l Hj _ IH]; [done|]. cbn [fmap list_fmap forallb snd]. by rewrite Hj, <- IH.
Qed.

(** ** The numbers the SDK writes *)

(** The first digit of a positive number is not zero. *)
Lemma dec_go_head fuel n acc :
  0 < n < 2 ^ Z.of_nat fuel → head_not ["0"]%char (dec_go fuel n acc).
Proof.
  revert n acc. induction fuel as [|fuel IH]; intros n acc Hn; [simpl in Hn; lia|].
  cbn [dec_go]. destruct (Z.ltb_spec n 10).
  - cbn [head_not]. rewrite Z.mod_small by lia. intros Hd%list_elem_of_singleton.
    apply (f_equal ord) in Hd. rewrite digit_val in Hd by lia. change (ord "0") with 48 in Hd. lia.
  - rewrite Nat2Z.inj_succ, Z.pow_succ_r in Hn by lia. apply IH.
    split; [apply Z.div_str_pos; lia|apply Z.div_lt_upper_bound; lia].
Qed.

Lemma span_all_digits s : str_all is_digit s = true → span_digits s = (s, "").
Proof.
  induction s as [|c s IH]; [done|]. simpl. intros [-> Hs]%andb_true_iff. by rewrite IH.
Qed.

Lemma number_int_uint n : 0 ≤ n → number_int (format_uint n) = Some (format_uint n, "").
Proof.
  intros Hn. destruct (decide (n = 0)) as [->|Hne]; [done|]. unfold number_int.
  pose proof (format_uint_digits n Hn) as Hd. pose proof (format_uint_nonempty n) as Hs.
  assert (head_not ["0"]%char (format_uint n)) as Hh.
  { apply dec_go_head. rewrite Nat2Z.inj_succ, Z2Nat.id by apply Z.log2_nonneg.
    split; [lia|]. apply Z.log2_spec. lia. }
  assert (strip_prefix "0" (format_uint n) = None) as ->.
  { destruct (format_uint n) as [|c r]; [done|]. simpl in *.
    rewrite decide_False; [done|]. intros <-. apply Hh. set_solver. }
  unfold digits1. by rewrite span_all_digits, Hs.
Qed.

Lemma number_sign_uint n : 0 ≤ n → number_sign (format_uint n) = ("", format_uint n).
Proof.
  intros Hn. pose proof (format_uint_digits n Hn) as Hd. unfold number_sign.
  destruct (format_uint n) as [|c r]; [done|]. simpl in *.
  rewrite decide_False; [done|]. by intros <-.
Qed.

Lemma number_ok_int n : number_ok (format_int n) = true.
Proof.
  apply bool_decide_eq_true. unfold parse_number, format_int.
  destruct (Z.ltb_spec n 0) as [Hn|Hn].
  - change (number_sign ("-" +:+ format_uint (- n))) with ("-", format_uint (- n)).
    cbv beta iota. rewrite number_int_uint by lia. simpl. by rewrite app_nil_r'.
  - rewrite number_sign_uint by done. cbv beta iota. rewrite number_int_uint by lia. simpl. by rewrite app_nil_r'.
Qed.

Lemma json_ok_int n : json_ok (jint n) = true.
Proof. apply number_ok_int. Qed.

#[export] Hint Resolve json_ok_int : inngest.

(** ** Decoding of structs *)

(** The members that are left to decode into [s]. *)
Definition decode_members {S} (fields : list (string * decoder S)) (kvs : list (string * json))
  (s : S) : S * bool := decode_struct fields (JObj kvs) s.

Lemma decode_member {S} (fields : list (string * decoder S)) k j kvs s d s' :
  find_field fields k = Some d → d j s = (s', true) →
  decode_members fields ((k, j) :: kvs) s = decode_members fields kvs s'.
Proof. intros Hk Hd. unfold decode_members. simpl. by rewrite Hk, Hd. Qed.

Lemma decode_unknown {S} (fields : list (string * decoder S)) k j kvs s :
  find_field fields k = None →
  decode_members fields ((k, j) :: kvs) s = decode_members fields kvs s.
Proof. intros Hk. unfold decode_members. simpl. by rewrite Hk. Qed.

(** [members tac] decodes the members of an object whose names are known, [tac] being
    applied to the fields that do not compute. *)
Ltac member tac :=
  first [ etransitivity; [eapply decode_member; [reflexivity|first [tac | reflexivity]]|]
        | etransitivity; [apply decode_unknown; reflexivity|] ].

Tactic Notation "members" tactic3(tac) :=
  repeat member tac; try reflexivity.
