(* ===== verification/GoFloat.v ===== *)
(** * Numbers as float64 (strconv and encoding/json)

    A JSON number that is decoded into [any] becomes a float64 and is printed as one.
    Conversion in both directions is exact arithmetic on integers: rounding to the nearest
    float64, and the shortest decimal that is rounded back. *)

From S2P Require Import Prelude GoBytes GoJson JsonWire.

Open Scope Z_scope.

(** ** Decimals *)

(** The sign of a literal, and the natural number and the power of ten it is made of. *)
Definition read_exp (s : string) : option Z :=
  match s with
  | "" => Some 0
  | String _ (String c d as s) =>
      if decide (c = "-"%char) then Z.opp <$> parse_digits d 0
      else if decide (c = "+"%char) then parse_digits d 0
      else parse_digits s 0
  | _ => None
  end.

Definition read_unsigned (s : string) : option (Z * Z) :=
  '(int, s) ← number_int s;
  '(frac, s) ← number_frac s;
  '(exp, s) ← number_exp s;
  let frac := default "" (strip_prefix "." frac) in
  m ← parse_digits (int +:+ frac) 0;
  e ← read_exp exp;
  if str_empty s then Some (m, e - Z.of_nat (String.length frac)) else None.

Definition read_decimal (lit : string) : option (bool * Z * Z) :=
  let '(sign, s) := number_sign lit in
  '(m, e) ← read_unsigned s;
  Some (negb (str_empty sign), m, e).

(** ** Rounding *)

(** A float64 that is not negative: [m * 2 ^ e], with 53 bits for [m] unless [e] is the least
    exponent. *)
Notation float64 := (Z * Z)%type.

Definition half_even (num den : Z) : Z :=
  let q := num / den in
  match 2 * (num mod den) ?= den with
  | Lt => q
  | Gt => q + 1
  | Eq => if Z.even q then q else q + 1
  end.

(** [num / den] divided by a power of the base. *)
Definition scale (base num den e : Z) : Z * Z :=
  if 0 <=? e then (num, den * base ^ e) else (num * base ^ (- e), den).

(** The nearest float64 to [num / den], unless it is too large. *)
Definition to_float64 (num den : Z) : option float64 :=
  if num =? 0 then Some (0, 0)
  else
    let e := Z.log2 num - Z.log2 den - 52 in
    let '(n, d) := scale 2 num den e in
    let e := Z.max (-1074) (if n <? d * 2 ^ 52 then e - 1 else e) in
    let '(n, d) := scale 2 num den e in
    let m := half_even n d in
    let '(m, e) := if m =? 2 ^ 53 then (2 ^ 52, e + 1) else (m, e) in
    if 971 <? e then None else Some (m, e).

(** [m * 10 ^ e] *)
Definition decimal_float (m e : Z) : option float64 :=
  if 0 <=? e then to_float64 (m * 10 ^ e) 1 else to_float64 m (10 ^ (- e)).

(** ** The shortest decimal *)

Fixpoint log10_go (fuel : nat) (n : Z) : Z :=
  match fuel with
  | O => 0
  | S fuel => if n <? 10 then 0 else 1 + log10_go fuel (n / 10)
  end.

Definition log10 (n : Z) : Z := log10_go (S (Z.to_nat (Z.log2 n))) n.

(** The power of ten of the first digit of [num / den]. *)
Definition first_digit (num den : Z) : Z :=
  let p := log10 num - log10 den in
  let '(n, d) := scale 10 num den p in
  if n <? d then p - 1 else p.

(** The decimals with [k] digits on either side of [num / den], which is the float [f]: the
    one that is rounded to [f], and the nearer one if both are. *)
Definition with_digits (f : float64) (num den k : Z) : option (Z * Z) :=
  let q := first_digit num den - k + 1 in
  let '(n, d) := scale 10 num den q in
  let lo := n / d in
  let rounds x := bool_decide (decimal_float x q = Some f) in
  if rounds lo then
    if rounds (lo + 1) && negb (half_even n d =? lo) then Some (lo + 1, q) else Some (lo, q)
  else if rounds (lo + 1) then Some (lo + 1, q)
  else None.

(** At most seventeen digits are needed. *)
Fixpoint shortest_go (fuel : nat) (k : Z) (f : float64) (num den : Z) : option (Z * Z) :=
  match fuel with
  | O => None
  | S fuel =>
      match with_digits f num den k with
      | Some d => Some d
      | None => shortest_go fuel (k + 1) f num den
      end
  end.

Definition shortest (f : float64) : option (Z * Z) :=
  let '(num, den) := scale 2 f.1 1 (- f.2) in shortest_go 17 1 f num den.

(** ** Printing *)

Fixpoint strip_zeros (fuel : nat) (m e : Z) : Z * Z :=
  match fuel with
  | O => (m, e)
  | S fuel => if m mod 10 =? 0 then strip_zeros fuel (m / 10) (e + 1) else (m, e)
  end.

Definition zeros (n : Z) : string := str_repeat (Z.to_nat n) "0".

(** The format of encoding/json: an exponent for numbers below a millionth and from ten to
    the twenty-first on. *)
Definition print_decimal (m e : Z) : string :=
  let ds := format_uint m in
  let p := e + Z.of_nat (String.length ds) - 1 in
  if (p <? -6) || (21 <=? p) then
    let '(d, rest) := str_split_at 1 ds in
    d +:+ (if str_empty rest then "" else "." +:+ rest) +:+ "e" +:+ (if p <? 0 then "-" else "+") +:+
    format_uint (Z.abs p)
  else if 0 <=? e then ds +:+ zeros e
  else if 0 <=? p then
    let '(int, frac) := str_split_at (Z.to_nat (p + 1)) ds in int +:+ "." +:+ frac
  else "0." +:+ zeros (- p - 1) +:+ ds.

Definition print_float64 (f : float64) : option string :=
  if f.1 =? 0 then Some "0"
  else '(m, e) ← shortest f; let '(m, e) := strip_zeros 400 m e in Some (print_decimal m e).

(** The text of a number literal that was decoded as float64; none if it is out of range. *)
Definition float64_text (lit : string) : option string :=
  '(neg, m, e) ← read_decimal lit;
  f ← decimal_float m e;
  s ← print_float64 f;
  Some ((if (neg : bool) then "-" else "") +:+ s).

(** ** Documents *)

(** A document as [any]: numbers are float64, objects are maps, which encoding/json prints
    in the order of their keys; of fields with the same name the last one counts. *)
Fixpoint decode_any (j : json) : option json :=
  match j with
  | JNum lit => JNum <$> float64_text lit
  | JArr l => JArr <$> mapM decode_any l
  | JObj fields =>
      kvs ← mapM (λ kv, pair kv.1 <$> decode_any kv.2) fields;
      Some (JObj (merge_sort (λ a b, String.le a.1 b.1)
        (map_to_list (list_to_map (reverse kvs) : gmap string json))))
  | j => Some j
  end.

(** The fields of a map, which is printed in the order of its keys. *)
Definition sorted_fields (kvs : list (string * json)) : list (string * json) :=
  merge_sort (λ a b, String.le a.1 b.1)
    (map_to_list (list_to_map (reverse kvs) : gmap string json)).

(** What is stored when a document is decoded into an [any], and whether that went without
    an error: a number that is out of range is one, and leaves nil in its place. *)
Fixpoint decode_value (j : json) : json * bool :=
  match j with
  | JNum lit => match float64_text lit with Some s => (JNum s, true) | None => (JNull, false) end
  | JArr l => (JArr ((λ j, (decode_value j).1) <$> l), forallb (λ j, (decode_value j).2) l)
  | JObj kvs =>
      (JObj (sorted_fields ((λ kv, (kv.1, (decode_value kv.2).1)) <$> kvs)),
       forallb (λ kv, (decode_value kv.2).2) kvs)
  | j => (j, true)
  end.

(** A field of type [any]; nil is [None].  A number that is out of range leaves it. *)
Definition dec_any {S} (set : option json → S → S) : decoder S := λ j s,
  match j with
  | JNull => (set None s, true)
  | JNum lit =>
      match float64_text lit with Some t => (set (Some (JNum t)) s, true) | None => (s, false) end
  | j => (set (Some (decode_value j).1) s, (decode_value j).2)
  end.

(** A field of type [map[string]any] that is nil before. *)
Definition dec_map {S} (set : option (gmap string json) → S → S) : decoder S := λ j s,
  match j with
  | JObj kvs =>
      (set (Some (foldl (λ m kv, <[kv.1 := (decode_value kv.2).1]> m) ∅ kvs)) s,
       forallb (λ kv, (decode_value kv.2).2) kvs)
  | JNull => (set None s, true)
  | _ => (s, false)
  end.

(** Values that decoding leaves as they are: the strings are UTF-8, the numbers are printed
    as a float64 is, and the fields of objects are in order. *)
Inductive plain_value : json → Prop :=
  | plain_null : plain_value JNull
  | plain_bool b : plain_value (JBool b)
  | plain_num lit :
      number_ok lit = true → float64_text lit = Some lit → plain_value (JNum lit)
  | plain_str s : valid_utf8 s = true → plain_value (JStr s)
  | plain_arr l : Forall plain_value l → plain_value (JArr l)
  | plain_obj kvs :
      Forall (λ kv, valid_utf8 kv.1 = true ∧ plain_value kv.2) kvs → sorted_fields kvs = kvs →
      plain_value (JObj kvs).

Example float64_texts :
  float64_text <$> ["0"; "-0"; "12"; "1.50"; "1e2"; "9007199254740993"; "1152921504606846976"; "1e21";
    "123456789012345678901234"; "0.000001"; "0.0000001"; "5e-324"; "1e-400"; "0.1"; "1e309"; "-2.5e-10";
    "179769313486231570814527423731704356798070e267"; "100000000000000000000"] =
  [Some "0"; Some "-0"; Some "12"; Some "1.5"; Some "100"; Some "9007199254740992";
   Some "1152921504606847000"; Some "1e+21"; Some "1.2345678901234569e+23"; Some "0.000001";
   Some "1e-7"; Some "5e-324"; Some "0"; Some "0.1"; None; Some "-2.5e-10";
   Some "1.7976931348623157e+308"; Some "100000000000000000000"].
Proof. vm_compute. reflexivity. Qed.

(** ** Small integers *)

Lemma pow_split b x y : 0 ≤ x → 0 ≤ y → b ^ (x + y) = b ^ x * b ^ y.
Proof. intros. by apply Z.pow_add_r. Qed.

(** A natural number below [2 ^ 53] is a float64. *)
Lemma to_float64_nat n :
  0 < n < 2 ^ 53 → to_float64 n 1 = Some (n * 2 ^ (52 - Z.log2 n), Z.log2 n - 52).
Proof.
  intros Hn. pose proof (Z.log2_spec n ltac:(lia)) as [Hlo Hhi].
  pose proof (Z.log2_nonneg n) as H0.
  assert (Z.log2 n ≤ 52) as H52.
  { assert (Z.log2 n < 53); [|lia]. apply Z.log2_lt_pow2; lia. }
  assert (scale 2 n 1 (Z.log2 n - 0 - 52) = (n * 2 ^ (52 - Z.log2 n), 1)) as Hs.
  { unfold scale. destruct (Z.leb_spec 0 (Z.log2 n - 0 - 52)).
    - assert (Z.log2 n = 52) as -> by lia. simpl. f_equal. lia.
    - f_equal. f_equal. f_equal. lia. }
  assert (2 ^ 52 ≤ n * 2 ^ (52 - Z.log2 n) < 2 ^ 53) as Hm.
  { assert (2 ^ 52 = 2 ^ Z.log2 n * 2 ^ (52 - Z.log2 n)) as ->
      by (rewrite <- pow_split by lia; f_equal; lia).
    assert (2 ^ 53 = 2 ^ Z.succ (Z.log2 n) * 2 ^ (52 - Z.log2 n)) as ->
      by (rewrite <- pow_split by lia; f_equal; lia).
    pose proof (Z.pow_pos_nonneg 2 (52 - Z.log2 n)). nia. }
  unfold to_float64. destruct (Z.eqb_spec n 0) as [|_]; [lia|]. change (Z.log2 1) with 0.
  rewrite Hs. destruct (Z.ltb_spec (n * 2 ^ (52 - Z.log2 n)) (1 * 2 ^ 52)) as [|_]; [lia|].
  rewrite Z.max_r by lia. rewrite Hs. unfold half_even. rewrite Z.div_1_r, Z.mod_1_r.
  change (2 * 0 ?= 1) with Lt. cbv iota. destruct (Z.eqb_spec (n * 2 ^ (52 - Z.log2 n)) (2 ^ 53)) as [|_]; [lia|].
  destruct (Z.ltb_spec 971 (Z.log2 n - 0 - 52)) as [|_]; [lia|]. f_equal. f_equal. lia.
Qed.

Lemma to_float64_inj a b :
  0 < a < 2 ^ 53 → 0 < b < 2 ^ 53 → to_float64 a 1 = to_float64 b 1 → a = b.
Proof.
  intros Ha Hb. rewrite !to_float64_nat by done. intros [= Hm Hl].
  assert (Z.log2 a = Z.log2 b) as He by lia. rewrite He in Hm.
  apply Z.mul_reg_r in Hm; [done|]. assert (Z.log2 b < 53) by (apply Z.log2_lt_pow2; lia).
  pose proof (Z.pow_pos_nonneg 2 (52 - Z.log2 b)). lia.
Qed.

Lemma log10_go_spec fuel n :
  0 < n < 2 ^ Z.of_nat fuel → let p := log10_go fuel n in 0 ≤ p ∧ 10 ^ p ≤ n < 10 ^ (p + 1).
Proof.
  revert n. induction fuel as [|fuel IH]; intros n Hn; simpl in *; [lia|].
  destruct (Z.ltb_spec n 10) as [|Hge]; [simpl; lia|].
  rewrite Nat2Z.inj_succ, Z.pow_succ_r in Hn by lia.
  pose proof (Z.div_mod n 10 ltac:(lia)) as Hd. pose proof (Z.mod_pos_bound n 10 ltac:(lia)) as Hr.
  destruct (IH (n / 10)) as (H0 & Hlo & Hhi); [lia|]. cbv zeta in *.
  set (p := log10_go fuel (n / 10)) in *. split; [lia|].
  rewrite (pow_split 10 1 p), (pow_split 10 (1 + p) 1), (pow_split 10 1 p) by lia.
  rewrite pow_split in Hhi by lia. lia.
Qed.

Lemma log10_spec n : 0 < n → let p := log10 n in 0 ≤ p ∧ 10 ^ p ≤ n < 10 ^ (p + 1).
Proof.
  intros Hn. apply log10_go_spec. split; [done|].
  rewrite Nat2Z.inj_succ, Z2Nat.id by apply Z.log2_nonneg. by apply Z.log2_spec.
Qed.

(** The first digit of [num / den], for a quotient that is not less than 1. *)
Lemma first_digit_spec num den :
  0 < den ≤ num → let p := first_digit num den in 0 ≤ p ∧ den * 10 ^ p ≤ num < den * 10 ^ (p + 1).
Proof.
  intros Hn. destruct (log10_spec num) as (Ha & Hnum); [lia|].
  destruct (log10_spec den) as (Hb & Hden); [lia|].
  unfold first_digit. cbv zeta in *. set (a := log10 num) in *. set (b := log10 den) in *.
  assert (b ≤ a) as Hab.
  { assert (b < a + 1); [|lia]. apply (Z.pow_lt_mono_r_iff 10); lia. }
  unfold scale. destruct (Z.leb_spec 0 (a - b)) as [_|]; [|lia].
  assert (10 ^ a = 10 ^ (a - b) * 10 ^ b) as Hsplit by (rewrite <- pow_split by lia; f_equal; lia).
  rewrite pow_split in Hnum, Hden by lia. rewrite Hsplit in Hnum.
  pose proof (Z.pow_pos_nonneg 10 (a - b)). pose proof (Z.pow_pos_nonneg 10 b).
  destruct (Z.ltb_spec num (den * 10 ^ (a - b))) as [Hlt|Hge].
  - assert (0 < a - b) as Hpos by (destruct (decide (a - b = 0)) as [Heq|]; [rewrite Heq in Hlt|]; lia).
    assert (10 ^ (a - b) = 10 ^ (a - b - 1) * 10) as H10
      by (rewrite <- (pow_split 10 _ 1) by lia; f_equal; lia).
    split; [lia|]. rewrite Z.sub_add. split; [|done]. rewrite H10 in Hnum.
    pose proof (Z.pow_pos_nonneg 10 (a - b - 1)). nia.
  - split; [lia|]. split; [done|]. rewrite pow_split by lia. nia.
Qed.

(** The decimals of a small integer. *)
Lemma with_digits_nat n den k :
  let f := (n * den, - Z.log2 den) in
  0 < n < 10 ^ 15 → 0 < den → to_float64 n 1 = Some f →
  let q := first_digit (n * den) den - k + 1 in
  1 ≤ k → 0 ≤ q →
  with_digits f (n * den) den k = if n / 10 ^ q * 10 ^ q =? n then Some (n / 10 ^ q, q) else None.
Proof.
  intros f Hn Hden Hf q Hk Hq. destruct (first_digit_spec (n * den) den) as (Hp & Hlo & Hhi); [nia|].
  cbv zeta in *. set (p := first_digit (n * den) den) in *.
  assert (10 ^ p ≤ n) as Hpn by nia.
  assert (q ≤ p) as Hqp by lia.
  assert (0 < 10 ^ q) as Hq0 by by apply Z.pow_pos_nonneg.
  assert (10 ^ q ≤ n) as Hqn.
  { transitivity (10 ^ p); [|done]. apply Z.pow_le_mono_r; lia. }
  assert (q < 15) as Hq15 by (apply (Z.pow_lt_mono_r_iff 10); lia).
  assert (10 ^ 15 = 10 ^ (15 - q) * 10 ^ q) as H15 by (rewrite <- pow_split by lia; f_equal; lia).
  pose proof (Z.div_mod n (10 ^ q) ltac:(lia)) as Hdm.
  pose proof (Z.mod_pos_bound n (10 ^ q) Hq0) as Hr.
  assert (1 ≤ n / 10 ^ q) as Hl1 by (apply Z.div_le_lower_bound; lia).
  assert (n / 10 ^ q < 10 ^ (15 - q)) as Hl2 by (apply Z.div_lt_upper_bound; lia).
  assert (10 ^ 15 < 2 ^ 53) as Hsmall by done.
  assert (∀ x, 0 < x → x * 10 ^ q ≤ 10 ^ 15 →
    bool_decide (decimal_float x q = Some f) = (x * 10 ^ q =? n)) as Hrounds.
  { intros x Hx Hx15. unfold decimal_float. destruct (Z.leb_spec 0 q) as [_|]; [|lia].
    apply eq_bool_prop_intro. rewrite bool_decide_spec. unfold Is_true.
    destruct (Z.eqb_spec (x * 10 ^ q) n) as [->|Hne]; [by rewrite Hf|]. split; [|done].
    intros Heq. apply Hne. apply to_float64_inj; [nia|lia|congruence]. }
  unfold with_digits. fold p. fold q. unfold scale. destruct (Z.leb_spec 0 q) as [_|]; [|lia].
  rewrite (Z.mul_comm den), Z.div_mul_cancel_r by lia.
  rewrite !Hrounds by nia.
  destruct (Z.eqb_spec ((n / 10 ^ q + 1) * 10 ^ q) n) as [|_]; [nia|]. done.
Qed.

(** The decimal that is found has no more digits than the number, and is the number. *)
Lemma shortest_go_nat fuel n den k :
  let f := (n * den, - Z.log2 den) in
  0 < n < 10 ^ 15 → 0 < den → to_float64 n 1 = Some f →
  let p := first_digit (n * den) den in
  1 ≤ k ≤ p + 1 → p + 1 < k + Z.of_nat fuel →
  ∃ m q, shortest_go fuel k f (n * den) den = Some (m, q) ∧ 0 ≤ q ∧ m * 10 ^ q = n.
Proof.
  intros f Hn Hden Hf p. revert k. induction fuel as [|fuel IH]; intros k Hk Hfuel; [lia|].
  cbn [shortest_go]. unfold f. rewrite with_digits_nat by (done || lia). fold p. fold f.
  destruct (Z.eqb_spec (n / 10 ^ (p - k + 1) * 10 ^ (p - k + 1)) n) as [Heq|Hne].
  - eexists _, _. split; [done|]. split; [lia|done].
  - apply IH; [|lia]. destruct (decide (k = p + 1)) as [->|]; [|lia]. destruct Hne.
    replace (p - (p + 1) + 1) with 0 by lia. by rewrite Z.pow_0_r, Z.div_1_r, Z.mul_1_r.
Qed.

Lemma shortest_nat n f :
  0 < n < 10 ^ 15 → to_float64 n 1 = Some f →
  ∃ m q, shortest f = Some (m, q) ∧ 0 ≤ q ∧ m * 10 ^ q = n.
Proof.
  intros Hn Hf. pose proof Hf as Hf'.
  assert (10 ^ 15 < 2 ^ 53) as Hsmall by done.
  rewrite to_float64_nat in Hf' by lia. injection Hf' as <-.
  assert (Z.log2 n < 53) as H53 by (apply Z.log2_lt_pow2; lia).
  set (j := 52 - Z.log2 n) in *.
  assert (0 < 2 ^ j) as Hden by (apply Z.pow_pos_nonneg; lia).
  assert (Z.log2 n - 52 = - Z.log2 (2 ^ j)) as He by (rewrite Z.log2_pow2; lia).
  unfold shortest, scale. cbn [fst snd]. destruct (Z.leb_spec 0 (- (Z.log2 n - 52))) as [_|]; [|lia].
  replace (- (Z.log2 n - 52)) with j by lia. rewrite Z.mul_1_l. rewrite He in *.
  destruct (first_digit_spec (n * 2 ^ j) (2 ^ j)) as (Hp & Hlo & Hhi); [nia|]. cbv zeta in *.
  assert (first_digit (n * 2 ^ j) (2 ^ j) < 15) as H15.
  { apply (Z.pow_lt_mono_r_iff 10); [lia..|]. nia. }
  apply shortest_go_nat; [done|done|done|lia|lia].
Qed.

Lemma strip_zeros_spec fuel m e m' e' :
  0 < m → 0 ≤ e → strip_zeros fuel m e = (m', e') → 0 < m' ∧ 0 ≤ e' ∧ m' * 10 ^ e' = m * 10 ^ e.
Proof.
  revert m e. induction fuel as [|fuel IH]; intros m e Hm He; simpl; [by intros [= <- <-]|].
  destruct (Z.eqb_spec (m mod 10) 0) as [H0|]; [|by intros [= <- <-]].
  pose proof (Z.div_mod m 10 ltac:(lia)) as Hd. rewrite H0 in Hd.
  intros Hs. destruct (IH (m / 10) (e + 1)) as (? & ? & ->); [lia|lia|done|].
  split; [done|]. split; [done|]. rewrite pow_split by lia. lia.
Qed.

(** ** Digits *)

Lemma dec_go_app fuel n acc : dec_go fuel n acc = dec_go fuel n "" +:+ acc.
Proof.
  revert n acc. induction fuel as [|fuel IH]; intros n acc; simpl; [done|].
  destruct (n <? 10); [done|]. rewrite IH, (IH _ (String _ "")), app_assoc'. done.
Qed.

Lemma dec_go_fuel fuel fuel' n acc :
  (0 < fuel)%nat → (0 < fuel')%nat → 0 ≤ n < 2 ^ Z.of_nat fuel → n < 2 ^ Z.of_nat fuel' →
  dec_go fuel n acc = dec_go fuel' n acc.
Proof.
  revert fuel' n acc. induction fuel as [|fuel IH]; intros fuel' n acc H0 H0' Hn Hn'; [lia|].
  destruct fuel' as [|fuel']; [lia|]. simpl. destruct (Z.ltb_spec n 10) as [|Hge]; [done|].
  rewrite Nat2Z.inj_succ, Z.pow_succ_r in Hn, Hn' by lia.
  assert (∀ f, n < 2 * 2 ^ Z.of_nat f → (0 < f)%nat) as Hpos
    by (intros [|f] Hf; simpl in *; lia).
  pose proof (Z.div_mod n 10 ltac:(lia)). pose proof (Z.mod_pos_bound n 10 ltac:(lia)).
  apply IH; [apply Hpos; lia|apply Hpos; lia|lia|lia].
Qed.

Lemma format_uint_fuel n : 0 ≤ n → n < 2 ^ Z.of_nat (S (Z.to_nat (Z.log2 n))).
Proof.
  intros Hn. rewrite Nat2Z.inj_succ, Z2Nat.id by apply Z.log2_nonneg.
  destruct (decide (n = 0)) as [->|]; [done|]. apply Z.log2_spec. lia.
Qed.

Lemma format_uint_ten n : 0 < n → format_uint (n * 10) = format_uint n +:+ "0".
Proof.
  intros Hn. unfold format_uint at 1. pose proof (format_uint_fuel (n * 10) ltac:(lia)) as Hf.
  set (fuel := Z.to_nat (Z.log2 (n * 10))) in *. rewrite Nat2Z.inj_succ, Z.pow_succ_r in Hf by lia.
  simpl. destruct (Z.ltb_spec (n * 10) 10) as [|_]; [lia|].
  rewrite Z.div_mul, Z.mod_mul by lia. rewrite dec_go_app. f_equal. unfold format_uint.
  apply dec_go_fuel; [|lia|lia|apply format_uint_fuel; lia].
  destruct fuel; [simpl in Hf|]; lia.
Qed.

Lemma zeros_app e : 0 ≤ e → zeros (e + 1) = "0" +:+ zeros e.
Proof. intros He. unfold zeros. by rewrite Z.add_1_r, Z2Nat.inj_succ. Qed.

Lemma format_uint_zeros m e : 0 < m → 0 ≤ e → format_uint (m * 10 ^ e) = format_uint m +:+ zeros e.
Proof.
  intros Hm He. revert m Hm. pattern e. apply natlike_ind; [|clear e He; intros e He IH m Hm|done].
  - intros m Hm. rewrite Z.mul_1_r. by rewrite app_nil_r'.
  - rewrite Z.pow_succ_r, Z.mul_assoc by done. rewrite IH by lia. rewrite format_uint_ten by done.
    rewrite <- Z.add_1_r, zeros_app by done. by rewrite app_assoc'.
Qed.

Lemma dec_go_length fuel n k :
  0 ≤ n < 10 ^ Z.of_nat k → (0 < k)%nat → (String.length (dec_go fuel n "") ≤ k)%nat.
Proof.
  revert n k. induction fuel as [|fuel IH]; intros n k Hn Hk; simpl; [lia|].
  destruct (Z.ltb_spec n 10) as [|Hge]; [simpl; lia|].
  rewrite dec_go_app, length_app'. simpl. destruct k as [|k]; [lia|].
  rewrite Nat2Z.inj_succ, Z.pow_succ_r in Hn by lia.
  assert (0 < k)%nat by (destruct k; [simpl in Hn; lia|lia]).
  specialize (IH (n / 10) k). pose proof (Z.div_mod n 10 ltac:(lia)).
  pose proof (Z.mod_pos_bound n 10 ltac:(lia)). lia.
Qed.

(** ** Integers survive *)

Lemma print_decimal_nat m e : 0 < m → 0 ≤ e → m * 10 ^ e < 10 ^ 15 → print_decimal m e = format_uint (m * 10 ^ e).
Proof.
  intros Hm He Hn. rewrite format_uint_zeros by done. unfold print_decimal.
  pose proof (Z.pow_pos_nonneg 10 e ltac:(lia) He) as H10.
  assert (e < 15) as He15 by (apply (Z.pow_lt_mono_r_iff 10); nia).
  assert (10 ^ 15 = 10 ^ (15 - e) * 10 ^ e) as H15 by (rewrite <- pow_split by lia; f_equal; lia).
  assert (String.length (format_uint m) ≤ Z.to_nat (15 - e))%nat as Hlen.
  { apply dec_go_length; [|lia]. rewrite Z2Nat.id by lia. nia. }
  pose proof (format_uint_nonempty m) as Hne.
  assert (0 < String.length (format_uint m))%nat as Hpos by (destruct (format_uint m); simpl; [done|lia]).
  set (len := Z.of_nat (String.length (format_uint m))) in *.
  destruct (Z.ltb_spec (e + len - 1) (-6)); [lia|]. destruct (Z.leb_spec 21 (e + len - 1)); [lia|].
  simpl. by destruct (Z.leb_spec 0 e); [|lia].
Qed.

Lemma read_unsigned_uint n : 0 ≤ n → read_unsigned (format_uint n) = Some (n, 0).
Proof.
  intros Hn. unfold read_unsigned. rewrite number_int_uint by done. simpl.
  by rewrite app_nil_r', parse_format_uint by done.
Qed.

Lemma read_decimal_int n : read_decimal (format_int n) = Some (n <? 0, Z.abs n, 0).
Proof.
  unfold read_decimal, format_int. destruct (Z.ltb_spec n 0) as [Hn|Hn].
  - change (number_sign ("-" +:+ format_uint (- n))) with ("-", format_uint (- n)). cbv beta iota.
    by rewrite Z.abs_neq, read_unsigned_uint by lia.
  - rewrite number_sign_uint by done. cbv beta iota. by rewrite Z.abs_eq, read_unsigned_uint by lia.
Qed.

(** An integer of at most fifteen digits is what it was. *)
Theorem float64_keeps_integers n : - 10 ^ 15 < n < 10 ^ 15 → float64_text (format_int n) = Some (format_int n).
Proof.
  intros Hn. unfold float64_text. rewrite read_decimal_int. cbn [mbind option_bind].
  unfold decimal_float. change (0 <=? 0) with true. cbv iota. rewrite Z.pow_0_r, Z.mul_1_r.
  assert (10 ^ 15 < 2 ^ 53) as Hsmall by done.
  destruct (decide (n = 0)) as [->|H0]; [done|].
  destruct (to_float64 (Z.abs n) 1) as [f|] eqn:Hf; [|by rewrite to_float64_nat in Hf by lia].
  destruct (shortest_nat (Z.abs n) f) as (m & q & Hs & Hq & Hm); [lia|done|].
  unfold print_float64.
  assert (f.1 ≠ 0) as Hne.
  { rewrite to_float64_nat in Hf by lia. injection Hf as <-. simpl.
    assert (Z.log2 (Z.abs n) < 53) by (apply Z.log2_lt_pow2; lia).
    pose proof (Z.pow_pos_nonneg 2 (52 - Z.log2 (Z.abs n))). nia. }
  cbn [mbind option_bind]. apply Z.eqb_neq in Hne as ->. rewrite Hs. cbn [mbind option_bind].
  destruct (strip_zeros 400 m q) as [m' q'] eqn:Hz. pose proof (Z.pow_pos_nonneg 10 q ltac:(lia) Hq).
  apply strip_zeros_spec in Hz as (Hm' & Hq' & Hz); [|nia|done].
  cbn [mbind option_bind]. rewrite print_decimal_nat by lia. rewrite Hz, Hm. unfold format_int.
  destruct (Z.ltb_spec n 0); [by rewrite Z.abs_neq by lia|by rewrite Z.abs_eq by lia].
Qed.

(** ** Decoding into [any] *)

(** The two readings of a document agree: one fails when the other met an error. *)
Lemma mapM_values {A} (f : A → option json) (g : A → json * bool) (k : A → json → A) l :
  Forall (λ a, f a = if (g a).2 then Some (g a).1 else None) l →
  mapM f l = if forallb (λ a, (g a).2) l then Some ((λ a, (g a).1) <$> l) else None.
Proof.
  induction 1 as [|a l Ha _ IH]; [done|]. cbn [mapM mbind option_bind forallb]. rewrite Ha.
  destruct (g a).2; simpl; [|done]. rewrite IH. by destruct (forallb _ l).
Qed.

Lemma decode_any_value j :
  decode_any j = if (decode_value j).2 then Some (decode_value j).1 else None.
Proof.
  induction j as [| |lit| |l IH|kvs IH] using json_nested_ind; try done.
  - simpl. by destruct (float64_text lit).
  - cbn [decode_any decode_value fst snd]. rewrite (mapM_values _ decode_value (λ _ j, j)) by done.
    by destruct (forallb _ l).
  - cbn [decode_any decode_value fst snd].
    assert (mapM (λ kv, pair kv.1 <$> decode_any kv.2) kvs =
      if forallb (λ kv, (decode_value kv.2).2) kvs
      then Some ((λ kv, (kv.1, (decode_value kv.2).1)) <$> kvs) else None) as ->.
    { induction IH as [|kv kvs Hkv _ IH]; [done|].
      cbn [mapM mbind option_bind forallb]. rewrite Hkv.
      destruct (decode_value kv.2).2; simpl; [|done]. simpl in IH. rewrite IH.
      by destruct (forallb _ kvs). }
    by destruct (forallb _ kvs).
Qed.

Lemma plain_value_spec j :
  plain_value j → json_ok j = true ∧ json_utf8 j = true ∧ decode_value j = (j, true).
Proof.
  induction j as [| |lit|str|l IH|kvs IH] using json_nested_ind; intros Hp; try done;
    inversion Hp as [| |? Hn Hf|? Hu|? Hl|? Hl Hs]; subst; clear Hp.
  - split_and!; [done|done|]. simpl. by rewrite Hf.
  - done.
  - cbn [json_ok json_utf8 decode_value]. rewrite !forallb_Forall_true.
    assert (Forall (λ j, json_ok j = true ∧ json_utf8 j = true ∧ decode_value j = (j, true)) l) as Hj.
    { rewrite Forall_forall in *. intros j Hj. by apply IH, Hl. }
    split_and!; [eapply Forall_impl; [exact Hj|]; by intros j (? & ? & ?)..|].
    assert ((λ j, (decode_value j).1) <$> l = l ∧ forallb (λ j, (decode_value j).2) l = true) as [-> ->];
      [|done].
    clear IH Hl. induction Hj as [|j l (_ & _ & Hj) _ [IH1 IH2]]; [done|].
    cbn [fmap list_fmap forallb]. rewrite Hj. split; [f_equal; exact IH1|exact IH2].
  - cbn [json_ok json_utf8 decode_value]. rewrite !forallb_Forall_true.
    assert (Forall (λ kv, json_ok kv.2 = true ∧ (valid_utf8 kv.1 && json_utf8 kv.2) = true ∧
      decode_value kv.2 = (kv.2, true)) kvs) as Hj.
    { rewrite Forall_forall in *. intros kv Hkv. destruct (Hl kv Hkv) as [Hk Hv].
      destruct (IH kv Hkv Hv) as (? & Hu & ?). rewrite Hk, Hu. done. }
    split_and!; [eapply Forall_impl; [exact Hj|]; by intros kv (? & ? & ?)..|].
    assert ((λ kv, (kv.1, (decode_value kv.2).1)) <$> kvs = kvs ∧
      forallb (λ kv, (decode_value kv.2).2) kvs = true) as [-> ->]; [|by rewrite Hs].
    clear IH Hl Hs. induction Hj as [|[k v] kvs (_ & _ & Hkv) _ [IH1 IH2]]; [done|].
    cbn [fmap list_fmap forallb fst snd] in *. rewrite Hkv. split; [f_equal; exact IH1|exact IH2].
Qed.

(** Integers of at most fifteen digits are plain. *)
Lemma plain_int n : - 10 ^ 15 < n < 10 ^ 15 → plain_value (jint n).
Proof. intros Hn. apply plain_num; [apply number_ok_int|by apply float64_keeps_integers]. Qed.
