(* ===== verification/Errors.v ===== *)
(** * Error values (errors/errors.go, and the standard package errors)

    The error values the SDK builds, with [errors.Is] and [errors.As] over the
    chain of wrapped errors. *)

From S2P Require Import Prelude GoBytes GoTime GoJson.

Open Scope Z_scope.

(** ** Error values *)

(** Errors that are package-level variables, compared by identity. *)
Inductive sentinel :=
  | ErrBadRequest | ErrFunctionMissing | ErrUnauthorized
  | ErrExpiredSignature | ErrInvalidSignature | ErrInvalidTimestamp
  | ErrUnauthenticated | ErrTooManyConnections | ErrGatewayDraining
  | ErrEventNotReceived
  | ErrEOF | ErrNetClosed | ErrCanceled | ErrDeadlineExceeded.

#[export] Instance sentinel_eq_dec : EqDecision sentinel.
Proof. solve_decision. Defined.

Definition sentinel_text (s : sentinel) : string :=
  match s with
  | ErrBadRequest => "bad request"
  | ErrFunctionMissing => "function not found"
  | ErrUnauthorized => "unauthorized"
  | ErrExpiredSignature => "expired signature"
  | ErrInvalidSignature => "invalid signature"
  | ErrInvalidTimestamp => "invalid timestamp"
  | ErrUnauthenticated => "authentication failed"
  | ErrTooManyConnections => "too many connections"
  | ErrGatewayDraining => "gateway is draining"
  | ErrEventNotReceived => "event not received"
  | ErrEOF => "EOF"
  | ErrNetClosed => "use of closed network connection"
  | ErrCanceled => "context canceled"
  | ErrDeadlineExceeded => "context deadline exceeded"
  end.

(** [EText] is an error with a message only, [EWrap] what [fmt.Errorf] makes of a
    format with one [%w], [EJoin] what [errors.Join] makes.  The inner error of a
    wrapper that Go keeps in a nillable interface is optional. *)
Inductive goerr :=
  | EText (msg : string)
  | ESentinel (s : sentinel)
  | EWrap (msg : string) (err : goerr)
  | EJoin (errs : list goerr)
  | EStep (name message : string) (data : option json)
  | ENoRetry (err : option goerr)
  | ERetryAt (err : option goerr) (at_ : time)
  | EReconnect (err : goerr)
  | EPublic (code message : string) (status : Z) (err : option goerr)
  | ESyscode (code message : string)
  | EClose (reason text : string).

(** ** Messages *)

(** [fmt] recovers from an [Error] method that panics. *)
Definition fmt_panic (verb : string) : string :=
  "%!" +:+ verb +:+ "(PANIC=Error method: runtime error: " +:+
  "invalid memory address or nil pointer dereference)".

(** The [Error] methods of [noRetryError] and [retryAtError]: that of the inner error. *)
Definition noRetryError_Error (Error : goerr → option string) (Err : option goerr) : option string :=
  match Err with Some e => Error e | None => None end.

Definition retryAtError_Error (Error : goerr → option string) (Err : option goerr) : option string :=
  match Err with Some e => Error e | None => None end.

(** [err.Error()]; [None] is the nil-pointer panic of a wrapper without an inner
    error. *)
Fixpoint err_msg (e : goerr) : option string :=
  match e with
  | EText m => Some m
  | ESentinel s => Some (sentinel_text s)
  | EWrap m _ => Some m
  | EJoin es => str_join newline <$> mapM err_msg es
  | EStep _ m _ => Some m
  | ENoRetry oe => noRetryError_Error err_msg oe
  | ERetryAt oe _ => retryAtError_Error err_msg oe
  | EPublic _ _ _ (Some e) => err_msg e
  | EPublic _ _ _ None => None
  | EReconnect e => Some ("reconnect error: " +:+ default (fmt_panic "v") (err_msg e))
  | ESyscode code m => Some (if str_empty m then code else m)
  | EClose _ text => Some text
  end.

(** What [fmt] prints for an error under the verb. *)
Definition fmt_err (verb : string) (e : goerr) : string :=
  default (fmt_panic verb) (err_msg e).

(** [fmt.Errorf(pre + "%w" + post, err)] *)
Definition errorf (pre : string) (e : goerr) (post : string) : goerr :=
  EWrap (pre +:+ fmt_err "w" e +:+ post) e.

(** ** The chain of wrapped errors *)

Definition noRetryError_Unwrap (Err : option goerr) : list goerr := option_list Err.
Definition retryAtError_Unwrap (Err : option goerr) : list goerr := option_list Err.

Definition unwrap (e : goerr) : list goerr :=
  match e with
  | EWrap _ e | EReconnect e => [e]
  | EJoin es => es
  | ENoRetry oe => noRetryError_Unwrap oe
  | ERetryAt oe _ => retryAtError_Unwrap oe
  | EPublic _ _ _ oe => option_list oe
  | EText _ | ESentinel _ | EStep _ _ _ | ESyscode _ _ | EClose _ _ => []
  end.

(** The first error of the chain, in the pre-order of [errors.Is] and
    [errors.As], on which [f] answers. *)
Fixpoint err_find {A} (f : goerr → option A) (e : goerr) : option A :=
  match f e with
  | Some a => Some a
  | None =>
      match e with
      | EWrap _ e | EReconnect e => err_find f e
      | EJoin es =>
          (fix go es := match es with
                        | [] => None
                        | e :: es => match err_find f e with Some a => Some a | None => go es end
                        end) es
      | ENoRetry (Some e) | ERetryAt (Some e) _ | EPublic _ _ _ (Some e) => err_find f e
      | _ => None
      end
  end.

(** Targets of [errors.Is]: a sentinel, or a value of a type of errors/errors.go. *)
Inductive err_target :=
  | TSentinel (s : sentinel)
  | TStepError
  | TNoRetryError
  | TRetryAtError.

(** The [Is] methods: they look at the type of the target only. *)
Definition StepError_Is (t : err_target) : bool :=
  match t with TStepError => true | _ => false end.
Definition noRetryError_Is (t : err_target) : bool :=
  match t with TNoRetryError => true | _ => false end.
Definition retryAtError_Is (t : err_target) : bool :=
  match t with TRetryAtError => true | _ => false end.

(** [e] is the target, or its [Is] method accepts it. *)
Definition is_target (t : err_target) (e : goerr) : bool :=
  match e with
  | ESentinel s' => match t with TSentinel s => bool_decide (s = s') | _ => false end
  | EStep _ _ _ => StepError_Is t
  | ENoRetry _ => noRetryError_Is t
  | ERetryAt _ _ => retryAtError_Is t
  | _ => false
  end.

Definition err_is (t : err_target) (e : goerr) : bool :=
  bool_decide (is_Some (err_find (λ e, if is_target t e then Some tt else None) e)).

(** ** errors/errors.go *)

Definition IsStepError : goerr → bool := err_is TStepError.

Definition NoRetryError (e : goerr) : goerr := ENoRetry (Some e).
Definition IsNoRetryError : goerr → bool := err_is TNoRetryError.

Definition RetryAtError (e : goerr) (at_ : time) : goerr := ERetryAt (Some e) at_.

Definition GetRetryAtTime (e : goerr) : option time :=
  err_find (λ e, match e with ERetryAt _ t => Some t | _ => None end) e.

(** The two tests on a nil-able error. *)
Definition opt_err (f : goerr → bool) (e : option goerr) : bool :=
  match e with Some e => f e | None => false end.

(** ** connect/handshake.go, connect/connection.go: errors that ask to reconnect *)

Definition newReconnectErr (wrapped : goerr) : goerr := EReconnect wrapped.

Definition shouldReconnect (e : goerr) : bool :=
  bool_decide (is_Some
    (err_find (λ e, match e with EReconnect _ => Some tt | _ => None end) e)).

(** [errors.As(err, &websocket.CloseError)]: its reason. *)
Definition as_close (e : goerr) : option string :=
  err_find (λ e, match e with EClose reason _ => Some reason | _ => None end) e.

(** ** Theory of the chain *)

(** [n] is [e] or is wrapped in it. *)
Inductive in_chain (n : goerr) : goerr → Prop :=
  | in_chain_here : in_chain n n
  | in_chain_unwrap e e' : e' ∈ unwrap e → in_chain n e' → in_chain n e.

Section goerr_ind.
Variable P : goerr → Prop.
Hypothesis Hstep : ∀ e, Forall P (unwrap e) → P e.

(** Induction over the chain, errors inside joins and optional wrappers
    included. *)
Fixpoint goerr_chain_ind (e : goerr) : P e :=
  Hstep e
    (match e as e return Forall P (unwrap e) with
     | EWrap _ e | EReconnect e => Forall_cons_2 P e [] (goerr_chain_ind e) (Forall_nil_2 P)
     | EJoin es =>
         (fix go es : Forall P es := match es with
                       | [] => Forall_nil_2 P
                       | e :: es => Forall_cons_2 P e es (goerr_chain_ind e) (go es)
                       end) es
     | ENoRetry (Some e) | ERetryAt (Some e) _ | EPublic _ _ _ (Some e) =>
         Forall_cons_2 P e [] (goerr_chain_ind e) (Forall_nil_2 P)
     | _ => Forall_nil_2 P
     end).
End goerr_ind.

Lemma err_find_unfold {A} (f : goerr → option A) e :
  err_find f e =
  match f e with
  | Some a => Some a
  | None =>
      foldr (λ e acc, match err_find f e with Some a => Some a | None => acc end) None (unwrap e)
  end.
Proof.
  destruct e as [| |m e|es| |[e|]|[e|] t|e|c m st [e|]| |]; simpl;
    (destruct (f _); [done|]); try done; try by destruct (err_find f e).
Qed.

Lemma err_find_Some {A} (f : goerr → option A) e :
  is_Some (err_find f e) ↔ ∃ n, in_chain n e ∧ is_Some (f n).
Proof.
  split.
  - induction e as [e IH] using goerr_chain_ind. rewrite err_find_unfold.
    destruct (f e) eqn:Hf; [intros _; exists e; split; [constructor|by eauto]|].
    intros Hs.
    assert (∃ e', e' ∈ unwrap e ∧ is_Some (err_find f e')) as (e' & He' & Hs').
    { clear IH. induction (unwrap e) as [|e' es IH]; [by destruct Hs|].
      simpl in Hs. destruct (err_find f e') eqn:E.
      - exists e'. split; [set_solver|by eauto].
      - destruct (IH Hs) as (e'' & ? & ?). exists e''. split; [set_solver|done]. }
    rewrite Forall_forall in IH. destruct (IH e' He' Hs') as (n & ? & ?).
    exists n. split; [by econstructor|done].
  - intros (n & Hn & Hf). induction Hn as [|e e' He' _ IH]; rewrite err_find_unfold.
    + destruct Hf as [a ->]. by eauto.
    + destruct (f e); [by eauto|].
      induction (unwrap e) as [|e'' es IHes]; [set_solver|]. simpl.
      destruct (err_find f e'') eqn:E; [by eauto|].
      apply IHes. set_unfold in He'. destruct He' as [->|]; [|done].
      rewrite E in IH. by destruct IH.
Qed.

Lemma err_is_chain t e : err_is t e = true ↔ ∃ n, in_chain n e ∧ is_target t n = true.
Proof.
  unfold err_is. rewrite bool_decide_eq_true, err_find_Some.
  split; intros (n & ? & Hn); exists n; (split; [done|]); destruct (is_target t n); naive_solver.
Qed.

Lemma shouldReconnect_chain e : shouldReconnect e = true ↔ ∃ r, in_chain (EReconnect r) e.
Proof.
  unfold shouldReconnect. rewrite bool_decide_eq_true, err_find_Some. split.
  - intros ([] & ? & [? ?]); try done. by eauto.
  - intros (r & ?). exists (EReconnect r). by eauto.
Qed.

(** The targets by the errors that match them. *)
Lemma IsStepError_chain e : IsStepError e = true ↔ ∃ n m d, in_chain (EStep n m d) e.
Proof.
  unfold IsStepError. rewrite err_is_chain. split; [|naive_solver].
  intros (n & Hn & Ht). destruct n; try done. by eauto.
Qed.

Lemma IsNoRetryError_chain e : IsNoRetryError e = true ↔ ∃ oe, in_chain (ENoRetry oe) e.
Proof.
  unfold IsNoRetryError. rewrite err_is_chain. split; [|naive_solver].
  intros (n & Hn & Ht). destruct n; try done. by eauto.
Qed.

Lemma is_sentinel_chain s e : err_is (TSentinel s) e = true ↔ in_chain (ESentinel s) e.
Proof.
  rewrite err_is_chain. split.
  - intros (n & Hn & Ht). destruct n; try done. by apply bool_decide_eq_true in Ht as ->.
  - intros Hs. eexists. split; [done|]. by apply bool_decide_eq_true.
Qed.

(** The instant of the first retry-at error of a chain: that of the error itself, or that
    of the first wrapped error with one. *)
Inductive first_retry_at : goerr → time → Prop :=
  | first_here oe t : first_retry_at (ERetryAt oe t) t
  | first_inside e pre e' post t :
      (∀ oe t, e ≠ ERetryAt oe t) → unwrap e = pre ++ e' :: post →
      Forall (λ e, ∀ oe t, ¬ in_chain (ERetryAt oe t) e) pre →
      first_retry_at e' t → first_retry_at e t.

Lemma GetRetryAtTime_None e :
  GetRetryAtTime e = None ↔ ∀ oe t, ¬ in_chain (ERetryAt oe t) e.
Proof.
  rewrite eq_None_not_Some. unfold GetRetryAtTime. rewrite err_find_Some. split.
  - intros Hno oe t Hin. apply Hno. eexists. split; [exact Hin|]. by eexists.
  - intros Hno (n & Hin & [t Ht]). destruct n; try done. by eapply Hno.
Qed.

Lemma GetRetryAtTime_first e t : GetRetryAtTime e = Some t ↔ first_retry_at e t.
Proof.
  split.
  - revert t. induction e as [e IH] using goerr_chain_ind. intros t. unfold GetRetryAtTime.
    rewrite err_find_unfold. destruct (match e with ERetryAt _ _ => _ | _ => None end) eqn:He.
    { intros [= ->]. destruct e; simplify_eq. constructor. }
    intros Hf. assert (∃ pre e' post, unwrap e = pre ++ e' :: post ∧
      Forall (λ e, ∀ oe t, ¬ in_chain (ERetryAt oe t) e) pre ∧ first_retry_at e' t)
      as (pre & e' & post & ? & ? & ?).
    { revert IH Hf. clear. induction (unwrap e) as [|e' es IHes]; [done|].
      intros [He' Hes]%Forall_cons Hf. simpl in Hf. fold (GetRetryAtTime e') in Hf.
      destruct (GetRetryAtTime e') as [t'|] eqn:E.
      - simplify_eq. exists [], e', es. split_and!; [done|done|by apply He'].
      - destruct (IHes Hes Hf) as (pre & e'' & post & -> & Hpre & ?).
        exists (e' :: pre), e'', post. split_and!; [done| |done].
        constructor; [by apply GetRetryAtTime_None|done]. }
    eapply first_inside; [|done..]. intros oe t' ->. done.
  - induction 1 as [|e pre e' post t Hne Hun Hpre _ IH]; [done|].
    unfold GetRetryAtTime in *. rewrite err_find_unfold.
    assert ((match e with ERetryAt _ t => Some t | _ => None end) = None) as ->.
    { destruct e; try done. by destruct (Hne err at_). }
    rewrite Hun. clear Hun. induction Hpre as [|x pre Hx _ IHpre]; simpl; [by rewrite IH|].
    apply GetRetryAtTime_None in Hx. unfold GetRetryAtTime in Hx. by rewrite Hx.
Qed.

(** Wrapping never hides an error from [errors.Is]. *)
Lemma err_is_unwrap t e e' : e' ∈ unwrap e → err_is t e' = true → err_is t e = true.
Proof. rewrite !err_is_chain. intros ? (n & ? & ?). exists n. split; [by econstructor|done]. Qed.

Lemma err_is_errorf t pre e post : err_is t (errorf pre e post) = err_is t e.
Proof.
  apply eq_bool_prop_intro. rewrite !Is_true_true, !err_is_chain. unfold errorf. split.
  - intros (n & Hn & Ht). inversion Hn as [|? e' He']; subst.
    + by destruct t.
    + simpl in He'. apply list_elem_of_singleton in He' as ->. eauto.
  - intros (n & Hn & Ht). exists n. split; [|done].
    apply (in_chain_unwrap _ _ e); [by apply list_elem_of_singleton|done].
Qed.

#[export] Hint Resolve in_chain_here : inngest.
#[export] Hint Rewrite err_is_errorf : inngest_str.
