(* ===== verification/GoHttp.v ===== *)
(** * HTTP messages (package net/http)

    Headers with canonical keys, incoming requests, and the response writer: the
    first write or [WriteHeader] fixes the status and the headers that are sent. *)

From S2P Require Import Prelude GoBytes GoJson GoUrl GoUrlParse Errors.

Open Scope Z_scope.

(** ** Headers *)

Abbreviation header := (gmap string (list string)).

Definition token_byte (c : ascii) : bool := is_alnum c || byte_in "!#$%&'*+-.^_`|~" c.

Fixpoint canonical_go (upper : bool) (s : string) : string :=
  match s with
  | "" => ""
  | String c s =>
      String (if upper then to_upper_byte c else to_lower_byte c)
        (canonical_go (bool_decide (c = "-"%char)) s)
  end.

(** [http.CanonicalHeaderKey] *)
Definition canonical_key (k : string) : string :=
  if str_all token_byte k then canonical_go true k else k.

Definition header_get (k : string) (h : header) : string := values_get (canonical_key k) h.
Definition header_set (k v : string) (h : header) : header := <[canonical_key k := [v]]> h.
Definition header_add (k v : string) (h : header) : header := values_append (canonical_key k) v h.

(** ** Requests *)

Inductive method := MethodGet | MethodPost | MethodPut | MethodOther (name : string).

(** A body: the bytes that can be read, and the error the reading ends with, if not
    the end of the body. *)
Record body := { b_bytes : string; b_err : option goerr }.

Record http_request := {
  hr_method : method;
  hr_url : url;
  hr_requestURI : string;
  hr_host : string;
  hr_tls : bool;
  hr_header : header;
  hr_body : body }.

(** ** Responses *)

(** [rw_sent] is the status and the headers that went out, [rw_header] the map
    the handler edits. *)
Record writer := { rw_header : header; rw_sent : option (Z * header); rw_body : string }.

Definition new_writer : writer := {| rw_header := ∅; rw_sent := None; rw_body := "" |}.

Definition WriteHeader (status : Z) (w : writer) : writer :=
  match rw_sent w with
  | Some _ => w
  | None => {| rw_header := rw_header w; rw_sent := Some (status, rw_header w);
               rw_body := rw_body w |}
  end.

Definition Write (s : string) (w : writer) : writer :=
  let w := WriteHeader 200 w in
  {| rw_header := rw_header w; rw_sent := rw_sent w; rw_body := rw_body w +:+ s |}.

Definition edit_header (f : header → header) (w : writer) : writer :=
  {| rw_header := f (rw_header w); rw_sent := rw_sent w; rw_body := rw_body w |}.

(** What the client gets when the handler is done. *)
Definition response_of (w : writer) : Z * header * string :=
  match rw_sent w with
  | Some (status, h) => (status, h, rw_body w)
  | None => (200, rw_header w, rw_body w)
  end.

Definition rw_status (w : writer) : Z := (response_of w).1.1.

(** [json.NewEncoder(w).Encode] of a value with the document [j]; [None] is its
    error, after which nothing is written. *)
Definition write_json (j : option json) (w : writer) : writer :=
  match j with Some j => Write (json_encode j) w | None => w end.

Definition errBodyTooLarge : goerr := EText "http: request body too large".

(** [io.ReadAll(http.MaxBytesReader(w, body, max))]: a body beyond the limit closes
    the connection after the reply. *)
Definition read_all (max : Z) (b : body) (w : writer) : writer * res goerr string :=
  let max := Z.max 0 max in
  if max <? Z.of_nat (String.length (b_bytes b))
  then (match rw_sent w with
        | None => edit_header (header_set "Connection" "close") w
        | Some _ => w
        end, Err errBodyTooLarge)
  else (w, match b_err b with Some e => Err e | None => Ok (b_bytes b) end).

(** ** Laws *)

Lemma header_get_set k v h : header_get k (header_set k v h) = v.
Proof. unfold header_get, header_set, values_get. by rewrite lookup_insert_eq. Qed.

Lemma header_get_set_ne k k' v h :
  canonical_key k ≠ canonical_key k' → header_get k (header_set k' v h) = header_get k h.
Proof. intros Hk. unfold header_get, header_set, values_get. by rewrite lookup_insert_ne. Qed.

Lemma WriteHeader_sent status w s : rw_sent w = Some s → WriteHeader status w = w.
Proof. unfold WriteHeader. by intros ->. Qed.

Lemma rw_status_WriteHeader s w : rw_sent w = None → rw_status (WriteHeader s w) = s.
Proof. unfold rw_status, response_of, WriteHeader. intros ->. done. Qed.

Lemma rw_status_Write t w : rw_sent w ≠ None → rw_status (Write t w) = rw_status w.
Proof.
  unfold rw_status, response_of, Write, WriteHeader.
  destruct (rw_sent w) as [[]|] eqn:Hs; simpl; by rewrite ?Hs.
Qed.

Lemma rw_status_edit f w : rw_status (edit_header f w) = rw_status w.
Proof. unfold rw_status, response_of, edit_header. simpl. by destruct (rw_sent w) as [[]|]. Qed.

Lemma rw_status_write_json j w : rw_sent w ≠ None → rw_status (write_json j w) = rw_status w.
Proof. destruct j; [apply rw_status_Write|done]. Qed.

Example canonical_keys :
  canonical_key <$> ["x-inngest-sync-kind"; "X-Inngest-SDK"; "content-type"; "Retry-After"; "bad key"] =
  ["X-Inngest-Sync-Kind"; "X-Inngest-Sdk"; "Content-Type"; "Retry-After"; "bad key"].
Proof. vm_compute. reflexivity. Qed.
