(* ===== verification/Env.v ===== *)
(** * Configuration (env.go, platform.go, consts.go, headers.go, handler options)

    The environment of the process is a function from names to values, with the
    empty string for a variable that is not set, as [os.Getenv] has it. *)

From S2P Require Import Prelude GoBytes GoUrl GoUrlParse GoHttp.

Open Scope Z_scope.

(** ** Constants (consts.go, headers.go) *)

Definition SDKAuthor : string := "inngest".
Definition SDKLanguage : string := "go".
Definition SDKVersion : string := "0.8.0".
Definition SyncKindInBand : string := "in_band".
Definition SyncKindOutOfBand : string := "out_of_band".
Definition devServerOrigin : string := "http://127.0.0.1:8288".
Definition defaultAPIOrigin : string := "https://api.inngest.com".
Definition defaultEventAPIOrigin : string := "https://inn.gs".

Definition HeaderKeyAuthorization : string := "Authorization".
Definition HeaderKeyContentType : string := "Content-Type".
Definition HeaderKeyEnv : string := "X-Inngest-Env".
Definition HeaderKeyExpectedServerKind : string := "X-Inngest-Expected-Server-Kind".
Definition HeaderKeyNoRetry : string := "X-Inngest-No-Retry".
Definition HeaderKeyRetryAfter : string := "Retry-After".
Definition HeaderKeySDK : string := "X-Inngest-SDK".
Definition HeaderKeyServerKind : string := "X-Inngest-Server-Kind".
Definition HeaderKeySignature : string := "X-Inngest-Signature".
Definition HeaderKeySyncKind : string := "x-inngest-sync-kind".
Definition HeaderKeyUserAgent : string := "User-Agent".

Definition HeaderValueSDK : string := SDKLanguage +:+ ":v" +:+ SDKVersion.

Definition basic_headers (h : header) : header :=
  header_set HeaderKeyUserAgent HeaderValueSDK
    (header_set HeaderKeySDK HeaderValueSDK (header_set HeaderKeyContentType "application/json" h)).

Definition SetBasicRequestHeaders (h : header) : header := basic_headers h.
Definition SetBasicResponseHeaders (w : writer) : writer := edit_header basic_headers w.

(** ** The environment (env.go, platform.go) *)

Section environment.
Context (Getenv : string → string).

Definition IsDev : bool := negb (str_empty (Getenv "INNGEST_DEV")).

Definition DevServerURL : string :=
  let dev := Getenv "INNGEST_DEV" in
  if negb (str_empty dev) &&
     match url_parse dev with Some u => negb (str_empty (u_Host u)) | None => false end
  then dev else devServerOrigin.

Definition isTrue (val : string) : bool :=
  let val := to_lower val in
  bool_decide (val = "true") || bool_decide (val = "1").

Definition envKeyAllowInBandSync : string := "INNGEST_ALLOW_IN_BAND_SYNC".

Definition platform : string :=
  let region := Getenv "AWS_REGION" in
  if negb (str_empty region) then "aws-" +:+ region
  else if negb (str_empty (Getenv "VERCEL")) then "vercel"
  else if negb (str_empty (Getenv "NETLIFY")) then "netlify"
  else "".

(** ** Handler options (handler.go) *)

(** [type HandlerOpts struct]; of the logger only whether there is one matters. *)
Record HandlerOpts := {
  ho_Logger : bool;
  ho_SigningKey : option string;
  ho_SigningKeyFallback : option string;
  ho_APIBaseURL : option string;
  ho_EventAPIBaseURL : option string;
  ho_ServeOrigin : option string;
  ho_ServePath : option string;
  ho_Env : option string;
  ho_RegisterURL : option string;
  ho_AppVersion : option string;
  ho_MaxBodySize : Z;
  ho_URL : option url;
  ho_UseStreaming : bool;
  ho_AllowInBandSync : option bool;
  ho_Dev : option bool }.

Definition GetSigningKey (h : HandlerOpts) : string :=
  match ho_SigningKey h with Some k => k | None => Getenv "INNGEST_SIGNING_KEY" end.

Definition GetSigningKeyFallback (h : HandlerOpts) : string :=
  match ho_SigningKeyFallback h with
  | Some k => k
  | None => Getenv "INNGEST_SIGNING_KEY_FALLBACK"
  end.

Definition isDev (h : HandlerOpts) : bool :=
  match ho_Dev h with Some d => d | None => IsDev end.

Definition GetAPIBaseURL (h : HandlerOpts) : string :=
  if isDev h then DevServerURL
  else match ho_APIBaseURL h with
  | Some u => u
  | None =>
      let base := Getenv "INNGEST_API_BASE_URL" in
      if negb (str_empty base) then base else defaultAPIOrigin
  end.

Definition GetEventAPIBaseURL (h : HandlerOpts) : string :=
  if isDev h then DevServerURL
  else match ho_EventAPIBaseURL h with
  | Some u => u
  | None =>
      let origin := Getenv "INNGEST_EVENT_API_BASE_URL" in
      if negb (str_empty origin) then origin else defaultEventAPIOrigin
  end.

Definition GetServeOrigin (h : HandlerOpts) : string := default "" (ho_ServeOrigin h).
Definition GetServePath (h : HandlerOpts) : string := default "" (ho_ServePath h).

Definition GetEnv (h : HandlerOpts) : string :=
  match ho_Env h with Some e => e | None => Getenv "INNGEST_ENV" end.

Definition GetRegisterURL (h : HandlerOpts) : string :=
  default "https://www.inngest.com/fn/register" (ho_RegisterURL h).

Definition IsInBandSyncAllowed (h : HandlerOpts) : bool :=
  match ho_AllowInBandSync h with
  | Some b => b
  | None => isTrue (Getenv envKeyAllowInBandSync)
  end.
End environment.

(** [HandlerOpts{}] *)
Definition zero_opts : HandlerOpts :=
  {| ho_Logger := false; ho_SigningKey := None; ho_SigningKeyFallback := None;
     ho_APIBaseURL := None; ho_EventAPIBaseURL := None; ho_ServeOrigin := None;
     ho_ServePath := None; ho_Env := None; ho_RegisterURL := None; ho_AppVersion := None;
     ho_MaxBodySize := 0; ho_URL := None; ho_UseStreaming := false;
     ho_AllowInBandSync := None; ho_Dev := None |}.
