(* ===== verification/Signature.v ===== *)
(** * Request and response signatures (signature.go)

    Signing keys, [Sign], [signWithoutJCS] and the validators.  The JSON
    canonicalisation of the third-party package jcs is a parameter: [None] is its
    error, on which it returns no bytes. *)

From S2P Require Import Prelude GoBytes GoUrl GoHash GoTime GoJson Errors.

Open Scope Z_scope.

#[local] Arguments hmac_sha256 : simpl never.
#[local] Arguments sha256_sum : simpl never.
#[local] Arguments format_int : simpl never.
#[local] Arguments hex_encode : simpl never.

(** [signatureTimeDeltaMax] *)
Definition signatureTimeDeltaMax : Z := 5 * minute.

(** ** Keys *)

Fixpoint span_word (s : string) : string * string :=
  match s with
  | String c r =>
      if is_word c then let '(a, b) := span_word r in (String c a, b) else ("", s)
  | "" => ("", "")
  end.

(** The match of [keyRegexp], [^signkey-\w+-], and the rest of the key.  [\w] does
    not hold the hyphen, so the greedy run of word bytes is the only candidate. *)
Definition key_match (key : string) : option (string * string) :=
  r ← strip_prefix "signkey-" key;
  let '(env, rest) := span_word r in
  if str_empty env then None
  else rest ← strip_prefix "-" rest; Some ("signkey-" +:+ env +:+ "-", rest).

Definition normalizeKey (key : string) : string :=
  match key_match key with Some (_, rest) => rest | None => key end.

(** [keyRegexp.Find] *)
Definition key_prefix (key : string) : string :=
  match key_match key with Some (prefix, _) => prefix | None => "" end.

Definition hashEventKey (key : string) : string := hex_encode (sha256_sum key).

(** [hashedSigningKey]; [None] is the error of [hex.Decode]. *)
Definition hashedSigningKey (key : string) : option string :=
  dst ← hex_decode (normalizeKey key);
  Some (key_prefix key +:+ hex_encode (sha256_sum dst)).

(** ** Signing *)

(** The timestamp that is signed: the zero instant stands for now. *)
Definition sign_ts (now at_ : time) : Z :=
  if is_zero at_ then to_unix now else to_unix at_.

(** [fmt.Sprintf("t=%d&s=%s", ts, sig)] *)
Definition sig_text (ts : Z) (sig : string) : string :=
  "t=" +:+ format_int ts +:+ "&s=" +:+ sig.

Definition mac_text (key body : string) (ts : Z) : string :=
  hex_encode (hmac_sha256 key (body +:+ format_int ts)).

Definition signWithoutJCS (now at_ : time) (key body : string) : string :=
  let key := normalizeKey key in
  let ts := sign_ts now at_ in
  sig_text ts (mac_text key body ts).

Section jcs.
Context (jcs : string → option string).

(** The bytes that are signed: when the canonicalisation fails the failure is
    logged, and [body] is the nil slice it returned. *)
Definition canonical_body (body : string) : string :=
  if str_empty body then body else default "" (jcs body).

Definition Sign (now at_ : time) (key body : string) : string :=
  let key := normalizeKey key in
  let body := canonical_body body in
  let ts := sign_ts now at_ in
  sig_text ts (mac_text key body ts).

(** The first half of both validators: the timestamp of a well-formed signature
    that has not expired. *)
Definition signature_time (now : time) (sig : string) : res goerr time :=
  let '(val, ok) := parse_query sig in
  if negb ok || (str_empty (values_get "t" val) || str_empty (values_get "s" val))
  then Err (ESentinel ErrInvalidSignature)
  else match atoi (values_get "t" val) with
  | None => Err (ESentinel ErrInvalidTimestamp)
  | Some str =>
      let ts := time_unix str in
      if signatureTimeDeltaMax <? time_sub now ts
      then Err (ESentinel ErrExpiredSignature) else Ok ts
  end.

Definition validateRequestSignature (now : time) (sig key body : string) :
  bool * option goerr :=
  let key := normalizeKey key in
  match signature_time now sig with
  | Err e => (false, Some e)
  | Ok ts =>
      let actual := Sign now ts key body in
      if decide (actual ≠ sig) then (false, Some (ESentinel ErrInvalidSignature))
      else (true, None)
  end.

(** Validity, the key that signed the request, and the error. *)
Definition ValidateRequestSignature (now : time) (sig signingKey signingKeyFallback body : string)
  (isDev : bool) : bool * string * option goerr :=
  if isDev then (true, "", None)
  else
    let '(valid, err) := validateRequestSignature now sig signingKey body in
    if negb valid then
      if negb (str_empty signingKeyFallback) then
        let '(valid, err) := validateRequestSignature now sig signingKeyFallback body in
        (valid, if valid then signingKeyFallback else "", err)
      else (valid, "", err)
    else (valid, signingKey, err).

Definition ValidateResponseSignature (now : time) (sig key body : string) :
  bool * option goerr :=
  let body := trim_suffix newline body in
  let key := normalizeKey key in
  match signature_time now sig with
  | Err e => (false, Some e)
  | Ok ts =>
      let actual := signWithoutJCS now ts key body in
      if decide (actual ≠ sig) then (false, Some (ESentinel ErrInvalidSignature))
      else (true, None)
  end.
End jcs.

(** ** Lemmas *)

Lemma span_word_app env rest :
  str_all is_word env = true → span_word (env +:+ String "-" rest) = (env, String "-" rest).
Proof.
  induction env as [|c env IH]; simpl; [done|].
  intros [Hc Henv]%andb_true_iff. by rewrite Hc, IH.
Qed.

(** A key with an environment prefix normalises to its secret. *)
Lemma key_match_prefixed env secret :
  str_all is_word env = true → str_empty env = false →
  key_match ("signkey-" +:+ env +:+ "-" +:+ secret) =
  Some ("signkey-" +:+ env +:+ "-", secret).
Proof.
  intros Henv Hne. unfold key_match. rewrite strip_prefix_app. simpl.
  change ("-" +:+ secret) with (String "-" secret).
  by rewrite span_word_app, Hne.
Qed.

(** A hexadecimal key has no prefix to remove. *)
Lemma strip_prefix_hex key :
  str_all is_hex_lower key = true → strip_prefix "signkey-" key = None.
Proof.
  intros Hk. destruct (strip_prefix "signkey-" key) as [r|] eqn:E; [|done].
  apply strip_prefix_Some in E as ->. rewrite str_all_app in Hk.
  apply andb_true_iff in Hk as [Hk _]. by vm_compute in Hk.
Qed.

Lemma normalizeKey_hex key : str_all is_hex_lower key = true → normalizeKey key = key.
Proof. intros Hk. unfold normalizeKey, key_match. by rewrite strip_prefix_hex. Qed.

Lemma query_unescape_id s :
  contains_byte "%" s = false → contains_byte "+" s = false → query_unescape s = Some s.
Proof.
  induction s as [|c s IH]; [done|]. simpl.
  intros [Hc1 Hs1]%orb_false_iff [Hc2 Hs2]%orb_false_iff.
  apply bool_decide_eq_false in Hc1, Hc2.
  rewrite decide_False by congruence. rewrite IH by done. simpl.
  by rewrite decide_False by congruence.
Qed.

(** Parsing one [key=value] segment whose bytes need no unescaping. *)
Lemma parse_seg_plain m ok k v :
  Forall (λ c, contains_byte c k = false) [";"; "="; "%"; "+"]%char →
  Forall (λ c, contains_byte c v = false) [";"; "%"; "+"]%char →
  parse_seg (m, ok) (k +:+ String "=" v) = (values_append k v m, ok).
Proof.
  rewrite !Forall_cons. intros (Hk1 & Hk2 & Hk3 & Hk4 & _) (Hv1 & Hv2 & Hv3 & _).
  unfold parse_seg. rewrite contains_byte_app, Hk1. simpl. rewrite Hv1. simpl.
  assert (str_empty (k +:+ String "=" v) = false) as -> by by destruct k.
  by rewrite cut_app, !query_unescape_id.
Qed.

Lemma mac_text_hex key body ts : str_all is_hex_lower (mac_text key body ts) = true.
Proof. apply hex_encode_all. Qed.

Lemma mac_text_nonempty key body ts : str_empty (mac_text key body ts) = false.
Proof.
  destruct (mac_text key body ts) eqn:E; [|done].
  apply (f_equal String.length) in E. unfold mac_text, hmac_sha256 in E.
  by rewrite hex_encode_length, sha256_sum_length in E.
Qed.

(** The validators read back what the signers print. *)
Lemma parse_sig_text ts mac :
  str_all is_hex_lower mac = true →
  parse_query (sig_text ts mac) = (values_append "s" mac (values_append "t" (format_int ts) ∅), true).
Proof.
  intros Hmac. unfold parse_query, sig_text.
  assert (∀ c, is_hex_lower c = false → contains_byte c mac = false) as Hc.
  { intros c. by apply str_all_no_byte. }
  assert (∀ c, is_digit c = false → c ≠ "-"%char → contains_byte c (format_int ts) = false) as Hd
    by apply format_int_no_byte.
  change ("t=" +:+ format_int ts +:+ "&s=" +:+ mac)
    with (("t" +:+ String "=" (format_int ts)) +:+ String "&" ("s" +:+ String "=" mac)).
  rewrite split_on_app by (rewrite contains_byte_app; simpl; by rewrite Hd).
  rewrite split_on_none by (rewrite contains_byte_app; simpl; by rewrite Hc).
  cbn [foldl]. rewrite !parse_seg_plain; try by repeat constructor; auto.
Qed.

Lemma signature_time_sig_text now ts mac :
  in_int64 ts → str_all is_hex_lower mac = true → str_empty mac = false →
  signature_time now (sig_text ts mac) =
  if signatureTimeDeltaMax <? time_sub now (time_unix ts)
  then Err (ESentinel ErrExpiredSignature) else Ok (time_unix ts).
Proof.
  intros Hts Hmac Hne. unfold signature_time. rewrite parse_sig_text by done.
  rewrite (values_get_append_ne "t"), !values_get_append
    by (done || by apply lookup_insert_ne).
  rewrite Hne. destruct (str_empty (format_int ts)) eqn:E.
  { destruct (format_int_nonempty ts). by destruct (format_int ts). }
  simpl. by rewrite atoi_format_int.
Qed.

(** The instants a validator accepts are not the zero instant, when the clock is
    past the Unix epoch. *)
Lemma signature_time_Ok now sig ts :
  clock_ok now → signature_time now sig = Ok ts →
  ∃ s, in_int64 s ∧ ts = time_unix s ∧ sign_ts now ts = s ∧
       time_sub now ts ≤ signatureTimeDeltaMax.
Proof.
  intros [Hext Hns]. unfold signature_time.
  destruct (parse_query sig) as [val ok]. destruct (_ || _); [done|].
  destruct (atoi _) as [s|] eqn:Ha; [|done].
  destruct (Z.ltb_spec signatureTimeDeltaMax (time_sub now (time_unix s))); [done|].
  intros [= <-]. exists s.
  assert (in_int64 s).
  { unfold atoi in Ha. destruct (values_get "t" val) as [|c r]; [done|].
    repeat case_decide; destruct (str_empty _); try done;
      destruct (parse_digits _ _); simplify_eq/=; case_decide; by simplify_eq. }
  split_and!; [done|done| |done]. unfold sign_ts.
  destruct (is_zero (time_unix s)) eqn:Hz; [exfalso|by apply to_unix_time_unix].
  apply andb_true_iff in Hz as [Hz _]. apply Z.eqb_eq in Hz.
  unfold time_sub, signatureTimeDeltaMax, minute in *. rewrite Hz in *. simpl in *.
  unfold second, unix_to_internal, min_int64, max_int64 in *.
  repeat case_match; lia.
Qed.

Lemma trim_suffix_app s : trim_suffix newline (s +:+ newline) = s.
Proof.
  assert (∀ s, (if decide (s +:+ newline = newline) then "" else s) = s) as Hs.
  { intros t. case_decide as Ht; [|done].
    apply (app_inj_same_length t "") in Ht as [-> _]; [done|].
    apply (f_equal String.length) in Ht. rewrite length_app' in Ht. simpl in *. lia. }
  induction s as [|c s IH]; [done|]. rewrite app_cons. cbn [trim_suffix].
  rewrite IH. apply (Hs (String c s)).
Qed.

(** ** Theorems *)

Section theorems.
Context (jcs : string → option string).

(** What the validator accepts, for both halves of the proofs below. *)
Lemma validate_ok_iff now sig key body :
  clock_ok now →
  validateRequestSignature jcs now sig key body = (true, None) ↔
  ∃ ts, in_int64 ts ∧ time_sub now (time_unix ts) ≤ signatureTimeDeltaMax ∧
        sig = sig_text ts (mac_text (normalizeKey (normalizeKey key))
                             (canonical_body jcs body) ts).
Proof.
  intros Hnow. unfold validateRequestSignature. split.
  - destruct (signature_time now sig) as [t|] eqn:Ht; [|done].
    destruct (signature_time_Ok _ _ _ Hnow Ht) as (ts & ? & -> & Hts & ?).
    case_decide as Hsig; [done|]. intros _. exists ts. split_and!; [done..|].
    rewrite <- Hsig. unfold Sign. by rewrite Hts.
  - intros (ts & Hts & Hexp & ->).
    assert (∀ mac, str_all is_hex_lower mac = true → str_empty mac = false →
      signature_time now (sig_text ts mac) = Ok (time_unix ts)) as Hst.
    { intros mac ??. rewrite signature_time_sig_text by done.
      destruct (Z.ltb_spec signatureTimeDeltaMax (time_sub now (time_unix ts))); [lia|done]. }
    rewrite Hst by auto using mac_text_hex, mac_text_nonempty.
    rewrite decide_False; [done|]. intros Hne. apply Hne. unfold Sign.
    destruct (signature_time_Ok now (sig_text ts (mac_text key body ts)) (time_unix ts))
      as (ts' & ? & Heq & <- & _);
      [done|by apply Hst; auto using mac_text_hex, mac_text_nonempty|].
    apply (f_equal to_unix) in Heq. rewrite !to_unix_time_unix in Heq by done.
    by rewrite <- Heq.
Qed.

Lemma validate_error now sig key body :
  validateRequestSignature jcs now sig key body = (true, None) ∨
  ∃ e, validateRequestSignature jcs now sig key body = (false, Some e).
Proof.
  unfold validateRequestSignature. destruct (signature_time now sig); [|by eauto].
  case_decide; eauto.
Qed.

(** C13: a request signature is accepted exactly when it is, byte for byte, the
    printed timestamp and the HMAC of the canonical body and that timestamp
    under the normalised key, and the timestamp is at most five minutes old. *)
Theorem request_signature_iff now sig key body :
  clock_ok now →
  validateRequestSignature jcs now sig key body = (true, None) ↔
  ∃ ts, in_int64 ts ∧ time_sub now (time_unix ts) ≤ signatureTimeDeltaMax ∧
        sig = sig_text ts (mac_text (normalizeKey (normalizeKey key))
                             (canonical_body jcs body) ts).
Proof. apply validate_ok_iff. Qed.

(** Signing then validating with the same key succeeds within five minutes,
    for every key whose secret does not itself carry a [signkey-] prefix. *)
Theorem sign_then_validate now now' at_ key body :
  clock_ok now → normalizeKey (normalizeKey key) = normalizeKey key →
  time_sub now (time_unix (sign_ts now' at_)) ≤ signatureTimeDeltaMax →
  validateRequestSignature jcs now (Sign jcs now' at_ key body) key body = (true, None).
Proof.
  intros Hnow Hkey Hexp. apply validate_ok_iff; [done|].
  exists (sign_ts now' at_). split_and!; [|done|].
  - unfold sign_ts. case_match; apply to_unix_int64.
  - unfold Sign. by rewrite Hkey.
Qed.

Lemma validated_key now sig key fallback body k e :
  ValidateRequestSignature jcs now sig key fallback body false = (true, k, e) →
  k = key ∨ k = fallback.
Proof.
  unfold ValidateRequestSignature.
  destruct (validateRequestSignature jcs now sig key body) as [[] e1]; simpl; [by intros [= <- _]; left|].
  destruct (str_empty fallback); simpl; [done|].
  destruct (validateRequestSignature jcs now sig fallback body) as [[] e2]; [|done].
  intros [= <- _]. by right.
Qed.

(** In the cloud a request is valid exactly under the signing key or, failing
    that, under a configured fallback key; the key returned is the one that
    validated, and an invalid request carries an error and no key. *)
Theorem validate_with_fallback now sig key fallback body :
  let valid k := validateRequestSignature jcs now sig k body = (true, None) in
  let run := ValidateRequestSignature jcs now sig key fallback body false in
  (valid key → run = (true, key, None)) ∧
  (¬ valid key → fallback ≠ "" → valid fallback → run = (true, fallback, None)) ∧
  (¬ valid key → fallback = "" ∨ ¬ valid fallback → ∃ e, run = (false, "", Some e)).
Proof.
  cbn zeta. unfold ValidateRequestSignature.
  destruct (validate_error now sig key body) as [->|[e ->]]; simpl;
    [split_and!; done|].
  split_and!; [done| |].
  - intros _ Hne Hv. rewrite Hv. by destruct fallback.
  - intros _ [->|Hn]; [by eauto|]. destruct (str_empty fallback); [by eauto|]. simpl.
    destruct (validate_error now sig fallback body) as [?|[e' ->]]; [done|by eauto].
Qed.

(** The environment in a signing key does not matter: a secret signs the
    same with any prefix or none. *)
Theorem sign_ignores_prefix now at_ env secret body :
  str_all is_word env = true → env ≠ "" → str_all is_hex_lower secret = true →
  Sign jcs now at_ ("signkey-" +:+ env +:+ "-" +:+ secret) body =
  Sign jcs now at_ secret body.
Proof.
  intros Henv Hne Hs. unfold Sign. f_equal.
  rewrite (normalizeKey_hex secret) by done.
  unfold normalizeKey. rewrite key_match_prefixed; [done|done|by destruct env].
Qed.

(** Signed bytes validate when they come back with or without a final newline. *)
Lemma signed_response_valid now now' at_ key body body' :
  clock_ok now → normalizeKey (normalizeKey key) = normalizeKey key →
  time_sub now (time_unix (sign_ts now' at_)) ≤ signatureTimeDeltaMax →
  trim_suffix newline body' = body →
  ValidateResponseSignature now (signWithoutJCS now' at_ key body) key body' = (true, None).
Proof.
  intros Hnow Hkey Hexp Hbody. unfold ValidateResponseSignature, signWithoutJCS.
  set (ts := sign_ts now' at_) in *.
  assert (in_int64 ts) by (unfold ts, sign_ts; case_match; apply to_unix_int64).
  assert (signature_time now (sig_text ts (mac_text (normalizeKey key) body ts)) =
    Ok (time_unix ts)) as Hst.
  { rewrite signature_time_sig_text by auto using mac_text_hex, mac_text_nonempty.
    destruct (Z.ltb_spec signatureTimeDeltaMax (time_sub now (time_unix ts))); [lia|done]. }
  rewrite Hst, Hbody, Hkey.
  destruct (signature_time_Ok _ _ _ Hnow Hst) as (ts' & ? & Heq & -> & _).
  apply (f_equal to_unix) in Heq. rewrite !to_unix_time_unix in Heq by done.
  rewrite <- Heq. by rewrite decide_False by auto.
Qed.

(** A response that the handler signs without canonicalisation and writes
    with the JSON encoder's trailing newline validates on the other side. *)
Theorem response_sign_then_validate now now' at_ key body :
  clock_ok now → normalizeKey (normalizeKey key) = normalizeKey key →
  time_sub now (time_unix (sign_ts now' at_)) ≤ signatureTimeDeltaMax →
  ValidateResponseSignature now (signWithoutJCS now' at_ key body) key (body +:+ newline)
  = (true, None).
Proof. intros. apply signed_response_valid; [done..|apply trim_suffix_app]. Qed.

(** A body the canonicaliser rejects is not covered by its signature: any
    two such bodies, and the empty body, validate the same signatures. *)
Theorem malformed_bodies_unsigned now sig key body :
  jcs body = None →
  validateRequestSignature jcs now sig key body =
  validateRequestSignature jcs now sig key "".
Proof.
  intros Hj. unfold validateRequestSignature, Sign.
  assert (canonical_body jcs body = canonical_body jcs "") as ->; [|done].
  unfold canonical_body. rewrite Hj. by destruct body.
Qed.
End theorems.

(** ** Witnesses *)

(** A canonicaliser for the witnesses: reprint the parsed text. *)
Definition reprint (body : string) : option string := json_print <$> json_parse body.

Definition clock0 : time := Time (1700000000 + unix_to_internal) 0 0.
Definition clock1 : time := Time (1700000060 + unix_to_internal) 500 0.

Lemma clock1_ok : clock_ok clock1.
Proof. vm_compute. repeat split; congruence. Qed.

Definition testKey : string := "signkey-test-12345678".

(** The digest that signature_test.go expects. *)
Example hashed_test_key : hashedSigningKey testKey =
  Some "signkey-test-b2ed992186a5cb19f6668aade821f502c1d00970dfd0e35128d51bac4649916c".
Proof. vm_compute. reflexivity. Qed.

Lemma request_signature_iff_witness :
  validateRequestSignature reprint clock1 (Sign reprint clock0 clock0 testKey "{ }") testKey "{}"
  = (true, None).
Proof.
  apply (request_signature_iff reprint clock1); [apply clock1_ok|].
  exists 1700000000.
  split_and!; [by apply (bool_decide_unpack _); vm_compute|vm_compute; congruence|by vm_compute].
Defined.

Lemma sign_then_validate_witness :
  validateRequestSignature reprint clock1 (Sign reprint clock0 clock0 testKey "[1]") testKey "[1]"
  = (true, None).
Proof.
  apply (sign_then_validate reprint clock1 clock0 clock0 testKey);
    [apply clock1_ok|reflexivity|vm_compute; congruence].
Defined.

Lemma validate_with_fallback_witness :
  ValidateRequestSignature reprint clock1 (Sign reprint clock0 clock0 testKey "[1]")
    "signkey-test-00" testKey "[1]" false = (true, testKey, None).
Proof.
  apply (validate_with_fallback reprint clock1 _ "signkey-test-00" testKey "[1]");
    [by vm_compute|done|by vm_compute].
Defined.

Lemma sign_ignores_prefix_witness :
  Sign reprint clock1 clock0 "signkey-prod-12345678" "[1]" =
  Sign reprint clock1 clock0 "12345678" "[1]".
Proof. apply (sign_ignores_prefix reprint clock1 clock0 "prod" "12345678"); done. Defined.

Lemma response_sign_then_validate_witness :
  ValidateResponseSignature clock1 (signWithoutJCS clock0 clock0 testKey "{}") testKey
    ("{}" +:+ newline) = (true, None).
Proof.
  apply (response_sign_then_validate clock1 clock0 clock0 testKey);
    [apply clock1_ok|reflexivity|vm_compute; congruence].
Defined.

Lemma malformed_bodies_unsigned_witness :
  validateRequestSignature reprint clock1 (Sign reprint clock0 clock0 testKey "") testKey "not json"
  = (true, None).
Proof.
  rewrite (malformed_bodies_unsigned reprint clock1 _ testKey "not json"); by vm_compute.
Defined.
