(* ===== verification/Manager.v ===== *)
(** * The invocation manager (internal/sdkrequest)

    The request sent by the executor, the manager that a function invocation
    threads through its step tools, and the identifiers of steps. *)

From S2P Require Import Prelude GoBytes GoHash GoTime GoJson Errors.

Open Scope Z_scope.

#[global] Arguments sha1_sum : simpl never.
#[global] Arguments hex_encode : simpl never.
#[global] Arguments format_int : simpl never.

(** ** Opcodes (vendored enums and state packages) *)

Inductive Opcode :=
  | OpcodeNone | OpcodeStep | OpcodeStepRun | OpcodeStepError | OpcodeStepPlanned
  | OpcodeSleep | OpcodeWaitForEvent | OpcodeInvokeFunction | OpcodeAIGateway.

#[export] Instance Opcode_eq_dec : EqDecision Opcode.
Proof. solve_decision. Defined.

Definition Opcode_name (o : Opcode) : string :=
  match o with
  | OpcodeNone => "None"
  | OpcodeStep => "Step"
  | OpcodeStepRun => "StepRun"
  | OpcodeStepError => "StepError"
  | OpcodeStepPlanned => "StepPlanned"
  | OpcodeSleep => "Sleep"
  | OpcodeWaitForEvent => "WaitForEvent"
  | OpcodeInvokeFunction => "InvokeFunction"
  | OpcodeAIGateway => "AIGateway"
  end.

(** The fields of [state.UserError] that the SDK sets. *)
Record UserError := {
  ue_name : string;
  ue_message : string;
  ue_data : option json }.

(** [Opts] is kept as the JSON it is marshalled to ([JNull] for nil). *)
Record GeneratorOpcode := {
  g_id : string;
  g_op : Opcode;
  g_name : string;
  g_opts : json;
  g_data : option json;
  g_error : option UserError }.

(** A nil [json.RawMessage] is marshalled as [null], and left out under
    [omitempty]. *)
Definition raw_json (r : option json) : json := default JNull r.

Definition UserError_json (u : UserError) : json :=
  JObj ([("name", JStr (ue_name u)); ("message", JStr (ue_message u))] ++
        match ue_data u with Some d => [("data", d)] | None => [] end).

Definition GeneratorOpcode_json (g : GeneratorOpcode) : json :=
  JObj [("op", JStr (Opcode_name (g_op g))); ("id", JStr (g_id g)); ("name", JStr (g_name g));
        ("opts", g_opts g); ("data", raw_json (g_data g));
        ("error", match g_error g with Some u => UserError_json u | None => JNull end);
        ("displayName", JNull)].

(** ** The request (request.go) *)

Record CallStack := { current : Z; stack : list string }.

Record CallCtx := {
  disableImmediateExecution : bool;
  cc_env : string;
  cc_functionID : string;
  cc_runID : string;
  cc_stepID : string;
  cc_stack : CallStack;
  cc_attempt : Z }.

Record Request := {
  r_event : option json;
  r_events : list json;
  r_steps : gmap string json;
  r_callCtx : CallCtx;
  r_useAPI : bool }.

Definition zero_CallStack : CallStack := {| current := 0; stack := [] |}.

Definition zero_CallCtx : CallCtx :=
  {| disableImmediateExecution := false; cc_env := ""; cc_functionID := ""; cc_runID := "";
     cc_stepID := ""; cc_stack := zero_CallStack; cc_attempt := 0 |}.

Definition zero_Request : Request :=
  {| r_event := None; r_events := []; r_steps := ∅; r_callCtx := zero_CallCtx;
     r_useAPI := false |}.

(** Decoding of the request, in the order of the struct fields. *)
Definition dec_uint {S} (set : Z → S → S) : decoder S := λ j s,
  match j with
  | JNum lit =>
      match parse_digits lit 0 with
      | Some n => if (n <? 2 ^ 64) && negb (str_empty lit) then (set n s, true) else (s, false)
      | None => (s, false)
      end
  | JNull => (s, true)
  | _ => (s, false)
  end.

(** An array of strings; a [null] element leaves the zero string. *)
Definition dec_strings {S} (set : list string → S → S) : decoder S := λ j s,
  match j with
  | JArr l =>
      (set ((λ j, match j with JStr v => v | _ => "" end) <$> l) s,
       forallb (λ j, match j with JStr _ | JNull => true | _ => false end) l)
  | JNull => (set [] s, true)
  | _ => (s, false)
  end.

Definition CallStack_fields : list (string * decoder CallStack) :=
  [("current", dec_uint (λ v s, {| current := v; stack := stack s |}));
   ("stack", dec_strings (λ v s, {| current := current s; stack := v |}))].

Definition CallCtx_fields : list (string * decoder CallCtx) :=
  [("disable_immediate_execution", dec_bool (λ v s,
      {| disableImmediateExecution := v; cc_env := cc_env s; cc_functionID := cc_functionID s;
         cc_runID := cc_runID s; cc_stepID := cc_stepID s; cc_stack := cc_stack s;
         cc_attempt := cc_attempt s |}));
   ("env", dec_string (λ v s,
      {| disableImmediateExecution := disableImmediateExecution s; cc_env := v;
         cc_functionID := cc_functionID s; cc_runID := cc_runID s; cc_stepID := cc_stepID s;
         cc_stack := cc_stack s; cc_attempt := cc_attempt s |}));
   ("fn_id", dec_string (λ v s,
      {| disableImmediateExecution := disableImmediateExecution s; cc_env := cc_env s;
         cc_functionID := v; cc_runID := cc_runID s; cc_stepID := cc_stepID s;
         cc_stack := cc_stack s; cc_attempt := cc_attempt s |}));
   ("run_id", dec_string (λ v s,
      {| disableImmediateExecution := disableImmediateExecution s; cc_env := cc_env s;
         cc_functionID := cc_functionID s; cc_runID := v; cc_stepID := cc_stepID s;
         cc_stack := cc_stack s; cc_attempt := cc_attempt s |}));
   ("step_id", dec_string (λ v s,
      {| disableImmediateExecution := disableImmediateExecution s; cc_env := cc_env s;
         cc_functionID := cc_functionID s; cc_runID := cc_runID s; cc_stepID := v;
         cc_stack := cc_stack s; cc_attempt := cc_attempt s |}));
   ("stack", λ j s, let '(st, ok) := decode_struct CallStack_fields j (cc_stack s) in
      ({| disableImmediateExecution := disableImmediateExecution s; cc_env := cc_env s;
          cc_functionID := cc_functionID s; cc_runID := cc_runID s; cc_stepID := cc_stepID s;
          cc_stack := st; cc_attempt := cc_attempt s |}, ok));
   ("attempt", dec_int (λ v s,
      {| disableImmediateExecution := disableImmediateExecution s; cc_env := cc_env s;
         cc_functionID := cc_functionID s; cc_runID := cc_runID s; cc_stepID := cc_stepID s;
         cc_stack := cc_stack s; cc_attempt := v |}))].

Definition Request_fields : list (string * decoder Request) :=
  [("event", dec_raw (λ v s,
      {| r_event := Some v; r_events := r_events s; r_steps := r_steps s;
         r_callCtx := r_callCtx s; r_useAPI := r_useAPI s |}));
   ("events", λ j s,
      let set l := {| r_event := r_event s; r_events := l; r_steps := r_steps s;
                      r_callCtx := r_callCtx s; r_useAPI := r_useAPI s |} in
      match j with JArr l => (set l, true) | JNull => (set [], true) | _ => (s, false) end);
   ("steps", λ j s,
      let set m := {| r_event := r_event s; r_events := r_events s; r_steps := m;
                      r_callCtx := r_callCtx s; r_useAPI := r_useAPI s |} in
      match j with
      | JObj kvs => (set (foldl (λ m kv, <[kv.1 := kv.2]> m) (r_steps s) kvs), true)
      | JNull => (set ∅, true)
      | _ => (s, false)
      end);
   ("ctx", λ j s, let '(c, ok) := decode_struct CallCtx_fields j (r_callCtx s) in
      ({| r_event := r_event s; r_events := r_events s; r_steps := r_steps s;
          r_callCtx := c; r_useAPI := r_useAPI s |}, ok));
   ("use_api", dec_bool (λ v s,
      {| r_event := r_event s; r_events := r_events s; r_steps := r_steps s;
         r_callCtx := r_callCtx s; r_useAPI := v |}))].

(** [json.Unmarshal] of the body of an invocation into a [Request]. *)
Definition unmarshal_Request (body : string) : option Request :=
  j ← json_parse body; unmarshal (decode_struct Request_fields) zero_Request j.

(** ** Step identifiers (manager.go) *)

Record UnhashedOp := {
  uo_op : Opcode;
  uo_id : string;
  uo_opts : json;
  uo_pos : Z }.

(** The text that is hashed. *)
Definition hash_input (id : string) (pos : Z) : string :=
  if 0 <? pos then id +:+ ":" +:+ format_int pos else id.

Definition Hash (u : UnhashedOp) : res goerr string :=
  Ok (hex_encode (sha1_sum (hash_input (uo_id u) (uo_pos u)))).

(** [MustHash] panics on an error of [Hash], which has none. *)
Definition MustHash (u : UnhashedOp) : string :=
  match Hash u with Ok h => h | Err _ => "" end.

(** ** The manager *)

(** [m_cancelled] is the state of the context that [cancel] ends. *)
Record mgr := {
  m_cancelled : bool;
  m_err : option goerr;
  m_ops : list GeneratorOpcode;
  m_indexes : gmap string Z }.

Definition NewManager : mgr :=
  {| m_cancelled := false; m_err := None; m_ops := []; m_indexes := ∅ |}.

Definition Cancel (m : mgr) : mgr :=
  {| m_cancelled := true; m_err := m_err m; m_ops := m_ops m; m_indexes := m_indexes m |}.

Definition SetErr (e : goerr) (m : mgr) : mgr :=
  {| m_cancelled := m_cancelled m; m_err := Some e; m_ops := m_ops m; m_indexes := m_indexes m |}.

Definition AppendOp (op : GeneratorOpcode) (m : mgr) : mgr :=
  {| m_cancelled := m_cancelled m; m_err := m_err m; m_ops := m_ops m ++ [op];
     m_indexes := m_indexes m |}.

(** The data recorded for the step in the request. *)
Definition Step (req : Request) (u : UnhashedOp) : option json := r_steps req !! MustHash u.

(** The index a new use of [id] gets. *)
Definition next_index (idx : gmap string Z) (id : string) : Z :=
  match idx !! id with Some n => n + 1 | None => 0 end.

Definition NewOp (op : Opcode) (id : string) (opts : json) (m : mgr) : mgr * UnhashedOp :=
  let n := next_index (m_indexes m) id in
  ({| m_cancelled := m_cancelled m; m_err := m_err m; m_ops := m_ops m;
      m_indexes := <[id := n]> (m_indexes m) |},
   {| uo_op := op; uo_id := id; uo_opts := opts; uo_pos := n |}).

(** The hashed identifier of the next use of [id]. *)
Definition step_hash (idx : gmap string Z) (id : string) : string :=
  hex_encode (sha1_sum (hash_input id (next_index idx id))).

(** ** The interface (type InvocationManager) *)

Class InvocationManager (M : Type) := {
  im_Cancel : M → M;
  im_Request : M → Request;
  im_Err : M → option goerr;
  im_SetErr : goerr → M → M;
  im_AppendOp : GeneratorOpcode → M → M;
  im_Ops : M → list GeneratorOpcode;
  im_Step : M → UnhashedOp → option json;
  im_NewOp : Opcode → string → json → M → M * UnhashedOp }.

(** What the tools rely on: operations are appended, steps are those of the request, and
    the uses of an identifier are numbered from a next number that only they change. *)
Class LawfulManager (M : Type) `{InvocationManager M} := {
  im_next : M → string → Z;
  ops_AppendOp op m : im_Ops (im_AppendOp op m) = im_Ops m ++ [op];
  ops_others m : im_Ops (im_Cancel m) = im_Ops m ∧ ∀ e, im_Ops (im_SetErr e m) = im_Ops m;
  err_SetErr e m : im_Err (im_SetErr e m) = Some e;
  step_Request m u : im_Step m u = r_steps (im_Request m) !! MustHash u;
  AppendOp_keeps op m :
    im_Request (im_AppendOp op m) = im_Request m ∧ im_next (im_AppendOp op m) = im_next m;
  NewOp_keeps o id opts m :
    im_Ops (im_NewOp o id opts m).1 = im_Ops m ∧ im_Request (im_NewOp o id opts m).1 = im_Request m;
  NewOp_op o id opts m :
    (im_NewOp o id opts m).2 = {| uo_op := o; uo_id := id; uo_opts := opts; uo_pos := im_next m id |};
  NewOp_next o id opts m id' :
    im_next (im_NewOp o id opts m).1 id' = if decide (id' = id) then im_next m id + 1 else im_next m id' }.

(** A manager with its request; the tools of [Step] take the two apart. *)
Record manager := { mn_request : Request; mn_state : mgr }.

Definition on_state (f : mgr → mgr) (m : manager) : manager :=
  {| mn_request := mn_request m; mn_state := f (mn_state m) |}.

Definition SetRequest (req : Request) (m : manager) : manager :=
  {| mn_request := req; mn_state := mn_state m |}.

Definition mn_Request (m : manager) : Request := mn_request m.
Definition mn_Err (m : manager) : option goerr := m_err (mn_state m).
Definition mn_Ops (m : manager) : list GeneratorOpcode := m_ops (mn_state m).

#[export] Instance requestCtxManager : InvocationManager manager := {
  im_Cancel := on_state Cancel;
  im_Request := mn_Request;
  im_Err := mn_Err;
  im_SetErr := λ e, on_state (SetErr e);
  im_AppendOp := λ op, on_state (AppendOp op);
  im_Ops := mn_Ops;
  im_Step := λ m, Step (mn_request m);
  im_NewOp := λ op id opts m,
    let '(st, u) := NewOp op id opts (mn_state m) in (on_state (λ _, st) m, u) }.

Lemma next_index_insert idx id id' n :
  next_index (<[id := n]> idx) id' = if decide (id' = id) then n + 1 else next_index idx id'.
Proof.
  unfold next_index. destruct (decide (id' = id)) as [->|].
  - by rewrite lookup_insert_eq.
  - by rewrite lookup_insert_ne.
Qed.

#[export, refine] Instance requestCtxManager_lawful : LawfulManager manager :=
  {| im_next := λ m, next_index (m_indexes (mn_state m)) |}.
Proof. all: try done. intros o id opts m id'. apply next_index_insert. Defined.

(** ** Uniqueness of identifiers *)

Section numbering.
Context {M : Type} `{LawfulManager M}.

(** Operations made by the uses of the identifiers [ids], in order. *)
Fixpoint new_ops (ids : list string) (m : M) : list UnhashedOp :=
  match ids with
  | [] => []
  | id :: ids => let '(m, u) := im_NewOp OpcodeStep id JNull m in u :: new_ops ids m
  end.

Lemma new_ops_cons id ids m :
  new_ops (id :: ids) m =
    {| uo_op := OpcodeStep; uo_id := id; uo_opts := JNull; uo_pos := im_next m id |}
      :: new_ops ids (im_NewOp OpcodeStep id JNull m).1.
Proof.
  pose proof (NewOp_op OpcodeStep id JNull m) as Hu. simpl.
  destruct (im_NewOp OpcodeStep id JNull m). simpl in *. by subst.
Qed.

Lemma new_ops_positions ids m k id :
  ids !! k = Some id →
  ∃ u, new_ops ids m !! k = Some u ∧ uo_id u = id ∧
       uo_pos u = im_next m id + Z.of_nat (length (filter (eq id) (take k ids))).
Proof.
  revert m k. induction ids as [|id' ids IH]; intros m [|k] Hk; rewrite ?new_ops_cons; simplify_eq/=.
  - eexists. split_and!; [done|done|]. simpl. lia.
  - destruct (IH (im_NewOp OpcodeStep id' JNull m).1 k Hk) as (u & Hu & ? & Hpos).
    exists u. split_and!; [done|done|]. rewrite Hpos, NewOp_next, filter_cons.
    repeat case_decide; simplify_eq; simpl; lia.
Qed.

Lemma new_ops_length ids m : length (new_ops ids m) = length ids.
Proof.
  revert m. induction ids as [|id ids IH]; intros m; [done|]. rewrite new_ops_cons. simpl. by rewrite IH.
Qed.

(** A manager that has seen no identifier. *)
Lemma new_ops_lookup ids m k u :
  (∀ id, im_next m id = 0) → new_ops ids m !! k = Some u →
  ∃ id, ids !! k = Some id ∧ uo_id u = id ∧
        uo_pos u = Z.of_nat (length (filter (eq id) (take k ids))).
Proof.
  intros Hm Hu. assert (k < length ids)%nat as Hk.
  { rewrite <- (new_ops_length ids m). by eapply lookup_lt_Some. }
  apply lookup_lt_is_Some_2 in Hk as [id Hid].
  destruct (new_ops_positions _ m _ _ Hid) as (u' & Hu' & Hu_id & Hpos).
  simplify_eq. exists (uo_id u). split_and!; [done..|]. by rewrite Hpos, Hm.
Qed.

(** A tool that is not answered by the request reports its operation. *)
Definition report_new (m : M) (id : string) : M :=
  let '(m, u) := im_NewOp OpcodeStep id JNull m in
  match im_Step m u with
  | Some _ => m
  | None => im_AppendOp {| g_id := MustHash u; g_op := OpcodeStepPlanned; g_name := id; g_opts := JNull;
                           g_data := None; g_error := None |} m
  end.

Lemma new_ops_next ids m m' : (∀ id, im_next m id = im_next m' id) → new_ops ids m = new_ops ids m'.
Proof.
  revert m m'. induction ids as [|id ids IH]; intros m m' Heq; [done|].
  rewrite !new_ops_cons, Heq. f_equal. apply IH. intros id'. by rewrite !NewOp_next, !Heq.
Qed.

(** What is reported are the new operations that the request does not answer, in order. *)
Lemma report_new_ops ids m :
  let m' := foldl report_new m ids in
  im_Request m' = im_Request m ∧
  g_id <$> im_Ops m' =
    (g_id <$> im_Ops m) ++
    filter (λ h, r_steps (im_Request m) !! h = None) (MustHash <$> new_ops ids m).
Proof.
  revert m. induction ids as [|id ids IH]; intros m; [by rewrite app_nil_r|].
  rewrite new_ops_cons. cbn [foldl fmap list_fmap]. rewrite filter_cons.
  assert (im_Request (report_new m id) = im_Request m ∧
    (∀ id', im_next (report_new m id) id' = im_next (im_NewOp OpcodeStep id JNull m).1 id') ∧
    g_id <$> im_Ops (report_new m id) = (g_id <$> im_Ops m) ++
      (let h := MustHash {| uo_op := OpcodeStep; uo_id := id; uo_opts := JNull; uo_pos := im_next m id |} in
       if decide (r_steps (im_Request m) !! h = None) then [h] else [])) as (Hreq & Hnext & Hops).
  { unfold report_new. destruct (NewOp_keeps OpcodeStep id JNull m) as [Hops Hreq].
    rewrite <- (NewOp_op OpcodeStep id JNull m). destruct (im_NewOp _ _ _ m) as [m1 u]. simpl in *.
    rewrite step_Request, Hreq, <- Hops. destruct (r_steps (im_Request m) !! MustHash u).
    - by rewrite decide_False, app_nil_r.
    - rewrite ops_AppendOp, fmap_app, decide_True by done.
      destruct (AppendOp_keeps {| g_id := MustHash u; g_op := OpcodeStepPlanned; g_name := id;
        g_opts := JNull; g_data := None; g_error := None |} m1) as [-> ->]. done. }
  destruct (IH (report_new m id)) as [-> ->]. split; [exact Hreq|].
  rewrite Hreq, Hops, <- (app_assoc (g_id <$> im_Ops m)), (new_ops_next ids _ _ Hnext).
  cbv zeta. by repeat case_decide.
Qed.
End numbering.

Lemma hash_input_colon id pos :
  contains_byte ":" id = false →
  cut ":" (hash_input id pos) = if 0 <? pos then (id, format_int pos, true) else (id, "", false).
Proof.
  intros Hid. unfold hash_input. destruct (0 <? pos); [|by apply cut_none].
  change (":" +:+ format_int pos) with (String ":" (format_int pos)). by apply cut_app.
Qed.

(** Identifiers without a colon never share the text that is hashed. *)
Lemma hash_input_inj id id' pos pos' :
  contains_byte ":" id = false → contains_byte ":" id' = false →
  0 ≤ pos → 0 ≤ pos' → in_int64 pos → in_int64 pos' →
  hash_input id pos = hash_input id' pos' → id = id' ∧ pos = pos'.
Proof.
  intros Hid Hid' ???? Heq. apply (f_equal (cut ":")) in Heq.
  rewrite !hash_input_colon in Heq by done.
  destruct (Z.ltb_spec 0 pos), (Z.ltb_spec 0 pos'); simplify_eq; [|split; [done|lia]].
  split; [done|].
  match goal with H : format_int _ = format_int _ |- _ => apply (f_equal atoi) in H end.
  rewrite !atoi_format_int in * by done. congruence.
Qed.

Lemma MustHash_inj u v : MustHash u = MustHash v →
  sha1_sum (hash_input (uo_id u) (uo_pos u)) = sha1_sum (hash_input (uo_id v) (uo_pos v)).
Proof. apply hex_encode_inj. Qed.

(** Later uses of an identifier have larger positions. *)
Lemma filter_take_lt (ids : list string) i j id :
  (i < j)%nat → ids !! i = Some id →
  (length (filter (eq id) (take i ids)) < length (filter (eq id) (take j ids)))%nat.
Proof.
  intros Hij Hi. replace j with (i + S (j - S i))%nat by lia.
  rewrite <- take_take_drop, filter_app, length_app.
  rewrite (drop_S _ _ _ Hi). simpl. rewrite filter_cons, decide_True by done. simpl. lia.
Qed.

(** What [NewManager] makes of a request. *)
Definition managed (req : Request) : manager := {| mn_request := req; mn_state := NewManager |}.

Lemma managed_next req id : im_next (managed req) id = 0.
Proof. done. Qed.

(** ** Theorems *)

(** The operations of one invocation are numbered per identifier: the k-th
    operation has as position the number of earlier uses of its identifier. *)
Theorem positions_count_uses req ids k id :
  ids !! k = Some id →
  ∃ u, new_ops ids (managed req) !! k = Some u ∧ uo_id u = id ∧
       uo_pos u = Z.of_nat (length (filter (eq id) (take k ids))).
Proof. intros Hk. by destruct (new_ops_positions _ (managed req) _ _ Hk) as (u & ? & ? & ?); eauto. Qed.

(** C17: in an invocation whose step identifiers hold no colon no two operations
    hash the same text, so their identifiers differ unless SHA-1 collides. *)
Theorem step_ids_distinct req ids i j u v :
  Forall (λ id, contains_byte ":" id = false) ids → Z.of_nat (length ids) ≤ max_int64 →
  new_ops ids (managed req) !! i = Some u → new_ops ids (managed req) !! j = Some v → i ≠ j →
  hash_input (uo_id u) (uo_pos u) ≠ hash_input (uo_id v) (uo_pos v) ∧
  (MustHash u = MustHash v →
   ∃ x y, x ≠ y ∧ sha1_sum x = sha1_sum y).
Proof.
  intros Hcol Hlen Hu Hv Hij.
  assert (hash_input (uo_id u) (uo_pos u) ≠ hash_input (uo_id v) (uo_pos v)) as Hne.
  { destruct (new_ops_lookup _ _ _ _ (managed_next req) Hu) as (id & Hid & <- & Hpu).
    destruct (new_ops_lookup _ _ _ _ (managed_next req) Hv) as (id' & Hid' & <- & Hpv).
    rewrite Forall_lookup in Hcol.
    assert (∀ k x, (length (filter (eq x) (take k ids)) ≤ length ids)%nat) as Hle.
    { intros k x. rewrite length_filter, length_take. lia. }
    intros Heq. apply hash_input_inj in Heq as [Heq Hpos]; try by eauto; try lia.
    - rewrite Hpu, Hpv, Heq in Hpos. rewrite Heq in Hid.
      destruct (decide (i < j)%nat) as [Hlt|Hlt].
      + pose proof (filter_take_lt _ _ _ _ Hlt Hid). lia.
      + assert (j < i)%nat as Hlt' by lia. pose proof (filter_take_lt _ _ _ _ Hlt' Hid'). lia.
    - rewrite Hpu. pose proof (Hle i (uo_id u)). unfold in_int64, min_int64. lia.
    - rewrite Hpv. pose proof (Hle j (uo_id v)). unfold in_int64, min_int64. lia. }
  split; [done|]. intros Hh%MustHash_inj. eauto.
Qed.

Lemma positions_count_uses_witness :
  ∃ u, new_ops ["a"; "b"; "a"] (managed zero_Request) !! 2%nat = Some u ∧ uo_id u = "a" ∧ uo_pos u = 1.
Proof. apply (positions_count_uses zero_Request ["a"; "b"; "a"] 2 "a"). reflexivity. Defined.

Lemma step_ids_distinct_witness :
  hash_input "a" 0 ≠ hash_input "a" 1.
Proof.
  refine (proj1 (step_ids_distinct zero_Request ["a"; "a"] 0 1
    {| uo_op := OpcodeStep; uo_id := "a"; uo_opts := JNull; uo_pos := 0 |}
    {| uo_op := OpcodeStep; uo_id := "a"; uo_opts := JNull; uo_pos := 1 |} _ _ _ _ _));
    [by repeat constructor|vm_compute; congruence|reflexivity|reflexivity|done].
Defined.

(** With a colon in an identifier two different steps of one invocation can
    share their hashed identifier: the second use of [a] and the first of [a:1]. *)
Theorem colon_ids_collide :
  ∃ u v, new_ops ["a"; "a"; "a:1"] (managed zero_Request) !! 1%nat = Some u ∧
         new_ops ["a"; "a"; "a:1"] (managed zero_Request) !! 2%nat = Some v ∧
         uo_id u ≠ uo_id v ∧ MustHash u = MustHash v.
Proof. do 2 eexists. split_and!; [reflexivity..|done|by vm_compute]. Qed.
