(* ===== verification/Step.v ===== *)
(** * Step tools (package step) and group.Parallel

    The tools a function calls through its context.  A tool either returns a
    value to the function, or records an opcode in the manager and unwinds the
    function by panicking with [ControlHijack]; both are kept here in a monad of
    stateful computations that may panic. *)

From S2P Require Import Prelude GoBytes GoTime GoJson Errors Manager.

Open Scope Z_scope.

(** ** Computations of a function invocation *)

(** The values a panic carries: [ControlHijack], [ErrNotInFunction], or a value
    of the user or the runtime, as its printed text. *)
Inductive panicval :=
  | ControlHijack
  | NotInFunction
  | UserPanic (text : string).

Inductive outcome (A : Type) :=
  | Return (a : A)
  | Panic (p : panicval).
Arguments Return {A} a.
Arguments Panic {A} p.

(** The manager, and the trace of observable actions of the user's code. *)
Record world := { w_mgr : mgr; w_log : list string }.

Definition M (A : Type) : Type := world → world * outcome A.

Definition ret {A} (a : A) : M A := λ w, (w, Return a).

Definition bind {A B} (m : M A) (k : A → M B) : M B := λ w,
  match m w with
  | (w, Return a) => k a w
  | (w, Panic p) => (w, Panic p)
  end.

Notation "x <- m ;; k" := (bind m (λ x, k))
  (at level 100, m at next level, right associativity) : inngest_scope.
Notation "' pat <- m ;; k" := (bind m (λ x, match x with pat => k end))
  (at level 100, pat pattern, m at next level, right associativity) : inngest_scope.
Notation "m ;;; k" := (bind m (λ _, k))
  (at level 100, right associativity) : inngest_scope.

Definition panic {A} (p : panicval) : M A := λ w, (w, Panic p).

(** A manager method without result. *)
Definition on_mgr (f : mgr → mgr) : M unit := λ w,
  ({| w_mgr := f (w_mgr w); w_log := w_log w |}, Return tt).

Definition setErr (e : goerr) : M unit := on_mgr (SetErr e).
Definition appendOp (op : GeneratorOpcode) : M unit := on_mgr (AppendOp op).

Definition newOp (op : Opcode) (id : string) (opts : json) : M UnhashedOp := λ w,
  let '(m, u) := NewOp op id opts (w_mgr w) in
  ({| w_mgr := m; w_log := w_log w |}, Return u).

Definition log (s : string) : M unit := λ w,
  ({| w_mgr := w_mgr w; w_log := w_log w ++ [s] |}, Return tt).

(** [defer mgr.Cancel()]: the context is cancelled however [m] ends. *)
Definition defer_cancel {A} (m : M A) : M A := λ w,
  let '(w, o) := m w in ({| w_mgr := Cancel (w_mgr w); w_log := w_log w |}, o).

(** ** Contexts (step.go) *)

(** The values the tools look up in a context; [cx_mgr] says whether it carries
    the manager, in which case it is cancelled with it. *)
Record ctx := {
  cx_mgr : bool;
  cx_target : option string;
  cx_parallel : bool }.

Definition background : ctx := {| cx_mgr := false; cx_target := None; cx_parallel := false |}.

(** [sdkrequest.SetManager] *)
Definition SetManager (c : ctx) : ctx :=
  {| cx_mgr := true; cx_target := cx_target c; cx_parallel := cx_parallel c |}.

Definition getTargetStepID (c : ctx) : option string := cx_target c.

Definition SetTargetStepID (c : ctx) (id : string) : ctx :=
  if str_empty id || bool_decide (id = "step") then c
  else {| cx_mgr := cx_mgr c; cx_target := Some id; cx_parallel := cx_parallel c |}.

Definition isParallel (c : ctx) : bool := cx_parallel c.

(** [context.WithValue(ctx, step.ParallelKey, true)] *)
Definition with_parallel (c : ctx) : ctx :=
  {| cx_mgr := cx_mgr c; cx_target := cx_target c; cx_parallel := true |}.

Definition preflight (c : ctx) : M unit := λ w,
  if cx_mgr c && m_cancelled (w_mgr w) then panic ControlHijack w
  else if negb (cx_mgr c) then panic NotInFunction w
  else ret tt w.

(** ** Types of step results *)

Inductive gokind := KPtr | KInterface | KOther.

(** What reflection and encoding/json know of a Go type [T], the universe of
    values being [V]: its zero value and kind, marshalling, and unmarshalling into
    a fresh [T] (into a fresh element, for a pointer type under
    [gt_unmarshal_elem]).  Unmarshalling may leave a partial value beside its
    error. *)
Record gotype (V : Type) := {
  gt_zero : V;
  gt_kind : gokind;
  gt_marshal : V → option json;
  gt_unmarshal : json → V * option goerr;
  gt_unmarshal_elem : json → V * option goerr }.
Arguments gt_zero {V} g.
Arguments gt_kind {V} g.
Arguments gt_marshal {V} g v.
Arguments gt_unmarshal {V} g j.
Arguments gt_unmarshal_elem {V} g j.

(** The type [json.RawMessage], with documents for values. *)
Definition raw_type : gotype json :=
  {| gt_zero := JNull; gt_kind := KOther; gt_marshal := Some;
     gt_unmarshal := λ j, (j, None); gt_unmarshal_elem := λ j, (j, None) |}.

(** The error of [json.Unmarshal] on empty input. *)
Definition errUnexpectedEnd : goerr := EText "unexpected end of JSON input".

(** Errors of marshalling and of decoding into the SDK's own types: their text,
    which depends on Go's type names, is not modelled further. *)
Definition errMarshal : goerr := EText "json: unsupported value".
Definition errType : goerr := EText "json: cannot unmarshal value".

Definition unmarshal_raw {V} (t : gotype V) (d : option json) : V * option goerr :=
  match d with
  | Some j => gt_unmarshal t j
  | None => (gt_zero t, Some errUnexpectedEnd)
  end.

(** ** Decoding of step state *)

(** [type response struct] (run.go) *)
Record response := { rs_data : option json; rs_error : option json }.

Definition decode_response : json → option response :=
  unmarshal (decode_struct
    [("data", dec_raw (λ v s, {| rs_data := Some v; rs_error := rs_error s |}));
     ("error", dec_raw (λ v s, {| rs_data := rs_data s; rs_error := Some v |}))])
    {| rs_data := None; rs_error := None |}.

(** [type StepError struct] (errors.go) *)
Record StepErr := { se_name : string; se_message : string; se_data : option json }.

Definition decode_StepError : json → option StepErr :=
  unmarshal (decode_struct
    [("name", dec_string (λ v s,
        {| se_name := v; se_message := se_message s; se_data := se_data s |}));
     ("message", dec_string (λ v s,
        {| se_name := se_name s; se_message := v; se_data := se_data s |}));
     ("data", dec_raw (λ v s,
        {| se_name := se_name s; se_message := se_message s; se_data := Some v |}))])
    {| se_name := ""; se_message := ""; se_data := None |}.

(** The anonymous error struct of [Invoke]: its message. *)
Definition decode_message : json → option string :=
  unmarshal (decode_struct [("message", dec_string (λ v _, v))]) "".

Definition in_quotes (pre id : string) : string := pre +:+ " '" +:+ id +:+ "': ".

(** [mgr.SetErr(err); panic(ControlHijack{})] *)
Definition fail_hijack {A} (e : goerr) : M A := setErr e;;; panic ControlHijack.

Section tools.
Context {V : Type} (req : Request).

(** ** Run (run.go) *)

(** Recorded state of a step. *)
Definition run_memo (t : gotype V) (id : string) (val : json) : M (V * option goerr) :=
  let as_step_type val :=
    match gt_unmarshal t val with
    | (_, Some e) =>
        fail_hijack (errorf (in_quotes "error unmarshalling state for step" id) e "")
    | (v, None) => ret (v, None)
    end in
  match decode_response val with
  | Some unwrapped =>
      match rs_error unwrapped with
      | Some ej =>
          match decode_StepError ej with
          | None =>
              fail_hijack (errorf (in_quotes "error unmarshalling error for step" id) errType "")
          | Some err =>
              match unmarshal_raw t (se_data err) with
              | (_, Some e) =>
                  fail_hijack (errorf (in_quotes "error unmarshalling state for step" id) e "")
              | (v, None) =>
                  ret (v, Some (EStep (se_name err) (se_message err) (se_data err)))
              end
          end
      | None => as_step_type (default val (rs_data unwrapped))
      end
  | None => as_step_type val
  end.

Definition planned_op (hashedID id : string) : GeneratorOpcode :=
  {| g_id := hashedID; g_op := OpcodeStepPlanned; g_name := id; g_opts := JNull;
     g_data := None; g_error := None |}.

Definition step_error_op (hashedID id msg : string) (data : option json) : GeneratorOpcode :=
  {| g_id := hashedID; g_op := OpcodeStepError; g_name := id; g_opts := JNull;
     g_data := None;
     g_error := Some {| ue_name := "Step failed"; ue_message := msg; ue_data := data |} |}.

Definition step_run_op (hashedID id : string) (data : option json) : GeneratorOpcode :=
  {| g_id := hashedID; g_op := OpcodeStepRun; g_name := id; g_opts := JNull;
     g_data := data; g_error := None |}.

(** What follows the call of the step's function. *)
Definition run_finish (t : gotype V) (hashedID id : string) (r : V * option goerr) :
  M (V * option goerr) :=
  let '(result, err) := r in
  match err with
  | Some err =>
      if IsStepError err then
        fail_hijack (EText ("Unhandled step error: " +:+ fmt_err "s" err))
      else match err_msg err with
      | None => panic (UserPanic "runtime error: invalid memory address or nil pointer dereference")
      | Some msg =>
          appendOp (step_error_op hashedID id msg (gt_marshal t result));;;
          fail_hijack err
      end
  | None =>
      let byt := gt_marshal t result in
      (match byt with
       | None => setErr (errorf (in_quotes "unable to marshal run respone for" id) errMarshal "")
       | Some _ => ret tt
       end);;;
      appendOp (step_run_op hashedID id byt);;;
      panic ControlHijack
  end.

Definition Run (c : ctx) (t : gotype V) (id : string) (f : ctx → M (V * option goerr)) :
  M (V * option goerr) :=
  let targetID := getTargetStepID c in
  preflight c;;;
  op <- newOp OpcodeStep id JNull;;
  let hashedID := MustHash op in
  match Step req op with
  | Some val => run_memo t id val
  | None =>
      if match targetID with Some target => negb (bool_decide (target = hashedID)) | None => false end
      then panic ControlHijack
      else
        let no_target := match targetID with None => true | Some _ => false end in
        let planParallel := no_target && isParallel c in
        let planBeforeRun := no_target && disableImmediateExecution (r_callCtx req) in
        if planParallel || planBeforeRun then
          appendOp (planned_op hashedID id);;; panic ControlHijack
        else
          defer_cancel (r <- f c;; run_finish t hashedID id r)
  end.

(** ** Sleep (sleep.go) *)

Definition Sleep (c : ctx) (id : string) (duration : Z) : M unit :=
  preflight c;;;
  op <- newOp OpcodeSleep id JNull;;
  match Step req op with
  | Some _ => ret tt
  | None =>
      appendOp {| g_id := MustHash op; g_op := OpcodeSleep; g_name := id;
                  g_opts := JObj [("duration", JStr (str2duration_string duration))];
                  g_data := None; g_error := None |};;;
      panic ControlHijack
  end.

(** ** WaitForEvent (wait_for_event.go) *)

Record WaitForEventOpts := {
  wo_name : string; wo_event : string; wo_timeout : Z; wo_if : option string }.

Definition WaitForEvent (c : ctx) (t : gotype V) (stepID : string) (opts : WaitForEventOpts) :
  M (V * option goerr) :=
  preflight c;;;
  let args := JObj ([("event", JStr (wo_event opts))] ++
                    match wo_if opts with Some e => [("if", JStr e)] | None => [] end ++
                    [("timeout", JStr (str2duration_string (wo_timeout opts)))]) in
  let name := if str_empty (wo_name opts) then stepID else wo_name opts in
  op <- newOp OpcodeWaitForEvent stepID args;;
  match Step req op with
  | Some JNull => ret (gt_zero t, Some (ESentinel ErrEventNotReceived))
  | Some val =>
      match gt_unmarshal t val with
      | (_, Some e) =>
          fail_hijack (errorf (in_quotes "error unmarshalling wait for event value in"
                                 (wo_event opts)) e "")
      | (v, None) => ret (v, None)
      end
  | None =>
      appendOp {| g_id := MustHash op; g_op := uo_op op; g_name := name;
                  g_opts := uo_opts op; g_data := None; g_error := None |};;;
      panic ControlHijack
  end.

(** ** Invoke (invoke.go) *)

Record InvokeOpts := {
  io_functionId : string; io_data : json; io_user : json; io_timeout : Z }.

Definition invoke_memo (t : gotype V) (fid : string) (val : json) : M (V * option goerr) :=
  match unmarshal_raw_map val with
  | None =>
      fail_hijack (errorf (in_quotes "error unmarshalling invoke value for" fid) errType "")
  | Some valMap =>
      match valMap !! "data" with
      | Some data =>
          match gt_unmarshal t data with
          | (_, Some e) =>
              fail_hijack (errorf (in_quotes "error unmarshalling invoke data for" fid) e "")
          | (output, None) => ret (output, None)
          end
      | None =>
          match valMap !! "error" with
          | Some errorVal =>
              match decode_message errorVal with
              | None =>
                  fail_hijack (errorf (in_quotes "error unmarshalling invoke error for" fid)
                                 errType "")
              | Some msg => ret (gt_zero t, Some (NoRetryError (EText msg)))
              end
          | None =>
              fail_hijack (EText ("error parsing invoke value for '" +:+ fid +:+
                                  "'; unknown shape"))
          end
      end
  end.

Definition Invoke (c : ctx) (t : gotype V) (id : string) (opts : InvokeOpts) :
  M (V * option goerr) :=
  preflight c;;;
  let args := JObj ([("function_id", JStr (io_functionId opts));
                     ("payload", JObj [("data", io_data opts); ("user", io_user opts)])] ++
                    if 0 <? io_timeout opts
                    then [("timeout", JStr (str2duration_string (io_timeout opts)))] else []) in
  op <- newOp OpcodeInvokeFunction id args;;
  match Step req op with
  | Some val => invoke_memo t (io_functionId opts) val
  | None =>
      appendOp {| g_id := MustHash op; g_op := uo_op op; g_name := id;
                  g_opts := uo_opts op; g_data := None; g_error := None |};;;
      panic ControlHijack
  end.

(** ** Infer (infer.go) *)

Inductive InferFormat := OpenAIChat | Anthropic | Gemini | Bedrock.

Definition InferFormat_text (f : InferFormat) : string :=
  match f with
  | OpenAIChat => "openai-chat"
  | Anthropic => "anthropic"
  | Gemini => "gemini"
  | Bedrock => "bedrock"
  end.

Record InferRequestOpts := {
  iro_url : string; iro_headers : list (string * string); iro_authKey : string;
  iro_format : InferFormat }.

(** [InferOpenAIOpts] *)
Definition InferOpenAIOpts (Getenv : string → string) (key baseURL : option string) :
  InferRequestOpts :=
  let api := default (Getenv "OPENAI_API_KEY") key in
  let base := default "https://api.openai.com" baseURL in
  {| iro_url := base +:+ "/v1/chat/completions"; iro_headers := []; iro_authKey := api;
     iro_format := OpenAIChat |}.

(** [inferOpcodeOpts] as it is marshalled. *)
Definition inferOpcodeOpts_json (o : InferRequestOpts) (body : json) : json :=
  JObj ([("url", JStr (iro_url o))] ++
        match iro_headers o with
        | [] => []
        | hs => [("headers", JObj ((λ kv, (kv.1, JStr kv.2)) <$> hs))]
        end ++
        [("auth_key", JStr (iro_authKey o)); ("format", JStr (InferFormat_text (iro_format o)));
         ("body", body)]).

Definition infer_memo (t : gotype V) (id : string) (val : json) : M (V * option goerr) :=
  let as_output val :=
    match gt_kind t with
    | KInterface => panic (UserPanic "reflect: New(nil)")
    | KOther => ret (gt_unmarshal t val)
    | KPtr => ret (gt_unmarshal_elem t val)
    end in
  match decode_response val with
  | Some unwrapped =>
      match rs_error unwrapped with
      | Some ej =>
          match decode_StepError ej with
          | None =>
              fail_hijack (errorf (in_quotes "error unmarshalling error for step" id) errType "")
          | Some err =>
              (* json.Unmarshal(err.Data, out) has no pointer to write through *)
              ret (gt_zero t, Some (EStep (se_name err) (se_message err) (se_data err)))
          end
      | None => as_output (default val (rs_data unwrapped))
      end
  | None => as_output val
  end.

Definition Infer (c : ctx) (tin tout : gotype V) (id : string) (opts : InferRequestOpts)
  (body : V) : M (V * option goerr) :=
  preflight c;;;
  op <- newOp OpcodeAIGateway id JNull;;
  match Step req op with
  | Some val => infer_memo tout id val
  | None =>
      match gt_marshal tin body with
      | None =>
          fail_hijack (errorf (in_quotes "error unmarshalling state for step" id) errMarshal "")
      | Some reqBytes =>
          appendOp {| g_id := MustHash op; g_op := OpcodeAIGateway; g_name := id;
                      g_opts := inferOpcodeOpts_json opts reqBytes; g_data := Some reqBytes;
                      g_error := None |};;;
          panic ControlHijack
      end
  end.

(** ** group.Parallel (experimental/group) *)

Record Result := { pr_error : option goerr; pr_value : V }.

(** The loop over the functions.  Each goroutine is awaited before the next one
    starts, so they run one after the other. *)
Fixpoint parallel_loop (c : ctx) (fns : list (ctx → M (V * option goerr)))
  (results : list Result) (isPlanned : bool) (unexpected : option panicval) :
  M (list Result * bool * option panicval) :=
  match fns with
  | [] => ret (results, isPlanned, unexpected)
  | fn :: fns => λ w,
      match fn c w with
      | (w, Return (value, err)) =>
          parallel_loop c fns (results ++ [{| pr_error := err; pr_value := value |}])
            isPlanned unexpected w
      | (w, Panic ControlHijack) => parallel_loop c fns results true unexpected w
      | (w, Panic p) => parallel_loop c fns results isPlanned (Some p) w
      end
  end.

Definition Parallel (c : ctx) (fns : list (ctx → M (V * option goerr))) : M (list Result) :=
  '(results, isPlanned, unexpected) <- parallel_loop (with_parallel c) fns [] false None;;
  match unexpected with
  | Some p => panic p
  | None => if isPlanned then panic ControlHijack else ret results
  end.
End tools.
Arguments Result V : clear implicits.
