(* ===== verification/Program.v ===== *)
(** * User functions

    The code a user registers is a program: it computes, performs observable
    actions, calls step tools and groups, returns a value and an error, or panics.
    [prog] is the syntax of such programs and [exec] runs them with the tools of
    [Step]; the theorems hold for every program.  [exec_traced] runs them in the same way
    and logs which functions of steps are entered and which return. *)

From S2P Require Import Prelude GoBytes GoHash GoTime GoJson Errors Manager Step.

Open Scope Z_scope.

(** The context a tool is called with: the one the enclosing function received,
    or a background context. *)
Inductive ctxref := Given | Background.

Definition use (r : ctxref) (c : ctx) : ctx :=
  match r with Given => c | Background => background end.

Inductive prog (V : Type) :=
  | PRet (v : V) (e : option goerr)
  | PPanic (text : string)
  | PLog (s : string) (k : prog V)
  | PRun (r : ctxref) (t : gotype V) (id : string) (body : prog V)
      (k : V → option goerr → prog V)
  | PSleep (r : ctxref) (id : string) (duration : Z) (k : prog V)
  | PWait (r : ctxref) (t : gotype V) (id : string) (opts : WaitForEventOpts)
      (k : V → option goerr → prog V)
  | PInvoke (r : ctxref) (t : gotype V) (id : string) (opts : InvokeOpts)
      (k : V → option goerr → prog V)
  | PInfer (r : ctxref) (tin tout : gotype V) (id : string) (opts : InferRequestOpts) (body : V)
      (k : V → option goerr → prog V)
  | PParallel (r : ctxref) (fns : list (prog V)) (k : list (Result V) → prog V).
Arguments PRet {V} v e.
Arguments PPanic {V} text.
Arguments PLog {V} s k.
Arguments PRun {V} r t id body k.
Arguments PSleep {V} r id duration k.
Arguments PWait {V} r t id opts k.
Arguments PInvoke {V} r t id opts k.
Arguments PInfer {V} r tin tout id opts body k.
Arguments PParallel {V} r fns k.

Section exec.
Context {V : Type} (req : Request).

Fixpoint exec (p : prog V) (c : ctx) : M (V * option goerr) :=
  match p with
  | PRet v e => ret (v, e)
  | PPanic text => panic (UserPanic text)
  | PLog s k => log s;;; exec k c
  | PRun r t id body k =>
      '(v, e) <- Run req (use r c) t id (exec body);; exec (k v e) c
  | PSleep r id d k => Sleep req (use r c) id d;;; exec k c
  | PWait r t id opts k =>
      '(v, e) <- WaitForEvent req (use r c) t id opts;; exec (k v e) c
  | PInvoke r t id opts k =>
      '(v, e) <- Invoke req (use r c) t id opts;; exec (k v e) c
  | PInfer r tin tout id opts body k =>
      '(v, e) <- Infer req (use r c) tin tout id opts body;; exec (k v e) c
  | PParallel r fns k =>
      results <- Parallel (use r c) (map exec fns);; exec (k results) c
  end.
End exec.

(** The same interpretation, with the function of every step wrapped and the actions of
    the program taken another way: for observing an execution. *)
Section exec_with.
Context {V : Type} (req : Request).
Context (around : string → (ctx → M (V * option goerr)) → ctx → M (V * option goerr)).
Context (note : string → M unit).

Fixpoint exec_with (p : prog V) (c : ctx) : M (V * option goerr) :=
  match p with
  | PRet v e => ret (v, e)
  | PPanic text => panic (UserPanic text)
  | PLog s k => note s;;; exec_with k c
  | PRun r t id body k =>
      '(v, e) <- Run req (use r c) t id (around id (exec_with body));; exec_with (k v e) c
  | PSleep r id d k => Sleep req (use r c) id d;;; exec_with k c
  | PWait r t id opts k =>
      '(v, e) <- WaitForEvent req (use r c) t id opts;; exec_with (k v e) c
  | PInvoke r t id opts k =>
      '(v, e) <- Invoke req (use r c) t id opts;; exec_with (k v e) c
  | PInfer r tin tout id opts body k =>
      '(v, e) <- Infer req (use r c) tin tout id opts body;; exec_with (k v e) c
  | PParallel r fns k =>
      results <- Parallel (use r c) (map exec_with fns);; exec_with (k results) c
  end.
End exec_with.

Lemma exec_plain {V} (req : Request) :
  exec (V:=V) req = exec_with req (λ _ f, f) log.
Proof. reflexivity. Qed.

(** Induction over programs, the functions of a group included. *)
Section prog_ind.
Context {V : Type} (P : prog V → Prop).
Hypothesis HRet : ∀ v e, P (PRet v e).
Hypothesis HPanic : ∀ s, P (PPanic s).
Hypothesis HLog : ∀ s k, P k → P (PLog s k).
Hypothesis HRun : ∀ r t id body k, P body → (∀ v e, P (k v e)) → P (PRun r t id body k).
Hypothesis HSleep : ∀ r id d k, P k → P (PSleep r id d k).
Hypothesis HWait : ∀ r t id o k, (∀ v e, P (k v e)) → P (PWait r t id o k).
Hypothesis HInvoke : ∀ r t id o k, (∀ v e, P (k v e)) → P (PInvoke r t id o k).
Hypothesis HInfer : ∀ r tin tout id o b k, (∀ v e, P (k v e)) → P (PInfer r tin tout id o b k).
Hypothesis HParallel : ∀ r fns k, Forall P fns → (∀ rs, P (k rs)) → P (PParallel r fns k).

Fixpoint prog_ind_nested (p : prog V) : P p :=
  match p with
  | PRet v e => HRet v e
  | PPanic s => HPanic s
  | PLog s k => HLog s k (prog_ind_nested k)
  | PRun r t id body k =>
      HRun r t id body k (prog_ind_nested body) (λ v e, prog_ind_nested (k v e))
  | PSleep r id d k => HSleep r id d k (prog_ind_nested k)
  | PWait r t id o k => HWait r t id o k (λ v e, prog_ind_nested (k v e))
  | PInvoke r t id o k => HInvoke r t id o k (λ v e, prog_ind_nested (k v e))
  | PInfer r tin tout id o b k =>
      HInfer r tin tout id o b k (λ v e, prog_ind_nested (k v e))
  | PParallel r fns k =>
      HParallel r fns k
        ((fix go fns : Forall P fns :=
            match fns with
            | [] => Forall_nil_2 P
            | f :: fns => Forall_cons_2 P f fns (prog_ind_nested f) (go fns)
            end) fns)
        (λ rs, prog_ind_nested (k rs))
  end.
End prog_ind.

(** ** What a single tool call does *)

(** The world after [NewOp]. *)
Definition bump (id : string) (w : world) : world :=
  {| w_mgr := (NewOp OpcodeNone id JNull (w_mgr w)).1; w_log := w_log w |}.

Definition upd (f : mgr → mgr) (w : world) : world :=
  {| w_mgr := f (w_mgr w); w_log := w_log w |}.

Definition cancelled (w : world) : bool := m_cancelled (w_mgr w).
Definition ops (w : world) : list GeneratorOpcode := m_ops (w_mgr w).

Definition returned {A} (o : outcome A) : bool :=
  match o with Return _ => true | Panic _ => false end.

(** Opcodes that report a step function the SDK has run. *)
Definition executed (op : GeneratorOpcode) : bool :=
  match g_op op with OpcodeStepRun | OpcodeStepError => true | _ => false end.

Definition reported (op : GeneratorOpcode) : Prop :=
  g_op op ∈ [OpcodeSleep; OpcodeWaitForEvent; OpcodeInvokeFunction; OpcodeAIGateway].

(** The world after a call of a tool other than [Run], and whether it returned:
    blocked before doing anything, memoized, failed, or reported as an opcode. *)
Inductive leaf_result (w : world) : world → bool → Prop :=
  | leaf_blocked : leaf_result w w false
  | leaf_return id : cancelled w = false → leaf_result w (bump id w) true
  | leaf_panic id : cancelled w = false → leaf_result w (bump id w) false
  | leaf_fail id e : cancelled w = false → leaf_result w (upd (SetErr e) (bump id w)) false
  | leaf_op id op : cancelled w = false → reported op →
      leaf_result w (upd (AppendOp op) (bump id w)) false.

(** The function of the next step named [id] may be entered: the step is the target, if
    there is one, and otherwise the invocation does not plan. *)
Definition runs_here (c : ctx) (req : Request) (w : world) (id : string) : Prop :=
  match cx_target c with
  | Some h => step_hash (m_indexes (w_mgr w)) id = h
  | None => cx_parallel c || disableImmediateExecution (r_callCtx req) = false
  end.

(** The world after a call of [Run] with the step function [f]. *)
Inductive run_result {V} (req : Request) (c : ctx) (f : ctx → M (V * option goerr)) (id : string)
    (w : world) : world → bool → Prop :=
  | run_leaf w' b : leaf_result w w' b → run_result req c f id w w' b
  | run_planned :
      cancelled w = false → cx_mgr c = true → cx_target c = None →
      cx_parallel c || disableImmediateExecution (r_callCtx req) = true →
      run_result req c f id w
        (upd (AppendOp (planned_op (step_hash (m_indexes (w_mgr w)) id) id)) (bump id w)) false
  | run_body_panic w' p :
      cancelled w = false → cx_mgr c = true → runs_here c req w id →
      f c (bump id w) = (w', Panic p) →
      run_result req c f id w (upd Cancel w') false
  | run_body_fail w' r e :
      cancelled w = false → cx_mgr c = true → runs_here c req w id →
      f c (bump id w) = (w', Return r) →
      run_result req c f id w (upd Cancel (upd (SetErr e) w')) false
  | run_body_crash w' r :
      cancelled w = false → cx_mgr c = true → runs_here c req w id →
      f c (bump id w) = (w', Return r) →
      run_result req c f id w (upd Cancel w') false
  | run_executed w' r op oe :
      cancelled w = false → cx_mgr c = true → runs_here c req w id →
      f c (bump id w) = (w', Return r) →
      executed op = true → g_id op = step_hash (m_indexes (w_mgr w)) id →
      run_result req c f id w
        (upd Cancel (upd (from_option SetErr (λ m, m) oe) (upd (AppendOp op) w'))) false.

#[local] Hint Constructors leaf_result run_result : core.

(** [runs m w Q]: the run of [m] from [w] ends in a world and a way, normal or
    not, that satisfy [Q]. *)
Definition runs {A} (m : M A) (w : world) (Q : world → bool → Prop) : Prop :=
  Q (m w).1 (returned (m w).2).

Section runs.
Context {A : Type} (Q : world → bool → Prop).

Lemma runs_bind_return {B} (m : M B) (k : B → M A) w w' b :
  m w = (w', Return b) → runs (k b) w' Q → runs (bind m k) w Q.
Proof. unfold runs, bind. by intros ->. Qed.

Lemma runs_bind_panic {B} (m : M B) (k : B → M A) w w' p :
  m w = (w', Panic p) → Q w' false → runs (bind m k) w Q.
Proof. unfold runs, bind. by intros ->. Qed.

Lemma runs_preflight c (k : M A) w :
  Q w false → (cancelled w = false → cx_mgr c = true → runs k w Q) →
  runs (preflight c;;; k) w Q.
Proof.
  unfold runs, bind, preflight, cancelled, panic, ret. intros Hw Hk.
  destruct (cx_mgr c), (m_cancelled (w_mgr w)); simpl; auto.
Qed.

Lemma runs_newOp op id opts (k : UnhashedOp → M A) w :
  runs (k {| uo_op := op; uo_id := id; uo_opts := opts;
             uo_pos := next_index (m_indexes (w_mgr w)) id |}) (bump id w) Q →
  runs (u <- newOp op id opts;; k u) w Q.
Proof. done. Qed.

Lemma runs_fail e w : Q (upd (SetErr e) w) false → runs (fail_hijack (A:=A) e) w Q.
Proof. done. Qed.

Lemma runs_append op p w : Q (upd (AppendOp op) w) false → runs (appendOp op;;; panic (A:=A) p) w Q.
Proof. done. Qed.

Lemma runs_panic p w : Q w false → runs (panic (A:=A) p) w Q.
Proof. done. Qed.

Lemma runs_ret (a : A) w : Q w true → runs (ret a) w Q.
Proof. done. Qed.

Lemma runs_defer_cancel (m : M A) w :
  runs m w (λ w' b, Q (upd Cancel w') b) → runs (defer_cancel m) w Q.
Proof. unfold runs, defer_cancel. by destruct (m w). Qed.
End runs.

Ltac step_tool :=
  first [ apply runs_fail | apply runs_append | apply runs_panic | apply runs_ret
        | apply runs_newOp ].

Section tool_results.
Context {V : Type} (req : Request).
Implicit Types (t : gotype V) (c : ctx) (w : world).

Lemma run_memo_leaf t id id' val w :
  cancelled w = false → runs (run_memo t id val) (bump id' w) (leaf_result w).
Proof.
  intros Hc. unfold run_memo.
  assert (∀ val, runs (match gt_unmarshal t val with
    | (_, Some e) => fail_hijack (errorf (in_quotes "error unmarshalling state for step" id) e "")
    | (v, None) => ret (v, None) end : M (V * option goerr)) (bump id' w) (leaf_result w)) as Hval.
  { intros j. destruct (gt_unmarshal t j) as [v [e|]]; step_tool; by eauto. }
  destruct (decode_response val) as [[d [ej|]]|]; simpl; [|apply Hval..].
  destruct (decode_StepError ej); [|step_tool; by eauto].
  destruct (unmarshal_raw t _) as [v [e|]]; step_tool; by eauto.
Qed.

Lemma Sleep_leaf c id d w : runs (Sleep req c id d) w (leaf_result w).
Proof.
  unfold Sleep. apply runs_preflight; [by constructor|]. intros Hc _. step_tool.
  destruct (Step req _); step_tool; [by eauto|].
  apply leaf_op; [done|]. unfold reported. set_solver.
Qed.

Lemma WaitForEvent_leaf c t id o w : runs (WaitForEvent req c t id o) w (leaf_result w).
Proof.
  unfold WaitForEvent. apply runs_preflight; [by constructor|]. intros Hc _. step_tool.
  destruct (Step req _) as [j|].
  - assert (∀ j, runs (match gt_unmarshal t j with
      | (_, Some e) => fail_hijack (errorf (in_quotes
           "error unmarshalling wait for event value in" (wo_event o)) e "")
      | (v, None) => ret (v, None) end : M (V * option goerr)) (bump id w) (leaf_result w)) as Hval.
    { intros j'. destruct (gt_unmarshal t j') as [v [e|]]; step_tool; by eauto. }
    destruct j; first [apply Hval|step_tool; by eauto].
  - step_tool. apply leaf_op; [done|]. unfold reported. set_solver.
Qed.

Lemma Invoke_leaf c t id o w : runs (Invoke req c t id o) w (leaf_result w).
Proof.
  unfold Invoke. apply runs_preflight; [by constructor|]. intros Hc _. step_tool.
  destruct (Step req _) as [j|].
  - unfold invoke_memo. destruct (unmarshal_raw_map j) as [m|]; [|step_tool; by eauto].
    destruct (m !! "data") as [d|].
    + destruct (gt_unmarshal t d) as [v [e|]]; step_tool; by eauto.
    + destruct (m !! "error") as [e|]; [|step_tool; by eauto].
      destruct (decode_message e); step_tool; by eauto.
  - step_tool. apply leaf_op; [done|]. unfold reported. set_solver.
Qed.

Lemma Infer_leaf c tin t id o b w : runs (Infer req c tin t id o b) w (leaf_result w).
Proof.
  unfold Infer. apply runs_preflight; [by constructor|]. intros Hc _. step_tool.
  destruct (Step req _) as [j|].
  - unfold infer_memo.
    assert (∀ val, runs (match gt_kind t with
      | KInterface => panic (UserPanic "reflect: New(nil)")
      | KOther => ret (gt_unmarshal t val)
      | KPtr => ret (gt_unmarshal_elem t val) end) (bump id w) (leaf_result w)) as Hval.
    { intros j'. destruct (gt_kind t); step_tool; by eauto. }
    destruct (decode_response j) as [[d [ej|]]|]; simpl; [|apply Hval..].
    destruct (decode_StepError ej); step_tool; by eauto.
  - destruct (gt_marshal tin b); step_tool; [|by eauto].
    apply leaf_op; [done|]. unfold reported. set_solver.
Qed.

Lemma Run_result c t id f w : runs (Run req c t id f) w (run_result req c f id w).
Proof.
  unfold Run. apply runs_preflight; [by repeat constructor|]. intros Hc Hm. step_tool.
  destruct (Step req _) as [val|] eqn:Hval.
  { pose proof (run_memo_leaf t id id val w Hc) as Hleaf. unfold runs in *. by constructor. }
  set (h := MustHash _). assert (h = step_hash (m_indexes (w_mgr w)) id) as Hh by done.
  clearbody h. clear Hval. unfold getTargetStepID, isParallel.
  destruct (match cx_target c with Some target => negb (bool_decide (target = h))
            | None => false end) eqn:Htarget; [step_tool; by eauto|].
  destruct (_ || _) eqn:Hplan.
  { step_tool. rewrite Hh. destruct (cx_target c) eqn:Ht; [done|]. by apply run_planned. }
  assert (runs_here c req w id) as Hhere.
  { unfold runs_here. destruct (cx_target c); [|done].
    apply negb_false_iff, bool_decide_eq_true in Htarget. congruence. }
  apply runs_defer_cancel. destruct (f c (bump id w)) as [w' [[v e]|p]] eqn:Hf.
  - eapply runs_bind_return; [done|]. unfold run_finish.
    assert (∀ op oe, executed op = true → g_id op = h →
      run_result req c f id w
        (upd Cancel (upd (from_option SetErr (λ m, m) oe) (upd (AppendOp op) w'))) false) as Hex.
    { intros op oe ? Hid. eapply run_executed; [done..|by rewrite Hid]. }
    destruct e as [e|].
    + destruct (IsStepError e); [step_tool; by eapply run_body_fail|].
      destruct (err_msg e); [|step_tool; by eapply run_body_crash].
      apply (Hex (step_error_op h id s (gt_marshal t v)) (Some e)); done.
    + destruct (gt_marshal t v) as [d|].
      * apply (Hex (step_run_op h id (Some d)) None); done.
      * apply (Hex (step_run_op h id None)
          (Some (errorf (in_quotes "unable to marshal run respone for" id) errMarshal ""))); done.
  - eapply runs_bind_panic; [done|]. by eapply run_body_panic.
Qed.
End tool_results.

(** ** Invariants of programs

    A relation between the worlds before and after that tools respect is respected
    by every program.  A group goes on after one of its functions has panicked,
    hence [R_after_panic]. *)

Section exec_inv.
Context {V : Type} (req : Request).
Context (around : string → (ctx → M (V * option goerr)) → ctx → M (V * option goerr)).
Context (note : string → M unit).
Context (R : world → world → bool → Prop) (C : ctx → Prop).
Context (R_refl : ∀ w b, R w w b).
Context (R_trans : ∀ w1 w2 w3 b, R w1 w2 true → R w2 w3 b → R w1 w3 b).
Context (R_after_panic : ∀ w1 w2 w3 b, R w1 w2 false → R w2 w3 b → R w1 w3 false).
Context (R_note : ∀ w s, runs (note s) w (R w)).
Context (R_leaf : ∀ w w' b, leaf_result w w' b → R w w' b).
Context (R_run : ∀ c (f : ctx → M (V * option goerr)) id w w' b,
  C c → (∀ w, runs (f c) w (R w)) → run_result req c (around id f) id w w' b → R w w' b).
Context (C_use : ∀ r c, C c → C (use r c)) (C_par : ∀ c, C c → C (with_parallel c)).

Lemma runs_bind_inv {A B} (m : M A) (k : A → M B) w :
  runs m w (R w) → (∀ a w', runs (k a) w' (R w')) → runs (bind m k) w (R w).
Proof.
  unfold runs, bind. intros Hm Hk. destruct (m w) as [w' [a|p]]; simpl in *; [|done].
  by eapply R_trans.
Qed.

Lemma parallel_loop_inv c (fns : list (ctx → M (V * option goerr))) results planned unexp w :
  Forall (λ f, ∀ w, runs (f c) w (R w)) fns →
  ∃ w' results' planned' unexp',
    parallel_loop c fns results planned unexp w =
      (w', Return (results', planned', unexp')) ∧
    R w w' (negb planned' && bool_decide (unexp' = None)) ∧
    (planned = true → planned' = true) ∧ (unexp ≠ None → unexp' ≠ None).
Proof.
  intros Hfns. revert results planned unexp w.
  induction Hfns as [|f fns Hf _ IH]; intros results planned unexp w; simpl.
  { eexists _, _, _, _. split; [done|]. split_and!; auto. }
  specialize (Hf w). unfold runs in Hf. destruct (f c w) as [w1 [[v e]|p]]; simpl in Hf.
  - destruct (IH (results ++ [{| pr_error := e; pr_value := v |}]) planned unexp w1)
      as (w' & rs & pl & un & Heq & HR & ? & ?).
    eexists _, _, _, _. split; [exact Heq|]. split_and!; [by eapply R_trans|done|done].
  - destruct p as [| |text].
    + destruct (IH results true unexp w1) as (w' & rs & pl & un & Heq & HR & Hpl & ?).
      rewrite (Hpl eq_refl) in *. eexists _, _, _, _. split; [exact Heq|].
      split_and!; [by eapply R_after_panic|done|done].
    + destruct (IH results planned (Some NotInFunction) w1)
        as (w' & rs & pl & un & Heq & HR & ? & Hun).
      eexists _, _, _, _. split; [exact Heq|]. specialize (Hun ltac:(done)).
      rewrite bool_decide_eq_false_2, andb_false_r in * by done.
      split_and!; [by eapply R_after_panic|done|done].
    + destruct (IH results planned (Some (UserPanic text)) w1)
        as (w' & rs & pl & un & Heq & HR & ? & Hun).
      eexists _, _, _, _. split; [exact Heq|]. specialize (Hun ltac:(done)).
      rewrite bool_decide_eq_false_2, andb_false_r in * by done.
      split_and!; [by eapply R_after_panic|done|done].
Qed.

Lemma Parallel_inv c (fns : list (ctx → M (V * option goerr))) w :
  Forall (λ f, ∀ w, runs (f (with_parallel c)) w (R w)) fns →
  runs (Parallel c fns) w (R w).
Proof.
  intros Hfns. unfold Parallel.
  destruct (parallel_loop_inv (with_parallel c) fns [] false None w Hfns)
    as (w' & rs & pl & un & Heq & HR & _).
  eapply runs_bind_return; [exact Heq|]. destruct un as [p|].
  - rewrite bool_decide_eq_false_2, andb_false_r in HR by done. by step_tool.
  - rewrite bool_decide_eq_true_2, andb_true_r in HR by done. destruct pl; by step_tool.
Qed.

Lemma runs_weaken {A} (m : M A) w (Q1 Q2 : world → bool → Prop) :
  runs m w Q1 → (∀ w' b, Q1 w' b → Q2 w' b) → runs m w Q2.
Proof. unfold runs. auto. Qed.

Lemma exec_inv (p : prog V) c w : C c → runs (exec_with req around note p c) w (R w).
Proof.
  revert c w. induction p as [v e|s|s k IHk|r t id body k IHb IHk|r id d k IHk
    |r t id o k IHk|r t id o k IHk|r ti t id o b k IHk|r fns k IHf IHk] using prog_ind_nested;
    intros c w Hc; simpl.
  - step_tool. apply R_refl.
  - step_tool. apply R_refl.
  - apply runs_bind_inv; [apply R_note|auto].
  - apply runs_bind_inv; [|intros [v e] w'; auto].
    eapply runs_weaken; [apply Run_result|]. intros w' b. apply R_run; auto.
  - apply runs_bind_inv; [|auto]. eapply runs_weaken; [apply Sleep_leaf|auto].
  - apply runs_bind_inv; [|intros [v e] w'; auto].
    eapply runs_weaken; [apply WaitForEvent_leaf|auto].
  - apply runs_bind_inv; [|intros [v e] w'; auto].
    eapply runs_weaken; [apply Invoke_leaf|auto].
  - apply runs_bind_inv; [|intros [v e] w'; auto].
    eapply runs_weaken; [apply Infer_leaf|auto].
  - apply runs_bind_inv; [|auto]. apply Parallel_inv.
    rewrite Forall_forall in IHf. apply Forall_forall. intros f Hf. apply list_elem_of_In, in_map_iff in Hf as (p & <- & Hp%list_elem_of_In).
    intros w'. by apply IHf; auto.
Qed.
End exec_inv.

(** ** Theorems on every program *)

Definition executed_count (w : world) : nat := length (filter (λ op, executed op = true) (ops w)).

(** The effects of a run on the manager: only appending operations, at most one
    executed step, none of it when it returns, nothing once cancelled. *)
Definition run_inv (w w' : world) (b : bool) : Prop :=
  (b = true → ops w' = ops w ∧ m_err (w_mgr w') = m_err (w_mgr w) ∧ cancelled w' = cancelled w) ∧
  (cancelled w = true →
     ops w' = ops w ∧ m_err (w_mgr w') = m_err (w_mgr w) ∧ cancelled w' = true) ∧
  (∃ new, ops w' = ops w ++ new) ∧
  (executed_count w' ≤ S (executed_count w))%nat ∧
  (executed_count w < executed_count w' → cancelled w' = true)%nat.

Lemma executed_count_app w w' new :
  ops w' = ops w ++ new →
  executed_count w' = (executed_count w + length (filter (λ op, executed op = true) new))%nat.
Proof. intros Hops. unfold executed_count. by rewrite Hops, filter_app, length_app. Qed.

Lemma run_inv_trans w1 w2 w3 b b' :
  run_inv w1 w2 b → run_inv w2 w3 b' → run_inv w1 w3 (b && b').
Proof.
  unfold run_inv. intros (Hr1 & Hc1 & (n1 & Hn1) & He1 & Hx1) (Hr2 & Hc2 & (n2 & Hn2) & He2 & Hx2).
  split_and!.
  - intros [-> ->]%andb_true_iff.
    destruct (Hr1 eq_refl) as (<- & <- & <-), (Hr2 eq_refl) as (<- & <- & <-). done.
  - intros Hc. destruct (Hc1 Hc) as (<- & <- & Hc'). by destruct (Hc2 Hc') as (<- & <- & ?).
  - exists (n1 ++ n2). by rewrite Hn2, Hn1, app_assoc.
  - destruct (decide (executed_count w1 < executed_count w2)%nat) as [Hlt|]; [|lia].
    destruct (Hc2 (Hx1 Hlt)) as (Hops & _). unfold executed_count in *. rewrite Hops. lia.
  - intros Hlt. destruct (decide (executed_count w1 < executed_count w2)%nat) as [Hlt1|].
    + by apply Hc2, Hx1.
    + apply Hx2. lia.
Qed.

Lemma filter_executed_none new :
  Forall (λ op, executed op = false) new → filter (λ op, executed op = true) new = [].
Proof. induction 1 as [|op new Hop _ IH]; [done|]. by rewrite filter_cons, Hop. Qed.

Lemma run_inv_same w w' b :
  ops w' = ops w → m_err (w_mgr w') = m_err (w_mgr w) → cancelled w' = cancelled w →
  run_inv w w' b.
Proof.
  intros Ho He Hc. assert (executed_count w' = executed_count w) as Hx.
  { unfold executed_count. by rewrite Ho. }
  split_and!; [done|by rewrite Hc|exists []; by rewrite app_nil_r|lia|lia].
Qed.

(** A step of a live invocation that runs no step function. *)
Lemma run_inv_live w w' b new :
  cancelled w = false → cancelled w' = false → ops w' = ops w ++ new →
  Forall (λ op, executed op = false) new →
  (b = true → new = [] ∧ m_err (w_mgr w') = m_err (w_mgr w)) →
  run_inv w w' b.
Proof.
  intros Hc Hc' Hops Hnew Hb.
  assert (executed_count w' = executed_count w) as Hcount.
  { rewrite (executed_count_app _ _ _ Hops).
    rewrite filter_executed_none by done. simpl. lia. }
  split_and!; [|congruence|by eauto|lia|lia].
  intros Hb'. destruct (Hb Hb') as [-> ?]. rewrite app_nil_r in Hops. split_and!; congruence.
Qed.

Lemma run_inv_leaf w w' b : leaf_result w w' b → run_inv w w' b.
Proof.
  intros Hl. destruct Hl as [|id Hc|id Hc|id e Hc|id op Hc Hop].
  - by apply run_inv_same.
  - by apply (run_inv_live _ _ _ []); rewrite ?app_nil_r.
  - by apply (run_inv_live _ _ _ []); rewrite ?app_nil_r.
  - by apply (run_inv_live _ _ _ []); rewrite ?app_nil_r.
  - apply (run_inv_live _ _ _ [op]); try done. repeat constructor.
    unfold reported in Hop. unfold executed. by destruct (g_op op); set_solver.
Qed.

Lemma run_inv_cancels w w' new :
  cancelled w = false → cancelled w' = true → ops w' = ops w ++ new →
  (executed_count w' ≤ S (executed_count w))%nat → run_inv w w' false.
Proof. intros. split_and!; [done|congruence|by eauto|done|done]. Qed.

Lemma run_inv_run {V} req c (f : ctx → M (V * option goerr)) id w w' b :
  (∀ w, runs (f c) w (run_inv w)) → run_result req c f id w w' b → run_inv w w' b.
Proof.
  intros Hf Hr.
  assert (∀ w' o, f c (bump id w) = (w', o) →
    (∃ new, ops w' = ops w ++ new) ∧ (executed_count w' ≤ S (executed_count w))%nat ∧
    (returned o = true → ops w' = ops w)) as Hbody.
  { intros w1 o Hw1. specialize (Hf (bump id w)). unfold runs in Hf. rewrite Hw1 in Hf.
    destruct Hf as (Hret & _ & ? & ? & _). split_and!; [done|done|]. intros Ho.
    by destruct (Hret Ho). }
  destruct Hr as [w' b Hl|Hc _|w' p Hc _ _ Hw|w' r e Hc _ _ Hw|w' r Hc _ _ Hw
    |w' r op oe Hc _ _ Hw Hx].
  - by apply run_inv_leaf.
  - apply (run_inv_live _ _ _ [planned_op (step_hash (m_indexes (w_mgr w)) id) id]);
      try done. by repeat constructor.
  - destruct (Hbody _ _ Hw) as ((new & ?) & ? & _). by apply (run_inv_cancels _ _ new).
  - destruct (Hbody _ _ Hw) as ((new & ?) & ? & _). by apply (run_inv_cancels _ _ new).
  - destruct (Hbody _ _ Hw) as ((new & ?) & ? & _). by apply (run_inv_cancels _ _ new).
  - destruct (Hbody _ _ Hw) as (_ & _ & Hops). specialize (Hops eq_refl).
    assert (ops (upd Cancel (upd (from_option SetErr (λ m, m) oe) (upd (AppendOp op) w'))) =
      ops w ++ [op]) as Hops'.
    { destruct oe; simpl; unfold ops in *; simpl; by rewrite Hops. }
    apply (run_inv_cancels _ _ [op]); [done|done|exact Hops'|].
    rewrite (executed_count_app _ _ _ Hops'), filter_cons, Hx. simpl. lia.
Qed.

Lemma exec_run_inv {V} req (p : prog V) c w : runs (exec req p c) w (run_inv w).
Proof.
  rewrite exec_plain. apply (exec_inv req _ _ run_inv (λ _, True)); try done.
  - intros w' b. by apply run_inv_same.
  - intros w1 w2 w3 b. apply (run_inv_trans w1 w2 w3 true b).
  - intros w1 w2 w3 b. apply (run_inv_trans w1 w2 w3 false b).
  - intros w' s. by apply run_inv_same.
  - apply run_inv_leaf.
  - intros c' f id w1 w2 b _ Hf. by apply run_inv_run.
Qed.

(** The world an invocation starts from. *)
Definition start : world := {| w_mgr := NewManager; w_log := [] |}.

(** A user function that returns has reported no operation, set no error and
    cancelled nothing: operations come only from functions that were unwound. *)
Theorem returning_reports_nothing {V} req (p : prog V) c w w' r :
  exec req p c w = (w', Return r) →
  ops w' = ops w ∧ m_err (w_mgr w') = m_err (w_mgr w) ∧ cancelled w' = cancelled w.
Proof.
  intros Hp. pose proof (exec_run_inv req p c w) as Hinv. unfold runs in Hinv.
  rewrite Hp in Hinv. by apply Hinv.
Qed.

Lemma returning_reports_nothing_witness :
  let c := SetManager background in
  let w := {| w_mgr := NewManager; w_log := ["hello"] |} in
  exec zero_Request (PLog "hello" (PRet JNull None)) c start = (w, Return (JNull, None)) ∧
  ops w = ops start ∧ m_err (w_mgr w) = m_err (w_mgr start) ∧ cancelled w = cancelled start.
Proof.
  split; [reflexivity|].
  eapply (returning_reports_nothing zero_Request (PLog "hello" (PRet JNull None))
            (SetManager background) _ _ (JNull, None)).
  reflexivity.
Defined.

(** ** The step functions that run

    [exec_traced] runs a program like [exec] and keeps another log: a mark when the
    function of a step is entered, and one when it has returned, both with the hash the
    step has at that moment.  What the program logs itself is left out. *)

Definition began (h : string) : string := "began " +:+ h.
Definition ended (h : string) : string := "ended " +:+ h.
Definition marks (hs e : list string) : list string := (began <$> hs) ++ (ended <$> e).

(** The hash of the latest use of [id]. *)
Definition latest_hash (m : mgr) (id : string) : string :=
  hex_encode (sha1_sum (hash_input id (default 0 (m_indexes m !! id)))).

Definition marked {V} (id : string) (f : ctx → M (V * option goerr)) (c : ctx) :
  M (V * option goerr) := λ w,
  let h := latest_hash (w_mgr w) id in
  (log (began h);;; r <- f c;; log (ended h);;; ret r) w.

Definition exec_traced {V} (req : Request) : prog V → ctx → M (V * option goerr) :=
  exec_with req marked (λ _, ret tt).

Lemma latest_hash_bump id w :
  latest_hash (w_mgr (bump id w)) id = step_hash (m_indexes (w_mgr w)) id.
Proof. unfold latest_hash. simpl. by rewrite lookup_insert_eq. Qed.

(** *** The marks change nothing else *)

(** Computations that agree but for the log. *)
Definition same_run {A} (m m' : M A) : Prop := ∀ w w',
  w_mgr w = w_mgr w' → w_mgr (m w).1 = w_mgr (m' w').1 ∧ (m w).2 = (m' w').2.

Lemma same_bind {A B} (m m' : M A) (k k' : A → M B) :
  same_run m m' → (∀ a, same_run (k a) (k' a)) → same_run (bind m k) (bind m' k').
Proof.
  intros Hm Hk w w' Hw. unfold bind. destruct (Hm w w' Hw) as [Hm1 Hm2].
  destruct (m w) as [w1 [a|p]], (m' w') as [w1' [a'|p']]; simplify_eq/=; [by apply Hk|done].
Qed.

Lemma same_ret {A} (a : A) : same_run (ret a) (ret a).
Proof. by intros w w' Hw. Qed.

Lemma same_panic {A} p : same_run (panic (A:=A) p) (panic p).
Proof. by intros w w' Hw. Qed.

Lemma same_log s : same_run (log s) (ret tt).
Proof. by intros w w' Hw. Qed.

Lemma same_on_mgr f : same_run (on_mgr f) (on_mgr f).
Proof. intros w w' Hw. simpl. by rewrite Hw. Qed.

Lemma same_newOp op id opts : same_run (newOp op id opts) (newOp op id opts).
Proof. intros w w' Hw. unfold newOp. by rewrite Hw. Qed.

Lemma same_preflight c : same_run (preflight c) (preflight c).
Proof.
  intros w w' Hw. unfold preflight. rewrite Hw.
  by destruct (cx_mgr c), (m_cancelled (w_mgr w')).
Qed.

Lemma same_defer_cancel {A} (m m' : M A) :
  same_run m m' → same_run (defer_cancel m) (defer_cancel m').
Proof.
  intros Hm w w' Hw. unfold defer_cancel. destruct (Hm w w' Hw) as [Hm1 Hm2].
  destruct (m w), (m' w'). simplify_eq/=. by rewrite Hm1.
Qed.

Ltac same_tool :=
  repeat first
    [ apply same_ret | apply same_panic | apply same_on_mgr | apply same_newOp
    | apply same_preflight | apply same_bind; [|intros ?]
    | match goal with |- same_run (match ?x with _ => _ end) _ => destruct x end ].

Section same_run.
Context {V : Type} (req : Request).
Implicit Types (t : gotype V) (f g : ctx → M (V * option goerr)).

Lemma same_run_finish t h id (r : V * option goerr) :
  same_run (run_finish t h id r) (run_finish t h id r).
Proof. unfold run_finish, fail_hijack, appendOp, setErr. same_tool. Qed.

Lemma same_Run c t id f g : same_run (f c) (g c) → same_run (Run req c t id f) (Run req c t id g).
Proof.
  intros Hfg. unfold Run. apply same_bind; [apply same_preflight|intros _].
  apply same_bind; [apply same_newOp|intros op].
  destruct (Step req op); [unfold run_memo, fail_hijack, setErr; same_tool|].
  destruct (match getTargetStepID c with Some _ => _ | None => false end); [apply same_panic|].
  destruct (_ || _); [unfold appendOp; same_tool|]. apply same_defer_cancel.
  apply same_bind; [done|]. intros r. apply same_run_finish.
Qed.

Lemma same_Sleep c id d : same_run (Sleep req c id d) (Sleep req c id d).
Proof. unfold Sleep, appendOp. same_tool. Qed.

Lemma same_WaitForEvent c t id o :
  same_run (WaitForEvent req c t id o) (WaitForEvent req c t id o).
Proof. unfold WaitForEvent, fail_hijack, appendOp, setErr. same_tool. Qed.

Lemma same_Invoke c t id o : same_run (Step.Invoke req c t id o) (Step.Invoke req c t id o).
Proof. unfold Invoke, invoke_memo, fail_hijack, appendOp, setErr. same_tool. Qed.

Lemma same_Infer c tin t id o b : same_run (Infer req c tin t id o b) (Infer req c tin t id o b).
Proof. unfold Infer, infer_memo, fail_hijack, appendOp, setErr. same_tool. Qed.

Lemma same_parallel_loop c (fns gns : list (ctx → M (V * option goerr))) rs pl un :
  Forall2 (λ f g, same_run (f c) (g c)) fns gns →
  same_run (parallel_loop c fns rs pl un) (parallel_loop c gns rs pl un).
Proof.
  intros Hfg. revert rs pl un. induction Hfg as [|f g fns gns Hf _ IH];
    intros rs pl un w w' Hw; [done|]. simpl. destruct (Hf w w' Hw) as [H1 H2].
  destruct (f c w) as [w1 [[v e]|[]]], (g c w') as [w1' [[v' e']|[]]]; simplify_eq/=;
    by apply IH.
Qed.

Lemma same_Parallel c (fns gns : list (ctx → M (V * option goerr))) :
  Forall2 (λ f g, same_run (f (with_parallel c)) (g (with_parallel c))) fns gns →
  same_run (Parallel c fns) (Parallel c gns).
Proof.
  intros Hfg. unfold Parallel. apply same_bind; [by apply same_parallel_loop|].
  intros [[rs pl] un]. same_tool.
Qed.

Lemma same_marked id f g c : same_run (f c) (g c) → same_run (marked id f c) (g c).
Proof.
  intros Hfg w w' Hw. unfold marked.
  set (w1 := {| w_mgr := w_mgr w; w_log := w_log w ++ [began (latest_hash (w_mgr w) id)] |}).
  destruct (Hfg w1 w' Hw) as [H1 H2]. unfold bind, log, ret. fold w1.
  destruct (f c w1) as [w2 [r|p]], (g c w') as [w2' [r'|p']]; by simplify_eq/=.
Qed.

Lemma exec_traced_same (p : prog V) c : same_run (exec_traced req p c) (exec req p c).
Proof.
  revert c. induction p as [v e|s|s k IHk|r t id body k IHb IHk|r id d k IHk
    |r t id o k IHk|r t id o k IHk|r ti t id o b k IHk|r fns k IHf IHk] using prog_ind_nested;
    intros c; simpl.
  - apply same_ret.
  - apply same_panic.
  - apply same_bind; [by intros w w' Hw|]. intros _. apply IHk.
  - apply same_bind; [apply same_Run, same_marked, IHb|]. intros [v e]. apply IHk.
  - apply same_bind; [apply same_Sleep|]. intros _. apply IHk.
  - apply same_bind; [apply same_WaitForEvent|]. intros [v e]. apply IHk.
  - apply same_bind; [apply same_Invoke|]. intros [v e]. apply IHk.
  - apply same_bind; [apply same_Infer|]. intros [v e]. apply IHk.
  - apply same_bind; [|intros rs; apply IHk]. apply same_Parallel.
    induction IHf as [|f fns Hf _ IH]; simpl; constructor; [apply Hf|exact IH].
Qed.

(** The traced execution from the start, by the marks it leaves. *)
Lemma exec_traced_start (p : prog V) c :
  let '(w, o) := exec req p c start in
  exec_traced req p c start =
    ({| w_mgr := w_mgr w; w_log := w_log (exec_traced req p c start).1 |}, o).
Proof.
  pose proof (exec_traced_same p c start start eq_refl) as [Hm Ho].
  destruct (exec req p c start) as [w o], (exec_traced req p c start) as [[m l] o'].
  by simplify_eq/=.
Qed.
End same_run.

(** *** What the marks say *)

(** The innermost of the steps that began is the only one that may end. *)
Definition innermost (hs e : list string) : Prop := e = [] ∨ ∃ hs' h, hs = hs' ++ [h] ∧ e = [h].

(** The operations among [new] that report a step which ran are none, or those of [e]. *)
Definition ran (new : list GeneratorOpcode) : list string :=
  g_id <$> filter (λ op, executed op = true) new.

Definition reports (new : list GeneratorOpcode) (e : list string) : Prop :=
  ran new = [] ∨ ran new = e.

(** The marks of a run from [w] to [w'], and the operations it adds that report a step. *)
Definition trace_inv (w w' : world) (b : bool) : Prop :=
  ∃ hs e new, w_log w' = w_log w ++ marks hs e ∧ innermost hs e ∧
    ops w' = ops w ++ new ∧
    reports new e ∧
    (cancelled w = true → cancelled w' = true ∧ hs = [] ∧ new = []) ∧
    (b = true → hs = [] ∧ new = []) ∧
    (hs ≠ [] → cancelled w' = true).

Lemma trace_inv_quiet w w' b new :
  w_log w' = w_log w → ops w' = ops w ++ new → Forall (λ op, executed op = false) new →
  (cancelled w = true → cancelled w' = true ∧ new = []) → (b = true → new = []) →
  trace_inv w w' b.
Proof.
  intros Hl Ho Hn Hc Hb. exists [], [], new.
  split_and!; try done; [by rewrite app_nil_r|by left| |by intros [? ->]%Hc|by intros ->%Hb].
  left. unfold ran. by rewrite (filter_executed_none _ Hn).
Qed.

Lemma trace_inv_refl w b : trace_inv w w b.
Proof. apply (trace_inv_quiet _ _ _ []); rewrite ?app_nil_r; try done. Qed.

Lemma innermost_nil e : innermost [] e → e = [].
Proof. intros [?|(hs & h & H & _)]; [done|]. by destruct hs. Qed.

Lemma trace_inv_trans w1 w2 w3 b1 b2 :
  trace_inv w1 w2 b1 → trace_inv w2 w3 b2 → trace_inv w1 w3 (b1 && b2).
Proof.
  intros (hs1 & e1 & n1 & Hl1 & Hi1 & Ho1 & Hx1 & Hc1 & Hb1 & Hd1)
    (hs2 & e2 & n2 & Hl2 & Hi2 & Ho2 & Hx2 & Hc2 & Hb2 & Hd2).
  destruct (decide (hs1 = [])) as [->|Hne].
  - apply innermost_nil in Hi1 as ->. exists hs2, e2, (n1 ++ n2).
    rewrite Hl2, Hl1, Ho2, Ho1, app_nil_r, <- app_assoc. split_and!; try done.
    + unfold reports, ran in *. rewrite filter_app, fmap_app.
      by destruct Hx1 as [-> | ->].
    + intros Hc. destruct (Hc1 Hc) as (Hc' & _ & ->). destruct (Hc2 Hc') as (? & -> & ->). done.
    + intros [-> ->]%andb_true_iff. destruct (Hb1 eq_refl) as [_ ->].
      by destruct (Hb2 eq_refl) as [-> ->].
  - destruct (Hc2 (Hd1 Hne)) as (Hc3 & -> & ->). apply innermost_nil in Hi2 as ->.
    exists hs1, e1, n1. rewrite Hl2, Hl1, Ho2, Ho1, !app_nil_r.
    split_and!; try done; [intros Hc; by destruct (Hc1 Hc) as (_ & -> & ->)|].
    intros [-> _]%andb_true_iff. by destruct (Hb1 eq_refl) as [-> ->].
Qed.

Lemma trace_inv_leaf w w' b : leaf_result w w' b → trace_inv w w' b.
Proof.
  destruct 1 as [|id Hc|id Hc|id e Hc|id op Hc Hop].
  - apply trace_inv_refl.
  - apply (trace_inv_quiet _ _ _ []); rewrite ?app_nil_r; congruence || done.
  - apply (trace_inv_quiet _ _ _ []); rewrite ?app_nil_r; congruence || done.
  - apply (trace_inv_quiet _ _ _ []); rewrite ?app_nil_r; congruence || done.
  - apply (trace_inv_quiet _ _ _ [op]); try done; [|congruence].
    repeat constructor. unfold reported in Hop. unfold executed. by destruct (g_op op); set_solver.
Qed.

(** What a step function that was entered leaves behind. *)
Lemma marked_trace {V} id (f : ctx → M (V * option goerr)) c w w' o :
  (∀ w, runs (f c) w (trace_inv w)) → marked id f c (bump id w) = (w', o) →
  let h := step_hash (m_indexes (w_mgr w)) id in
  ∃ hs e new, w_log w' = w_log w ++ marks (h :: hs) e ∧ innermost (h :: hs) e ∧
    ops w' = ops w ++ new ∧ reports new e ∧
    (returned o = true → hs = [] ∧ e = [h] ∧ new = []).
Proof.
  intros Hf. unfold marked. rewrite latest_hash_bump. set (h := step_hash _ _). unfold bind, log, ret.
  set (w1 := {| w_mgr := w_mgr (bump id w); w_log := w_log (bump id w) ++ [began h] |}).
  destruct (Hf w1) as (hs & e & new & Hl & Hi & Ho & Hx & _ & Hb & _).
  destruct (f c w1) as [w2 [r|p]]; simpl in *; intros [= <- <-].
  - destruct (Hb eq_refl) as [-> ->]. apply innermost_nil in Hi as ->.
    exists [], [h], []. simpl. rewrite Hl, app_nil_r. unfold marks. simpl.
    rewrite <- app_assoc, app_nil_r. split_and!;
      [done|right; by exists [], h|by rewrite app_nil_r in Ho|by left|done].
  - exists hs, e, new. rewrite Hl. unfold marks. simpl. rewrite <- !app_assoc.
    split_and!; try done. destruct Hi as [->|(hs' & h' & -> & ->)]; [by left|].
    right. by exists (h :: hs'), h'.
Qed.

Lemma trace_inv_run {V} req c (f : ctx → M (V * option goerr)) id w w' b :
  (∀ w, runs (f c) w (trace_inv w)) → run_result req c (marked id f) id w w' b →
  trace_inv w w' b.
Proof.
  intros Hf Hr.
  assert (∀ w1 o w', marked id f c (bump id w) = (w1, o) → cancelled w = false →
    w_log w' = w_log w1 → ops w' = ops w1 → cancelled w' = true → trace_inv w w' false) as Hfail.
  { intros w1 o w2 Hw Hc Hl Ho Hc2.
    destruct (marked_trace _ _ _ _ _ _ Hf Hw) as (hs & e & new & Hl1 & Hi & Ho1 & Hx & _).
    exists (step_hash (m_indexes (w_mgr w)) id :: hs), e, new. rewrite Hl, Ho. split_and!; try done.
    congruence. }
  destruct Hr as [w' b Hl|Hc _|w' p Hc _ _ Hw|w' r e Hc _ _ Hw|w' r Hc _ _ Hw
    |w' r op oe Hc _ _ Hw Hx Hid].
  - by apply trace_inv_leaf.
  - apply (trace_inv_quiet _ _ _ [planned_op (step_hash (m_indexes (w_mgr w)) id) id]);
      try done; [by repeat constructor|congruence].
  - by eapply Hfail.
  - by eapply Hfail.
  - by eapply Hfail.
  - destruct (marked_trace _ _ _ _ _ _ Hf Hw) as (hs & e & new & Hl & Hi & Ho & _ & Hb).
    destruct (Hb eq_refl) as (-> & -> & ->). rewrite app_nil_r in Ho.
    set (h := step_hash (m_indexes (w_mgr w)) id) in *.
    exists [h], [h], [op]. split_and!; try done; try congruence.
    + destruct oe; unfold ops in *; simpl; by rewrite Ho.
    + right. unfold ran. rewrite filter_cons, decide_True by done. simpl. by rewrite Hid.
Qed.

Lemma exec_trace_inv {V} req (p : prog V) c w : runs (exec_traced req p c) w (trace_inv w).
Proof.
  apply (exec_inv req _ _ trace_inv (λ _, True)); try done.
  - apply trace_inv_refl.
  - intros w1 w2 w3 b. apply (trace_inv_trans w1 w2 w3 true b).
  - intros w1 w2 w3 b. apply (trace_inv_trans w1 w2 w3 false b).
  - intros w' _. apply trace_inv_refl.
  - apply trace_inv_leaf.
  - intros c' f id w1 w2 b _ Hf. by apply trace_inv_run.
Qed.

(** C14: one invocation runs at most one step function to completion.  The functions of
    steps that are entered are nested in each other, the innermost alone may return, and
    when one was entered the invocation ends unwound with its context cancelled.  An
    operation that reports a step that ran is the one of the step that returned. *)
Theorem at_most_one_step_executed {V} req (p : prog V) c :
  let '(w, o) := exec req p c start in
  ∃ hs e, exec_traced req p c start = ({| w_mgr := w_mgr w; w_log := marks hs e |}, o) ∧
    innermost hs e ∧
    (hs ≠ [] → cancelled w = true ∧ returned o = false) ∧
    reports (ops w) e.
Proof.
  pose proof (exec_traced_start req p c) as Ht. pose proof (exec_trace_inv req p c start) as Hi.
  unfold runs in Hi. destruct (exec req p c start) as [w o]. rewrite Ht in Hi. simpl in Hi.
  destruct Hi as (hs & e & new & Hl & Hi & Ho & Hx & _ & Hb & Hd). simpl in *.
  change (ops w = new) in Ho. exists hs, e. rewrite Ht, Hl, Ho. split_and!; try done.
  intros Hne. split; [by apply Hd|]. destruct (returned o); naive_solver.
Qed.

(** Once a step has run and cancelled the context, nothing else in the
    invocation reports an operation or an error. *)
Theorem cancelled_is_inert {V} req (p : prog V) c w :
  cancelled w = true →
  let w' := (exec req p c w).1 in
  ops w' = ops w ∧ m_err (w_mgr w') = m_err (w_mgr w) ∧ cancelled w' = true.
Proof.
  intros Hc. pose proof (exec_run_inv req p c w) as (_ & Hinv & _). by apply Hinv.
Qed.

Lemma cancelled_is_inert_witness :
  let w := upd Cancel start in
  let p := PSleep Given "nap" 1000000000 (PRet JNull None) in
  cancelled w = true ∧
  let w' := (exec zero_Request p (SetManager background) w).1 in
  ops w' = ops w ∧ m_err (w_mgr w') = m_err (w_mgr w) ∧ cancelled w' = true.
Proof. split; [reflexivity|]. apply cancelled_is_inert. reflexivity. Defined.

(** ** Targeted invocations *)

(** The operations and marks a run adds, when its context carries the target [h]. *)
Definition of_target (h s : string) : Prop := s = began h ∨ s = ended h.

Definition target_inv (h : string) (w w' : world) (b : bool) : Prop :=
  ∃ new ms, ops w' = ops w ++ new ∧ w_log w' = w_log w ++ ms ∧
    Forall (λ op, g_op op ≠ OpcodeStepPlanned ∧ (executed op = true → g_id op = h)) new ∧
    Forall (of_target h) ms.

Lemma target_inv_same h w w' b : ops w' = ops w → w_log w' = w_log w → target_inv h w w' b.
Proof. intros Hops Hlog. exists [], []. by rewrite !app_nil_r. Qed.

Lemma target_inv_trans h w1 w2 w3 b1 b2 b3 :
  target_inv h w1 w2 b1 → target_inv h w2 w3 b2 → target_inv h w1 w3 b3.
Proof.
  intros (n1 & m1 & Hn1 & Hm1 & Hf1 & Hg1) (n2 & m2 & Hn2 & Hm2 & Hf2 & Hg2).
  exists (n1 ++ n2), (m1 ++ m2). rewrite Hn2, Hn1, Hm2, Hm1, !app_assoc.
  split_and!; [done|done|by apply Forall_app..].
Qed.

Lemma target_inv_leaf h w w' b : leaf_result w w' b → target_inv h w w' b.
Proof.
  destruct 1 as [|id Hc|id Hc|id e Hc|id op Hc Hop]; try by apply target_inv_same.
  exists [op], []. rewrite app_nil_r. split_and!; try done.
  repeat constructor; unfold reported, executed in *; destruct (g_op op); try done; set_solver.
Qed.

(** The function of a step is entered only when the step is the target. *)
Lemma marked_target {V} id (f : ctx → M (V * option goerr)) c h w w' o :
  (∀ w, runs (f c) w (target_inv h w)) → marked id f c (bump id w) = (w', o) →
  step_hash (m_indexes (w_mgr w)) id = h → target_inv h w w' false.
Proof.
  intros Hf Hm <-. unfold marked in Hm. rewrite latest_hash_bump in Hm.
  set (h := step_hash _ _) in *. clearbody h. unfold bind, log, ret in Hm.
  set (w1 := {| w_mgr := w_mgr (bump id w); w_log := w_log (bump id w) ++ [began h] |}) in *.
  destruct (Hf w1) as (new & ms & Ho & Hl & Hfo & Hms).
  destruct (f c w1) as [w2 [r|p]]; simpl in *; injection Hm as <- <-.
  - exists new, (began h :: ms ++ [ended h]). simpl. rewrite Hl. simpl.
    rewrite <- !app_assoc. split_and!; [done|done|done|]. constructor; [by left|].
    apply Forall_app. split; [done|]. apply Forall_singleton. by right.
  - exists new, (began h :: ms). rewrite Hl. simpl. rewrite <- app_assoc.
    split_and!; [done|done|done|]. constructor; [by left|done].
Qed.

Lemma target_inv_run {V} req c (f : ctx → M (V * option goerr)) id h w w' b :
  (cx_mgr c = true → cx_target c = Some h) →
  (∀ w, runs (f c) w (target_inv h w)) → run_result req c (marked id f) id w w' b →
  target_inv h w w' b.
Proof.
  intros Hc Hf Hr.
  assert (∀ w1 o w', marked id f c (bump id w) = (w1, o) → cx_mgr c = true →
    runs_here c req w id → ops w' = ops w1 → w_log w' = w_log w1 → target_inv h w w' false) as Hbody.
  { intros w1 o w2 Hw Hm Ht Ho Hl.
    eapply (target_inv_trans h _ w1 _ false false); [|by apply (target_inv_same _ _ _ false)].
    unfold runs_here in Ht. rewrite (Hc Hm) in Ht. by eapply marked_target. }
  destruct Hr as [w' b Hl|? Hm Hn|w' p Hcw Hm Ht Hw|w' r e Hcw Hm Ht Hw|w' r Hcw Hm Ht Hw
    |w' r op oe Hcw Hm Ht Hw Hx Hid].
  - by apply target_inv_leaf.
  - rewrite (Hc Hm) in Hn. done.
  - by eapply Hbody.
  - by eapply Hbody.
  - by eapply Hbody.
  - eapply (target_inv_trans h _ w' _ false false); [by eapply Hbody|].
    exists [op], []. rewrite app_nil_r. split_and!; [by destruct oe|by destruct oe| |done].
    repeat constructor; [unfold executed in Hx; by destruct (g_op op)|].
    intros _. unfold runs_here in Ht. rewrite (Hc Hm) in Ht. congruence.
Qed.

Lemma exec_target_inv {V} req (p : prog V) c h w :
  cx_target c = Some h → runs (exec_traced req p c) w (target_inv h w).
Proof.
  intros Hc.
  apply (exec_inv req _ _ (target_inv h) (λ c, cx_mgr c = true → cx_target c = Some h)).
  - intros w' b. by apply target_inv_same.
  - intros w1 w2 w3 b. apply target_inv_trans.
  - intros w1 w2 w3 b. apply target_inv_trans.
  - intros w' s. by apply target_inv_same.
  - apply target_inv_leaf.
  - intros c' f id w1 w2 b. apply target_inv_run.
  - intros [] c' Hc'; simpl; [done|by intros].
  - by intros c'.
  - done.
Qed.

(** C16: an invocation that targets a step enters the function of no other step, reports
    no other step as run and plans nothing. *)
Theorem target_runs_alone {V} req (p : prog V) c h :
  cx_target c = Some h →
  let w := (exec req p c start).1 in
  w_mgr (exec_traced req p c start).1 = w_mgr w ∧
  Forall (of_target h) (w_log (exec_traced req p c start).1) ∧
  Forall (λ op, g_op op ≠ OpcodeStepPlanned ∧ (executed op = true → g_id op = h)) (ops w).
Proof.
  intros Hc w. pose proof (exec_target_inv req p c h start Hc) as (new & ms & Ho & Hl & Hf & Hms).
  pose proof (exec_traced_start req p c) as Ht. unfold w. clear w.
  destruct (exec req p c start) as [w o]. rewrite Ht in *. simpl in *.
  split; [done|]. rewrite Hl. split; [done|]. unfold ops in *. simpl in Ho. by rewrite Ho.
Qed.

Lemma target_runs_alone_witness :
  let h := step_hash ∅ "b" in
  let c := {| cx_mgr := true; cx_target := Some h; cx_parallel := false |} in
  let leaf id := PRun Given raw_type id (PRet JNull None) PRet in
  let p := PParallel Given [leaf "a"; leaf "b"] (λ _, PRet JNull None) in
  let w := (exec zero_Request p c start).1 in
  cx_target c = Some h ∧ ops w = [step_run_op h "b" (Some JNull)] ∧
  w_log (exec_traced zero_Request p c start).1 = [began h; ended h] ∧
  w_mgr (exec_traced zero_Request p c start).1 = w_mgr w ∧
  Forall (of_target h) (w_log (exec_traced zero_Request p c start).1) ∧
  Forall (λ op, g_op op ≠ OpcodeStepPlanned ∧ (executed op = true → g_id op = h)) (ops w).
Proof.
  intros h c leaf p w. split; [reflexivity|]. split; [by vm_compute|]. split; [by vm_compute|].
  exact (target_runs_alone zero_Request p c h eq_refl).
Defined.

(** ** Planning *)

(** Computations that agree on every world. *)
Definition eqM {A} (m m' : M A) : Prop := ∀ w, m w = m' w.

#[export] Instance eqM_equiv {A} : Equivalence (@eqM A).
Proof. split; [by intros m w|by intros m m' H w|intros m1 m2 m3 H1 H2 w; by rewrite H1]. Qed.

#[export] Instance bind_proper {A B} :
  Proper (eqM ==> pointwise_relation A eqM ==> eqM) (@bind A B).
Proof.
  intros m m' Hm k k' Hk w. unfold bind. rewrite Hm. destruct (m' w) as [w' [a|p]]; [|done].
  apply Hk.
Qed.

(** The program with every step function replaced by a crash. *)
Fixpoint without_bodies {V} (p : prog V) : prog V :=
  match p with
  | PRet v e => PRet v e
  | PPanic s => PPanic s
  | PLog s k => PLog s (without_bodies k)
  | PRun r t id body k => PRun r t id (PPanic "body") (λ v e, without_bodies (k v e))
  | PSleep r id d k => PSleep r id d (without_bodies k)
  | PWait r t id o k => PWait r t id o (λ v e, without_bodies (k v e))
  | PInvoke r t id o k => PInvoke r t id o (λ v e, without_bodies (k v e))
  | PInfer r tin tout id o b k => PInfer r tin tout id o b (λ v e, without_bodies (k v e))
  | PParallel r fns k => PParallel r (map without_bodies fns) (λ rs, without_bodies (k rs))
  end.

(** The invocation plans: it has no target, and either its executor disabled
    immediate execution or the tools run inside a group. *)
Definition plans (req : Request) (c : ctx) : Prop :=
  cx_mgr c = true →
  cx_target c = None ∧ cx_parallel c || disableImmediateExecution (r_callCtx req) = true.

Lemma plans_use req r c : plans req c → plans req (use r c).
Proof. destruct r; [done|]. intros _. by intros. Qed.

Lemma plans_parallel req c : plans req c → plans req (with_parallel c).
Proof. intros Hc Hm. destruct (Hc Hm). done. Qed.

Lemma preflight_cases c w :
  (preflight c w = (w, Return tt) ∧ cancelled w = false ∧ cx_mgr c = true) ∨
  ∃ p, preflight c w = (w, Panic p).
Proof.
  unfold preflight, cancelled, panic, ret.
  destruct (cx_mgr c), (m_cancelled (w_mgr w)); simpl; eauto.
Qed.

Section planning.
Context {V : Type} (req : Request).
Implicit Types f g : ctx → M (V * option goerr).

Lemma Run_planning c t id f g :
  plans req c → eqM (Run req c t id f) (Run req c t id g).
Proof.
  intros Hc w. unfold Run, bind.
  destruct (preflight_cases c w) as [(-> & _ & Hm)|(p & ->)]; [|done].
  destruct (Hc Hm) as [Ht Hp]. unfold bind. simpl.
  unfold getTargetStepID, isParallel. rewrite Ht. simpl. rewrite Hp. done.
Qed.

Lemma parallel_loop_eq c (fns gns : list (ctx → M (V * option goerr))) rs pl un :
  Forall2 (λ f g, eqM (f c) (g c)) fns gns →
  eqM (parallel_loop c fns rs pl un) (parallel_loop c gns rs pl un).
Proof.
  intros Hfg. revert rs pl un. induction Hfg as [|f g fns gns Hf _ IH]; intros rs pl un w; [done|].
  simpl. rewrite Hf. destruct (g c w) as [w' [[v e]|[]]]; apply IH.
Qed.

Lemma Parallel_eq c (fns gns : list (ctx → M (V * option goerr))) :
  Forall2 (λ f g, eqM (f (with_parallel c)) (g (with_parallel c))) fns gns →
  eqM (Parallel c fns) (Parallel c gns).
Proof. intros Hfg. unfold Parallel. by rewrite (parallel_loop_eq _ _ _ _ _ _ Hfg). Qed.

(** While planning, no step function is run, whatever the program: its step
    functions can be replaced by crashes without any difference. *)
Theorem planning_runs_no_step (p : prog V) c :
  plans req c → eqM (exec req (without_bodies p) c) (exec req p c).
Proof.
  revert c. induction p as [v e|s|s k IHk|r t id body k IHb IHk|r id d k IHk
    |r t id o k IHk|r t id o k IHk|r ti t id o b k IHk|r fns k IHf IHk] using prog_ind_nested;
    intros c Hc; simpl; try done.
  - apply bind_proper; [done|]. intros _. by apply IHk.
  - apply bind_proper; [by apply Run_planning, plans_use|]. intros [v e]. by apply IHk.
  - apply bind_proper; [done|]. intros _. by apply IHk.
  - apply bind_proper; [done|]. intros [v e]. by apply IHk.
  - apply bind_proper; [done|]. intros [v e]. by apply IHk.
  - apply bind_proper; [done|]. intros [v e]. by apply IHk.
  - apply bind_proper; [|intros rs; by apply IHk]. apply Parallel_eq.
    rewrite map_map. induction IHf as [|f fns Hf _ IH]; simpl; constructor; [|done].
    by apply Hf, plans_parallel, plans_use.
Qed.

(** A step whose result is in the request is not run again: the call does
    not depend on the step function. *)
Theorem memoized_step_not_rerun c t id f g w j :
  r_steps req !! step_hash (m_indexes (w_mgr w)) id = Some j →
  Run req c t id f w = Run req c t id g w.
Proof.
  intros Hj. unfold Run, bind.
  destruct (preflight_cases c w) as [(-> & _ & Hm)|(p & ->)]; [|done].
  unfold bind. simpl. unfold Step, MustHash. simpl. unfold step_hash in Hj. by rewrite Hj.
Qed.
End planning.

Lemma planning_runs_no_step_witness :
  let c := with_parallel (SetManager background) in
  let p := PRun Given raw_type "a" (PLog "charge" (PRet JNull None)) PRet in
  plans zero_Request c ∧
  exec zero_Request (without_bodies p) c start = exec zero_Request p c start.
Proof.
  split; [by intros|]. apply (planning_runs_no_step zero_Request). by intros.
Defined.

Lemma memoized_step_not_rerun_witness :
  let req := {| r_event := None; r_events := []; r_steps := {[ step_hash ∅ "a" := JNum "1" ]};
     r_callCtx := zero_CallCtx; r_useAPI := false |} in
  let c := SetManager background in
  let f := exec req (PRet (JNum "2") None) in
  let g := exec req (PPanic "not again") in
  r_steps req !! step_hash (m_indexes (w_mgr start)) "a" = Some (JNum "1") ∧
  Run req c raw_type "a" f start = Run req c raw_type "a" g start.
Proof.
  intros req c f g.
  assert (r_steps req !! step_hash (m_indexes (w_mgr start)) "a" = Some (JNum "1")) as Hj
    by reflexivity.
  split; [exact Hj|]. exact (memoized_step_not_rerun req c raw_type "a" f g start _ Hj).
Defined.
