(* ===== verification/Functions.v ===== *)
(** * Functions and their configuration (funcs.go)

    [FunctionOpts] and its conversions, triggers, and the interface
    [ServableFunction] with its implementation [servableFunc].  Records of the
    vendored package [inngest] are kept with the fields the SDK fills in. *)

From S2P Require Import Prelude GoBytes GoTime Errors Step Program.

Open Scope Z_scope.

(** ** Options *)

(** Types of the vendored package [inngest] that the SDK passes on unchanged. *)
Record Priority := { pri_run : option string }.
Record Concurrency := {
  con_limit : Z; con_key : option string; con_scope : Z; con_hash : string }.
Record CancelT := { can_event : string; can_timeout : option string; can_if : option string }.
Record EventBatchConfig := { eb_key : option string; eb_maxSize : Z; eb_timeout : string }.

Record Debounce := { deb_key : string; deb_period : Z; deb_timeout : option Z }.

(** [Throttle]; the vendored [inngest.Throttle] has the same fields, and the code
    converts one to the other. *)
Record Throttle := {
  thr_limit : Z; thr_period : Z; thr_burst : Z; thr_key : option string }.

Record RateLimit := { rl_limit : Z; rl_period : Z; rl_key : option string }.
Record Timeouts := { to_start : option Z; to_finish : option Z }.

Record FunctionOpts := {
  fo_id : string;
  fo_name : string;
  fo_priority : option Priority;
  fo_concurrency : list Concurrency;
  fo_idempotency : option string;
  fo_retries : option Z;
  fo_cancel : list CancelT;
  fo_debounce : option Debounce;
  fo_timeouts : option Timeouts;
  fo_throttle : option Throttle;
  fo_rateLimit : option RateLimit;
  fo_batchEvents : option EventBatchConfig }.

(** [inngest.RateLimit] and [inngest.Timeouts]: durations are printed. *)
Record RateLimitCfg := { rlc_limit : Z; rlc_period : string; rlc_key : option string }.
Record TimeoutsCfg := { toc_start : option string; toc_finish : option string }.

Definition RateLimit_Convert (r : RateLimit) : RateLimitCfg :=
  {| rlc_limit := rl_limit r; rlc_period := duration_string (rl_period r); rlc_key := rl_key r |}.

Definition Timeouts_Convert (t : Timeouts) : TimeoutsCfg :=
  {| toc_start := duration_string <$> to_start t; toc_finish := duration_string <$> to_finish t |}.

Definition GetRateLimit (f : FunctionOpts) : option RateLimitCfg :=
  RateLimit_Convert <$> fo_rateLimit f.

Definition GetTimeouts (f : FunctionOpts) : option TimeoutsCfg :=
  Timeouts_Convert <$> fo_timeouts f.

(** ** Triggers *)

Record EventTriggerT := { et_event : string; et_expression : option string }.
Record CronTriggerT := { ct_cron : string }.

(** [inngest.Trigger] embeds a pointer to each kind. *)
Record TriggerT := { tr_event : option EventTriggerT; tr_cron : option CronTriggerT }.

Definition EventTrigger (name : string) (expression : option string) : TriggerT :=
  {| tr_event := Some {| et_event := name; et_expression := expression |}; tr_cron := None |}.

Definition CronTrigger (cron : string) : TriggerT :=
  {| tr_event := None; tr_cron := Some {| ct_cron := cron |} |}.

(** ** Functions *)

Record InputCtx := {
  ic_env : string; ic_functionID : string; ic_runID : string; ic_stepID : string;
  ic_attempt : Z }.

Record Input (V : Type) := { in_event : V; in_events : list V; in_ctx : InputCtx }.
Arguments in_event {V} i.
Arguments in_events {V} i.
Arguments in_ctx {V} i.

(** The event type [T] of an [SDKFunction T]: an interface with some number of
    methods, whose zero value is nil, or a concrete type. *)
Inductive event_type (V : Type) :=
  | EvInterface (methods : nat)
  | EvConcrete (t : gotype V).
Arguments EvInterface {V} methods.
Arguments EvConcrete {V} t.

(** A user function, before its event is decoded. *)
Abbreviation SDKFunction V := (Input V → prog V).

(** The interface [ServableFunction].  [ZeroEvent] carries the type of the zero
    event it returns, [None] for nil; [Func] is nil when there is no function. *)
Record ServableFunction (V : Type) := {
  Slug : string → string;
  Name : string;
  Config : FunctionOpts;
  Trigger : TriggerT;
  ZeroEvent : option (gotype V);
  Func : option (SDKFunction V) }.
Arguments Slug {V} s appName.
Arguments Name {V} s.
Arguments Config {V} s.
Arguments Trigger {V} s.
Arguments ZeroEvent {V} s.
Arguments Func {V} s.

Section servableFunc.
Context {V : Type}.

(** [slug.Make] of the vendored package [slug]. *)
Context (slug_Make : string → string).

(** [type servableFunc struct], with the type argument of its function. *)
Record servableFunc := {
  sf_fc : FunctionOpts;
  sf_trigger : TriggerT;
  sf_type : event_type V;
  sf_f : SDKFunction V }.

Definition sf_Slug (s : servableFunc) (appName : string) : string :=
  let fnSlug := if str_empty (fo_id (sf_fc s)) then slug_Make (fo_name (sf_fc s))
                else fo_id (sf_fc s) in
  if str_empty appName then fnSlug else appName +:+ "-" +:+ fnSlug.

(** [ZeroType().Interface()] *)
Definition sf_ZeroEvent (s : servableFunc) : option (gotype V) :=
  match sf_type s with EvInterface _ => None | EvConcrete t => Some t end.

(** A [servableFunc] as a [ServableFunction]. *)
Definition as_servable (s : servableFunc) : ServableFunction V :=
  {| Slug := sf_Slug s; Name := fo_name (sf_fc s); Config := sf_fc s; Trigger := sf_trigger s;
     ZeroEvent := sf_ZeroEvent s; Func := Some (sf_f s) |}.

(** [CreateFunction]; [Err] is its panic. *)
Definition CreateFunction (fc : FunctionOpts) (trigger : TriggerT) (T : event_type V)
  (f : SDKFunction V) : res string (ServableFunction V) :=
  let sf := {| sf_fc := fc; sf_trigger := trigger; sf_type := T; sf_f := f |} in
  match T with
  | EvInterface (S _) =>
      Err "You cannot use an interface type as the input within an Inngest function."
  | _ => Ok (as_servable sf)
  end.
End servableFunc.

(** Options with only an ID and a name. *)
Definition basic_opts (id name : string) : FunctionOpts :=
  {| fo_id := id; fo_name := name; fo_priority := None; fo_concurrency := [];
     fo_idempotency := None; fo_retries := None; fo_cancel := []; fo_debounce := None;
     fo_timeouts := None; fo_throttle := None; fo_rateLimit := None; fo_batchEvents := None |}.
