(* ===== verification/Handler.v ===== *)
(** * The handler and its registry of functions (handler.go)

    The state of a [handler], its constructor and setters, [Register], and the
    choice of the function a request is for. *)

From S2P Require Import Prelude GoBytes Env Errors Step Program Functions.

Open Scope Z_scope.

Definition DefaultMaxBodySize : Z := 1024 * 1024 * 100.

(** [type handler struct] without its lock. *)
Record handler (V : Type) := {
  h_opts : HandlerOpts;
  h_appName : string;
  h_funcs : list (ServableFunction V) }.
Arguments h_opts {V} h.
Arguments h_appName {V} h.
Arguments h_funcs {V} h.

Definition with_default_logger (o : HandlerOpts) : HandlerOpts :=
  {| ho_Logger := true; ho_SigningKey := ho_SigningKey o;
     ho_SigningKeyFallback := ho_SigningKeyFallback o; ho_APIBaseURL := ho_APIBaseURL o;
     ho_EventAPIBaseURL := ho_EventAPIBaseURL o; ho_ServeOrigin := ho_ServeOrigin o;
     ho_ServePath := ho_ServePath o; ho_Env := ho_Env o; ho_RegisterURL := ho_RegisterURL o;
     ho_AppVersion := ho_AppVersion o; ho_MaxBodySize := ho_MaxBodySize o; ho_URL := ho_URL o;
     ho_UseStreaming := ho_UseStreaming o; ho_AllowInBandSync := ho_AllowInBandSync o;
     ho_Dev := ho_Dev o |}.

Definition with_max_body (n : Z) (o : HandlerOpts) : HandlerOpts :=
  {| ho_Logger := ho_Logger o; ho_SigningKey := ho_SigningKey o;
     ho_SigningKeyFallback := ho_SigningKeyFallback o; ho_APIBaseURL := ho_APIBaseURL o;
     ho_EventAPIBaseURL := ho_EventAPIBaseURL o; ho_ServeOrigin := ho_ServeOrigin o;
     ho_ServePath := ho_ServePath o; ho_Env := ho_Env o; ho_RegisterURL := ho_RegisterURL o;
     ho_AppVersion := ho_AppVersion o; ho_MaxBodySize := n; ho_URL := ho_URL o;
     ho_UseStreaming := ho_UseStreaming o; ho_AllowInBandSync := ho_AllowInBandSync o;
     ho_Dev := ho_Dev o |}.

Section handler.
Context {V : Type}.
Implicit Types h : handler V.

Definition NewHandler (appName : string) (opts : HandlerOpts) : handler V :=
  let opts := if ho_Logger opts then opts else with_default_logger opts in
  let opts := if ho_MaxBodySize opts =? 0 then with_max_body DefaultMaxBodySize opts else opts in
  {| h_opts := opts; h_appName := appName; h_funcs := [] |}.

(** The options are stored before the defaults are filled in, so the defaults are
    lost. *)
Definition SetOptions (opts : HandlerOpts) (h : handler V) : handler V :=
  {| h_opts := opts; h_appName := h_appName h; h_funcs := h_funcs h |}.

Definition SetAppName (name : string) (h : handler V) : handler V :=
  {| h_opts := h_opts h; h_appName := name; h_funcs := h_funcs h |}.

(** ** Registration *)

(** The map from slugs to functions, filled in order. *)
Definition slug_map (appName : string) (fs : list (ServableFunction V)) :
  gmap string (ServableFunction V) :=
  foldl (λ m f, <[Slug f appName := f]> m) ∅ fs.

(** [Register]: the functions of the map, in the order a Go map is ranged over,
    which can be any. *)
Definition Register (fs : list (ServableFunction V)) (h h' : handler V) : Prop :=
  h_opts h' = h_opts h ∧ h_appName h' = h_appName h ∧
  h_funcs h' ≡ₚ (map_to_list (slug_map (h_appName h) (h_funcs h ++ fs))).*2.

(** ** Dispatch *)

(** The loop of [handler.invoke]: the first function whose slug, with or without
    the app's name, is the requested one. *)
Definition find_function (h : handler V) (fnID : string) : option (ServableFunction V) :=
  go_find (λ f, bool_decide (Slug f (h_appName h) = fnID) || bool_decide (Slug f "" = fnID))
    (h_funcs h).

(** ** Lemmas *)

(** The function with a slug that was registered last. *)
Definition latest (appName : string) (fs : list (ServableFunction V)) (s : string) :
  option (ServableFunction V) :=
  find_last (λ f, if decide (Slug f appName = s) then Some f else None) fs.

Lemma slug_map_lookup appName fs s : slug_map appName fs !! s = latest appName fs s.
Proof.
  unfold slug_map, latest, find_last. induction fs as [|f fs IH] using rev_ind; [done|].
  rewrite !foldl_app. simpl. rewrite <- IH.
  destruct (decide (Slug f appName = s)) as [->|]; [apply lookup_insert_eq|by apply lookup_insert_ne].
Qed.

Lemma latest_slug appName fs s f : latest appName fs s = Some f → Slug f appName = s ∧ f ∈ fs.
Proof.
  unfold latest, find_last. induction fs as [|g fs IH] using rev_ind; [done|].
  rewrite foldl_app. simpl. case_decide.
  - intros [= ->]. split; [done|]. set_solver.
  - intros Hf%IH. set_solver.
Qed.

Lemma registered_latest fs h h' f :
  Register fs h h' →
  f ∈ h_funcs h' ↔ latest (h_appName h) (h_funcs h ++ fs) (Slug f (h_appName h)) = Some f.
Proof.
  intros (_ & _ & Hf). rewrite Hf, list_elem_of_fmap. split.
  - intros ([s g] & -> & Hg). apply elem_of_map_to_list in Hg. rewrite slug_map_lookup in Hg.
    simpl. by destruct (latest_slug _ _ _ _ Hg) as [-> _].
  - intros Hl. exists (Slug f (h_appName h), f). split; [done|].
    by rewrite elem_of_map_to_list, slug_map_lookup.
Qed.

(** Registering twice is registering the functions of both calls. *)
Lemma slug_map_registered fs h h' :
  Register fs h h' →
  slug_map (h_appName h) (h_funcs h') = slug_map (h_appName h) (h_funcs h ++ fs).
Proof.
  intros Hr. apply map_eq. intros s. rewrite !slug_map_lookup.
  destruct (latest (h_appName h) (h_funcs h ++ fs) s) as [f|] eqn:Hf.
  - destruct (latest_slug _ _ _ _ Hf) as [Hs _].
    assert (f ∈ h_funcs h') as Hin by (apply (registered_latest fs h h' f Hr); by rewrite Hs).
    destruct (latest (h_appName h) (h_funcs h') s) as [g|] eqn:Hg.
    + destruct (latest_slug _ _ _ _ Hg) as [Hs' Hg'].
      apply (registered_latest fs h h' g Hr) in Hg'. rewrite Hs', Hf in Hg'. congruence.
    + exfalso. revert Hg Hin. rewrite <- slug_map_lookup. unfold slug_map. clear -Hs.
      induction (h_funcs h') as [|k fs' IH] using rev_ind; [by intros _ ?%elem_of_nil|].
      rewrite foldl_app, elem_of_app, list_elem_of_singleton. simpl.
      intros Hl%lookup_insert_None [Hin|Hk]; [destruct Hl; by apply IH|].
      destruct Hl as [_ Hl]. by rewrite Hk in Hs.
  - destruct (latest (h_appName h) (h_funcs h') s) as [g|] eqn:Hg; [|done].
    destruct (latest_slug _ _ _ _ Hg) as [Hs' Hg'].
    apply (registered_latest fs h h' g Hr) in Hg'. rewrite Hs', Hf in Hg'. done.
Qed.

Lemma Register_app fs1 fs2 h h1 h2 :
  Register fs1 h h1 → Register fs2 h1 h2 → Register (fs1 ++ fs2) h h2.
Proof.
  intros Hr1 (Ho2 & Ha2 & Hf2). pose proof (slug_map_registered _ _ _ Hr1) as Hm.
  destruct Hr1 as (Ho1 & Ha1 & _). split_and!; [congruence..|]. rewrite Hf2, Ha1.
  unfold slug_map in *. by rewrite app_assoc, !foldl_app, Hm, !foldl_app.
Qed.

Lemma registered_slugs_NoDup fs h h' :
  Register fs h h' → NoDup ((λ f, Slug f (h_appName h)) <$> h_funcs h').
Proof.
  intros (_ & _ & Hf). rewrite Hf.
  assert ((λ f, Slug f (h_appName h)) <$>
            (map_to_list (slug_map (h_appName h) (h_funcs h ++ fs))).*2 =
          (map_to_list (slug_map (h_appName h) (h_funcs h ++ fs))).*1) as ->;
    [|apply NoDup_fst_map_to_list].
  rewrite <- list_fmap_compose. apply list_fmap_ext. intros i [s f] Hi.
  apply list_elem_of_lookup_2, elem_of_map_to_list in Hi. rewrite slug_map_lookup in Hi.
  by destruct (latest_slug _ _ _ _ Hi).
Qed.

(** C19: after a registration, in whatever order the map is ranged over, the
    functions have different slugs, and a request is dispatched to the function
    registered last under the slug it names, or to none, as long as the slug without
    app name of another function does not happen to be the same text. *)
Theorem dispatch_latest fs h h' fnID :
  Register fs h h' →
  Forall (λ f, Slug f "" = fnID → Slug f (h_appName h) = fnID) (h_funcs h') →
  NoDup ((λ f, Slug f (h_appName h)) <$> h_funcs h') ∧
  find_function h' fnID = latest (h_appName h) (h_funcs h ++ fs) fnID.
Proof.
  intros Hr Hold. pose proof Hr as (_ & Happ & _). split; [by eapply registered_slugs_NoDup|].
  unfold find_function. rewrite Happ.
  destruct (go_find _ _) as [f|] eqn:Hfind.
  - apply go_find_Some in Hfind as (l1 & l2 & Hl & Hf & _).
    assert (f ∈ h_funcs h') as Hin by (rewrite Hl; set_solver).
    assert (Slug f (h_appName h) = fnID) as <-; [|symmetry; by apply (registered_latest fs h h')].
    apply orb_true_iff in Hf as [Hf|Hf]; apply bool_decide_eq_true in Hf; [done|].
    by apply (proj1 (Forall_forall _ _) Hold).
  - apply go_find_None in Hfind. symmetry. apply eq_None_not_Some. intros [f Hf].
    destruct (latest_slug _ _ _ _ Hf) as [Hs _].
    assert (f ∈ h_funcs h') as Hin by (apply (registered_latest fs h h'); [done|]; by rewrite Hs).
    rewrite Forall_forall in Hfind. specialize (Hfind f Hin). simpl in Hfind.
    by rewrite bool_decide_eq_true_2 in Hfind.
Qed.

(** The registration with the functions in the order of [map_to_list]. *)
Definition registered (fs : list (ServableFunction V)) (h : handler V) : handler V :=
  {| h_opts := h_opts h; h_appName := h_appName h;
     h_funcs := (map_to_list (slug_map (h_appName h) (h_funcs h ++ fs))).*2 |}.

Lemma Register_registered fs h : Register fs h (registered fs h).
Proof. done. Qed.

Lemma Register_reverse fs h :
  Register fs h {| h_opts := h_opts h; h_appName := h_appName h;
                   h_funcs := rev (h_funcs (registered fs h)) |}.
Proof. split; [done|]. split; [done|]. simpl. symmetry. apply Permutation_rev. Qed.
End handler.

(** ** Examples *)

Definition constant_function (name : string) : ServableFunction unit :=
  as_servable id {| sf_fc := basic_opts name name; sf_trigger := CronTrigger "@daily";
                    sf_type := EvInterface 0; sf_f := λ _, PRet tt None |}.

Lemma dispatch_latest_witness :
  let h := NewHandler "shop" zero_opts in
  let fs := [constant_function "pay"; constant_function "ship"] in
  let h' := registered fs h in
  Register fs h h' ∧
  Forall (λ f, Slug f "" = "shop-pay" → Slug f (h_appName h) = "shop-pay") (h_funcs h') ∧
  NoDup ((λ f, Slug f (h_appName h)) <$> h_funcs h') ∧
  find_function h' "shop-pay" = latest (h_appName h) (h_funcs h ++ fs) "shop-pay".
Proof.
  intros h fs h'.
  assert (Register fs h h') as Hr by exact (Register_registered fs h).
  assert (Forall (λ f, Slug f "" = "shop-pay" → Slug f (h_appName h) = "shop-pay") (h_funcs h'))
    as Hold.
  { apply Forall_forall. intros f Hf. apply (registered_latest fs h h' f Hr) in Hf.
    apply latest_slug in Hf as [_ Hf]. simpl in Hf. apply elem_of_cons in Hf as [->|Hf]; [done|].
    by apply list_elem_of_singleton in Hf as ->. }
  split; [exact Hr|]. split; [exact Hold|]. exact (dispatch_latest fs h h' "shop-pay" Hr Hold).
Defined.

(** The slug of one function can be the slug without app name of another one;
    which of the two a request reaches then depends on the order in which the map of
    slugs was ranged over. *)
Theorem dispatch_depends_on_map_order :
  let h := NewHandler "shop" zero_opts in
  let fs := [constant_function "pay"; constant_function "shop-pay"] in
  ∃ h1 h2, Register fs h h1 ∧ Register fs h h2 ∧
    option_map Name (find_function h1 "shop-pay") ≠ option_map Name (find_function h2 "shop-pay").
Proof.
  intros h fs. exists (registered fs h).
  eexists. split; [apply Register_registered|]. split; [apply Register_reverse|].
  vm_compute. intros [=].
Qed.
