(* ===== verification/Invoke.v ===== *)
(** * Invoking a function (invoke in handler.go)

    [invoke] decodes the events of a request, runs the user function with a fresh
    manager, and combines what the tools recorded with what the function returned;
    [reply_of] is what the HTTP handler makes of the result. *)

From S2P Require Import Prelude GoBytes GoTime GoJson Errors Manager Step Program Functions.

Open Scope Z_scope.

(** What [invoke] returns: the response (nil when tools unwound the function), the
    operations and the error; and the observable actions of the run. *)
Record invocation (V : Type) := {
  inv_response : option V;
  inv_ops : list GeneratorOpcode;
  inv_err : option goerr;
  inv_log : list string }.
Arguments inv_response {V} i.
Arguments inv_ops {V} i.
Arguments inv_err {V} i.
Arguments inv_log {V} i.

(** The text of a recovered value under [%v]. *)
Definition panic_text (p : panicval) : string :=
  match p with
  | ControlHijack => "{}"
  | NotInFunction => "step called without function context"
  | UserPanic text => text
  end.

Section invoke.
Context {V : Type}.

(** The type [map[string]any], and the text of [debug.Stack()]. *)
Context (map_type : gotype V) (stack : string).

(** *** Decoding of the events *)

(** The events of a typed function.  A [null] replaces the pointer the event is
    decoded through, unless the type is itself a pointer, and reading through it
    panics. *)
Fixpoint typed_events (t : gotype V) (raws : list json) : res goerr (outcome (list V)) :=
  match raws with
  | [] => Ok (Return [])
  | raw :: raws =>
      match raw, gt_kind t with
      | JNull, (KOther | KInterface) =>
          Ok (Panic (UserPanic "reflect: call of reflect.Value.Elem on zero Value"))
      | _, _ =>
          match gt_unmarshal t raw with
          | (_, Some e) =>
              Err (errorf "non-zero event: error unmarshalling event in event list: " e "")
          | (v, None) =>
              match typed_events t raws with
              | Ok (Return vs) => Ok (Return (v :: vs))
              | other => other
              end
          end
      end
  end.

Fixpoint map_events (raws : list json) : res goerr (list V) :=
  match raws with
  | [] => Ok []
  | raw :: raws =>
      match gt_unmarshal map_type raw with
      | (_, Some e) =>
          Err (errorf "zero event: error unmarshalling event in event list: " e "")
      | (v, None) => try vs <- map_events raws ; Ok (v :: vs)
      end
  end.

Definition decode_events (zero : option (gotype V)) (input : Request) :
  res goerr (outcome (V * list V)) :=
  let decode t :=
    match unmarshal_raw t (r_event input) with
    | (_, Some e) => Err (errorf "error unmarshalling event for function: " e "")
    | (v, None) => Ok v
    end in
  match zero with
  | Some t =>
      try evt <- decode t ;
      try evts <- typed_events t (r_events input) ;
      Ok match evts with Return vs => Return (evt, vs) | Panic p => Panic p end
  | None =>
      try evt <- decode map_type ;
      try evts <- map_events (r_events input) ;
      Ok (Return (evt, evts))
  end.

Definition input_ctx (c : CallCtx) : InputCtx :=
  {| ic_env := cc_env c; ic_functionID := cc_functionID c; ic_runID := cc_runID c;
     ic_stepID := cc_stepID c; ic_attempt := cc_attempt c |}.

(** The context the function runs with. *)
Definition fn_ctx (stepID : option string) : ctx :=
  SetManager (match stepID with
              | Some id => SetTargetStepID background id
              | None => background
              end).

(** What is left of a run: the error is the panic, else the manager's, else the
    one the function returned. *)
Definition collect (run : world * outcome (V * option goerr)) : invocation V :=
  let '(w, o) := run in
  let err :=
    match o with
    | Panic ((NotInFunction | UserPanic _) as p) =>
        Some (EText ("function panicked: " +:+ panic_text p +:+ ".  stack:" +:+ newline +:+ stack))
    | Panic ControlHijack => m_err (w_mgr w)
    | Return (_, e) => match m_err (w_mgr w) with Some e' => Some e' | None => e end
    end in
  {| inv_response := match o with Return (v, _) => Some v | Panic _ => None end;
     inv_ops := m_ops (w_mgr w); inv_err := err; inv_log := w_log w |}.

Definition failed_invocation (e : goerr) : invocation V :=
  {| inv_response := None; inv_ops := []; inv_err := Some e; inv_log := [] |}.

(** [invoke]; [Panic] is a panic of [invoke] itself, outside its recovery. *)
Definition invoke (sf : ServableFunction V) (input : Request) (stepID : option string) :
  outcome (invocation V) :=
  match Func sf with
  | None => Return (failed_invocation (EText "no function defined"))
  | Some f =>
      match decode_events (ZeroEvent sf) input with
      | Err e => Return (failed_invocation e)
      | Ok (Panic p) => Panic p
      | Ok (Return (evt, evts)) =>
          let arg := {| in_event := evt; in_events := evts;
                        in_ctx := input_ctx (r_callCtx input) |} in
          Return (collect (exec input (f arg) (fn_ctx stepID) start))
      end
  end.

(** ** From an invocation to a reply (handler.invoke) *)

Definition lone_step_error (ops : list GeneratorOpcode) : bool :=
  match ops with
  | [op] => match g_op op with OpcodeStepError => true | _ => false end
  | _ => false
  end.

(** The retry flags and the error that remains, between the call of [invoke] and
    the response. *)
Definition settle (ops : list GeneratorOpcode) (err : option goerr) :
  bool * option time * option goerr :=
  let noRetry := opt_err IsNoRetryError err in
  let retryAt := err ≫= GetRetryAtTime in
  let err := if lone_step_error ops then None else err in
  match err with
  | Some e =>
      if IsStepError e then
        (true, retryAt, Some (EText ("Unhandled step error: " +:+ fmt_err "s" e)))
      else (noRetry, retryAt, Some e)
  | None => (noRetry, retryAt, None)
  end.

Inductive reply :=
  | ReplyError (e : goerr)
  | ReplyOps (ops : list GeneratorOpcode)
  | ReplyResponse (v : option V).

Definition reply_of (i : invocation V) : reply :=
  match (settle (inv_ops i) (inv_err i)).2 with
  | Some e => ReplyError e
  | None =>
      match inv_ops i with
      | [] => ReplyResponse (inv_response i)
      | ops => ReplyOps ops
      end
  end.
End invoke.
Arguments reply V : clear implicits.
