(* ===== verification/Unwind.v ===== *)
(** * Functions that are unwound report why

    A tool that unwinds the user function leaves an operation or an error behind, so
    an invocation without a target never passes an unfinished function off as a
    finished one. *)

From S2P Require Import Prelude GoBytes GoTime GoJson Errors Manager Step Program Functions Invoke.

Open Scope Z_scope.

(** Something has been recorded for the reply. *)
Definition busy (w : world) : Prop := ops w ≠ [] ∨ m_err (w_mgr w) ≠ None.

(** A cancelled invocation has something to report. *)
Definition sound (w : world) : Prop := cancelled w = true → busy w.

(** [m] keeps worlds sound, and hijacks only with something to report. *)
Definition careful {A} (m : M A) : Prop := ∀ w, sound w →
  match m w with
  | (w', Return _) => sound w' ∧ (busy w → busy w')
  | (w', Panic ControlHijack) => busy w'
  | (w', Panic _) => True
  end.

Lemma busy_append op w : busy (upd (AppendOp op) w).
Proof. left. unfold ops. simpl. by destruct (m_ops _). Qed.

Lemma busy_err e w : busy (upd (SetErr e) w).
Proof. by right. Qed.

Section careful.
Context {A : Type}.

Lemma careful_bind {B} (m : M B) (k : B → M A) :
  careful m → (∀ b, careful (k b)) → careful (bind m k).
Proof.
  intros Hm Hk w Hw. specialize (Hm w Hw). unfold bind.
  destruct (m w) as [w' [b|p]]; [|done]. destruct Hm as [Hs Hb]. specialize (Hk b w' Hs).
  destruct (k b w') as [w'' [a|[]]]; naive_solver.
Qed.

Lemma careful_ret (a : A) : careful (ret a).
Proof. by intros w. Qed.

Lemma careful_user_panic s : careful (panic (A:=A) (UserPanic s)).
Proof. by intros w. Qed.

Lemma careful_fail e : careful (fail_hijack (A:=A) e).
Proof. intros w _. apply busy_err. Qed.

Lemma careful_report op : careful (appendOp op;;; panic (A:=A) ControlHijack).
Proof. intros w _. apply busy_append. Qed.

Lemma careful_newOp o id args (k : UnhashedOp → M A) :
  (∀ u, careful (k u)) → careful (u <- newOp o id args;; k u).
Proof. intros Hk w Hw. exact (Hk _ (bump id w) Hw). Qed.
End careful.

Lemma careful_preflight c : careful (preflight c).
Proof.
  intros w Hw. unfold preflight, panic, ret. destruct (cx_mgr c); simpl; [|done].
  destruct (m_cancelled (w_mgr w)) eqn:Hc; [by apply Hw|done].
Qed.

Lemma careful_log s : careful (log s).
Proof. by intros w Hw. Qed.

#[local] Hint Resolve careful_bind careful_ret careful_user_panic careful_fail careful_report
  careful_newOp careful_preflight careful_log : core.

Section tools.
Context {V : Type} (req : Request).
Implicit Types t : gotype V.

Ltac careful_tool :=
  repeat first [ progress intros | apply careful_fail | apply careful_report
               | apply careful_preflight | apply careful_ret | apply careful_user_panic
               | apply careful_newOp | apply careful_bind | case_step ].

Lemma careful_run_memo t id val : careful (run_memo t id val).
Proof. unfold run_memo. careful_tool. Qed.

Lemma careful_Sleep c id d : careful (Sleep req c id d).
Proof. unfold Sleep. careful_tool. Qed.

Lemma careful_WaitForEvent c t id o : careful (WaitForEvent req c t id o).
Proof. unfold WaitForEvent. careful_tool. Qed.

Lemma careful_Invoke c t id o : careful (Invoke req c t id o).
Proof. unfold Invoke, invoke_memo. careful_tool. Qed.

Lemma careful_Infer c tin t id o b : careful (Infer req c tin t id o b).
Proof. unfold Infer, infer_memo. careful_tool. Qed.

Lemma run_finish_busy t h id r w :
  match run_finish t h id r w with
  | (w, Return _) => False
  | (w, Panic ControlHijack) => busy w
  | (w, Panic _) => True
  end.
Proof.
  destruct r as [v [e|]]; unfold run_finish; repeat case_step; try done;
    first [by right|left; unfold ops; simpl; by destruct (m_ops _)].
Qed.

Lemma careful_Run c t id (f : ctx → M (V * option goerr)) :
  cx_target c = None → careful (f c) → careful (Run req c t id f).
Proof.
  intros Ht Hf. unfold Run, getTargetStepID. rewrite Ht.
  apply careful_bind; [auto|]. intros _. apply careful_newOp. intros u.
  destruct (Step req u); [apply careful_run_memo|].
  lazy beta iota zeta. destruct (_ || _); [apply careful_report|].
  intros w Hw. specialize (Hf w Hw). unfold defer_cancel, bind.
  destruct (f c w) as [w' [r|[]]]; try done.
  pose proof (run_finish_busy t (MustHash u) id r w') as Hr.
  by destruct (run_finish _ _ _ _ w') as [w'' [|[]]].
Qed.

(** A group in which a function crashed. *)
Lemma parallel_loop_crashed c (fns : list (ctx → M (V * option goerr))) rs pl p w :
  p ≠ ControlHijack →
  match parallel_loop c fns rs pl (Some p) w with
  | (_, Return (_, _, Some p')) => p' ≠ ControlHijack
  | _ => False
  end.
Proof.
  revert rs pl p w. induction fns as [|f fns IH]; intros rs pl p w Hp; simpl; [done|].
  destruct (f c w) as [w' [[v e]|[]]]; by apply IH.
Qed.

Lemma parallel_loop_careful c (fns : list (ctx → M (V * option goerr))) rs pl w :
  Forall (λ f, careful (f c)) fns → sound w → (pl = true → busy w) →
  match parallel_loop c fns rs pl None w with
  | (w', Return (_, pl', None)) => sound w' ∧ (pl' = true → busy w') ∧ (busy w → busy w')
  | (w', Return (_, pl', Some p)) => p ≠ ControlHijack
  | (w', Panic _) => False
  end.
Proof.
  intros Hfns. revert rs pl w.
  induction Hfns as [|f fns Hf _ IH]; intros rs pl w Hs Hp; simpl; [done|].
  specialize (Hf w Hs). destruct (f c w) as [w' [[v e]|p]] eqn:Hfw.
  - destruct Hf as [Hs' Hb].
    specialize (IH (rs ++ [{| pr_error := e; pr_value := v |}]) pl w' Hs' ltac:(auto)).
    destruct (parallel_loop _ _ _ _ _ _) as [w'' [[[rs' pl'] [p'|]]|]]; naive_solver.
  - assert (∀ q, q ≠ ControlHijack → match parallel_loop c fns rs pl (Some q) w' with
      | (w', Return (_, pl', None)) => sound w' ∧ (pl' = true → busy w') ∧ (busy w → busy w')
      | (w', Return (_, pl', Some p)) => p ≠ ControlHijack
      | (w', Panic _) => False
      end) as Hcrash.
    { intros q Hq. pose proof (parallel_loop_crashed c fns rs pl q w' Hq) as Hc.
      by destruct (parallel_loop _ _ _ _ _ _) as [w'' [[[rs' pl'] [p'|]]|]]. }
    destruct p as [| |s]; [|by apply Hcrash..].
    specialize (IH rs true w' (λ _, Hf) (λ _, Hf)).
    destruct (parallel_loop _ _ _ _ _ _) as [w'' [[[rs' pl'] [p'|]]|]]; naive_solver.
Qed.

Lemma careful_Parallel c (fns : list (ctx → M (V * option goerr))) :
  Forall (λ f, careful (f (with_parallel c))) fns → careful (Parallel c fns).
Proof.
  intros Hfns w Hw. unfold Parallel, bind.
  pose proof (parallel_loop_careful (with_parallel c) fns [] false w Hfns Hw ltac:(done)) as Hl.
  destruct (parallel_loop _ _ _ _ _ _) as [w' [[[rs pl] [p|]]|]]; [by destruct p| |done].
  destruct Hl as (Hs & Hpl & Hb). destruct pl; simpl; auto.
Qed.

Lemma careful_exec (p : prog V) c : cx_target c = None → careful (exec req p c).
Proof.
  revert c. induction p as [v e|s|s k IHk|r t id body k IHb IHk|r id d k IHk
    |r t id o k IHk|r t id o k IHk|r ti t id o b k IHk|r fns k IHf IHk] using prog_ind_nested;
    intros c Hc; simpl.
  - apply careful_ret.
  - apply careful_user_panic.
  - apply careful_bind; auto.
  - apply careful_bind; [|intros [v e]; auto].
    assert (cx_target (use r c) = None) by by destruct r. apply careful_Run; auto.
  - apply careful_bind; [apply careful_Sleep|auto].
  - apply careful_bind; [apply careful_WaitForEvent|intros [v e]; auto].
  - apply careful_bind; [apply careful_Invoke|intros [v e]; auto].
  - apply careful_bind; [apply careful_Infer|intros [v e]; auto].
  - apply careful_bind; [|auto]. apply careful_Parallel.
    rewrite Forall_map. eapply Forall_impl; [exact IHf|]. intros f Hf. apply Hf. by destruct r.
Qed.
End tools.

(** ** Replies *)

(** C8: what the handler makes of an invocation without a target, for every way its
    function can end.  A function that returns is answered with its value, or its
    error (marked final when it is an unhandled step error); one that tools unwound
    is answered with the operations they reported, of which there is at least one, or
    with an error, never with a response; one that panicked is answered with an error
    unless a lone step error has been reported. *)
Theorem reply_by_outcome {V} (stack : string) (req : Request) (p : prog V) :
  let run := exec req p (fn_ctx None) start in
  let r := reply_of (collect stack run) in
  match run.2 with
  | Return (v, None) => r = ReplyResponse (Some v)
  | Return (v, Some e) =>
      r = ReplyError (if IsStepError e then EText ("Unhandled step error: " +:+ fmt_err "s" e)
                      else e)
  | Panic ControlHijack => (ops run.1 ≠ [] ∧ r = ReplyOps (ops run.1)) ∨ ∃ e, r = ReplyError e
  | Panic q =>
      (lone_step_error (ops run.1) = true ∧ r = ReplyOps (ops run.1)) ∨
      r = ReplyError (EText ("function panicked: " +:+ panic_text q +:+ ".  stack:" +:+
                             newline +:+ stack))
  end.
Proof.
  intros run r. unfold r, run. clear r run.
  pose proof (exec_run_inv req p (fn_ctx None) start) as [Hret _].
  pose proof (careful_exec req p (fn_ctx None) eq_refl start ltac:(done)) as Hcareful.
  destruct (exec req p (fn_ctx None) start) as [w [[v e]|q]]; simpl in *.
  - destruct (Hret eq_refl) as (Hops & Herr & _).
    change (ops start) with (@nil GeneratorOpcode) in Hops.
    unfold ops in Hops. unfold reply_of. simpl. rewrite Hops, Herr. simpl.
    destruct e as [e|]; [|done]. unfold settle. simpl. by destruct (IsStepError e).
  - unfold reply_of, ops, settle. simpl.
    destruct q as [| |s]; simpl.
    + destruct (lone_step_error (m_ops (w_mgr w))) eqn:Hlone; simpl.
      * left. by destruct (m_ops (w_mgr w)).
      * destruct (m_err (w_mgr w)) as [e|] eqn:He; [right; destruct (IsStepError e); by eexists|].
        left. destruct Hcareful as [Hc|Hc]; [|done]. unfold ops in Hc.
        by destruct (m_ops (w_mgr w)).
    + destruct (lone_step_error (m_ops (w_mgr w))) eqn:Hlone; simpl; [left|by right].
      by destruct (m_ops (w_mgr w)).
    + destruct (lone_step_error (m_ops (w_mgr w))) eqn:Hlone; simpl; [left|by right].
      by destruct (m_ops (w_mgr w)).
Qed.

(** ** Two replies that lose work *)

(** An invocation whose target is not the step the function reaches, say because
    the step was renamed, is answered like a finished function, with a null response:
    the step that is reached unwinds the function without leaving anything behind. *)
Theorem missed_target_finishes {V : Type} (req : Request) (t : gotype V) id body k h :
  h ≠ "" → h ≠ "step" → r_steps req !! step_hash ∅ id = None → h ≠ step_hash ∅ id →
  reply_of (collect "" (exec req (PRun Given t id body k) (fn_ctx (Some h)) start)) =
    ReplyResponse None.
Proof.
  intros He Hs Hno Hh.
  assert (cx_target (SetTargetStepID background h) = Some h) as Ht.
  { unfold SetTargetStepID. rewrite (bool_decide_eq_false_2 (h = "step")) by done. by destruct h. }
  cbn [exec]. unfold bind at 1. unfold Run, preflight, newOp, bind, ret. simpl.
  unfold Step, MustHash, step_hash in *. simpl in *. rewrite Hno. simpl.
  rewrite Ht, bool_decide_eq_false_2 by done. done.
Qed.

(** A step error is only recognised when it is the lone operation.  In a group
    whose first function calls another function and whose second one is the target,
    the error of the step fails the whole invocation and its operation is lost. *)
Theorem step_error_in_group_is_lost :
  let call := PInvoke Given raw_type "call"
    {| io_functionId := "f"; io_data := JNull; io_user := JNull; io_timeout := 0 |} PRet in
  let step := PRun Given raw_type "a" (PRet JNull (Some (EText "declined"))) PRet in
  let p := PParallel Given [call; step] (λ _, PRet JNull None) in
  let i := collect "" (exec zero_Request p (fn_ctx (Some (step_hash ∅ "a"))) start) in
  g_op <$> inv_ops i = [OpcodeInvokeFunction; OpcodeStepError] ∧
  reply_of i = ReplyError (EText "declined").
Proof. vm_compute. split; reflexivity. Qed.

Lemma missed_target_finishes_witness :
  let h := step_hash ∅ "renamed" in
  r_steps zero_Request !! step_hash ∅ "a" = None ∧ h ≠ step_hash ∅ "a" ∧
  reply_of (collect "" (exec zero_Request (PRun Given raw_type "a" (PRet (jint 1) None) PRet)
              (fn_ctx (Some h)) start)) = ReplyResponse None.
Proof.
  intros h. assert (h ≠ step_hash ∅ "a") as Hh by (vm_compute; discriminate).
  split; [reflexivity|]. split; [exact Hh|].
  apply (missed_target_finishes zero_Request raw_type "a" (PRet (jint 1) None) PRet h);
    [vm_compute; discriminate|vm_compute; discriminate|reflexivity|exact Hh].
Defined.
