(* ===== verification/Replay.v ===== *)
(** * Durable execution: replaying a function until it finishes

    An executor that calls a function again and again, each time with the answers
    to the operations reported so far.  [drive] is that loop; [resume] is the
    execution the user has in mind, in which every tool is called once and the
    function goes on with its answer.  They agree on sequential functions, whether
    steps run at once or are planned and then targeted. *)

From S2P Require Import Prelude GoBytes GoTime GoHash GoJson Errors Manager Step Program Functions Invoke.

Open Scope Z_scope.

Definition with_steps (req : Request) (steps : gmap string json) : Request :=
  {| r_event := r_event req; r_events := r_events req; r_steps := steps;
     r_callCtx := r_callCtx req; r_useAPI := r_useAPI req |}.

(** The request with immediate execution enabled. *)
Definition immediate (req : Request) : Request :=
  let c := r_callCtx req in
  {| r_event := r_event req; r_events := r_events req; r_steps := r_steps req;
     r_callCtx := {| disableImmediateExecution := false; cc_env := cc_env c;
       cc_functionID := cc_functionID c; cc_runID := cc_runID c; cc_stepID := cc_stepID c;
       cc_stack := cc_stack c; cc_attempt := cc_attempt c |};
     r_useAPI := r_useAPI req |}.

(** A world in which nothing has been reported and [idx] counts the step IDs. *)
Definition live (idx : gmap string Z) (log : list string) : world :=
  {| w_mgr := {| m_cancelled := false; m_err := None; m_ops := []; m_indexes := idx |};
     w_log := log |}.

(** The index map after one use of [id]. *)
Definition used (idx : gmap string Z) (id : string) : gmap string Z :=
  <[id := next_index idx id]> idx.

(** ** The programs considered *)

(** Step functions that call no tool. *)
Fixpoint plain {V} (p : prog V) : Prop :=
  match p with
  | PRet _ _ | PPanic _ => True
  | PLog _ k => plain k
  | _ => False
  end.

(** Functions without groups, whose step functions call no tool. *)
Fixpoint sequential {V} (p : prog V) : Prop :=
  match p with
  | PRet _ _ | PPanic _ => True
  | PLog _ k | PSleep _ _ _ k => sequential k
  | PRun _ _ _ body k => plain body ∧ ∀ v e, sequential (k v e)
  | PWait _ _ _ _ k | PInvoke _ _ _ _ k | PInfer _ _ _ _ _ _ k => ∀ v e, sequential (k v e)
  | PParallel _ _ _ => False
  end.

Section replay.
Context {V : Type} (map_type : gotype V) (stack : string).

(** What the executor answers to an operation: the state it stores for it. *)
Context (answer : GeneratorOpcode → json).

(** ** The executor's loop *)

Fixpoint drive (fuel : nat) (sf : ServableFunction V) (req : Request)
  (steps : gmap string json) : option (list GeneratorOpcode * reply V) :=
  match fuel with
  | O => None
  | S fuel =>
      let call target :=
        match invoke map_type stack sf (with_steps req steps) target with
        | Return i => Some (reply_of i)
        | Panic _ => None
        end in
      let record op :=
        match drive fuel sf req (<[g_id op := answer op]> steps) with
        | Some (ops, r) => Some (op :: ops, r)
        | None => None
        end in
      match call None with
      | Some (ReplyOps [op]) =>
          if decide (g_op op = OpcodeStepPlanned) then
            match call (Some (g_id op)) with
            | Some (ReplyOps [op]) => record op
            | Some r => Some ([], r)
            | None => None
            end
          else record op
      | Some r => Some ([], r)
      | None => None
      end
  end.

(** ** The intended execution *)

(** What the handler replies when a tool unwinds the function. *)
Definition unwound (w : world) (p : panicval) : reply V :=
  reply_of (collect stack (w, Panic p)).

(** The calls of an execution, each with the hash of its step and the operation
    it reported, and how it ends. *)
Definition execution : Type := list (string * option GeneratorOpcode) * reply V.

(** A tool call: it is made without an answer; if it reports an operation, the
    executor answers it, the call is made with that answer, and the function
    continues. *)
Definition ask {A} (call : Request → ctx → M A) (req : Request) (idx : gmap string Z)
  (id : string) (k : A → execution) : execution :=
  let h := step_hash idx id in
  match call (with_steps req ∅) (fn_ctx None) (live idx []) with
  | (w, Panic p) =>
      match unwound w p with
      | ReplyOps [op] =>
          match call (with_steps req {[ h := answer op ]}) (fn_ctx None) (live idx []) with
          | (_, Return a) => let '(calls, r) := k a in ((h, Some op) :: calls, r)
          | (w, Panic p) => ([(h, Some op)], unwound w p)
          end
      | r => ([(h, None)], r)
      end
  | (_, Return a) => k a
  end.

Fixpoint resume (req : Request) (p : prog V) (idx : gmap string Z) : execution :=
  let ask1 call id k :=
    ask call req idx id (λ '(v, e), resume req (k v e) (used idx id)) in
  match p with
  | PRet v e => ([], reply_of (collect stack (live idx [], Return (v, e))))
  | PPanic text => ([], unwound (live idx []) (UserPanic text))
  | PLog _ k => resume req k idx
  | PRun r t id body k =>
      ask1 (λ req c, Run req (use r c) t id (exec req body)) id k
  | PSleep r id d k =>
      ask (λ req c, Sleep req (use r c) id d) req idx id (λ _, resume req k (used idx id))
  | PWait r t id o k => ask1 (λ req c, WaitForEvent req (use r c) t id o) id k
  | PInvoke r t id o k => ask1 (λ req c, Invoke req (use r c) t id o) id k
  | PInfer r tin t id o b k => ask1 (λ req c, Infer req (use r c) tin t id o b) id k
  | PParallel _ _ _ => ([], ReplyResponse None)
  end.
End replay.

(** ** Tool calls in a live world *)

(** A run with the actions [l] in front of its own. *)
Definition relog {A} (l : list string) (x : world * outcome A) : world * outcome A :=
  ({| w_mgr := w_mgr x.1; w_log := l ++ w_log x.1 |}, x.2).

(** A step with the hash [h] runs when it is met: nothing is planned first. *)
Definition runs_now (req : Request) (c : ctx) (h : string) : Prop :=
  cx_mgr c = true ∧
  (cx_target c = Some h ∨
   cx_target c = None ∧ cx_parallel c = false ∧ disableImmediateExecution (r_callCtx req) = false).

(** Steps are planned when they are met. *)
Definition plans_first (req : Request) (c : ctx) : Prop :=
  cx_mgr c = true ∧ cx_target c = None ∧ disableImmediateExecution (r_callCtx req) = true.

(** What replay needs of a tool: what it does depends only on the counts and the
    answer to its step, an answered call reports nothing, and an unanswered call
    does not return. *)
Class Replayable {A} (id : string) (call : Request → ctx → M A) : Prop := {
  answered_local req req' c c' idx l j :
    cx_mgr c = true → cx_mgr c' = true →
    r_steps req !! step_hash idx id = Some j → r_steps req' !! step_hash idx id = Some j →
    call req c (live idx l) = relog l (call req' c' (live idx []));
  answered_quiet req c idx j :
    cx_mgr c = true → r_steps req !! step_hash idx id = Some j →
    match call req c (live idx []) with
    | (w, Return _) => w = live (used idx id) []
    | (w, Panic _) => m_ops (w_mgr w) = []
    end;
  unanswered_local req req' c c' idx l :
    r_steps req !! step_hash idx id = None → r_steps req' !! step_hash idx id = None →
    runs_now req c (step_hash idx id) → runs_now req' c' (step_hash idx id) →
    call req c (live idx l) = relog l (call req' c' (live idx []));
  unanswered_unwinds req c idx :
    r_steps req !! step_hash idx id = None → runs_now req c (step_hash idx id) →
    match call req c (live idx []) with
    | (w, Return _) => False
    | (w, Panic _) => ∀ op, m_ops (w_mgr w) = [op] →
        g_id op = step_hash idx id ∧ g_op op ≠ OpcodeStepPlanned
    end;
  unanswered_planned req req' c c' idx l :
    r_steps req !! step_hash idx id = None → r_steps req' !! step_hash idx id = None →
    plans_first req c → runs_now req' c' (step_hash idx id) →
    call req c (live idx l) = relog l (call req' c' (live idx [])) ∨
    call req c (live idx l) =
      (upd (AppendOp (planned_op (step_hash idx id) id)) (live (used idx id) l),
       Panic ControlHijack) }.

Lemma relog_live {A} idx l (o : outcome A) : (live idx l, o) = relog l (live idx [], o).
Proof. unfold relog. simpl. by rewrite app_nil_r. Qed.

Lemma relog_upd {A} f idx l (o : outcome A) :
  (upd f (live idx l), o) = relog l (upd f (live idx []), o).
Proof. unfold relog, upd. simpl. by rewrite app_nil_r. Qed.

Lemma bump_live id idx l : bump id (live idx l) = live (used idx id) l.
Proof. done. Qed.

Lemma preflight_inside c idx l :
  cx_mgr c = true → preflight c (live idx l) = (live idx l, Return tt).
Proof. unfold preflight. by intros ->. Qed.

Lemma preflight_outside c idx l :
  cx_mgr c = false → preflight c (live idx l) = (live idx l, Panic NotInFunction).
Proof. unfold preflight. by intros ->. Qed.

(** A computation that runs after the step has been counted, and for which the
    world only matters by its log. *)
Definition quiet {A} (m : M A) : Prop := ∀ idx l,
  m (live idx l) = relog l (m (live idx [])) ∧
  match m (live idx []) with
  | (w, Return _) => w = live idx []
  | (w, Panic _) => m_ops (w_mgr w) = []
  end.

Ltac quiet_leaf :=
  intros ? ?; unfold fail_hijack, setErr, on_mgr, bind, panic, ret, relog; simpl;
  rewrite ?app_nil_r; done.

Lemma quiet_ret {A} (a : A) : quiet (ret a).
Proof. quiet_leaf. Qed.

Lemma quiet_panic {A} p : quiet (panic (A:=A) p).
Proof. quiet_leaf. Qed.

Lemma quiet_fail {A} e : quiet (fail_hijack (A:=A) e).
Proof. quiet_leaf. Qed.

#[local] Hint Resolve quiet_ret quiet_panic quiet_fail : core.

Section quiet_memo.
Context {V : Type} (t : gotype V).

Lemma quiet_run_memo id val : quiet (run_memo t id val).
Proof. unfold run_memo. repeat case_step; auto. Qed.

Lemma quiet_invoke_memo id val : quiet (invoke_memo t id val).
Proof. unfold invoke_memo. repeat case_step; auto. Qed.

Lemma quiet_infer_memo id val : quiet (infer_memo t id val).
Proof. unfold infer_memo. repeat case_step; auto. Qed.
End quiet_memo.

(** What the part of a tool that handles an unanswered step must do. *)
Record fresh_ok {A} (o : Opcode) (id : string) (fresh : Request → ctx → UnhashedOp → M A) : Prop := {
  fresh_local req req' c c' u idx l :
    uo_op u = o →
    runs_now req c (MustHash u) → runs_now req' c' (MustHash u) →
    fresh req c u (live idx l) = relog l (fresh req' c' u (live idx []));
  fresh_unwinds req c u idx :
    uo_op u = o → runs_now req c (MustHash u) →
    match fresh req c u (live idx []) with
    | (w, Return _) => False
    | (w, Panic _) => ∀ op, m_ops (w_mgr w) = [op] →
        g_id op = MustHash u ∧ g_op op ≠ OpcodeStepPlanned
    end;
  fresh_planned req req' c c' u idx l :
    uo_op u = o → plans_first req c → runs_now req' c' (MustHash u) →
    fresh req c u (live idx l) = relog l (fresh req' c' u (live idx [])) ∨
    fresh req c u (live idx l) =
      (upd (AppendOp (planned_op (MustHash u) id)) (live idx l), Panic ControlHijack) }.

Section tool_replayable.
Context {A : Type} (o : Opcode) (id : string) (args : json) (memo : json → M A)
  (fresh : Request → ctx → UnhashedOp → M A).

Definition tool_shape (r : ctxref) (req : Request) (c : ctx) : M A :=
  preflight (use r c);;;
  u <- newOp o id args;;
  match Step req u with Some val => memo val | None => fresh req (use r c) u end.

Definition tool_op (idx : gmap string Z) : UnhashedOp :=
  {| uo_op := o; uo_id := id; uo_opts := args; uo_pos := next_index idx id |}.

Lemma tool_shape_outside req c idx l :
  tool_shape Background req c (live idx l) = (live idx l, Panic NotInFunction).
Proof. done. Qed.

Lemma tool_shape_answered req c idx l j :
  cx_mgr c = true → r_steps req !! step_hash idx id = Some j →
  tool_shape Given req c (live idx l) = memo j (live (used idx id) l).
Proof.
  intros Hc Hj. unfold tool_shape, bind, preflight, use. rewrite Hc. simpl.
  unfold Step, MustHash. simpl. unfold step_hash in Hj. by rewrite Hj.
Qed.

Lemma tool_shape_unanswered req c idx l :
  cx_mgr c = true → r_steps req !! step_hash idx id = None →
  tool_shape Given req c (live idx l) = fresh req c (tool_op idx) (live (used idx id) l).
Proof.
  intros Hc Hj. unfold tool_shape, bind, preflight, use. rewrite Hc. simpl.
  unfold Step, MustHash. simpl. unfold step_hash in Hj. by rewrite Hj.
Qed.

Lemma tool_replayable r :
  (∀ val, quiet (memo val)) → fresh_ok o id fresh → Replayable id (tool_shape r).
Proof.
  intros Hmemo Hfresh.
  destruct r; split.
  - intros req req' c c' idx l j Hc Hc' Hj Hj'.
    rewrite !tool_shape_answered with (j := j) by done. apply Hmemo.
  - intros req c idx j Hc Hj. rewrite tool_shape_answered with (j := j) by done.
    by destruct (Hmemo j (used idx id) []).
  - intros req req' c c' idx l Hj Hj' Hr Hr'.
    rewrite !tool_shape_unanswered by (done || apply Hr || apply Hr').
    by apply (fresh_local _ _ _ Hfresh).
  - intros req c idx Hj Hr. rewrite tool_shape_unanswered by (done || apply Hr).
    by apply (fresh_unwinds _ _ _ Hfresh).
  - intros req req' c c' idx l Hj Hj' Hr Hr'.
    rewrite !tool_shape_unanswered by (done || apply Hr || apply Hr').
    by apply (fresh_planned _ _ _ Hfresh).
  - intros req req' c c' idx l j _ _ _ _. apply relog_live.
  - by intros req c idx j _ _.
  - intros req req' c c' idx l _ _ _ _. apply relog_live.
  - by intros req c idx _ _.
  - intros req req' c c' idx l _ _ _ _. left. apply relog_live.
Qed.
End tool_replayable.

(** A tool that reports its step as an operation, or fails. *)
Lemma fresh_ok_report {A} o id (fresh : UnhashedOp → M A) :
  (∀ u, uo_op u = o →
     (∃ op, fresh u = (appendOp op;;; panic ControlHijack) ∧ g_id op = MustHash u ∧
            g_op op ≠ OpcodeStepPlanned) ∨
     ∃ e, fresh u = fail_hijack e) →
  fresh_ok o id (λ _ _, fresh).
Proof.
  intros Hf.
  assert (∀ u idx l, uo_op u = o → fresh u (live idx l) = relog l (fresh u (live idx []))) as Hlocal.
  { intros u idx l Hu. destruct (Hf u Hu) as [(op & -> & _)|(e & ->)]; apply relog_upd. }
  split.
  - intros. by apply Hlocal.
  - intros _ _ u idx Hu _. destruct (Hf u Hu) as [(op & -> & Hid & Hop)|(e & ->)]; simpl; [|done].
    by intros op' [= <-].
  - intros. left. by apply Hlocal.
Qed.

(** *** The tools *)

Section tools_replayable.
Context {V : Type}.
Implicit Types t : gotype V.

#[export] Instance Sleep_replayable r id d :
  Replayable id (λ req c, Sleep req (use r c) id d).
Proof.
  apply (tool_replayable OpcodeSleep id JNull (λ _, ret tt)
    (λ _ _ u, appendOp {| g_id := MustHash u; g_op := OpcodeSleep; g_name := id;
       g_opts := JObj [("duration", JStr (str2duration_string d))];
       g_data := None; g_error := None |};;; panic ControlHijack)).
  - intros _. apply quiet_ret.
  - apply fresh_ok_report. intros u _. left. by eexists.
Qed.

#[export] Instance WaitForEvent_replayable r t id o :
  Replayable id (λ req c, WaitForEvent req (use r c) t id o).
Proof.
  eapply (tool_replayable OpcodeWaitForEvent id _
    (λ val, match val with
            | JNull => ret (gt_zero t, Some (ESentinel ErrEventNotReceived))
            | val => match gt_unmarshal t val with
                     | (_, Some e) => fail_hijack (errorf (in_quotes
                          "error unmarshalling wait for event value in" (wo_event o)) e "")
                     | (v, None) => ret (v, None)
                     end
            end)
    (λ _ _ u, appendOp _;;; panic ControlHijack)).
  - intros val. destruct val; [apply quiet_ret|..];
      destruct (gt_unmarshal t _) as [v [e|]]; auto.
  - apply fresh_ok_report. intros u Hu. left. eexists. split; [done|]. simpl. by rewrite Hu.
Qed.

#[export] Instance Invoke_replayable r t id o :
  Replayable id (λ req c, Invoke req (use r c) t id o).
Proof.
  eapply (tool_replayable OpcodeInvokeFunction id _ (invoke_memo t (io_functionId o))
    (λ _ _ u, appendOp _;;; panic ControlHijack)).
  - apply quiet_invoke_memo.
  - apply fresh_ok_report. intros u Hu. left. eexists. split; [done|]. simpl. by rewrite Hu.
Qed.

#[export] Instance Infer_replayable r tin t id o b :
  Replayable id (λ req c, Infer req (use r c) tin t id o b).
Proof.
  eapply (tool_replayable OpcodeAIGateway id JNull (infer_memo t id)
    (λ _ _ u, match gt_marshal tin b with
              | None => fail_hijack _
              | Some reqBytes => appendOp _;;; panic ControlHijack
              end)).
  - apply quiet_infer_memo.
  - apply fresh_ok_report. intros u _.
    destruct (gt_marshal tin b); [left; by eexists|right; by eexists].
Qed.

(** A step function that calls no tool only leaves a trace of its actions. *)
Fixpoint plain_log (p : prog V) : list string :=
  match p with PLog s k => s :: plain_log k | _ => [] end.

Fixpoint plain_outcome (p : prog V) : outcome (V * option goerr) :=
  match p with
  | PLog _ k => plain_outcome k
  | PRet v e => Return (v, e)
  | PPanic s => Panic (UserPanic s)
  | _ => Panic ControlHijack
  end.

Lemma plain_exec req (p : prog V) c idx l :
  plain p → exec req p c (live idx l) = (live idx (l ++ plain_log p), plain_outcome p).
Proof.
  revert l. induction p as [v e|s|s p IH| | | | | |]; intros l Hp; try done; simpl.
  - by rewrite app_nil_r.
  - by rewrite app_nil_r.
  - unfold bind. simpl. change (exec req p c (live idx (l ++ [s])) =
      (live idx (l ++ s :: plain_log p), plain_outcome p)).
    rewrite IH by done. by rewrite <- app_assoc.
Qed.

(** What [Run] does with a step that is not in the request. *)
Definition run_fresh t id body (req : Request) (c : ctx) (u : UnhashedOp) :
  M (V * option goerr) :=
  if match cx_target c with Some target => negb (bool_decide (target = MustHash u))
     | None => false end
  then panic ControlHijack
  else
    let no_target := match cx_target c with None => true | Some _ => false end in
    if (no_target && isParallel c) ||
       (no_target && disableImmediateExecution (r_callCtx req)) then
      appendOp (planned_op (MustHash u) id);;; panic ControlHijack
    else defer_cancel (r <- exec req body c;; run_finish t (MustHash u) id r).

Lemma run_fresh_now t id body req c u :
  runs_now req c (MustHash u) →
  run_fresh t id body req c u =
    defer_cancel (r <- exec req body c;; run_finish t (MustHash u) id r).
Proof.
  unfold run_fresh, runs_now, isParallel. generalize (MustHash u). intros h.
  intros (_ & [->|(-> & -> & ->)]); cbn [negb andb orb]; [|done].
  by rewrite bool_decide_eq_true_2.
Qed.

(** A step function that runs in a live world. *)
Lemma run_body_live t id body req c h idx l :
  plain body →
  defer_cancel (r <- exec req body c;; run_finish t h id r) (live idx l) =
  match plain_outcome body with
  | Panic p => (upd Cancel (live idx (l ++ plain_log body)), Panic p)
  | Return r => relog (l ++ plain_log body) (defer_cancel (run_finish t h id r) (live idx []))
  end.
Proof.
  intros Hb. unfold defer_cancel at 1, bind. rewrite plain_exec by done.
  destruct (plain_outcome body) as [[v [e|]]|p]; [..|done]; unfold run_finish;
    [destruct (IsStepError e); [|destruct (err_msg e)]|destruct (gt_marshal t v)];
    unfold relog, upd; simpl; by rewrite app_nil_r.
Qed.

Lemma run_finish_unwinds t h id r idx :
  match defer_cancel (run_finish t h id r) (live idx []) with
  | (w, Return _) => False
  | (w, Panic _) => ∀ op, m_ops (w_mgr w) = [op] → g_id op = h ∧ g_op op ≠ OpcodeStepPlanned
  end.
Proof.
  destruct r as [v [e|]]; unfold run_finish;
    [destruct (IsStepError e); [|destruct (err_msg e)]|destruct (gt_marshal t v)];
    unfold defer_cancel; simpl; try done; by intros op [= <-].
Qed.

Lemma run_fresh_ok t id body :
  plain body → fresh_ok OpcodeStep id (run_fresh t id body).
Proof.
  intros Hb. split.
  - intros req req' c c' u idx l _ Hr Hr'. rewrite !run_fresh_now by done.
    rewrite !run_body_live by done.
    destruct (plain_outcome body); unfold relog, upd; simpl; by rewrite ?app_assoc.
  - intros req c u idx _ Hr. rewrite run_fresh_now, run_body_live by done.
    pose proof (run_finish_unwinds t (MustHash u) id) as Hun.
    destruct (plain_outcome body) as [r|p]; [|done]. specialize (Hun r idx).
    by destruct (defer_cancel _ _) as [w []].
  - intros req req' c c' u idx l _ (_ & Ht & Hd) _. right. unfold run_fresh.
    rewrite Ht, Hd, orb_true_r. done.
Qed.

Lemma Run_replayable r t id body :
  plain body → Replayable id (λ req c, Run req (use r c) t id (exec req body)).
Proof.
  intros Hb. exact (tool_replayable OpcodeStep id JNull (run_memo t id) (run_fresh t id body) r
    (quiet_run_memo t id) (run_fresh_ok t id body Hb)).
Qed.
End tools_replayable.

#[export] Existing Instances Sleep_replayable WaitForEvent_replayable Invoke_replayable
  Infer_replayable.

(** ** One invocation *)

Section tracks.
Context {V : Type} (stack : string) (answer : GeneratorOpcode → json) (req : Request).

Notation reply_to run := (reply_of (collect stack run)).
Notation execution := (execution (V:=V)).

(** The calls in [l1] have been answered in [steps]. *)
Definition answered (steps : gmap string json) (l1 : list (string * option GeneratorOpcode)) :
  Prop :=
  Forall (λ call, ∃ op, call.2 = Some op ∧ steps !! call.1 = Some (answer op)) l1.

Definition head_hash (l : list (string * option GeneratorOpcode)) : option string :=
  fst <$> head l.

(** What an invocation replies that has answers for all calls but [l2]. *)
Definition next (l2 : list (string * option GeneratorOpcode)) (r : reply V) : reply V :=
  match l2 with (_, Some op) :: _ => ReplyOps [op] | _ => r end.

(** The computation [m], from the counts [idx], replays the execution [e]: with
    answers for a prefix of its calls, it gets to the next one. *)
Definition tracks (m : Request → ctx → M (V * option goerr)) (e : execution)
  (idx : gmap string Z) : Prop :=
  ∀ steps c log l1 l2,
    e.1 = l1 ++ l2 → answered steps l1 → cx_mgr c = true →
    (∀ h, head_hash l2 = Some h → steps !! h = None) →
    (∀ h, head_hash l2 = Some h → runs_now (with_steps req steps) c h) ∨
      plans_first (with_steps req steps) c →
    reply_to (m (with_steps req steps) c (live idx log)) = next l2 e.2 ∨
    plans_first (with_steps req steps) c ∧
      ∃ h id, head_hash l2 = Some h ∧
        reply_to (m (with_steps req steps) c (live idx log)) = ReplyOps [planned_op h id].

Lemma reply_relog l (x : world * outcome (V * option goerr)) :
  reply_to (relog l x) = reply_to x.
Proof. by destruct x as [w [[v e]|[]]]. Qed.

Lemma reply_unwound {A} (m : M A) (k : A → M (V * option goerr)) w0 l w p :
  m w0 = relog l (w, Panic p) → reply_to (bind m k w0) = unwound stack w p.
Proof. unfold bind. intros ->. apply (reply_relog l (w, Panic p)). Qed.

Lemma tracks_return v e idx :
  tracks (λ _ _, ret (v, e)) ([], reply_to (live idx [], Return (v, e))) idx.
Proof.
  intros steps c log l1 l2 Hl _ _ _ _. destruct l1, l2; try done. by left.
Qed.

Lemma tracks_panic s idx :
  tracks (λ _ _, panic (UserPanic s)) ([], unwound stack (live idx []) (UserPanic s)) idx.
Proof.
  intros steps c log l1 l2 Hl _ _ _ _. destruct l1, l2; try done. by left.
Qed.

Lemma tracks_log s m e idx : tracks m e idx → tracks (λ req c, log s;;; m req c) e idx.
Proof. intros Hm steps c log l1 l2. apply (Hm steps c (log ++ [s])). Qed.

Lemma runs_now_immediate steps h : runs_now (with_steps (immediate req) steps) (fn_ctx None) h.
Proof. split; [done|]. by right. Qed.

Section ask.
Context {A : Type} (id : string) (call : Request → ctx → M A) `{!Replayable id call}.
Context (idx : gmap string Z) (k : A → execution).

Definition answer_of (op : GeneratorOpcode) : world * outcome A :=
  call (with_steps (immediate req) {[ step_hash idx id := answer op ]}) (fn_ctx None)
    (live idx []).

(** The three ways a call goes: no operation, an operation with a usable answer,
    an operation with an answer that ends the function. *)
Inductive ask_view : execution → Prop :=
  | ask_failed w p r :
      call (with_steps (immediate req) ∅) (fn_ctx None) (live idx []) = (w, Panic p) →
      unwound stack w p = r → (∀ op, r ≠ ReplyOps [op]) →
      ask_view ([(step_hash idx id, None)], r)
  | ask_answered w p op a :
      call (with_steps (immediate req) ∅) (fn_ctx None) (live idx []) = (w, Panic p) →
      unwound (V:=V) stack w p = ReplyOps [op] →
      answer_of op = (live (used idx id) [], Return a) →
      ask_view ((step_hash idx id, Some op) :: (k a).1, (k a).2)
  | ask_ended w p op w' p' :
      call (with_steps (immediate req) ∅) (fn_ctx None) (live idx []) = (w, Panic p) →
      unwound (V:=V) stack w p = ReplyOps [op] →
      answer_of op = (w', Panic p') → m_ops (w_mgr w') = [] →
      ask_view ([(step_hash idx id, Some op)], unwound stack w' p').

Lemma ask_cases : ask_view (ask stack answer call (immediate req) idx id k).
Proof.
  unfold ask.
  pose proof (unanswered_unwinds (with_steps (immediate req) ∅) (fn_ctx None) idx
    (lookup_empty _) (runs_now_immediate ∅ _)) as Hun.
  destruct (call _ _ _) as [w [a|p]] eqn:Hcall; [done|].
  destruct (unwound stack w p) as [e|[|op [|]]|] eqn:Hr; try by eapply ask_failed.
  pose proof (answered_quiet (with_steps (immediate req) {[step_hash idx id := answer op]})
    (fn_ctx None) idx (answer op) eq_refl (lookup_singleton_eq _ _)) as Hq.
  destruct (call (with_steps _ {[_ := _]}) _ _) as [w' [a|p']] eqn:Hans.
  - subst w'. pose proof (ask_answered w p op a Hcall Hr Hans) as Hview.
    by destruct (k a).
  - by eapply ask_ended.
Qed.

(** A call whose step has no answer. *)
Lemma unanswered_reply steps c log w p (K : A → M (V * option goerr)) :
  call (with_steps (immediate req) ∅) (fn_ctx None) (live idx []) = (w, Panic p) →
  steps !! step_hash idx id = None →
  runs_now (with_steps req steps) c (step_hash idx id) ∨
    plans_first (with_steps req steps) c →
  let r := reply_to (bind (call (with_steps req steps) c) K (live idx log)) in
  r = unwound stack w p ∨
  plans_first (with_steps req steps) c ∧ r = ReplyOps [planned_op (step_hash idx id) id].
Proof.
  intros Hcall Hsteps Hmode r. destruct Hmode as [Hnow|Hplan].
  - left. eapply (reply_unwound _ _ _ log). rewrite <- Hcall.
    by apply unanswered_local, runs_now_immediate.
  - destruct (unanswered_planned (with_steps req steps) (with_steps (immediate req) ∅) c
      (fn_ctx None) idx log) as [Hl|Hl]; try done; [by apply runs_now_immediate| |].
    + left. eapply (reply_unwound _ _ _ log). by rewrite <- Hcall.
    + right. split; [done|]. unfold r, bind. by rewrite Hl.
Qed.

Lemma answered_bind steps c log op a (K : A → M (V * option goerr)) :
  cx_mgr c = true → steps !! step_hash idx id = Some (answer op) →
  answer_of op = (live (used idx id) [], Return a) →
  bind (call (with_steps req steps) c) K (live idx log) = K a (live (used idx id) log).
Proof.
  intros Hc Hop Ha. unfold bind.
  rewrite (answered_local _ (with_steps (immediate req) {[step_hash idx id := answer op]}) _
    (fn_ctx None) _ _ (answer op)) by (done || exact Hop || exact (lookup_singleton_eq _ _)).
  unfold answer_of in Ha. rewrite Ha. unfold relog. simpl. by rewrite app_nil_r.
Qed.

Lemma ask_tracks (K : Request → ctx → A → M (V * option goerr)) :
  (∀ a, tracks (λ req c, K req c a) (k a) (used idx id)) →
  tracks (λ req c, a <- call req c;; K req c a)
    (ask stack answer call (immediate req) idx id k) idx.
Proof.
  intros HK steps c log l1 l2 Hl Hans Hc Hhead Hmode.
  assert (∀ w p o l2', call (with_steps (immediate req) ∅) (fn_ctx None) (live idx []) =
            (w, Panic p) → l2 = (step_hash idx id, o) :: l2' →
    let r := reply_to ((a <- call (with_steps req steps) c;; K (with_steps req steps) c a)
                         (live idx log)) in
    r = unwound stack w p ∨ plans_first (with_steps req steps) c ∧
      ∃ h id, head_hash l2 = Some h ∧ r = ReplyOps [planned_op h id]) as Hfirst.
  { intros w p o l2' Hcall -> r.
    destruct (unanswered_reply steps c log w p (K (with_steps req steps) c) Hcall)
      as [Hr|[Hp Hr]]; [by apply Hhead| |by left|right].
    - destruct Hmode as [Hnow|]; [left; by apply Hnow|by right].
    - split; [done|]. by exists (step_hash idx id), id. }
  destruct ask_cases as [w p r Hcall Hr Hno|w p op a Hcall Hr Ha|w p op w' p' Hcall Hr Ha Hops];
    simpl in Hl; destruct l1 as [|[h o] l1]; simpl in Hl; simplify_eq/=.
  - by eapply Hfirst.
  - apply Forall_cons in Hans as [(op & [=] & _) _].
  - destruct (Hfirst w p (Some op) (k a).1 Hcall eq_refl) as [Hf|Hf]; [left|by right].
    by rewrite Hf.
  - apply Forall_cons in Hans as [(op' & [= <-] & Hop) Hans]. simpl in Hop.
    rewrite (answered_bind _ _ _ op a) by done.
    by eapply HK.
  - destruct (Hfirst w p (Some op) [] Hcall eq_refl) as [Hf|Hf]; [left|by right].
    by rewrite Hf.
  - apply Forall_cons in Hans as [(op' & [= <-] & Hop) Hans]. simpl in Hop.
    left. destruct l1, l2; try done. simpl.
    apply (reply_unwound _ _ _ log). rewrite <- Ha.
    by apply (answered_local _ _ _ _ _ _ (answer op)), lookup_singleton_eq.
Qed.

(** *** The shape of an execution *)

Lemma unwound_ops w p op : unwound (V:=V) stack w p = ReplyOps [op] → m_ops (w_mgr w) = [op].
Proof.
  unfold unwound, reply_of. simpl. destruct (settle _ _) as [? [e|]]; [done|]. simpl.
  destruct (m_ops (w_mgr w)) as [|op' [|]]; naive_solver.
Qed.

Lemma step_hash_length : String.length (step_hash idx id) = 40%nat.
Proof. unfold step_hash. by rewrite hex_encode_length, sha1_sum_length. Qed.
End ask.

(** Calls carry the hash of their step and report it; only the last one may fail;
    an execution does not end on an operation. *)
Record well_formed (e : execution) : Prop := {
  wf_calls : Forall (λ call, String.length call.1 = 40%nat ∧ ∀ op, call.2 = Some op →
    g_id op = call.1 ∧ g_op op ≠ OpcodeStepPlanned) e.1;
  wf_failed l1 h l2 : e.1 = l1 ++ (h, None) :: l2 → l2 = [];
  wf_end op : e.2 ≠ ReplyOps [op] }.

Lemma well_formed_nil r : (∀ op, r ≠ ReplyOps [op]) → well_formed ([], r).
Proof. intros Hr. by split; [constructor|intros []|]. Qed.

Lemma ask_well_formed {A} id (call : Request → ctx → M A) `{!Replayable id call} idx k :
  (∀ a, well_formed (k a)) → well_formed (ask stack answer call (immediate req) idx id k).
Proof.
  intros Hk. pose proof (step_hash_length id idx) as Hlen.
  assert (∀ w p op, call (with_steps (immediate req) ∅) (fn_ctx None) (live idx []) = (w, Panic p) →
    unwound (V:=V) stack w p = ReplyOps [op] →
    g_id op = step_hash idx id ∧ g_op op ≠ OpcodeStepPlanned) as Hop.
  { intros w p op Hcall Hr. pose proof (unanswered_unwinds (with_steps (immediate req) ∅)
      (fn_ctx None) idx (lookup_empty _) (runs_now_immediate ∅ _)) as Hun.
    rewrite Hcall in Hun. by eapply Hun, unwound_ops. }
  destruct (ask_cases id call idx k) as [w p r Hcall Hr Hno|w p op a Hcall Hr Ha
    |w p op w' p' Hcall Hr Ha Hops]; split; simpl; try done.
  - repeat constructor; simpl; [done|by intros..].
  - intros [|? []] h l2 [=]; done.
  - constructor; [|apply Hk]. split; [done|]. intros op' [= <-]. by eapply Hop.
  - intros [|? l1] h l2 [= _ Hl]. by eapply (wf_failed _ (Hk a)).
  - intros op'. by apply (wf_end _ (Hk a)).
  - constructor; [|by constructor]. split; [done|]. intros op' [= <-]. by eapply Hop.
  - intros [|? []] h l2 [=]; done.
  - intros op' Hu%unwound_ops. congruence.
Qed.

Lemma resume_well_formed p idx :
  sequential p → well_formed (resume stack answer (immediate req) p idx).
Proof.
  revert idx. induction p as [v e|s|s k IHk|r t id body k _ IHk|r id d k IHk
    |r t id o k IHk|r t id o k IHk|r ti t id o b k IHk|r fns k _ _] using prog_ind_nested;
    intros idx Hp; simpl.
  - apply well_formed_nil. intros op. unfold reply_of. simpl. by destruct (settle _ _) as [? []].
  - by apply well_formed_nil.
  - by apply IHk.
  - destruct Hp as [Hb Hk]. pose proof (Run_replayable r t id body Hb).
    apply ask_well_formed; [done|]. intros [v e]. by apply IHk.
  - apply ask_well_formed; [apply _|]. intros _. by apply IHk.
  - apply ask_well_formed; [apply _|]. intros [v e]. by apply IHk.
  - apply ask_well_formed; [apply _|]. intros [v e]. by apply IHk.
  - apply ask_well_formed; [apply _|]. intros [v e]. by apply IHk.
  - done.
Qed.

Lemma resume_tracks p idx :
  sequential p → tracks (λ req c, exec req p c) (resume stack answer (immediate req) p idx) idx.
Proof.
  revert idx. induction p as [v e|s|s k IHk|r t id body k _ IHk|r id d k IHk
    |r t id o k IHk|r t id o k IHk|r ti t id o b k IHk|r fns k _ _] using prog_ind_nested;
    intros idx Hp; simpl.
  - apply tracks_return.
  - apply tracks_panic.
  - by apply tracks_log, IHk.
  - destruct Hp as [Hb Hk]. pose proof (Run_replayable r t id body Hb).
    apply (ask_tracks id (λ req c, Run req (use r c) t id (exec req body)) idx _
      (λ req c '(v, e), exec req (k v e) c)). intros [v e]. by apply IHk.
  - apply (ask_tracks id (λ req c, Sleep req (use r c) id d) idx _
      (λ req c _, exec req k c)). intros _. by apply IHk.
  - apply (ask_tracks id (λ req c, WaitForEvent req (use r c) t id o) idx _
      (λ req c '(v, e), exec req (k v e) c)). intros [v e]. by apply IHk.
  - apply (ask_tracks id (λ req c, Invoke req (use r c) t id o) idx _
      (λ req c '(v, e), exec req (k v e) c)). intros [v e]. by apply IHk.
  - apply (ask_tracks id (λ req c, Infer req (use r c) ti t id o b) idx _
      (λ req c '(v, e), exec req (k v e) c)). intros [v e]. by apply IHk.
  - done.
Qed.
End tracks.

(** ** The executor's loop follows the execution *)

Section drive.
Context {V : Type} (map_type : gotype V) (stack : string) (answer : GeneratorOpcode → json).
Context (sf : ServableFunction V) (req : Request).

(** The function has the program [p] for the events of the request. *)
Definition runs_program (p : prog V) : Prop :=
  ∃ f evt evts, Func sf = Some f ∧
    decode_events map_type (ZeroEvent sf) req = Ok (Return (evt, evts)) ∧
    p = f {| in_event := evt; in_events := evts; in_ctx := input_ctx (r_callCtx req) |}.

Lemma invoke_program p steps target :
  runs_program p →
  invoke map_type stack sf (with_steps req steps) target =
    Return (collect stack (exec (with_steps req steps) p (fn_ctx target) (live ∅ []))).
Proof.
  intros (f & evt & evts & Hf & Hd & ->). unfold invoke. rewrite Hf.
  change (decode_events map_type (ZeroEvent sf) (with_steps req steps))
    with (decode_events map_type (ZeroEvent sf) req).
  by rewrite Hd.
Qed.

Lemma fn_ctx_target h :
  String.length h = 40%nat → cx_target (fn_ctx (Some h)) = Some h.
Proof.
  intros Hh. unfold fn_ctx, SetTargetStepID. destruct (str_empty h) eqn:He; [by destruct h|].
  rewrite bool_decide_eq_false_2 by (intros ->; done).
  done.
Qed.

Lemma invocation_mode steps l2 (e : execution (V:=V)) :
  well_formed e → (∃ l1, e.1 = l1 ++ l2) →
  ((∀ h, head_hash l2 = Some h → runs_now (with_steps req steps) (fn_ctx None) h) ∨
   plans_first (with_steps req steps) (fn_ctx None)) ∧
  (∀ h, head_hash l2 = Some h → runs_now (with_steps req steps) (fn_ctx (Some h)) h).
Proof.
  intros Hwf (l1 & Hl). split.
  - destruct (disableImmediateExecution (r_callCtx req)) eqn:Hd; [by right|left].
    intros h _. split; [done|]. by right.
  - intros h Hh. split; [done|]. left. apply fn_ctx_target.
    pose proof (wf_calls _ Hwf) as Hcalls. rewrite Hl in Hcalls.
    apply Forall_app in Hcalls as [_ Hcalls]. destruct l2 as [|[h' o] l2]; [done|].
    injection Hh as <-. apply Forall_cons in Hcalls as [[? _] _]. done.
Qed.

Lemma answered_insert steps l1 h op :
  answered answer steps l1 → h ∉ l1.*1 →
  answered answer (<[h := answer op]> steps) (l1 ++ [(h, Some op)]).
Proof.
  intros Hans Hh. apply Forall_app. split.
  - apply Forall_forall. intros [h' o'] Hin. unfold answered in Hans.
    rewrite Forall_forall in Hans. destruct (Hans _ Hin) as (op' & ? & Hs).
    exists op'. split; [done|]. simpl in *. rewrite lookup_insert_ne; [done|].
    intros <-. by apply Hh, (list_elem_of_fmap_2 fst _ (h, o')).
  - constructor; [|constructor]. exists op. split; [done|]. apply lookup_insert_eq.
Qed.

(** One round of the loop, with answers for all calls but [l2]. *)
Lemma invocation_next p steps l1 l2 :
  let e := resume stack answer (immediate req) p ∅ in
  let call target := match invoke map_type stack sf (with_steps req steps) target with
                     | Return i => Some (reply_of i) | Panic _ => None end in
  runs_program p → sequential p → e.1 = l1 ++ l2 → answered answer steps l1 →
  (∀ h, head_hash l2 = Some h → steps !! h = None) →
  (call None = Some (next l2 e.2) ∨
   ∃ h id, head_hash l2 = Some h ∧ call None = Some (ReplyOps [planned_op h id])) ∧
  (∀ h, head_hash l2 = Some h → call (Some h) = Some (next l2 e.2)).
Proof.
  intros e call Hp Hs Hl Hans Hnone.
  pose proof (resume_well_formed stack answer req p ∅ Hs) as Hwf.
  pose proof (resume_tracks stack answer req p ∅ Hs) as Htr.
  destruct (invocation_mode steps l2 e Hwf (ex_intro _ l1 Hl)) as [Hmode Htarget].
  assert (∀ target, call target = Some (reply_of (collect stack
    (exec (with_steps req steps) p (fn_ctx target) (live ∅ []))))) as Hcall.
  { intros target. unfold call. by rewrite invoke_program with (p := p). }
  rewrite Hcall. split.
  - destruct (Htr steps (fn_ctx None) [] l1 l2 Hl Hans eq_refl Hnone Hmode)
      as [->|(_ & h & id & Hh & ->)]; [by left|right; by exists h, id].
  - intros h Hh. rewrite Hcall.
    destruct (Htr steps (fn_ctx (Some h)) [] l1 l2 Hl Hans eq_refl Hnone) as [->|([_ [Ht _]] & _)];
      [|done|].
    + left. intros h' Hh'. assert (h' = h) as -> by congruence. by apply Htarget.
    + pose proof (Htarget h Hh) as [_ [Ht'|[Ht' _]]]; [congruence|].
      pose proof (wf_calls _ Hwf) as Hcalls. fold e in Hcalls. rewrite Hl in Hcalls.
      apply Forall_app in Hcalls as [_ Hcalls]. destruct l2 as [|[h' o] l2]; [done|].
      injection Hh as <-. apply Forall_cons in Hcalls as [[Hlen _] _].
      by rewrite fn_ctx_target in Ht.
Qed.

Lemma drive_follows p n l1 l2 steps :
  let e := resume stack answer (immediate req) p ∅ in
  runs_program p → sequential p → e.1 = l1 ++ l2 → NoDup (l1 ++ l2).*1 →
  answered answer steps l1 → (∀ h, h ∉ l1.*1 → steps !! h = None) → (length l2 < n)%nat →
  drive map_type stack answer n sf req steps = Some (omap snd l2, e.2).
Proof.
  intros e Hp Hs. pose proof (resume_well_formed stack answer req p ∅ Hs) as Hwf.
  revert n l1 steps. induction l2 as [|[h o] l2 IH]; intros [|n] l1 steps Hl Hnd Hans Hnone Hn;
    simpl in Hn; try lia; simpl.
  - destruct (invocation_next p steps l1 [] Hp Hs Hl Hans) as [[->|(? & ? & [=] & _)] _]; [done|].
    pose proof (wf_end _ Hwf) as Hend. simpl. fold e. fold e in Hend.
    destruct e.2 as [e'|[|op [|]]|v]; try done. by destruct (Hend op).
  - assert (h ∉ l1.*1) as Hh.
    { rewrite fmap_app in Hnd. apply NoDup_app in Hnd as (_ & Hd & _). intros Hin.
      apply (Hd h Hin). left. }
    assert (∀ h', head_hash ((h, o) :: l2) = Some h' → steps !! h' = None) as Hhead.
    { intros h' [= <-]. by apply Hnone. }
    destruct (invocation_next p steps l1 _ Hp Hs Hl Hans Hhead) as [Hnext Htarget].
    specialize (Htarget h eq_refl). fold e in Hnext, Htarget.
    pose proof (wf_calls _ Hwf) as Hcalls. fold e in Hcalls. rewrite Hl in Hcalls.
    apply Forall_app in Hcalls as [_ [[_ Hop] _]%Forall_cons].
    destruct o as [op|].
    + destruct (Hop op eq_refl) as [Hid Hplan]. simpl in Hid, Htarget.
      assert (drive map_type stack answer n sf req (<[g_id op := answer op]> steps) =
        Some (omap snd l2, e.2)) as Hrec.
      { rewrite Hid. apply (IH n (l1 ++ [(h, Some op)])); [by rewrite <- app_assoc..| | |lia].
        - by apply answered_insert.
        - intros h' Hh'. rewrite fmap_app, elem_of_app in Hh'. rewrite lookup_insert_ne.
          + apply Hnone. tauto.
          + intros ->. apply Hh'. right. by left. }
      destruct Hnext as [->|(h' & id & [= <-] & ->)]; simpl.
      * rewrite decide_False by done. by rewrite Hrec.
      * rewrite Htarget. by rewrite Hrec.
    + assert (l2 = []) as -> by by eapply (wf_failed _ Hwf).
      pose proof (wf_end _ Hwf) as Hend. fold e in Hend. simpl in Hnext, Htarget.
      destruct Hnext as [->|(h' & id & [= <-] & ->)]; simpl; rewrite ?Htarget;
        destruct e.2 as [e'|[|op [|]]|v]; try done; by destruct (Hend op).
Qed.

(** C5: an executor that replays a sequential function, storing an answer for each
    operation it reports and running planned steps by targeting them, sees exactly
    the execution of the function: each tool call reports its operation once, in
    program order, the function continues with the stored answers, and the loop
    ends with the function's own result, whatever the mode of the request.  The
    number of rounds is bounded by the number of calls. *)
Theorem replay_is_execution p fuel :
  let e := resume stack answer (immediate req) p ∅ in
  runs_program p → sequential p → NoDup e.1.*1 → (length e.1 < fuel)%nat →
  drive map_type stack answer fuel sf req ∅ = Some (omap snd e.1, e.2).
Proof.
  intros e Hp Hs Hnd Hfuel.
  by apply (drive_follows p fuel [] e.1 ∅); [..|constructor| |].
Qed.
End drive.

(** ** Example: an order with a retried name, a pause and a step error *)

(** What the executor stores for an operation. *)
Definition stored (op : GeneratorOpcode) : json :=
  match g_op op with
  | OpcodeStepRun => JObj [("data", default JNull (g_data op))]
  | OpcodeStepError =>
      JObj [("error", match g_error op with
                      | Some u => JObj [("name", JStr (ue_name u)); ("message", JStr (ue_message u));
                                        ("data", default JNull (ue_data u))]
                      | None => JNull
                      end)]
  | _ => JNull
  end.

Definition order_program : prog json :=
  PRun Given raw_type "charge" (PLog "charging" (PRet (jint 5) None)) (λ amount _,
  PSleep Given "pause" (90 * second) (
  PRun Given raw_type "charge" (PLog "again" (PRet JNull (Some (EText "declined")))) (λ _ err,
  PLog "done" (PRet amount (if opt_err IsStepError err then None else err))))).

Definition order_function : ServableFunction json :=
  as_servable id {| sf_fc := basic_opts "order" "Order"; sf_trigger := EventTrigger "order/new" None;
                    sf_type := EvInterface 0; sf_f := λ _, order_program |}.

Definition order_request (planned : bool) : Request :=
  {| r_event := Some (JObj []); r_events := []; r_steps := ∅;
     r_callCtx := {| disableImmediateExecution := planned; cc_env := ""; cc_functionID := "";
       cc_runID := ""; cc_stepID := "step"; cc_stack := zero_CallStack; cc_attempt := 0 |};
     r_useAPI := false |}.

Lemma replay_is_execution_witness :
  let e := resume "" stored (immediate (order_request true)) order_program ∅ in
  runs_program raw_type order_function (order_request true) order_program ∧
  sequential order_program ∧ NoDup e.1.*1 ∧ (length e.1 < 4)%nat ∧
  e.2 = ReplyResponse (Some (jint 5)) ∧
  drive raw_type "" stored 4 order_function (order_request true) ∅ = Some (omap snd e.1, e.2).
Proof.
  intros e.
  assert (runs_program raw_type order_function (order_request true) order_program) as Hp.
  { exists (λ _, order_program), (JObj []), []. done. }
  assert (sequential order_program) as Hs by (simpl; tauto).
  assert (NoDup e.1.*1) as Hnd by (apply (bool_decide_unpack _); vm_compute; exact I).
  assert (length e.1 < 4)%nat as Hn by (vm_compute; lia).
  split; [exact Hp|]. split; [exact Hs|]. split; [exact Hnd|]. split; [exact Hn|].
  split; [vm_compute; reflexivity|].
  exact (replay_is_execution raw_type "" stored order_function (order_request true)
           order_program 4 Hp Hs Hnd Hn).
Defined.
