(* ===== verification/Groups.v ===== *)
(** * Groups of steps (group.Parallel)

    A function that starts a group of steps is called to plan them, then once for every
    planned step, in whatever order and with whatever results are known by then, and then
    to go on.  The steps of a group must have names of their own: the last part shows
    what happens when two functions of a group use one name. *)

From S2P Require Import Prelude GoBytes GoTime GoHash GoJson Errors Manager Step Program Functions.
From S2P Require Import Invoke Replay.

Open Scope Z_scope.

#[local] Arguments step_hash : simpl never.

Lemma filter_every {A} (P : A → Prop) `{!∀ x, Decision (P x)} (l : list A) :
  Forall P l → filter P l = l.
Proof. induction 1; [done|]. rewrite filter_cons_True by done. by f_equal. Qed.

Lemma filter_none {A} (P : A → Prop) `{!∀ x, Decision (P x)} (l : list A) :
  Forall (λ x, ¬ P x) l → filter P l = [].
Proof. induction 1; [done|]. by rewrite filter_cons_False. Qed.

(** ** One step, in any world *)

Section run_cases.
Context {V : Type} (req : Request) (c : ctx) (t : gotype V) (id : string).
Context (f : ctx → M (V * option goerr)) (w : world).
Hypothesis (Hmgr : cx_mgr c = true).

Abbreviation h := (step_hash (m_indexes (w_mgr w)) id).

Lemma Run_cancelled : cancelled w = true → Run req c t id f w = (w, Panic ControlHijack).
Proof using Hmgr.
  unfold Run, bind, preflight, cancelled. intros Hc. by rewrite Hmgr, Hc.
Qed.

Hypothesis (Hlive : cancelled w = false).

(** What a step does once it has been counted. *)
Lemma Run_counted :
  Run req c t id f w =
  match r_steps req !! h with
  | Some val => run_memo t id val (bump id w)
  | None =>
      match cx_target c with
      | Some target =>
          if bool_decide (target = h) then defer_cancel (r <- f c;; run_finish t h id r) (bump id w)
          else (bump id w, Panic ControlHijack)
      | None =>
          if cx_parallel c || disableImmediateExecution (r_callCtx req) then
            (upd (AppendOp (planned_op h id)) (bump id w), Panic ControlHijack)
          else defer_cancel (r <- f c;; run_finish t h id r) (bump id w)
      end
  end.
Proof using Hmgr Hlive.
  unfold Run, bind at 1.
  destruct (preflight_cases c w) as [(-> & _)|(p & Hp)].
  2: { unfold preflight, cancelled in *. by rewrite Hmgr, Hlive in Hp. }
  unfold bind at 1. change (newOp OpcodeStep id JNull w) with (bump id w, @Return UnhashedOp
    {| uo_op := OpcodeStep; uo_id := id; uo_opts := JNull;
       uo_pos := next_index (m_indexes (w_mgr w)) id |}).
  cbv beta iota. unfold Step. change (MustHash _) with h.
  destruct (r_steps req !! h); [done|]. cbv zeta. unfold getTargetStepID, isParallel.
  destruct (cx_target c) as [target|].
  - by destruct (bool_decide (target = h)).
  - cbn [andb]. destruct (cx_parallel c), (disableImmediateExecution (r_callCtx req)); done.
Qed.
End run_cases.

(** A known result that is returned, is returned in every world, which it leaves alone. *)
Lemma run_memo_everywhere {V} (t : gotype V) id val w0 w0' r :
  run_memo t id val w0 = (w0', Return r) → ∀ w, run_memo t id val w = (w, Return r).
Proof.
  unfold run_memo, fail_hijack, bind, panic, ret. intros Hr w. revert Hr.
  destruct (decode_response val) as [u|].
  2: { destruct (gt_unmarshal t val) as [v [e|]]; [done|]. by intros [= <- <-]. }
  destruct (rs_error u) as [ej|].
  - destruct (decode_StepError ej) as [err|]; [|done].
    destruct (unmarshal_raw t (se_data err)) as [v [e|]]; [done|]. by intros [= <- <-].
  - destruct (gt_unmarshal t _) as [v [e|]]; [done|]. by intros [= <- <-].
Qed.

(** ** Groups *)

(** One function of the group: a step, whose result it returns. *)
Record branch (V : Type) := { br_type : gotype V; br_id : string; br_body : prog V }.
Arguments br_type {V} b.
Arguments br_id {V} b.
Arguments br_body {V} b.

Section group.
Context {V : Type} (stack : string) (answer : GeneratorOpcode → json).
Implicit Types b : branch V.

Definition branch_prog b : prog V :=
  PRun Given (br_type b) (br_id b) (br_body b) (λ v e, PRet v e).

(** The identifier of the step in a function that starts with the group. *)
Definition br_hash b : string := step_hash ∅ (br_id b).

(** The result of a step as the function gets it from the state of the executor. *)
Definition memo_result b (val : json) : option (V * option goerr) :=
  match run_memo (br_type b) (br_id b) val (live ∅ []) with
  | (_, Return r) => Some r
  | _ => None
  end.

(** The operation a step reports when it runs; it must not crash, and an error must not
    be a step's error that was passed on. *)
Definition br_op b : option GeneratorOpcode :=
  match plain_outcome (br_body b) with
  | Return (v, None) => d ← gt_marshal (br_type b) v; Some (step_run_op (br_hash b) (br_id b) (Some d))
  | Return (v, Some e) =>
      if IsStepError e then None
      else msg ← err_msg e; Some (step_error_op (br_hash b) (br_id b) msg (gt_marshal (br_type b) v))
  | Panic _ => None
  end.

Definition pending (steps : gmap string json) (bs : list (branch V)) : list (branch V) :=
  filter (λ b, steps !! br_hash b = None) bs.

Definition as_result (r : V * option goerr) : Result V := {| pr_error := r.2; pr_value := r.1 |}.

(** The results of the group, from the known steps. *)
Definition group_results (steps : gmap string json) (bs : list (branch V)) : list (Result V) :=
  omap (λ b, val ← steps !! br_hash b; as_result <$> memo_result b val) bs.

(** The known steps of the group can be decoded. *)
Definition usable (steps : gmap string json) (bs : list (branch V)) : Prop :=
  Forall (λ b, ∀ val, steps !! br_hash b = Some val → is_Some (memo_result b val)) bs.

(** The counts after the steps of the group. *)
Definition used_all (idx : gmap string Z) (bs : list (branch V)) : gmap string Z :=
  foldl (λ idx b, used idx (br_id b)) idx bs.

Definition plan_of b : GeneratorOpcode := planned_op (br_hash b) (br_id b).

(** A world in which [ops] have been reported. *)
Definition reporting (idx : gmap string Z) (ops : list GeneratorOpcode) (log : list string) : world :=
  {| w_mgr := {| m_cancelled := false; m_err := None; m_ops := ops; m_indexes := idx |};
     w_log := log |}.

(** The steps of [bs] have not been counted. *)
Definition uncounted (idx : gmap string Z) (bs : list (branch V)) : Prop :=
  Forall (λ b, step_hash idx (br_id b) = br_hash b) bs.

Lemma uncounted_used idx b bs :
  br_hash b ∉ br_hash <$> bs → uncounted idx bs → uncounted (used idx (br_id b)) bs.
Proof.
  unfold uncounted. rewrite !Forall_forall. intros Hb Hw b' Hb'. rewrite <- (Hw b' Hb').
  unfold step_hash, next_index, used. rewrite lookup_insert_ne; [done|].
  intros Heq. apply Hb. unfold br_hash at 1. rewrite Heq. by apply (list_elem_of_fmap_2 br_hash).
Qed.

Section one.
Context (req : Request) (c : ctx) (b : branch V) (idx : gmap string Z).
Hypothesis (Hmgr : cx_mgr c = true) (Hidx : step_hash idx (br_id b) = br_hash b).

(** What one function does: its step is known, planned, passed over or run. *)
Lemma branch_known ops log val r :
  r_steps req !! br_hash b = Some val → memo_result b val = Some r →
  exec req (branch_prog b) c (reporting idx ops log) =
    (reporting (used idx (br_id b)) ops log, Return r).
Proof using Hmgr Hidx.
  intros Hval Hr. cbn [exec branch_prog]. unfold bind.
  rewrite Run_counted by done. simpl. rewrite Hidx, Hval.
  unfold memo_result in Hr. destruct (run_memo _ _ _ _) as [w0 [r0|]] eqn:Hmemo; simplify_eq.
  rewrite (run_memo_everywhere _ _ _ _ _ _ Hmemo). by destruct r.
Qed.

Hypothesis (Hnew : r_steps req !! br_hash b = None).

Lemma branch_planned ops log :
  cx_target c = None → cx_parallel c = true →
  exec req (branch_prog b) c (reporting idx ops log) =
    (reporting (used idx (br_id b)) (ops ++ [plan_of b]) log, Panic ControlHijack).
Proof using Hmgr Hidx Hnew.
  intros Ht Hp. cbn [exec branch_prog]. unfold bind.
  rewrite Run_counted by done. simpl. by rewrite Hidx, Hnew, Ht, Hp.
Qed.

Lemma branch_passed ops log target :
  cx_target c = Some target → target ≠ br_hash b →
  exec req (branch_prog b) c (reporting idx ops log) =
    (reporting (used idx (br_id b)) ops log, Panic ControlHijack).
Proof using Hmgr Hidx Hnew.
  intros Ht Hne. cbn [exec branch_prog]. unfold bind.
  rewrite Run_counted by done. simpl. rewrite Hidx, Hnew, Ht. by rewrite bool_decide_eq_false_2.
Qed.

(** The step that runs stops the function, and its operation is the reply. *)
Lemma branch_runs op :
  cx_target c = Some (br_hash b) → plain (br_body b) → br_op b = Some op →
  ∃ w, exec req (branch_prog b) c (reporting idx [] []) = (w, Panic ControlHijack) ∧
    cancelled w = true ∧ w_log w = plain_log (br_body b) ∧
    reply_of (V:=V) (collect stack (w, Panic ControlHijack)) = ReplyOps [op].
Proof using Hmgr Hidx Hnew.
  intros Ht Hb Hop. cbn [exec branch_prog]. unfold bind at 1.
  rewrite Run_counted by done. simpl. rewrite Hidx, Hnew, Ht, bool_decide_eq_true_2 by done.
  change (bump _ _) with (live (used idx (br_id b)) []). rewrite run_body_live by done.
  unfold br_op in Hop.
  destruct (plain_outcome (br_body b)) as [[v [e|]]|]; [..|done]; unfold run_finish.
  - destruct (IsStepError e); [done|]. destruct (err_msg e); simplify_eq/=.
    eexists. repeat split. simpl. by rewrite app_nil_r.
  - destruct (gt_marshal (br_type b) v); simplify_eq/=.
    eexists. repeat split. simpl. by rewrite app_nil_r.
Qed.
End one.

(** *** The loop over the functions *)

Section walk.
Context (req : Request) (c : ctx).
Hypothesis (Hmgr : cx_mgr c = true) (Hpar : cx_parallel c = true).

Notation steps := (r_steps req).
Notation run_all bs := (map (exec req) (branch_prog <$> bs)).

(** The target of the call, if it has one, is none of [bs]. *)
Definition no_target (bs : list (branch V)) : Prop :=
  ∀ h, cx_target c = Some h → h ∉ br_hash <$> bs.

Definition plans (bs : list (branch V)) : list GeneratorOpcode :=
  match cx_target c with Some _ => [] | None => plan_of <$> pending steps bs end.

Lemma walk bs idx ops log rs pl :
  NoDup (br_hash <$> bs) → uncounted idx bs → usable steps bs → no_target bs →
  parallel_loop c (run_all bs) rs pl None (reporting idx ops log) =
    (reporting (used_all idx bs) (ops ++ plans bs) log,
     Return (rs ++ group_results steps bs, pl || negb (bool_decide (pending steps bs = [])), None)).
Proof using Hmgr Hpar.
  revert idx ops rs pl. induction bs as [|b bs IH]; intros idx ops rs pl Hnd Hidx Huse Ht.
  - unfold plans. destruct (cx_target c); simpl; by rewrite !app_nil_r, orb_false_r.
  - apply NoDup_cons in Hnd as [Hb Hnd]. apply Forall_cons in Hidx as [Hh Hidx].
    apply Forall_cons in Huse as [Hu Huse].
    assert (no_target bs) as Ht' by (intros h Hh' Hin; apply (Ht h Hh'); by right).
    assert (∀ h, cx_target c = Some h → h ≠ br_hash b) as Hne.
    { intros h Hh' ->. apply (Ht _ Hh'). left. }
    specialize (λ ops rs pl, IH (used idx (br_id b)) ops rs pl Hnd
      (uncounted_used _ _ _ Hb Hidx) Huse Ht').
    unfold plans, pending in *. cbn [fmap list_fmap map parallel_loop].
    destruct (steps !! br_hash b) as [val|] eqn:Hval.
    + destruct (Hu val eq_refl) as [[v e] Hr].
      rewrite branch_known with (val := val) (r := (v, e)) by done. rewrite IH.
      unfold group_results. rewrite filter_cons_False by congruence.
      cbn [omap list_omap]. rewrite Hval. cbn [mbind option_bind]. rewrite Hr. simpl.
      by rewrite <- app_assoc.
    + unfold group_results. rewrite filter_cons_True by done.
      cbn [omap list_omap]. rewrite Hval. cbn [mbind option_bind].
      destruct (cx_target c) as [target|] eqn:Htarget.
      * rewrite branch_passed with (target := target) by auto. rewrite IH. by rewrite orb_true_r.
      * rewrite branch_planned by done. rewrite IH. rewrite orb_true_r. simpl.
        by rewrite <- app_assoc.
Qed.

(** Once a step has run, the rest of the group does nothing. *)
Lemma walk_cancelled bs w rs :
  cancelled w = true →
  parallel_loop c (run_all bs) rs true None w = (w, Return (rs, true, None)).
Proof using Hmgr.
  intros Hw. revert rs. induction bs as [|b bs IH]; intros rs; [done|].
  cbn [fmap list_fmap map parallel_loop exec branch_prog]. unfold bind.
  rewrite Run_cancelled by done. apply IH.
Qed.

(** The targeted step, wherever it is in the group. *)
Lemma walk_targeted l1 b l2 op idx :
  NoDup (br_hash <$> l1 ++ b :: l2) → uncounted idx (l1 ++ b :: l2) → usable steps l1 →
  cx_target c = Some (br_hash b) → steps !! br_hash b = None →
  plain (br_body b) → br_op b = Some op →
  ∃ w rs, parallel_loop c (run_all (l1 ++ b :: l2)) [] false None (live idx []) =
      (w, Return (rs, true, None)) ∧
    w_log w = plain_log (br_body b) ∧
    reply_of (V:=V) (collect stack (w, Panic ControlHijack)) = ReplyOps [op].
Proof using Hmgr Hpar.
  intros Hnd Hidx Huse Ht Hnew Hb Hop.
  assert (∀ l1 idx rs pl,
    NoDup (br_hash <$> l1 ++ b :: l2) → uncounted idx (l1 ++ b :: l2) → usable steps l1 →
    ∃ w rs', parallel_loop c (run_all (l1 ++ b :: l2)) rs pl None (reporting idx [] []) =
        (w, Return (rs', true, None)) ∧ w_log w = plain_log (br_body b) ∧
      reply_of (V:=V) (collect stack (w, Panic ControlHijack)) = ReplyOps [op]) as Hgen.
  2: by apply Hgen.
  clear l1 idx Hnd Hidx Huse. intros l1. induction l1 as [|b' l1 IH]; intros idx rs pl Hnd Hidx Huse.
  - apply Forall_cons in Hidx as [Hh _].
    destruct (branch_runs req c b idx Hmgr Hh Hnew op Ht Hb Hop) as (w & Hrun & Hc & Hlog & Hr).
    exists w, rs. cbn [app fmap list_fmap map parallel_loop]. rewrite Hrun.
    by rewrite walk_cancelled.
  - simpl in Hnd. apply NoDup_cons in Hnd as [Hb' Hnd]. apply Forall_cons in Hidx as [Hh Hidx].
    apply Forall_cons in Huse as [Hu Huse].
    assert (br_hash b ≠ br_hash b') as Hne.
    { intros Heq. apply Hb'. rewrite <- Heq. apply list_elem_of_fmap_2, elem_of_app. right. left. }
    specialize (λ rs pl, IH (used idx (br_id b')) rs pl Hnd (uncounted_used _ _ _ Hb' Hidx) Huse).
    cbn [app fmap list_fmap map parallel_loop].
    destruct (steps !! br_hash b') as [val|] eqn:Hval.
    + destruct (Hu val eq_refl) as [[v e] Hr].
      rewrite branch_known with (val := val) (r := (v, e)) by done. apply IH.
    + rewrite branch_passed with (target := br_hash b) by done. apply IH.
Qed.
End walk.

(** *** The executor *)

Context (map_type : gotype V) (sf : ServableFunction V) (req : Request).

(** What a call replies, and what it does, with the known [steps]. *)
Definition call (steps : gmap string json) (target : option string) :
  option (reply V * list string) :=
  match invoke map_type stack sf (with_steps req steps) target with
  | Return i => Some (reply_of i, inv_log i)
  | Panic _ => None
  end.

(** The executor targets planned steps one after the other, and stores an answer to the
    operation of each: the operations, what the calls did, and the steps then known. *)
Fixpoint run_targets (targets : list string) (steps : gmap string json) :
  option (list GeneratorOpcode * list string * gmap string json) :=
  match targets with
  | [] => Some ([], [], steps)
  | h :: targets =>
      match call steps (Some h) with
      | Some (ReplyOps [op], log) =>
          match run_targets targets (<[g_id op := answer op]> steps) with
          | Some (ops, log', steps') => Some (op :: ops, log ++ log', steps')
          | None => None
          end
      | _ => None
      end
  end.

(** The steps that are known when those of [bs] have run. *)
Definition known (bs : list (branch V)) : gmap string json :=
  list_to_map (omap (λ b, op ← br_op b; Some (br_hash b, answer op)) bs).

(** What the function gets for a step. *)
Definition branch_result b : option (Result V) :=
  op ← br_op b; as_result <$> memo_result b (answer op).

(** A function of the group that runs to an operation with an answer that can be read. *)
Definition runnable b : Prop :=
  plain (br_body b) ∧ ∃ op, br_op b = Some op ∧ is_Some (memo_result b (answer op)).

Lemma br_op_id b op : br_op b = Some op → g_id op = br_hash b.
Proof.
  unfold br_op. destruct (plain_outcome _) as [[v [e|]]|]; [..|done].
  - destruct (IsStepError e), (err_msg e); naive_solver.
  - destruct (gt_marshal _ _); naive_solver.
Qed.

Lemma known_cons b op bs :
  br_op b = Some op → known (b :: bs) = <[br_hash b := answer op]> (known bs).
Proof. intros Hop. unfold known. cbn [omap list_omap]. by rewrite Hop. Qed.

Lemma known_none bs h : h ∉ br_hash <$> bs → known bs !! h = None.
Proof.
  intros Hh. apply not_elem_of_list_to_map_1. intros Hin. apply Hh.
  apply list_elem_of_fmap in Hin as ([h' j] & -> & Hin).
  apply list_elem_of_omap in Hin as (b & Hb & Hj). destruct (br_op b); simplify_eq/=.
  by apply (list_elem_of_fmap_2 br_hash).
Qed.

Lemma known_some bs b op :
  NoDup (br_hash <$> bs) → b ∈ bs → br_op b = Some op →
  known bs !! br_hash b = Some (answer op).
Proof.
  intros Hnd Hb Hop. induction bs as [|b' bs IH]; [by apply elem_of_nil in Hb|].
  apply NoDup_cons in Hnd as [Hb' Hnd]. apply elem_of_cons in Hb as [<-|Hb].
  - rewrite (known_cons _ op) by done. apply lookup_insert_eq.
  - destruct (br_op b') as [op'|] eqn:Hop'.
    + rewrite (known_cons _ op') by done. rewrite lookup_insert_ne; [by apply IH|].
      intros Heq. apply Hb'. rewrite Heq. by apply (list_elem_of_fmap_2 br_hash).
    + unfold known. cbn [omap list_omap]. rewrite Hop'. by apply IH.
Qed.

(** A function of the group is among the known ones or still to run. *)
Lemma known_cases ran rest b :
  NoDup (br_hash <$> ran ++ rest) → Forall runnable (ran ++ rest) → b ∈ ran ++ rest →
  (b ∈ ran ∧ ∃ op, br_op b = Some op ∧ known ran !! br_hash b = Some (answer op)) ∨
  (b ∈ rest ∧ known ran !! br_hash b = None).
Proof.
  intros Hnd Hrun Hb. rewrite Forall_forall in Hrun. destruct (Hrun b Hb) as (_ & op & Hop & _).
  rewrite fmap_app in Hnd. apply NoDup_app in Hnd as (Hnd & Hdisj & _).
  apply elem_of_app in Hb as [Hb|Hb]; [left|right]; (split; [done|]).
  - exists op. split; [done|]. by apply known_some.
  - apply known_none. intros Hin. apply (Hdisj _ Hin). by apply (list_elem_of_fmap_2 br_hash).
Qed.

Lemma known_usable ran rest bs :
  NoDup (br_hash <$> ran ++ rest) → Forall runnable (ran ++ rest) → ran ++ rest ≡ₚ bs →
  usable (known ran) bs.
Proof.
  intros Hnd Hrun Hp. apply Forall_forall. intros b Hb val Hval. rewrite <- Hp in Hb.
  destruct (known_cases ran rest b Hnd Hrun Hb) as [(_ & op & Hop & Hk)|(_ & Hk)]; [|congruence].
  rewrite Forall_forall in Hrun. destruct (Hrun b Hb) as (_ & op' & Hop' & Hr).
  by simplify_eq.
Qed.

Lemma known_pending ran rest bs :
  NoDup (br_hash <$> ran ++ rest) → Forall runnable (ran ++ rest) → ran ++ rest ≡ₚ bs →
  pending (known ran) bs ≡ₚ rest.
Proof.
  intros Hnd Hrun Hp. unfold pending. rewrite <- Hp, filter_app.
  assert (∀ b, b ∈ ran → known ran !! br_hash b ≠ None) as Hran.
  { intros b Hb. rewrite Forall_forall in Hrun.
    destruct (Hrun b) as (_ & op & Hop & _); [by apply elem_of_app; left|].
    rewrite fmap_app in Hnd. apply NoDup_app in Hnd as (Hnd & _).
    by rewrite (known_some ran b op). }
  assert (∀ b, b ∈ rest → known ran !! br_hash b = None) as Hrest.
  { intros b Hb. apply known_none. rewrite fmap_app in Hnd.
    apply NoDup_app in Hnd as (_ & Hd & _). intros Hin.
    apply (Hd _ Hin). by apply (list_elem_of_fmap_2 br_hash). }
  rewrite (filter_every _ rest) by by apply Forall_forall.
  rewrite (filter_none _ ran); [done|]. by apply Forall_forall.
Qed.

(** The order in which the steps ran does not matter. *)
Lemma known_perm bs bs' :
  NoDup (br_hash <$> bs) → bs ≡ₚ bs' → known bs = known bs'.
Proof.
  intros Hnd Hp. unfold known. apply list_to_map_proper.
  - assert (∀ l, sublist (omap (λ b, op ← br_op b; Some (br_hash b, answer op)) l).*1
                         (br_hash <$> l)) as Hsub.
    { induction l as [|b l IH]; cbn [omap list_omap fmap list_fmap]; [constructor|].
      destruct (br_op b); simpl; by constructor. }
    by eapply sublist_NoDup.
  - by rewrite Hp.
Qed.

Lemma known_results bs :
  NoDup (br_hash <$> bs) → Forall runnable bs →
  mapM branch_result bs = Some (group_results (known bs) bs).
Proof.
  intros Hnd Hrun.
  assert (∀ l, (∀ b, b ∈ l → b ∈ bs) →
    mapM branch_result l = Some (group_results (known bs) l)) as Hgen; [|by apply Hgen].
  induction l as [|b l IH]; intros Hl; [done|]. cbn [mapM].
  rewrite IH by (intros b' Hb'; apply Hl; by right).
  assert (b ∈ bs) as Hb by (apply Hl; left). rewrite Forall_forall in Hrun.
  destruct (Hrun b Hb) as (_ & op & Hop & r & Hr).
  unfold branch_result, group_results. cbn [omap list_omap].
  rewrite (known_some bs b op), Hop by done. cbn [mbind option_bind]. by rewrite Hr.
Qed.

(** *** The calls of the executor *)

Section calls.
Context (bs : list (branch V)) (k : list (Result V) → prog V) (steps : gmap string json).

Notation p := (PParallel Given (branch_prog <$> bs) k).
Hypothesis (Hp : runs_program map_type sf req p) (Hnd : NoDup (br_hash <$> bs)).
Hypothesis (Huse : usable steps bs).

Lemma call_exec target :
  call steps target =
    let run := exec (with_steps req steps) p (fn_ctx target) (live ∅ []) in
    Some (reply_of (collect stack run), w_log run.1).
Proof using Hp.
  unfold call. rewrite invoke_program with (p := p) by done. by destruct (exec _ _ _ _).
Qed.

Lemma uncounted_start : uncounted ∅ bs.
Proof. by apply Forall_forall. Qed.

(** The group ends the call when a step is missing, and continues otherwise. *)
Lemma exec_group target w rs (planned : bool) :
  parallel_loop (with_parallel (fn_ctx target)) (map (exec (with_steps req steps)) (branch_prog <$> bs))
    [] false None (live ∅ []) = (w, Return (rs, planned, None)) →
  exec (with_steps req steps) p (fn_ctx target) (live ∅ []) =
    if planned then (w, Panic ControlHijack)
    else exec (with_steps req steps) (k rs) (fn_ctx target) w.
Proof.
  intros Hloop. cbn [exec use]. unfold Parallel, bind. rewrite Hloop. by destruct planned.
Qed.

Lemma walk_untargeted :
  parallel_loop (with_parallel (fn_ctx None)) (map (exec (with_steps req steps)) (branch_prog <$> bs))
    [] false None (live ∅ []) =
  (reporting (used_all ∅ bs) (plan_of <$> pending steps bs) [],
   Return (group_results steps bs, negb (bool_decide (pending steps bs = [])), None)).
Proof using Hnd Huse.
  apply (walk (with_steps req steps) (with_parallel (fn_ctx None))); try done. apply uncounted_start.
Qed.

Lemma call_plans :
  pending steps bs ≠ [] → call steps None = Some (ReplyOps (plan_of <$> pending steps bs), []).
Proof using Hp Hnd Huse.
  intros Hpend. rewrite call_exec. erewrite exec_group by apply walk_untargeted.
  rewrite bool_decide_eq_false_2 by done. cbn [negb].
  destruct (pending steps bs) as [|b [|]]; done.
Qed.

Lemma call_continues :
  pending steps bs = [] →
  call steps None =
    let run := exec (with_steps req steps) (k (group_results steps bs)) (fn_ctx None)
                 (live (used_all ∅ bs) []) in
    Some (reply_of (collect stack run), w_log run.1).
Proof using Hp Hnd Huse.
  intros Hpend. rewrite call_exec. erewrite exec_group by apply walk_untargeted.
  by rewrite Hpend, bool_decide_eq_true_2.
Qed.

Lemma call_runs b op :
  b ∈ bs → steps !! br_hash b = None → plain (br_body b) → br_op b = Some op →
  call steps (Some (br_hash b)) = Some (ReplyOps [op], plain_log (br_body b)).
Proof using Hp Hnd Huse.
  intros Hb Hnew Hbody Hop. rewrite call_exec.
  apply list_elem_of_split in Hb as (l1 & l2 & Hbs).
  assert (cx_target (with_parallel (fn_ctx (Some (br_hash b)))) = Some (br_hash b)) as Ht.
  { apply fn_ctx_target. exact (step_hash_length (br_id b) ∅). }
  destruct (walk_targeted (with_steps req steps) (with_parallel (fn_ctx (Some (br_hash b))))
    eq_refl eq_refl l1 b l2 op ∅) as (w & rs & Hwalk & Hlog & Hr); try done.
  - by rewrite <- Hbs.
  - rewrite <- Hbs. apply uncounted_start.
  - unfold usable in *. rewrite Hbs in Huse. by apply Forall_app in Huse as [? _].
  - rewrite <- Hbs in Hwalk. erewrite exec_group by apply Hwalk.
    cbv beta iota zeta. cbn [fst]. by rewrite Hr, Hlog.
Qed.
End calls.

Lemma run_targets_spec bs k ran rest :
  runs_program map_type sf req (PParallel Given (branch_prog <$> bs) k) →
  NoDup (br_hash <$> bs) → Forall runnable bs → ran ++ rest ≡ₚ bs →
  run_targets (br_hash <$> rest) (known ran) =
    Some (omap br_op rest, concat ((λ b, plain_log (br_body b)) <$> rest), known (ran ++ rest)).
Proof.
  intros Hp Hnd Hrun. revert ran. induction rest as [|b rest IH]; intros ran Hperm.
  - by rewrite app_nil_r.
  - assert (NoDup (br_hash <$> ran ++ b :: rest)) as Hnd' by by rewrite Hperm.
    assert (Forall runnable (ran ++ b :: rest)) as Hrun' by by rewrite Hperm.
    assert (b ∈ ran ++ b :: rest) as Hb by (apply elem_of_app; right; left).
    pose proof Hrun' as Hbr. rewrite Forall_forall in Hbr. destruct (Hbr b Hb) as (Hbody & op & Hop & _).
    assert (known ran !! br_hash b = None) as Hnew.
    { apply known_none. rewrite fmap_app in Hnd'. apply NoDup_app in Hnd' as (_ & Hd & _).
      intros Hin. apply (Hd _ Hin). left. }
    rewrite !fmap_cons. cbn [run_targets omap list_omap concat].
    assert (usable (known ran) bs) as Huse by by eapply known_usable.
    rewrite (call_runs bs k (known ran) Hp Hnd Huse b op) by (done || by rewrite <- Hperm).
    assert (known (b :: ran) = known (ran ++ [b])) as Hkn.
    { change (b :: rest) with ([b] ++ rest) in Hnd'. rewrite app_assoc, fmap_app in Hnd'.
      apply NoDup_app in Hnd' as [Hnd' _]. apply known_perm, Permutation_cons_append.
      by rewrite Permutation_cons_append. }
    rewrite (br_op_id b op), <- (known_cons b op), Hkn by done.
    rewrite IH by by rewrite <- app_assoc. by rewrite Hop, <- app_assoc.
Qed.

(** C6: a group of steps is planned, run and collected.  Whatever order the executor
    runs the steps in: a call between two of them plans again exactly the steps that are
    missing, in the order of the functions, and does nothing else; each targeted call runs
    one step function, once, and reports its operation; and when all steps have run the
    function continues with one result for every function of the group, in the order of
    the functions, whatever the order in which they ran. *)
Theorem group_executes bs k order :
  runs_program map_type sf req (PParallel Given (branch_prog <$> bs) k) →
  NoDup (br_hash <$> bs) → Forall runnable bs → order ≡ₚ bs →
  (∀ ran rest, order = ran ++ rest → rest ≠ [] →
     ∃ todo, todo ≡ₚ rest ∧ sublist todo bs ∧
       call (known ran) None = Some (ReplyOps (plan_of <$> todo), [])) ∧
  run_targets (br_hash <$> order) ∅ =
    Some (omap br_op order, concat ((λ b, plain_log (br_body b)) <$> order), known bs) ∧
  ∃ results, mapM branch_result bs = Some results ∧
    call (known bs) None =
      let run := exec (with_steps req (known bs)) (k results) (fn_ctx None)
                   (live (used_all ∅ bs) []) in
      Some (reply_of (collect stack run), w_log run.1).
Proof.
  intros Hp Hnd Hrun Hperm. split_and!.
  - intros ran rest -> Hrest. exists (pending (known ran) bs).
    assert (NoDup (br_hash <$> ran ++ rest)) by by rewrite Hperm.
    assert (Forall runnable (ran ++ rest)) by by rewrite Hperm.
    pose proof (known_pending ran rest bs) as Hpend. specialize (Hpend ltac:(done) ltac:(done) Hperm).
    split_and!; [done|apply sublist_filter|].
    assert (usable (known ran) bs) by by eapply known_usable.
    apply (call_plans bs k); [done..|]. intros Heq. rewrite Heq in Hpend. by apply Permutation_nil_l in Hpend.
  - rewrite (known_perm bs order) by done. by apply (run_targets_spec bs k []).
  - exists (group_results (known bs) bs). split; [by apply known_results|].
    assert (bs ++ [] ≡ₚ bs) as Hbs by by rewrite app_nil_r.
    assert (NoDup (br_hash <$> bs ++ [])) by by rewrite app_nil_r.
    assert (Forall runnable (bs ++ [])) by by rewrite app_nil_r.
    assert (usable (known bs) bs) by by apply (known_usable bs []).
    apply (call_continues bs k); [done..|]. by apply Permutation_nil_r, (known_pending bs []).
Qed.
End group.

(** ** Example: two charges and a mail that cannot be sent, in one group *)

Definition leaf (id : string) (v : json) (err : option goerr) : branch json :=
  {| br_type := raw_type; br_id := id; br_body := PLog id (PRet v err) |}.

Definition checkout : list (branch json) :=
  [leaf "charge" (jint 5) None; leaf "mail" JNull (Some (EText "no address")); leaf "stock" (jint 2) None].

Definition checkout_end (rs : list (Result json)) : prog json :=
  PLog "joined" (PRet (JArr (pr_value <$> rs)) None).

Definition group_function (p : prog json) : ServableFunction json :=
  as_servable id {| sf_fc := basic_opts "checkout" "Checkout"; sf_trigger := EventTrigger "cart/paid" None;
                    sf_type := EvInterface 0; sf_f := λ _, p |}.

Abbreviation checkout_call := (call "" raw_type
  (group_function (PParallel Given (branch_prog <$> checkout) checkout_end)) (order_request false)).

Lemma group_executes_witness :
  let sf := group_function (PParallel Given (branch_prog <$> checkout) checkout_end) in
  let order := reverse checkout in
  run_targets "" stored raw_type sf (order_request false) (br_hash <$> order) ∅ =
    Some (omap br_op order, ["stock"; "mail"; "charge"], known stored checkout) ∧
  checkout_call (known stored checkout) None =
    Some (ReplyResponse (Some (JArr [jint 5; JNull; jint 2])), ["joined"]).
Proof.
  intros sf order.
  assert (runs_program raw_type sf (order_request false)
    (PParallel Given (branch_prog <$> checkout) checkout_end)) as Hp.
  { exists (λ _, PParallel Given (branch_prog <$> checkout) checkout_end), (JObj []), []. done. }
  assert (NoDup (br_hash <$> checkout)) as Hnd by (apply (bool_decide_unpack _); vm_compute; exact I).
  assert (Forall (runnable stored) checkout) as Hrun.
  { repeat (constructor; [split; [exact I|]; eexists; split; [vm_compute; reflexivity|]; eexists;
      vm_compute; reflexivity|]). constructor. }
  assert (order ≡ₚ checkout) as Hperm by apply reverse_Permutation.
  destruct (group_executes "" stored raw_type sf (order_request false) checkout checkout_end order
    Hp Hnd Hrun Hperm) as (_ & Htargets & results & Hresults & Hend).
  split; [exact Htargets|]. etransitivity; [exact Hend|].
  vm_compute in Hresults. injection Hresults as <-. vm_compute. reflexivity.
Defined.

(** ** Names of a group that are not distinct

    A name that is used twice gets an index, counted in the order in which the calls are
    made.  In a group that order changes with the known steps: when the first step of the
    first function is answered, that function gets to the name of the second one before the
    second function does, and takes its identifier. *)

Definition book (what : string) : prog json :=
  PRun Given raw_type "book" (PLog ("book the " +:+ what) (PRet (JStr what) None)) PRet.

Definition travel : prog json :=
  PParallel Given
    [PRun Given raw_type "check" (PLog "check" (PRet JNull None)) (λ _ _, book "hotel"); book "flight"]
    (λ rs, PRet (JArr (pr_value <$> rs)) None).

(** The executor runs the two steps that were planned, then the one that is planned next: the
    flight is booked twice, the hotel never, and its function gets the flight as its result. *)
Theorem group_names_collide :
  let call := call "" raw_type (group_function travel) (order_request false) in
  let run := run_targets "" stored raw_type (group_function travel) (order_request false) in
  let id := step_hash ∅ in
  let book_again := step_hash {[ "book" := 0 ]} "book" in
  call ∅ None = Some (ReplyOps [planned_op (id "check") "check"; planned_op (id "book") "book"], []) ∧
  match run [id "book"; id "check"] ∅ with
  | Some (_, log, steps) =>
      log = ["book the flight"; "check"] ∧
      call steps None = Some (ReplyOps [planned_op book_again "book"], []) ∧
      match run [book_again] steps with
      | Some (_, log', steps') =>
          log' = ["book the flight"] ∧
          call steps' None = Some (ReplyResponse (Some (JArr [JStr "flight"; JStr "flight"])), [])
      | None => False
      end
  | None => False
  end.
Proof. vm_compute. repeat split. Qed.
