(* ===== verification/Durable.v ===== *)
(** * Durable execution: every schedule gives the same execution

    A function that calls tools, alone and in groups, has one ideal execution: every tool
    is called once and the function goes on with its answer.  An executor that calls the
    function as often as it likes, runs planned steps in any order and answers operations
    whenever it wants, ends with the result of that execution, having run each of its
    steps once. *)

From S2P Require Import Prelude GoBytes GoTime GoHash GoJson Errors Manager Step Program Functions.
From S2P Require Import Invoke Replay Groups.

Open Scope Z_scope.

#[local] Arguments step_hash : simpl never.

(** ** Tools *)

(** The hash of the step [id] when it is called once. *)
Definition once (id : string) : string := step_hash ∅ id.

Lemma step_hash_once idx id : idx !! id = None → step_hash idx id = once id.
Proof. unfold once, step_hash, next_index. by intros ->. Qed.

(** What a call of the function does with a step it has no answer for. *)
Inductive treatment := Runs | Plans | Passes.

Definition treat (req : Request) (target : option string) (par : bool) (h : string) : treatment :=
  match target with
  | Some t => if decide (t = h) then Runs else Passes
  | None => if par || disableImmediateExecution (r_callCtx req) then Plans else Runs
  end.

(** The operations a tool reports, if its own is [op], and whether it ends the call. *)
Definition emission (req : Request) (target : option string) (par : bool) (op : GeneratorOpcode) :
  list GeneratorOpcode * bool :=
  if executed op then
    match treat req target par (g_id op) with
    | Runs => ([op], true)
    | Plans => ([planned_op (g_id op) (g_name op)], false)
    | Passes => ([], false)
    end
  else ([op], false).

(** The world after a step function has run, with the operations [ops]. *)
Definition stopped (w : world) (ops : list GeneratorOpcode) : Prop :=
  cancelled w = true ∧ m_ops (w_mgr w) = ops ∧
  (m_err (w_mgr w) = None ∨ ∃ op, last ops = Some op ∧ g_op op = OpcodeStepError).

(** The world after a tool has failed the call with [e]. *)
Definition with_err (e : goerr) (w : world) : world :=
  {| w_mgr := SetErr e (w_mgr w); w_log := w_log w |}.

(** What replay needs of a tool that would report [op]; when its answer is [j], [memo j] is
    what it returns, or the error with which it fails the call. *)
Class Tool {A} (id : string) (call : Request → ctx → M A) (op : option GeneratorOpcode)
  (memo : json → option (res goerr A)) : Prop := {
  tool_reports o : op = Some o → g_id o = once id ∧ g_op o ≠ OpcodeStepPlanned;
  tool_cancelled req c w :
    cx_mgr c = true → cancelled w = true → call req c w = (w, Panic ControlHijack);
  tool_known req c idx ops log j a :
    cx_mgr c = true → idx !! id = None → r_steps req !! once id = Some j → memo j = Some a →
    call req c (reporting idx ops log) =
      match a with
      | Ok a => (reporting (used idx id) ops log, Return a)
      | Err e => (with_err e (reporting (used idx id) ops log), Panic ControlHijack)
      end;
  tool_new req c idx ops log o :
    cx_mgr c = true → idx !! id = None → r_steps req !! once id = None → op = Some o →
    let e := emission req (cx_target c) (cx_parallel c) o in
    ∃ w, call req c (reporting idx ops log) = (w, Panic ControlHijack) ∧
      if e.2 then stopped w (ops ++ e.1) else w = reporting (used idx id) (ops ++ e.1) log }.

(** What a computation does that does not depend on the world: it returns, or fails the
    call. *)
Definition peek {A} (m : M A) : option (res goerr A) :=
  match m (live ∅ []) with
  | (_, Return a) => Some (Ok a)
  | (w, Panic ControlHijack) => Err <$> m_err (w_mgr w)
  | _ => None
  end.

(** A computation that does everywhere what it can be seen to do, and nothing else. *)
Definition constant {A} (m : M A) : Prop := ∀ w a, peek m = Some a →
  m w = match a with Ok a => (w, Return a) | Err e => (with_err e w, Panic ControlHijack) end.

Lemma constant_ret {A} (a : A) : constant (ret a).
Proof. by intros w a' [= <-]. Qed.

Lemma constant_panic {A} p : constant (panic (A:=A) p).
Proof. intros w a'. unfold peek. simpl. by destruct p. Qed.

Lemma constant_fail {A} e : constant (fail_hijack (A:=A) e).
Proof. by intros w a' [= <-]. Qed.

Create HintDb durable.
#[export] Hint Resolve constant_ret constant_panic constant_fail : durable.

Lemma constant_run_memo {V} (t : gotype V) id val : constant (run_memo t id val).
Proof. unfold run_memo. repeat case_match; eauto with durable. Qed.

Lemma constant_invoke_memo {V} (t : gotype V) id val : constant (invoke_memo t id val).
Proof. unfold invoke_memo. repeat case_match; eauto with durable. Qed.

Lemma constant_infer_memo {V} (t : gotype V) id val : constant (infer_memo t id val).
Proof. unfold infer_memo. repeat case_match; eauto with durable. Qed.

(** A tool that only reports. *)
Section reporting_tool.
Context {A : Type} (o : Opcode) (id : string) (args : json) (memo : json → M A).
Context (fresh : UnhashedOp → M A) (op : option GeneratorOpcode).

Definition fresh_call : UnhashedOp := {| uo_op := o; uo_id := id; uo_opts := args; uo_pos := 0 |}.

Lemma reporting_tool :
  (∀ val, constant (memo val)) →
  (∀ g, op = Some g → fresh fresh_call = (appendOp g;;; panic ControlHijack) ∧
     g_id g = once id ∧ reported g) →
  Tool id (tool_shape o id args memo (λ _ _, fresh) Given) op (λ val, peek (memo val)).
Proof.
  intros Hmemo Hfresh.
  assert (∀ g, reported g → executed g = false ∧ g_op g ≠ OpcodeStepPlanned) as Hrep.
  { intros g. unfold reported, executed. set_unfold. intros Hg. destruct (g_op g); naive_solver. }
  split.
  - intros g Hg. destruct (Hfresh g Hg) as (_ & Hid & Hr). split; [done|]. by apply Hrep.
  - intros req c w Hc Hw. unfold tool_shape, bind, preflight, use. unfold cancelled in Hw.
    by rewrite Hc, Hw.
  - intros req c idx ops log j a Hc Hidx Hj Ha. unfold tool_shape, bind, preflight, use.
    rewrite Hc. simpl. unfold Step. change (MustHash _) with (step_hash idx id).
    rewrite step_hash_once, Hj by done. by apply Hmemo.
  - intros req c idx ops log g Hc Hidx Hj Hg. unfold tool_shape, bind, preflight, use.
    rewrite Hc. simpl. unfold Step. change (MustHash _) with (step_hash idx id).
    rewrite step_hash_once, Hj by done. unfold next_index. rewrite Hidx.
    change {| uo_op := o; uo_id := id; uo_opts := args; uo_pos := 0 |} with fresh_call.
    destruct (Hfresh g Hg) as (Hf & _ & Hr). rewrite Hf.
    eexists. split; [done|]. unfold emission. rewrite (proj1 (Hrep g Hr)). simpl.
    unfold used, next_index. by rewrite Hidx.
Qed.
End reporting_tool.

Section tools.
Context {V : Type}.
Implicit Types t : gotype V.

(** *** The operations of the tools, when each is called once *)

Definition leaf_op (o : Opcode) (id name : string) (opts : json) (data : option json) : GeneratorOpcode :=
  {| g_id := once id; g_op := o; g_name := name; g_opts := opts; g_data := data; g_error := None |}.

Definition sleep_op (id : string) (d : Z) : GeneratorOpcode :=
  leaf_op OpcodeSleep id id (JObj [("duration", JStr (str2duration_string d))]) None.

Definition wait_args (o : WaitForEventOpts) : json :=
  JObj ([("event", JStr (wo_event o))] ++
        match wo_if o with Some e => [("if", JStr e)] | None => [] end ++
        [("timeout", JStr (str2duration_string (wo_timeout o)))]).

Definition wait_op (id : string) (o : WaitForEventOpts) : GeneratorOpcode :=
  leaf_op OpcodeWaitForEvent id (if str_empty (wo_name o) then id else wo_name o) (wait_args o) None.

Definition wait_memo t (o : WaitForEventOpts) (val : json) : M (V * option goerr) :=
  match val with
  | JNull => ret (gt_zero t, Some (ESentinel ErrEventNotReceived))
  | val =>
      match gt_unmarshal t val with
      | (_, Some e) =>
          fail_hijack (errorf (in_quotes "error unmarshalling wait for event value in"
                                 (wo_event o)) e "")
      | (v, None) => ret (v, None)
      end
  end.

Definition invoke_args (o : InvokeOpts) : json :=
  JObj ([("function_id", JStr (io_functionId o));
         ("payload", JObj [("data", io_data o); ("user", io_user o)])] ++
        if 0 <? io_timeout o then [("timeout", JStr (str2duration_string (io_timeout o)))] else []).

Definition invoke_op (id : string) (o : InvokeOpts) : GeneratorOpcode :=
  leaf_op OpcodeInvokeFunction id id (invoke_args o) None.

Definition infer_op (tin : gotype V) (id : string) (o : InferRequestOpts) (body : V) :
  option GeneratorOpcode :=
  d ← gt_marshal tin body;
  Some (leaf_op OpcodeAIGateway id id (inferOpcodeOpts_json o d) (Some d)).

Definition run_op t id (body : prog V) : option GeneratorOpcode :=
  br_op {| br_type := t; br_id := id; br_body := body |}.

Ltac reported_op := split; [done|]; split; [done|]; unfold reported; set_solver.

#[export] Instance Sleep_tool id d :
  Tool id (λ req c, Sleep req c id d) (Some (sleep_op id d)) (λ _, Some (Ok tt)).
Proof.
  apply (reporting_tool OpcodeSleep id JNull (λ _, ret tt)
    (λ u, appendOp {| g_id := MustHash u; g_op := OpcodeSleep; g_name := id;
       g_opts := JObj [("duration", JStr (str2duration_string d))];
       g_data := None; g_error := None |};;; panic ControlHijack)); [eauto with durable|].
  intros g [= <-]. reported_op.
Qed.

#[export] Instance WaitForEvent_tool t id o :
  Tool id (λ req c, WaitForEvent req c t id o) (Some (wait_op id o)) (λ j, peek (wait_memo t o j)).
Proof.
  apply (reporting_tool OpcodeWaitForEvent id (wait_args o) (wait_memo t o)
    (λ u, appendOp {| g_id := MustHash u; g_op := uo_op u;
       g_name := if str_empty (wo_name o) then id else wo_name o;
       g_opts := uo_opts u; g_data := None; g_error := None |};;; panic ControlHijack)).
  - intros val. unfold wait_memo. repeat case_match; eauto with durable.
  - intros g [= <-]. reported_op.
Qed.

#[export] Instance Invoke_tool t id o :
  Tool id (λ req c, Invoke req c t id o) (Some (invoke_op id o))
    (λ j, peek (invoke_memo t (io_functionId o) j)).
Proof.
  apply (reporting_tool OpcodeInvokeFunction id (invoke_args o) (invoke_memo t (io_functionId o))
    (λ u, appendOp {| g_id := MustHash u; g_op := uo_op u; g_name := id;
       g_opts := uo_opts u; g_data := None; g_error := None |};;; panic ControlHijack)).
  - intros val. apply constant_invoke_memo.
  - intros g [= <-]. reported_op.
Qed.

#[export] Instance Infer_tool tin t id o b :
  Tool id (λ req c, Infer req c tin t id o b) (infer_op tin id o b) (λ j, peek (infer_memo t id j)).
Proof.
  apply (reporting_tool OpcodeAIGateway id JNull (infer_memo t id)
    (λ u, match gt_marshal tin b with
          | None => fail_hijack (errorf (in_quotes "error unmarshalling state for step" id) errMarshal "")
          | Some d => appendOp {| g_id := MustHash u; g_op := OpcodeAIGateway; g_name := id;
              g_opts := inferOpcodeOpts_json o d; g_data := Some d;
              g_error := None |};;; panic ControlHijack
          end)).
  - intros val. apply constant_infer_memo.
  - unfold infer_op. intros g Hg. destruct (gt_marshal tin b); simplify_eq/=. reported_op.
Qed.

(** A step function that only acts and returns does so in every world. *)
Lemma plain_run req (body : prog V) c w r :
  plain_outcome body = Return r → exec req body c w =
    ({| w_mgr := w_mgr w; w_log := w_log w ++ plain_log body |}, Return r).
Proof.
  revert w. induction body as [v e|s|s k IH| | | | | |]; intros w Hr; simpl in *; simplify_eq.
  - rewrite app_nil_r. by destruct w.
  - unfold bind at 1. simpl. rewrite IH by done. simpl. by rewrite <- app_assoc.
Qed.

Lemma run_op_runs t id body o :
  run_op t id body = Some o → ∃ r, plain_outcome body = Return r ∧ executed o = true ∧
    g_id o = once id ∧ g_name o = id ∧
    ∀ w, let w' := (run_finish t (once id) id r w).1 in
      run_finish t (once id) id r w = (w', Panic ControlHijack) ∧
      m_ops (w_mgr w') = m_ops (w_mgr w) ++ [o] ∧
      (m_err (w_mgr w') = m_err (w_mgr w) ∨ g_op o = OpcodeStepError).
Proof.
  unfold run_op, br_op, br_hash. simpl. fold (once id). intros Ho.
  destruct (plain_outcome body) as [[v [e|]]|]; [..|done]; eexists; (split; [done|]);
    unfold run_finish.
  - destruct (IsStepError e); [done|]. destruct (err_msg e); simplify_eq/=.
    repeat split. by right.
  - destruct (gt_marshal t v); simplify_eq/=. repeat split. by left.
Qed.

#[export] Instance Run_tool t id body :
  Tool id (λ req c, Run req c t id (exec req body)) (run_op t id body) (λ j, peek (run_memo t id j)).
Proof.
  split.
  - intros o Ho. destruct (run_op_runs _ _ _ _ Ho) as (r & _ & Hex & Hid & _). split; [done|].
    unfold executed in Hex. by destruct (g_op o).
  - intros req c w. apply Run_cancelled.
  - intros req c idx ops log j a Hc Hidx Hj Ha.
    rewrite Run_counted by done. simpl. rewrite step_hash_once, Hj by done.
    by apply constant_run_memo.
  - intros req c idx ops log o Hc Hidx Hj Ho.
    destruct (run_op_runs _ _ _ _ Ho) as (r & Hbody & Hex & Hid & Hname & Hfin).
    rewrite Run_counted by done. simpl. rewrite step_hash_once, Hj by done.
    unfold emission, treat. rewrite Hex, Hid, Hname.
    assert (∃ w, defer_cancel (r <- exec req body c;; run_finish t (once id) id r)
        (bump id (reporting idx ops log)) = (w, Panic ControlHijack) ∧ stopped w (ops ++ [o])) as Hrun.
    { unfold defer_cancel, bind. erewrite plain_run by done.
      specialize (Hfin {| w_mgr := w_mgr (bump id (reporting idx ops log));
        w_log := w_log (bump id (reporting idx ops log)) ++ plain_log body |}) as (Hf & Hops & Herr).
      rewrite Hf. eexists. split; [done|]. split; [done|]. split; [done|]. simpl.
      destruct Herr as [Herr|Herr]; [by left|right]. exists o. by rewrite last_snoc. }
    destruct (cx_target c) as [h|].
    + destruct (decide (h = once id)) as [->|Hne].
      * by rewrite bool_decide_eq_true_2.
      * rewrite bool_decide_eq_false_2 by done. eexists. split; [done|]. simpl. by rewrite app_nil_r.
    + destruct (_ || _); [|done]. eexists. by split.
Qed.
End tools.

(** ** The ideal execution *)

(** The calls of tools of an execution: their names and the operations they report. *)
Notation calls := (list (string * GeneratorOpcode)).

(** How a function ends: it returns, it panics, or a tool fails the call with an error since
    it cannot read its answer. *)
Inductive ending (V : Type) :=
  | Returns (r : V * option goerr)
  | Panics (text : string)
  | Fails (e : goerr).
Arguments Returns {V} r.
Arguments Panics {V} text.
Arguments Fails {V} e.

Section ideal.
Context {V : Type} (answer : GeneratorOpcode → json).

Notation returned := (V * option goerr)%type.
Notation result := (ending V).

(** The world and the outcome at the end. *)
Definition end_world (r : result) (w : world) : world :=
  match r with Fails e => with_err e w | _ => w end.

Definition end_outcome (r : result) : outcome returned :=
  match r with
  | Returns r => Return r
  | Panics text => Panic (UserPanic text)
  | Fails _ => Panic ControlHijack
  end.

(** An execution that returns. *)
Definition returning (x : option (calls * result)) : option (calls * returned) :=
  match x with Some (l, Returns r) => Some (l, r) | _ => None end.

(** A tool is called, the executor answers, the function goes on or fails. *)
Definition ask {A} (id : string) (op : option GeneratorOpcode) (memo : json → option (res goerr A))
  (k : A → option (calls * result)) : option (calls * result) :=
  match op with
  | None => None
  | Some o =>
      match memo (answer o) with
      | None => None
      | Some (Err e) => Some ([(id, o)], Fails e)
      | Some (Ok a) => match k a with Some (l, r) => Some ((id, o) :: l, r) | None => None end
      end
  end.

(** Steps that fail must not share a group with tools that are not steps: the operations
    of the others come with the failed one, and its error then counts as the function's. *)
Definition group_fine (l : calls) : bool :=
  forallb (λ call, executed call.2) l ||
  forallb (λ call, negb (bool_decide (g_op call.2 = OpcodeStepError))) l.

(** The execution in which every tool is called once, if every step can be run and reported,
    and the functions of groups return. *)
Fixpoint ideal (p : prog V) : option (calls * result) :=
  match p with
  | PRet v e => Some ([], Returns (v, e))
  | PPanic text => Some ([], Panics text)
  | PLog _ k => ideal k
  | PRun Given t id body k =>
      ask id (run_op t id body) (λ j, peek (run_memo t id j)) (λ r, ideal (k r.1 r.2))
  | PSleep Given id d k => ask id (Some (sleep_op id d)) (λ _, Some (Ok tt)) (λ _, ideal k)
  | PWait Given t id o k =>
      ask id (Some (wait_op id o)) (λ j, peek (wait_memo t o j)) (λ r, ideal (k r.1 r.2))
  | PInvoke Given t id o k =>
      ask id (Some (invoke_op id o)) (λ j, peek (invoke_memo t (io_functionId o) j))
        (λ r, ideal (k r.1 r.2))
  | PInfer Given tin t id o b k =>
      ask id (infer_op tin id o b) (λ j, peek (infer_memo t id j)) (λ r, ideal (k r.1 r.2))
  | PParallel Given fns k =>
      match mapM (λ f, returning (ideal f)) fns with
      | None => None
      | Some xs =>
          let l := concat xs.*1 in
          if group_fine l then
            match ideal (k (as_result <$> xs.*2)) with
            | Some (l', r) => Some (l ++ l', r)
            | None => None
            end
          else None
      end
  | PRun Background _ _ _ _ | PSleep Background _ _ _ | PWait Background _ _ _ _
  | PInvoke Background _ _ _ _ | PInfer Background _ _ _ _ _ _ | PParallel Background _ _ => None
  end.

Lemma group_executions fns xs :
  mapM (λ f, returning (ideal f)) fns = Some xs →
  Forall2 (λ p x, ideal p = Some (x.1, Returns x.2)) fns xs.
Proof.
  intros Hxs%mapM_Some_1. eapply Forall2_impl; [exact Hxs|]. intros p x. unfold returning.
  destruct (ideal p) as [[l [r| |]]|]; [|done..]. by intros [= <-].
Qed.

(** ** The calls an execution waits for *)

(** A call without an answer, and whether it is made in a group. *)
Notation waiting := (list (bool * GeneratorOpcode)).

Section frontier.
Context (steps : gmap string json).

Definition wait_for {A} (par : bool) (op : option GeneratorOpcode) (memo : json → option (res goerr A))
  (k : A → waiting) : waiting :=
  match op with
  | None => []
  | Some o =>
      match steps !! g_id o with
      | None => [(par, o)]
      | Some _ => match memo (answer o) with Some (Ok a) => k a | _ => [] end
      end
  end.

(** The calls the function gets to with answers for [steps]. *)
Fixpoint frontier (par : bool) (p : prog V) : waiting :=
  match p with
  | PRet _ _ | PPanic _ => []
  | PLog _ k => frontier par k
  | PRun _ t id body k =>
      wait_for par (run_op t id body) (λ j, peek (run_memo t id j)) (λ r, frontier par (k r.1 r.2))
  | PSleep _ id d k => wait_for par (Some (sleep_op id d)) (λ _, Some (Ok tt)) (λ _, frontier par k)
  | PWait _ t id o k =>
      wait_for par (Some (wait_op id o)) (λ j, peek (wait_memo t o j)) (λ r, frontier par (k r.1 r.2))
  | PInvoke _ t id o k =>
      wait_for par (Some (invoke_op id o)) (λ j, peek (invoke_memo t (io_functionId o) j))
        (λ r, frontier par (k r.1 r.2))
  | PInfer _ tin t id o b k =>
      wait_for par (infer_op tin id o b) (λ j, peek (infer_memo t id j))
        (λ r, frontier par (k r.1 r.2))
  | PParallel _ fns k =>
      match concat (map (frontier true) fns) with
      | [] =>
          match mapM (λ f, returning (ideal f)) fns with
          | Some xs => frontier par (k (as_result <$> xs.*2))
          | None => []
          end
      | f => f
      end
  end.
End frontier.

(** What a call of the function reports when it waits for [f]: up to the step it runs. *)
Fixpoint emit (req : Request) (target : option string) (f : waiting) : list GeneratorOpcode * bool :=
  match f with
  | [] => ([], false)
  | (par, op) :: f =>
      let e := emission req target par op in
      if e.2 then e else let e' := emit req target f in (e.1 ++ e'.1, e'.2)
  end.

Lemma emit_app req target f f' :
  emit req target (f ++ f') =
    let e := emit req target f in
    if e.2 then e else let e' := emit req target f' in (e.1 ++ e'.1, e'.2).
Proof.
  induction f as [|[par op] f IH]; simpl; [by destruct (emit _ _ _)|].
  destruct (emission _ _ _ _) as [l []]; simpl; [done|]. rewrite IH.
  destruct (emit req target f) as [l' []]; simpl; [done|]. by rewrite app_assoc.
Qed.

(** [steps] has right answers for the calls [l], if any. *)
Definition consistent (steps : gmap string json) (l : calls) : Prop :=
  Forall (λ call, ∀ j, steps !! g_id call.2 = Some j → j = answer call.2) l.

(** The calls of [l] are answered. *)
Definition complete (steps : gmap string json) (l : calls) : Prop :=
  Forall (λ call, is_Some (steps !! g_id call.2)) l.

(** None of the calls of [l] has been counted. *)
Definition unused (idx : gmap string Z) (l : calls) : Prop := Forall (λ call, idx !! call.1 = None) l.

Definition others_kept (idx idx' : gmap string Z) (l : calls) : Prop :=
  ∀ id, id ∉ l.*1 → idx' !! id = idx !! id.

Lemma others_kept_unused idx idx' l l' :
  others_kept idx idx' l → unused idx l' → (∀ id, id ∈ l.*1 → id ∉ l'.*1) → unused idx' l'.
Proof.
  unfold unused. rewrite !Forall_forall. intros Hk Hu Hd call Hc. rewrite Hk; [by apply Hu|].
  intros Hin. apply (Hd _ Hin). by apply (list_elem_of_fmap_2 fst).
Qed.

(** ** Induction over executions *)

(** [p] calls a tool and goes on with [K]. *)
Definition calls_tool {A} (p : prog V) (id : string) (op : option GeneratorOpcode)
  (memo : json → option (res goerr A)) (K : A → prog V) : Prop :=
  ∃ call, Tool id call op memo ∧
    (∀ req c w, exec req p c w = bind (call req c) (λ a, exec req (K a) c) w) ∧
    ∀ steps par, frontier steps par p = wait_for steps par op memo (λ a, frontier steps par (K a)).

Section ideal_ind.
Context (P : prog V → calls → result → Prop).
Hypothesis HRet : ∀ v e, P (PRet v e) [] (Returns (v, e)).
Hypothesis HPanic : ∀ s, P (PPanic s) [] (Panics s).
Hypothesis HLog : ∀ s k l r, P k l r → P (PLog s k) l r.
Hypothesis HTool : ∀ A p id o (memo : json → option (res goerr A)) a K l r,
  calls_tool p id (Some o) memo K → memo (answer o) = Some (Ok a) → P (K a) l r →
  P p ((id, o) :: l) r.
Hypothesis HFails : ∀ A p id o (memo : json → option (res goerr A)) e K,
  calls_tool p id (Some o) memo K → memo (answer o) = Some (Err e) → P p [(id, o)] (Fails e).
Hypothesis HParallel : ∀ fns xs k l r,
  mapM (λ f, returning (ideal f)) fns = Some xs → Forall2 (λ p x, P p x.1 (Returns x.2)) fns xs → group_fine (concat xs.*1) = true →
  P (k (as_result <$> xs.*2)) l r → P (PParallel Given fns k) (concat xs.*1 ++ l) r.

Lemma ask_inv {A} id op (memo : json → option (res goerr A)) K l r :
  ask id op memo K = Some (l, r) →
  ∃ o, op = Some o ∧
    ((∃ a l', memo (answer o) = Some (Ok a) ∧ K a = Some (l', r) ∧ l = (id, o) :: l') ∨
     (∃ e, memo (answer o) = Some (Err e) ∧ l = [(id, o)] ∧ r = Fails e)).
Proof.
  unfold ask. intros Hask. destruct op as [o|]; [|done]. exists o. split; [done|].
  destruct (memo (answer o)) as [[a|e]|] eqn:Ha; [left|right|done]; [|by simplify_eq; exists e].
  destruct (K a) as [[l' r']|] eqn:Hk; [|done]. simplify_eq. by exists a, l'.
Qed.

Lemma asked {A} p id call op (memo : json → option (res goerr A)) (K : A → prog V) l r :
  Tool id call op memo →
  (∀ req c w, exec req p c w = bind (call req c) (λ a, exec req (K a) c) w) →
  (∀ steps par, frontier steps par p = wait_for steps par op memo (λ a, frontier steps par (K a))) →
  (∀ a l r, ideal (K a) = Some (l, r) → P (K a) l r) →
  ask id op memo (λ a, ideal (K a)) = Some (l, r) → P p l r.
Proof using HTool HFails.
  intros Htool Hexec Hf IH (o & Ho & Hask)%ask_inv.
  assert (calls_tool p id (Some o) memo K) as Hcalls by (rewrite <- Ho; by exists call).
  destruct Hask as [(a & l' & Ha & Hk & ->)|(e & He & -> & ->)].
  - apply (HTool A p id o memo a K); auto.
  - by apply (HFails A p id o memo e K).
Qed.

Ltac tool_case call memo K IH :=
  apply (asked _ _ call _ memo K);
  [apply _|intros; cbn [exec use]; unfold bind; repeat case_match; by simplify_eq/=|done
  |intros ???; apply IH].

Lemma ideal_ind p l r : ideal p = Some (l, r) → P p l r.
Proof using HRet HPanic HLog HTool HFails HParallel.
  revert l r. induction p as [v e|s|s k IHk|[] t id body k _ IHk|[] id d k IHk
    |[] t id o k IHk|[] t id o k IHk|[] ti t id o b k IHk|[] fns k IHf IHk] using prog_ind_nested;
    intros l r; cbn [ideal]; try done.
  - by intros [= <- <-].
  - by intros [= <- <-].
  - intros Hi. by apply HLog, IHk.
  - tool_case (λ req c, Run req c t id (exec req body)) (λ j, peek (run_memo t id j)) (λ r, k r.1 r.2) IHk.
  - tool_case (λ req c, Sleep req c id d) (λ _ : json, Some (Ok (E:=goerr) tt)) (λ _ : (), k) IHk.
  - tool_case (λ req c, WaitForEvent req c t id o) (λ j, peek (wait_memo t o j)) (λ r, k r.1 r.2) IHk.
  - tool_case (λ req c, Invoke req c t id o) (λ j, peek (invoke_memo t (io_functionId o) j)) (λ r, k r.1 r.2) IHk.
  - tool_case (λ req c, Infer req c ti t id o b) (λ j, peek (infer_memo t id j)) (λ r, k r.1 r.2) IHk.
  - intros Hi. destruct (mapM (λ f, returning (ideal f)) fns) as [xs|] eqn:Hxs; [|done].
    destruct (group_fine _) eqn:Hfine; [|done].
    destruct (ideal (k _)) as [[l' r']|] eqn:Hk; simplify_eq. apply HParallel; auto.
    clear Hfine Hk. apply group_executions in Hxs. induction Hxs as [|f x fns xs Hf Hxs IH];
      [constructor|]. apply Forall_cons in IHf as [IHf IHfns]. constructor; [by apply IHf|by apply IH].
Qed.
End ideal_ind.

Ltac execution_ind Hi :=
  match type of Hi with ideal ?p = Some (?l, ?r) =>
    pattern p, l, r; apply ideal_ind; [..|exact Hi]; clear p l r Hi
  end.

(** ** What the frontier is *)

Lemma frontier_fails {A} p id o (memo : json → option (res goerr A)) e K steps par :
  calls_tool p id (Some o) memo K → memo (answer o) = Some (Err e) →
  frontier steps par p = if steps !! g_id o then [] else [(par, o)].
Proof. intros (call & _ & _ & Hf) He. rewrite Hf. simpl. rewrite He. by destruct (steps !! g_id o). Qed.

Lemma frontier_group steps par fns xs k :
  mapM (λ f, returning (ideal f)) fns = Some xs →
  frontier steps par (PParallel Given fns k) =
    let f := concat (map (frontier steps true) fns) in
    if decide (f = []) then frontier steps par (k (as_result <$> xs.*2)) else f.
Proof. intros Hxs. simpl. rewrite Hxs. by destruct (concat _). Qed.

Lemma elem_of_group steps par (fns : list (prog V)) (xs : list (calls * returned)) x :
  Forall2 (λ p y, x ∈ frontier steps par p → ∃ id, (id, x.2) ∈ y.1) fns xs →
  x ∈ concat (map (frontier steps par) fns) → ∃ id, (id, x.2) ∈ concat xs.*1.
Proof.
  induction 1 as [|p y fns xs Hp _ IH]; simpl; [by intros ?%elem_of_nil|].
  intros [Hx|Hx]%elem_of_app.
  - destruct (Hp Hx) as (id & Hid). exists id. apply elem_of_app. by left.
  - destruct (IH Hx) as (id & Hid). exists id. apply elem_of_app. by right.
Qed.

Lemma frontier_elem steps par p x :
  x ∈ frontier steps par p → steps !! g_id x.2 = None ∧ (par = true → x.1 = true).
Proof.
  assert (∀ A par op memo (K : A → waiting),
    (∀ a, x ∈ K a → steps !! g_id x.2 = None ∧ (par = true → x.1 = true)) →
    x ∈ wait_for steps par op memo K →
    steps !! g_id x.2 = None ∧ (par = true → x.1 = true)) as Hwait.
  { intros A par' op memo K HK. unfold wait_for. destruct op as [o|]; [|by intros ?%elem_of_nil].
    destruct (steps !! g_id o) eqn:Ho; [|by intros ->%list_elem_of_singleton].
    destruct (memo (answer o)) as [[a|e]|]; [apply HK|by intros ?%elem_of_nil..]. }
  revert par. induction p as [v e|s|s k IHk|r t id body k _ IHk|r id d k IHk
    |r t id o k IHk|r t id o k IHk|r ti t id o b k IHk|r fns k IHf IHk] using prog_ind_nested;
    intros par; cbn [frontier]; try (apply Hwait; intros; by eapply IHk);
    try (by intros ?%elem_of_nil); [by apply IHk|].
  assert (x ∈ concat (map (frontier steps true) fns) →
    steps !! g_id x.2 = None ∧ (true = true → x.1 = true)) as Hgroup.
  { induction IHf as [|f fns IHf _ IH]; simpl; [by intros ?%elem_of_nil|].
    intros [Hx|Hx]%elem_of_app; [by apply IHf|by apply IH]. }
  destruct (concat _) eqn:Hc.
  - destruct (mapM (λ f, returning (ideal f)) fns); [apply IHk|by intros ?%elem_of_nil].
  - intros Hx. destruct (Hgroup Hx). auto.
Qed.

Lemma frontier_waits steps par p x : x ∈ frontier steps par p → steps !! g_id x.2 = None.
Proof. intros Hx. by destruct (frontier_elem steps par p x Hx). Qed.

Lemma frontier_par steps p x : x ∈ frontier steps true p → x.1 = true.
Proof. intros Hx. by destruct (frontier_elem steps true p x Hx); auto. Qed.

Lemma frontier_calls p l r :
  ideal p = Some (l, r) → ∀ steps par x, x ∈ frontier steps par p → ∃ id, (id, x.2) ∈ l.
Proof.
  intros Hi. execution_ind Hi; [by intros v e steps par x ?%elem_of_nil|by intros s steps par x ?%elem_of_nil|done|..].
  - intros A p id o memo a K l r (call & _ & _ & Hf) Ha IH steps par x. rewrite Hf. simpl. rewrite Ha.
    destruct (steps !! g_id o).
    + intros Hx. destruct (IH steps par x Hx) as (id' & Hid). exists id'. by right.
    + intros ->%list_elem_of_singleton. exists id. left.
  - intros A p id o memo e K Hcalls He steps par x. rewrite (frontier_fails p id o memo e K) by done.
    destruct (steps !! g_id o); [by intros ?%elem_of_nil|].
    intros ->%list_elem_of_singleton. exists id. left.
  - intros fns xs k l r Hxs Hfns _ IHk steps par x. rewrite frontier_group with (xs := xs) by done.
    simpl. destruct (decide _).
    + intros Hx. destruct (IHk _ _ _ Hx) as (id & Hid). exists id. apply elem_of_app. by right.
    + intros Hx. destruct (elem_of_group steps true fns xs x) as (id & Hid); [|done|].
      * eapply Forall2_impl; [exact Hfns|]. intros p y Hp. apply Hp.
      * exists id. apply elem_of_app. by left.
Qed.

(** Nothing is waited for exactly when every call has an answer. *)
Lemma frontier_complete p l r :
  ideal p = Some (l, r) → ∀ steps par, frontier steps par p = [] → complete steps l.
Proof.
  intros Hi. execution_ind Hi; [by constructor|by constructor|done|..].
  - intros A p id o memo a K l r (call & _ & _ & Hf) Ha IH steps par. rewrite Hf. simpl. rewrite Ha.
    destruct (steps !! g_id o) eqn:Ho; [|done]. intros Hk. constructor; [by eexists|by eapply IH].
  - intros A p id o memo e K Hcalls He steps par. rewrite (frontier_fails p id o memo e K) by done.
    destruct (steps !! g_id o) eqn:Ho; [|done]. intros _. constructor; [by eexists|constructor].
  - intros fns xs k l r Hxs Hfns _ IHk steps par. rewrite frontier_group with (xs := xs) by done.
    simpl. destruct (decide _) as [Hc|]; [|done]. intros Hk. apply Forall_app. split; [|by eapply IHk].
    clear Hxs IHk Hk. induction Hfns as [|p y fns xs Hp _ IH]; [constructor|]. simpl in *.
    apply app_nil in Hc as [Hc Hc']. apply Forall_app. split; [by eapply Hp|by apply IH].
Qed.

Lemma complete_frontier p l r steps par :
  ideal p = Some (l, r) → complete steps l → frontier steps par p = [].
Proof.
  intros Hi Hc. destruct (frontier steps par p) as [|x f] eqn:Hf; [done|].
  assert (x ∈ frontier steps par p) as Hx by (rewrite Hf; left).
  destruct (frontier_calls p l r Hi steps par x Hx) as (id & Hid).
  apply frontier_waits in Hx. unfold complete in Hc. rewrite Forall_forall in Hc.
  destruct (Hc _ Hid) as [j Hj]. simpl in Hj. congruence.
Qed.

Lemma complete_mono steps steps' l : steps ⊆ steps' → complete steps l → complete steps' l.
Proof.
  intros Hsub Hl. eapply Forall_impl; [exact Hl|]. intros call [j Hj]. exists j. by eapply lookup_weaken.
Qed.

Lemma group_complete steps fns xs :
  mapM (λ f, returning (ideal f)) fns = Some xs →
  concat (map (frontier steps true) fns) = [] ↔ complete steps (concat xs.*1).
Proof.
  intros Hxs%group_executions. induction Hxs as [|p [l r] fns xs Hp _ IH]; simpl; [by split; constructor|].
  unfold complete in *. rewrite Forall_app, <- IH, app_nil. split.
  - intros [Hf ?]. split; [by eapply frontier_complete|done].
  - intros [Hl ?]. split; [by eapply complete_frontier|done].
Qed.

(** What is waited for stays so until it is answered. *)
Lemma frontier_mono p l r :
  ideal p = Some (l, r) → ∀ steps steps' par x,
  x ∈ frontier steps par p → steps ⊆ steps' → steps' !! g_id x.2 = None → x ∈ frontier steps' par p.
Proof.
  intros Hi. execution_ind Hi; [by intros v e steps steps' par x ?%elem_of_nil|by intros s steps steps' par x ?%elem_of_nil|done|..].
  - intros A p id o memo a K l r (call & _ & _ & Hf) Ha IH steps steps' par x. rewrite !Hf. simpl.
    rewrite Ha. intros Hx Hsub Hnew. destruct (steps !! g_id o) as [j|] eqn:Ho.
    + rewrite (lookup_weaken _ _ _ _ Ho Hsub). by eapply IH.
    + apply list_elem_of_singleton in Hx as ->. simpl in Hnew. rewrite Hnew. left.
  - intros A p id o memo e K Hcalls He steps steps' par x. rewrite !(frontier_fails p id o memo e K) by done.
    destruct (steps !! g_id o) eqn:Ho; [by intros ?%elem_of_nil|].
    intros ->%list_elem_of_singleton _ Hnew. simpl in Hnew. rewrite Hnew. left.
  - intros fns xs k l r Hxs Hfns _ IHk steps steps' par x.
    rewrite !frontier_group with (xs := xs) by done. simpl. intros Hx Hsub Hnew.
    assert (∀ x, x ∈ concat (map (frontier steps true) fns) → steps' !! g_id x.2 = None →
              x ∈ concat (map (frontier steps' true) fns)) as Hgroup.
    { clear Hxs IHk Hx Hnew x. induction Hfns as [|p y fns xs Hp _ IH]; simpl; [done|].
      intros x Hx Hnew. rewrite elem_of_app in Hx |- *.
      destruct Hx; [left; by eapply Hp|right; by apply IH]. }
    destruct (decide (concat (map (frontier steps true) fns) = [])) as [Hc|Hc].
    + rewrite decide_True; [by eapply IHk|]. apply (group_complete steps' fns xs Hxs).
      eapply complete_mono; [done|]. by apply (group_complete steps fns xs Hxs).
    + specialize (Hgroup x Hx Hnew). rewrite decide_False; [done|].
      intros Hc'. rewrite Hc' in Hgroup. by apply elem_of_nil in Hgroup.
Qed.

(** ** A call after a step has run *)

Definition same_mgr (w w' : world) : Prop := w_mgr w' = w_mgr w.

#[local] Instance same_mgr_trans : Transitive same_mgr.
Proof. unfold same_mgr. intros w1 w2 w3. congruence. Qed.

Lemma loop_cancelled req c (fns : list (prog V)) (xs : list (calls * returned)) :
  Forall2 (λ p x, ∀ w, cancelled w = true → ∃ w', same_mgr w w' ∧
    exec req p c w = (w', if decide (x.1 = []) then Return x.2 else Panic ControlHijack)) fns xs →
  ∀ rs pl w, cancelled w = true → ∃ w' rs', same_mgr w w' ∧
    parallel_loop c (map (exec req) fns) rs pl None w =
      (w', Return (rs', pl || negb (bool_decide (concat xs.*1 = [])), None)) ∧
    (concat xs.*1 = [] → rs' = rs ++ (as_result <$> xs.*2)).
Proof.
  induction 1 as [|p [l r] fns xs Hp _ IH]; intros rs pl w Hw.
  - exists w, rs. split; [done|]. simpl. by rewrite orb_false_r, app_nil_r.
  - destruct (Hp w Hw) as (w1 & Hm & Hrun). simpl in *. rewrite Hrun.
    assert (cancelled w1 = true) as Hw1 by (unfold cancelled; by rewrite Hm).
    destruct (decide (l = [])) as [->|Hl].
    + destruct r as [v e].
      destruct (IH (rs ++ [as_result (v, e)]) pl w1 Hw1) as (w2 & rs' & Hm2 & Hloop & Hrs).
      exists w2, rs'. split; [by transitivity w1|]. split; [done|].
      intros Hc. rewrite Hrs by done. by rewrite <- app_assoc.
    + destruct (IH rs true w1 Hw1) as (w2 & rs' & Hm2 & Hloop & _).
      exists w2, rs'. split; [by transitivity w1|]. split.
      * rewrite Hloop. simpl. rewrite bool_decide_eq_false_2; [by destruct pl|]. by intros [? _]%app_nil.
      * by intros [? _]%app_nil.
Qed.

Lemma exec_branches req c fns (k : list (Result V) → prog V) w w' rs (planned : bool) :
  parallel_loop (with_parallel c) (map (exec req) fns) [] false None w =
    (w', Return (rs, planned, None)) →
  exec req (PParallel Given fns k) c w =
    if planned then (w', Panic ControlHijack) else exec req (k rs) c w'.
Proof. intros Hl. cbn [exec use]. unfold Parallel, bind. rewrite Hl. by destruct planned. Qed.

Lemma exec_cancelled p l r :
  ideal p = Some (l, r) → ∀ req c w, cx_mgr c = true → cancelled w = true →
  ∃ w', same_mgr w w' ∧
    exec req p c w = (w', if decide (l = []) then end_outcome r else Panic ControlHijack).
Proof.
  intros Hi. execution_ind Hi.
  - intros v e req c w _ _. by exists w.
  - intros s req c w _ _. by exists w.
  - intros s k l r IH req c w Hc Hw.
    destruct (IH req c {| w_mgr := w_mgr w; w_log := w_log w ++ [s] |} Hc Hw) as (w' & Hm & Hr).
    by exists w'.
  - intros A p id o memo a K l r (call & Htool & Hexec & _) Ha _ req c w Hc Hw.
    exists w. rewrite Hexec. unfold bind. by rewrite (tool_cancelled req c w Hc Hw).
  - intros A p id o memo e K (call & Htool & Hexec & _) He req c w Hc Hw.
    exists w. rewrite Hexec. unfold bind. by rewrite (tool_cancelled req c w Hc Hw).
  - intros fns xs k l r Hxs Hfns _ IHk req c w Hc Hw.
    destruct (loop_cancelled req (with_parallel c) fns xs) with (rs := @nil (Result V)) (pl := false) (w := w)
      as (w1 & rs & Hm & Hloop & Hrs); [|done|].
    { eapply Forall2_impl; [exact Hfns|]. intros p y Hp w' Hw'. by apply Hp. }
    rewrite (exec_branches _ _ _ _ _ _ _ _ Hloop). simpl.
    destruct (decide (concat xs.*1 = [])) as [Hl|Hl].
    + rewrite Hl, bool_decide_eq_true_2 by done. simpl. rewrite Hrs by done.
      destruct (IHk req c w1 Hc) as (w2 & Hm2 & Hr); [by unfold cancelled; rewrite Hm|].
      exists w2. split; [by transitivity w1|done].
    + rewrite bool_decide_eq_false_2 by done. exists w1. split; [done|]. simpl.
      rewrite decide_False; [done|]. by intros [? _]%app_nil.
Qed.

(** ** One call of the function *)

Lemma stopped_mgr w w' ops : same_mgr w w' → stopped w ops → stopped w' ops.
Proof. unfold same_mgr, stopped, cancelled. by intros ->. Qed.

Lemma others_kept_trans idx1 idx2 idx3 l l' :
  others_kept idx1 idx2 l → others_kept idx2 idx3 l' → others_kept idx1 idx3 (l ++ l').
Proof.
  intros H1 H2 id Hid. rewrite fmap_app, not_elem_of_app in Hid. destruct Hid.
  by rewrite H2, H1.
Qed.

Lemma others_kept_used idx id (o : GeneratorOpcode) : others_kept idx (used idx id) [(id, o)].
Proof. intros id' Hid. unfold used. rewrite lookup_insert_ne; [done|]. intros ->. apply Hid. left. Qed.

Lemma unused_app idx (l l' : calls) : unused idx (l ++ l') ↔ unused idx l ∧ unused idx l'.
Proof. apply Forall_app. Qed.

Lemma consistent_app steps (l l' : calls) :
  consistent steps (l ++ l') ↔ consistent steps l ∧ consistent steps l'.
Proof. apply Forall_app. Qed.

(** The names of [l] are distinct, and the calls of [l'] keep unused through those of [l]. *)
Lemma names_app (l l' : calls) :
  NoDup (l ++ l').*1 → NoDup l.*1 ∧ NoDup l'.*1 ∧ ∀ idx idx',
    others_kept idx idx' l → unused idx l' → unused idx' l'.
Proof.
  rewrite fmap_app. intros (Hl & Hd & Hl')%NoDup_app. split_and!; [done..|].
  intros idx idx' Hk Hu. by eapply others_kept_unused.
Qed.

(** The end of a call that waits for [f], from the counts [idx] and the operations [ops]. *)
Definition waits (req : Request) (c : ctx) (idx : gmap string Z) (ops : list GeneratorOpcode)
  (l : calls) (f : waiting) (w : world) : Prop :=
  let e := emit req (cx_target c) f in
  if e.2 then stopped w (ops ++ e.1)
  else ∃ idx' log, w = reporting idx' (ops ++ e.1) log ∧ others_kept idx idx' l.

Definition good (req : Request) (l : calls) (idx : gmap string Z) : Prop :=
  consistent (r_steps req) l ∧ unused idx l ∧ NoDup l.*1.

(** What [p] does in a call. *)
Definition does (p : prog V) (l : calls) (r : result) : Prop :=
  ∀ req c idx ops log, cx_mgr c = true → good req l idx →
  let f := frontier (r_steps req) (cx_parallel c) p in
  ∃ w, exec req p c (reporting idx ops log) =
      (if decide (f = []) then (end_world r w, end_outcome r) else (w, Panic ControlHijack)) ∧
    waits req c idx ops l f w.

Lemma good_app req l l' idx :
  good req (l ++ l') idx → good req l idx ∧ ∀ idx', others_kept idx idx' l → good req l' idx'.
Proof.
  intros (Hc & Hu & Hn). apply consistent_app in Hc as [??]. apply unused_app in Hu as [??].
  apply names_app in Hn as (? & ? & Hk). split; [done|]. intros idx' Hidx. split_and!; eauto.
Qed.

Lemma waits_nothing req c idx ops l w :
  waits req c idx ops l [] w → ∃ idx' log, w = reporting idx' ops log ∧ others_kept idx idx' l.
Proof. unfold waits. simpl. by rewrite app_nil_r. Qed.

(** A tool without an answer. *)
Lemma tool_waits {A} p id o (memo : json → option (res goerr A)) K req c idx ops log l :
  calls_tool p id (Some o) memo K → cx_mgr c = true → idx !! id = None →
  r_steps req !! g_id o = None →
  ∃ w, exec req p c (reporting idx ops log) = (w, Panic ControlHijack) ∧
    waits req c idx ops ((id, o) :: l) [(cx_parallel c, o)] w.
Proof.
  intros (call & Htool & Hexec & _) Hc Hid Hs. destruct (tool_reports o eq_refl) as [Ho _].
  rewrite Hexec. unfold bind. rewrite Ho in Hs.
  destruct (tool_new req c idx ops log o Hc Hid Hs eq_refl) as (w & Hrun & Hw).
  exists w. rewrite Hrun. split; [done|]. unfold waits. simpl.
  destruct (emission _ _ _ _) as [l' []]; simpl in *; [done|]. rewrite app_nil_r.
  exists (used idx id), log. split; [done|]. intros id' Hid'. apply (others_kept_used idx id o).
  simpl in *. intros Hin. apply Hid'. apply list_elem_of_singleton in Hin as ->. left.
Qed.

Lemma does_tool {A} p id o (memo : json → option (res goerr A)) a K l r :
  calls_tool p id (Some o) memo K → memo (answer o) = Some (Ok a) → does (K a) l r →
  does p ((id, o) :: l) r.
Proof.
  intros Hcalls Ha HK req c idx ops log Hc Hgood. simpl.
  destruct Hcalls as (call & Htool & Hexec & Hf) eqn:Hcalls'. rewrite Hf. simpl. clear Hcalls'.
  destruct (good_app req [(id, o)] l idx Hgood) as [_ Hgood'].
  specialize (Hgood' _ (others_kept_used idx id o)).
  destruct Hgood as ([Hj _]%Forall_cons & [Hid _]%Forall_cons & _). simpl in Hj, Hid.
  destruct (r_steps req !! g_id o) as [j|] eqn:Hs; [|by eapply tool_waits].
  specialize (Hj j eq_refl) as ->. rewrite Ha.
  destruct (tool_reports o eq_refl) as [Ho _]. rewrite Ho in Hs. rewrite Hexec. unfold bind.
  rewrite (tool_known req c idx ops log (answer o) (Ok a)) by done.
  destruct (HK req c (used idx id) ops log Hc Hgood') as (w & Hrun & Hw).
  exists w. split; [done|]. revert Hw. unfold waits.
  destruct (emit _ _ _) as [l' []]; simpl; [done|]. intros (idx' & log' & -> & Hk).
  exists idx', log'. split; [done|].
  apply (others_kept_trans _ _ _ [(id, o)] l (others_kept_used idx id o) Hk).
Qed.

Lemma does_fail {A} p id o (memo : json → option (res goerr A)) e K :
  calls_tool p id (Some o) memo K → memo (answer o) = Some (Err e) → does p [(id, o)] (Fails e).
Proof.
  intros Hcalls He req c idx ops log Hc Hgood. simpl.
  rewrite (frontier_fails p id o memo e K _ _ Hcalls He).
  destruct Hgood as ([Hj _]%Forall_cons & [Hid _]%Forall_cons & _). simpl in Hj, Hid.
  destruct (r_steps req !! g_id o) as [j|] eqn:Hs; [|by eapply tool_waits].
  specialize (Hj j eq_refl) as ->. destruct Hcalls as (call & Htool & Hexec & _).
  destruct (tool_reports o eq_refl) as [Ho _]. rewrite Ho in Hs. rewrite Hexec. unfold bind.
  rewrite (tool_known req c idx ops log (answer o) (Err e)) by done.
  exists (reporting (used idx id) ops log). split; [done|]. unfold waits. simpl. rewrite app_nil_r.
  exists (used idx id), log. split; [done|apply others_kept_used].
Qed.

Lemma waits_app req c idx idx' ops l l' f f' e w :
  emit req (cx_target c) f = (e, false) → others_kept idx idx' l →
  waits req c idx' (ops ++ e) l' f' w → waits req c idx ops (l ++ l') (f ++ f') w.
Proof.
  unfold waits. intros He Hk. rewrite emit_app, He. simpl.
  destruct (emit req (cx_target c) f') as [e' []]; simpl; rewrite app_assoc; [done|].
  intros (idx'' & log & -> & Hk'). exists idx'', log. split; [done|]. by eapply others_kept_trans.
Qed.

Lemma waits_stopped req c idx ops l f f' e w :
  emit req (cx_target c) f = (e, true) → stopped w (ops ++ e) → waits req c idx ops l (f ++ f') w.
Proof. unfold waits. intros He. by rewrite emit_app, He. Qed.

(** The functions of a group, one after the other. *)
Lemma loop_does req c (fns : list (prog V)) (xs : list (calls * returned)) :
  cx_mgr c = true → cx_parallel c = true → Forall2 (λ p x, does p x.1 (Returns x.2)) fns xs →
  mapM (λ f, returning (ideal f)) fns = Some xs → ∀ rs pl idx ops log, good req (concat xs.*1) idx →
  let f := concat (map (frontier (r_steps req) true) fns) in
  ∃ w rs', parallel_loop c (map (exec req) fns) rs pl None (reporting idx ops log) =
      (w, Return (rs', pl || negb (bool_decide (f = [])), None)) ∧
    waits req c idx ops (concat xs.*1) f w ∧ (f = [] → rs' = rs ++ (as_result <$> xs.*2)).
Proof.
  intros Hc Hp Hfns Hxs%group_executions. revert Hfns.
  induction Hxs as [|p [l r] fns xs Hi Hxs IH]; intros Hfns rs pl idx ops log Hgood f.
  - exists (reporting idx ops log), rs. unfold f. simpl. rewrite orb_false_r, app_nil_r.
    split; [done|]. split; [|done]. exists idx, log. by rewrite app_nil_r.
  - apply Forall2_cons in Hfns as [Hdo Hfns]. simpl in *.
    destruct (good_app req _ _ _ Hgood) as [Hg Hg'].
    destruct (Hdo req c idx ops log Hc Hg) as (w & Hrun & Hw). rewrite Hp in Hrun, Hw. rewrite Hrun.
    unfold f. set (f1 := frontier (r_steps req) true p) in *.
    assert (∀ f2, f1 ≠ [] → pl || negb (bool_decide (f1 ++ f2 = [])) = true) as Hblocked.
    { intros f2 Hf1. rewrite bool_decide_eq_false_2; [by destruct pl|]. by intros [? _]%app_nil. }
    destruct (emit req (cx_target c) f1) as [e1 []] eqn:He1; unfold waits in Hw; rewrite He1 in Hw.
    + (* a step of the first function has run *)
      assert (f1 ≠ []) as Hf1 by (intros Hf1; by rewrite Hf1 in He1).
      rewrite decide_False by done.
      destruct (loop_cancelled req c fns xs) with (rs := rs) (pl := true) (w := w)
        as (w' & rs' & Hm & Hloop & _); [|by apply Hw|].
      { eapply Forall2_impl; [exact Hxs|]. intros p' [l' r'] Hi' w' Hw'. by apply (exec_cancelled p' l' (Returns r') Hi'). }
      exists w', rs'. rewrite Hloop. split; [by rewrite Hblocked|].
      split; [by eapply waits_stopped, stopped_mgr|by intros [? _]%app_nil].
    + destruct Hw as (idx' & log' & -> & Hk). simpl in *.
      destruct (decide (f1 = [])) as [Hf1|Hf1]; [destruct r as [v e]|].
      * destruct (IH Hfns (rs ++ [as_result (v, e)]) pl idx' (ops ++ e1) log' (Hg' _ Hk))
          as (w & rs' & Hloop & Hw & Hrs).
        exists w, rs'. split; [etransitivity; [exact Hloop|]; by rewrite Hf1|].
        split; [by eapply waits_app|]. intros [_ Hf2]%app_nil. rewrite Hrs by done.
        by rewrite <- app_assoc.
      * destruct (IH Hfns rs true idx' (ops ++ e1) log' (Hg' _ Hk)) as (w & rs' & Hloop & Hw & _).
        exists w, rs'. rewrite Hloop. split; [by rewrite Hblocked|].
        split; [by eapply waits_app|by intros [? _]%app_nil].
Qed.

(** A call does as much of the execution as its answers allow. *)
Lemma execution_does p l r : ideal p = Some (l, r) → does p l r.
Proof.
  intros Hi. execution_ind Hi.
  - intros v e req c idx ops log Hc _. exists (reporting idx ops log). split; [done|].
    exists idx, log. by rewrite app_nil_r.
  - intros s req c idx ops log Hc _. exists (reporting idx ops log). split; [done|].
    exists idx, log. by rewrite app_nil_r.
  - intros s k l r IH req c idx ops log Hc Hgood.
    by apply (IH req c idx ops (log ++ [s])).
  - intros A p id o memo a K l r. apply does_tool.
  - intros A p id o memo e K. apply does_fail.
  - intros fns xs k l r Hxs Hfns _ IHk req c idx ops log Hc Hgood f.
    destruct (good_app req _ _ _ Hgood) as [Hg Hg'].
    destruct (loop_does req (with_parallel c) fns xs Hc eq_refl Hfns Hxs [] false idx ops log Hg)
      as (w & rs & Hloop & Hw & Hrs).
    unfold f. rewrite frontier_group with (xs := xs) by done. cbv zeta.
    rewrite (exec_branches _ _ _ _ _ _ _ _ Hloop).
    destruct (decide (concat (map (frontier (r_steps req) true) fns) = [])) as [Hf|Hf].
    + rewrite bool_decide_eq_true_2 by done. simpl. rewrite Hrs by done. rewrite Hf in Hw.
      apply waits_nothing in Hw as (idx' & log' & -> & Hk).
      destruct (IHk req c idx' ops log' Hc (Hg' _ Hk)) as (w & Hrun & Hw).
      exists w. split; [done|]. apply (waits_app req c idx idx' ops _ l [] _ []); [done..|].
      by rewrite app_nil_r.
    + rewrite bool_decide_eq_false_2 by done. exists w. rewrite decide_False by done. split; [done|].
      revert Hw. unfold waits. simpl. destruct (emit _ _ _) as [e []]; simpl; [done|].
      intros (idx' & log' & -> & Hk). exists idx', log'. split; [done|].
      intros id Hid. apply Hk. intros Hin. apply Hid. rewrite fmap_app. apply elem_of_app. by left.
Qed.

(** ** What a call reports *)

(** An operation as it is reported before its step runs. *)
Definition announce (op : GeneratorOpcode) : GeneratorOpcode :=
  if executed op then planned_op (g_id op) (g_name op) else op.

(** The reports up to the step that runs, if one does. *)
Lemma emit_split req target f :
  let e := emit req target f in
  if e.2 then
    ∃ pre x, e.1 = pre ++ [x.2] ∧ x ∈ f ∧ executed x.2 = true ∧
      treat req target x.1 (g_id x.2) = Runs ∧ ∀ op, op ∈ pre → ∃ y, y ∈ f ∧ op = announce y.2
  else target = None → e.1 = announce <$> f.*2.
Proof.
  induction f as [|[par op] f IH]; simpl; [done|].
  assert (∀ a, a = [announce op] ∨ a = [] ∧ target ≠ None →
    let e := let e' := emit req target f in (a ++ e'.1, e'.2) in
    if e.2 then
      ∃ pre x, e.1 = pre ++ [x.2] ∧ x ∈ (par, op) :: f ∧ executed x.2 = true ∧
        treat req target x.1 (g_id x.2) = Runs ∧
        ∀ op', op' ∈ pre → ∃ y, y ∈ (par, op) :: f ∧ op' = announce y.2
    else target = None → e.1 = announce <$> ((par, op) :: f).*2) as Hcons.
  { intros a Ha. simpl. destruct (emit req target f) as [l []]; simpl in *.
    - destruct IH as (pre & x & -> & Hx & Hxe & Hxt & Hpre).
      exists (a ++ pre), x. rewrite app_assoc. split_and!; [done|by right|done..|].
      intros op' [Hop'|Hop']%elem_of_app.
      + destruct Ha as [->|[-> _]]; [|by apply elem_of_nil in Hop'].
        apply list_elem_of_singleton in Hop' as ->. exists (par, op). split; [left|done].
      + destruct (Hpre op' Hop') as (y & ? & ?). exists y. split; [by right|done].
    - intros Hn. destruct Ha as [->|[_ ?]]; [|done]. by rewrite IH. }
  unfold emission. unfold announce in Hcons at 1. destruct (executed op) eqn:Hex; [|apply Hcons; by left].
  destruct (treat req target par (g_id op)) eqn:Ht.
  - exists [], (par, op). split_and!; [done|left|done..|]. by intros op' ?%elem_of_nil.
  - apply Hcons. by left.
  - apply Hcons. right. split; [done|]. intros ->. unfold treat in Ht. by destruct (_ || _).
Qed.

(** What is reported does not depend on the answers in the request. *)
Lemma emit_with_steps req steps target f : emit (with_steps req steps) target f = emit req target f.
Proof.
  induction f as [|[par op] f IH]; [done|]. simpl. by rewrite IH.
Qed.

(** A call with a target runs it, if it is waited for. *)
Lemma emit_targeted req h f x :
  x ∈ f → executed x.2 = true → g_id x.2 = h → (emit req (Some h) f).2 = true.
Proof.
  intros Hx Hex Hh. induction f as [|[par op] f IH]; [by apply elem_of_nil in Hx|]. simpl.
  destruct (emission req (Some h) par op) as [a []] eqn:He; [done|].
  apply elem_of_cons in Hx as [->|Hx]; [|by apply IH].
  unfold emission, treat in He. simpl in Hex, Hh. rewrite Hex, decide_True in He by done. done.
Qed.

(** If all that is waited for are steps, a call with a target reports nothing else. *)
Lemma emit_steps req h f :
  (∀ x, x ∈ f → executed x.2 = true) → (emit req (Some h) f).2 = true →
  ∃ op, (emit req (Some h) f).1 = [op].
Proof.
  induction f as [|[par op] f IH]; intros Hex; simpl; [done|].
  assert (executed op = true) as Hop by (apply (Hex (par, op)); left).
  unfold emission, treat. rewrite Hop. destruct (decide (h = g_id op)); simpl; [by exists op|].
  intros Hr. apply IH; [|done]. intros x Hx. apply Hex. by right.
Qed.

(** A frontier is one call, or in a group. *)
Definition shaped (f : waiting) : Prop :=
  (∃ x, f = [x]) ∨
  (∀ x, x ∈ f → x.1 = true) ∧
  ((∀ x, x ∈ f → executed x.2 = true) ∨ (∀ x, x ∈ f → g_op x.2 ≠ OpcodeStepError)).

Lemma shaped_nil : shaped [].
Proof. right. split; [by intros x ?%elem_of_nil|]. left. by intros x ?%elem_of_nil. Qed.

Lemma frontier_shaped p l r steps :
  ideal p = Some (l, r) → shaped (frontier steps false p).
Proof.
  intros Hi. execution_ind Hi.
  - intros v e. apply shaped_nil.
  - intros s. apply shaped_nil.
  - done.
  - intros A p id o memo a K l r (call & _ & _ & Hf) Ha IH. rewrite Hf. simpl. rewrite Ha.
    destruct (steps !! g_id o); [done|]. left. by eexists.
  - intros A p id o memo e K Hcalls He. rewrite (frontier_fails p id o memo e K) by done.
    destruct (steps !! g_id o); [apply shaped_nil|]. left. by eexists.
  - intros fns xs k l r Hxs Hfns Hfine IHk. rewrite frontier_group with (xs := xs) by done. simpl.
    destruct (decide _); [done|]. right. split.
    + intros x Hx. apply list_elem_of_In, in_concat in Hx as (f & Hf & Hx).
      apply in_map_iff in Hf as (p & <- & _). apply list_elem_of_In in Hx. by eapply frontier_par.
    + assert (∀ x, x ∈ concat (map (frontier steps true) fns) → ∃ id, (id, x.2) ∈ concat xs.*1) as Hin.
      { intros x. apply elem_of_group. apply group_executions in Hxs.
        eapply Forall2_impl; [exact Hxs|]. intros p [l' r'] Hi. by apply (frontier_calls p l' (Returns r')). }
      unfold group_fine in Hfine. apply orb_true_iff in Hfine as [Hfine|Hfine]; [left|right];
        intros x Hx; destruct (Hin x Hx) as (id & Hid); rewrite forallb_forall in Hfine;
        apply list_elem_of_In in Hid; specialize (Hfine _ Hid); [done|].
      by apply negb_true_iff, bool_decide_eq_false in Hfine.
Qed.

(** *** What runs, and what is planned *)

(** A call without a target plans the step it waits for. *)
Definition plans (req : Request) (x : bool * GeneratorOpcode) : bool :=
  x.1 || disableImmediateExecution (r_callCtx req).

Lemma emit_plans req f x :
  (emit req None f).2 = false → x ∈ f → executed x.2 = true → plans req x = true.
Proof.
  unfold plans. induction f as [|[par op] f IH]; intros He Hx Hex; [by apply elem_of_nil in Hx|].
  simpl in He. destruct (emission req None par op) as [a []] eqn:Hem; [done|]. simpl in He.
  apply elem_of_cons in Hx as [->|Hx]; [|by apply IH].
  unfold emission, treat in Hem. simpl in *. rewrite Hex in Hem.
  by destruct (par || disableImmediateExecution (r_callCtx req)).
Qed.

(** A call without a target runs a step only when it waits for nothing else. *)
Lemma emit_runs req f :
  shaped f → (emit req None f).2 = true →
  ∃ x, f = [x] ∧ executed x.2 = true ∧ plans req x = false ∧ (emit req None f).1 = [x.2].
Proof.
  intros Hshape Hran. pose proof (emit_split req None f) as Hsplit. simpl in Hsplit.
  rewrite Hran in Hsplit. destruct Hsplit as (pre & x & He & Hx & Hex & Ht & _).
  assert (plans req x = false) as Hplans.
  { unfold treat in Ht. unfold plans. by destruct (x.1 || _). }
  destruct Hshape as [(y & ->)|[Hpar _]].
  - apply list_elem_of_singleton in Hx as ->. exists y. split_and!; [done..|].
    destruct y as [par op]. cbn [fst snd] in Hex, Ht. simpl. unfold emission, treat. by rewrite Hex, Ht.
  - unfold plans in Hplans. by rewrite (Hpar x Hx) in Hplans.
Qed.

(** A call with a target reports operations that are not steps, and runs its target. *)
Lemma emit_target req h f :
  (emit req (Some h) f).2 = true →
  ∃ pre x, (emit req (Some h) f).1 = pre ++ [x.2] ∧ x ∈ f ∧ executed x.2 = true ∧ g_id x.2 = h ∧
    ∀ op, op ∈ pre → ∃ y, y ∈ f ∧ executed y.2 = false ∧ op = y.2.
Proof.
  induction f as [|[par op] f IH]; simpl; [done|]. unfold emission, treat.
  destruct (executed op) eqn:Hex; [destruct (decide (h = g_id op)) as [->|Hne]|]; simpl.
  - intros _. exists [], (par, op). split_and!; [done|left|done|done|by intros op' ?%elem_of_nil].
  - intros Hran. destruct (IH Hran) as (pre & x & -> & Hx & ? & ? & Hpre). exists pre, x.
    split_and!; [done|by right|done|done|]. intros op' Hop.
    destruct (Hpre op' Hop) as (y & ? & ? & ?). exists y. split_and!; [by right|done..].
  - intros Hran. destruct (IH Hran) as (pre & x & -> & Hx & ? & ? & Hpre). exists (op :: pre), x.
    split_and!; [done|by right|done|done|]. intros op' [->|Hop]%elem_of_cons.
    + exists (par, op). split_and!; [left|done..].
    + destruct (Hpre op' Hop) as (y & ? & ? & ?). exists y. split_and!; [by right|done..].
Qed.

(** The steps that are waited for are planned, or there is one, which is not. *)
Lemma plans_same req p l r steps x y :
  ideal p = Some (l, r) → x ∈ frontier steps false p → y ∈ frontier steps false p →
  plans req x = plans req y.
Proof.
  intros Hi Hx Hy. destruct (frontier_shaped p l r steps Hi) as [(z & Hz)|[Hpar _]].
  - rewrite Hz in Hx, Hy. apply list_elem_of_singleton in Hx as ->.
    by apply list_elem_of_singleton in Hy as ->.
  - unfold plans. by rewrite (Hpar x Hx), (Hpar y Hy).
Qed.

(** ** The reply of a call *)

Section call.
Context (stack : string) (map_type : gotype V) (sf : ServableFunction V) (req : Request).
Context (p : prog V) (l : calls) (r : result).
Hypothesis (Hp : runs_program map_type sf req p) (Hi : ideal p = Some (l, r)).
Hypothesis (Hids : NoDup (g_id <$> l.*2)).

(** The reply at the end of the execution. *)
Definition final_invocation : invocation V := collect stack (end_world r (live ∅ []), end_outcome r).

Definition final : reply V := reply_of final_invocation.

Lemma final_no_ops ops : final ≠ ReplyOps ops.
Proof.
  clear Hi Hp. unfold final, final_invocation, reply_of, collect. cbv zeta.
  destruct (settle _ _).2; [done|by destruct r].
Qed.

Lemma call_op id o : (id, o) ∈ l → g_id o = once id ∧ g_op o ≠ OpcodeStepPlanned.
Proof using Hi.
  revert id o. pattern p, l, r. apply ideal_ind; [..|exact Hi].
  - by intros v e id o ?%elem_of_nil.
  - by intros s id o ?%elem_of_nil.
  - done.
  - intros A p' id o memo a K l' r' (call & [Hrep] & _) _ IH id' o' [[= -> ->]|Hin]%elem_of_cons;
      [by apply Hrep|by apply IH].
  - intros A p' id o memo e K (call & [Hrep] & _) _ id' o' [= -> ->]%list_elem_of_singleton.
    by apply Hrep.
  - intros fns xs k l' r' _ Hfns _ IHk id o [Hin|Hin]%elem_of_app; [|by apply IHk].
    induction Hfns as [|f x fns xs Hf _ IH]; simpl in Hin; [by apply elem_of_nil in Hin|].
    apply elem_of_app in Hin as [Hin|Hin]; [by apply Hf|by apply IH].
Qed.

Lemma names_distinct : NoDup l.*1.
Proof using Hi Hids.
  assert (g_id <$> l.*2 = once <$> l.*1) as Heq.
  { rewrite <- !list_fmap_compose. apply list_fmap_ext. intros i [id o] Hio.
    apply list_elem_of_lookup_2 in Hio. by destruct (call_op id o Hio). }
  rewrite Heq in Hids. by eapply NoDup_fmap_1.
Qed.

Lemma call_steps_good steps : consistent steps l → good (with_steps req steps) l ∅.
Proof using Hi Hids.
  intros Hc. split_and!; [done| |by apply names_distinct]. apply Forall_forall. intros call _.
  apply lookup_empty.
Qed.

Lemma call_finishes steps :
  consistent steps l → frontier steps false p = [] →
  fst <$> call stack map_type sf req steps None = Some final.
Proof using Hp Hi Hids.
  intros Hc Hf. unfold call. rewrite invoke_program with (p := p) by done.
  destruct (execution_does p l r Hi (with_steps req steps) (fn_ctx None) ∅ [] [] eq_refl
    (call_steps_good steps Hc)) as (w & Hrun & Hw). simpl in Hrun, Hw. rewrite Hf in Hrun, Hw.
  apply waits_nothing in Hw as (idx & log & -> & _).
  change (live ∅ []) with (reporting ∅ [] []). rewrite Hrun.
  rewrite decide_True by done. unfold final, final_invocation. by destruct r as [[v e]| |].
Qed.

(** A target that can be called: a step the function waits for. *)
Definition callable (steps : gmap string json) (target : option string) : Prop :=
  ∀ h, target = Some h → ∃ x, x ∈ frontier steps false p ∧ executed x.2 = true ∧ g_id x.2 = h.

Lemma emit_last_error target steps op :
  let e := emit (with_steps req steps) target (frontier steps false p) in
  e.2 = true → last e.1 = Some op → g_op op = OpcodeStepError → e.1 = [op].
Proof using Hi.
  simpl. pose proof (frontier_shaped p l r steps Hi) as Hshape.
  set (f := frontier steps false p) in *. intros Hran Hlast Herr.
  pose proof (emit_split (with_steps req steps) target f) as Hsplit. simpl in Hsplit.
  rewrite Hran in Hsplit. destruct Hsplit as (pre & x & He & Hx & Hxe & Hxt & _).
  rewrite He, last_snoc in Hlast. simplify_eq.
  destruct Hshape as [(y & Hy)|[Hpar [Hall|Hno]]].
  - rewrite Hy in *. apply list_elem_of_singleton in Hx as ->. destruct y as [par o]. simpl in *.
    unfold emission in *. rewrite Hxe, Hxt in *. simpl in *. done.
  - destruct target as [h|].
    2: { unfold treat in Hxt. by rewrite (Hpar x Hx) in Hxt. }
    destruct (emit_steps (with_steps req steps) h f Hall Hran) as (o & Ho).
    rewrite He in Ho |- *. by destruct pre as [|? []].
  - by apply (Hno x Hx) in Herr.
Qed.

(** What a call reports is its reply. *)
Lemma call_reports steps target :
  consistent steps l → callable steps target → (∀ h, target = Some h → String.length h = 40%nat) →
  frontier steps false p ≠ [] →
  fst <$> call stack map_type sf req steps target =
    Some (ReplyOps (emit (with_steps req steps) target (frontier steps false p)).1).
Proof using Hp Hi Hids.
  intros Hc Hcall Hlen Hf. unfold call. rewrite invoke_program with (p := p) by done.
  assert (cx_target (fn_ctx target) = target) as Ht.
  { destruct target as [h|]; [|done]. by apply fn_ctx_target, Hlen. }
  assert (cx_mgr (fn_ctx target) = true ∧ cx_parallel (fn_ctx target) = false) as [Hm Hpar].
  { split; [done|]. unfold fn_ctx, SetTargetStepID. destruct target; [|done]. by destruct (_ || _). }
  destruct (execution_does p l r Hi (with_steps req steps) (fn_ctx target) ∅ [] [] Hm
    (call_steps_good steps Hc)) as (w & Hrun & Hw). rewrite Hpar in Hrun, Hw.
  change (r_steps (with_steps req steps)) with steps in Hrun, Hw.
  change (live ∅ []) with (reporting ∅ [] []). rewrite Hrun, decide_False by done.
  unfold waits in Hw. rewrite Ht in Hw. simpl in Hw.
  pose proof (emit_last_error target steps) as Herror. simpl in Herror.
  pose proof (emit_split (with_steps req steps) target (frontier steps false p)) as Hsplit.
  simpl in Hsplit. set (e := emit _ _ _) in *. unfold reply_of. simpl.
  destruct e.2 eqn:He2.
  - destruct Hw as (_ & Hops & Herr). rewrite Hops.
    destruct Hsplit as (pre & x & He & _). assert (e.1 ≠ []) as Hne by (rewrite He; by destruct pre).
    destruct Herr as [->|(op & Hlast & Hop)]; [|rewrite (Herror op) by done].
    + unfold settle. simpl. destruct (lone_step_error _); by destruct e.1.
    + unfold settle, lone_step_error. by rewrite Hop.
  - destruct Hw as (idx & log & -> & _). simpl.
    assert (e.1 ≠ []) as Hne.
    { destruct target as [h|].
      - destruct (Hcall h eq_refl) as (x & Hx & Hxe & Hxh).
        pose proof (emit_targeted (with_steps req steps) h _ x Hx Hxe Hxh). unfold e in He2. congruence.
      - rewrite Hsplit by done. by destruct (frontier steps false p). }
    unfold settle. simpl. destruct (lone_step_error _); by destruct e.1.
Qed.
End call.
End ideal.
