(* ===== verification/Executor.v ===== *)
(** * An executor with every freedom

    The executor of [Durable]: it calls the function, calls planned steps and answers
    operations in any order, and its calls overlap.  Its runs are bounded, cannot get stuck,
    and end with the ideal execution. *)

From S2P Require Import Prelude GoBytes GoTime GoHash GoJson Errors Manager Step Program Functions.
From S2P Require Import Invoke Replay Groups Durable.

Open Scope Z_scope.

Section executor.
Context {V R : Type}.

Notation result := (ending V).
Notation calls := (list (string * GeneratorOpcode)).
Notation waiting := (list (bool * GeneratorOpcode)).

(** A call of the function, with the answers to some steps and a step to run: operations, or
    how the function ended.  [view] is what the executor sees of an operation, and [ans] what
    it answers. *)
Context (call : gmap string json → option string → option (list GeneratorOpcode + R)).
Context (view : GeneratorOpcode → GeneratorOpcode) (ans : GeneratorOpcode → json).

Definition answer (op : GeneratorOpcode) : json := ans (view op).

(** All answers in [steps] are answers to calls of [l]. *)
Definition answers_of (l : calls) (steps : gmap string json) : Prop :=
  ∀ h j, steps !! h = Some j → ∃ op, op ∈ view <$> l.*2 ∧ g_id op = h ∧ j = ans op.

(** The executor sees the identifier and the opcode of an operation. *)
Class View : Prop :=
  view_op op id : g_id op = once id → g_id (view op) = g_id op ∧ g_op (view op) = g_op op.

(** What the executor relies on: a call of the function [p], with the execution [l], reports
    what it waits for, and ends with [fin] when that is nothing. *)
Class Caller (req : Request) (p : prog V) (l : calls) (fin : R) : Prop := {
  caller_finishes steps :
    answers_of l steps → frontier answer steps false p = [] → call steps None = Some (inr fin);
  caller_reports steps target :
    answers_of l steps → callable answer p steps target → frontier answer steps false p ≠ [] →
    call steps target =
      Some (inl (view <$> (emit req target (frontier answer steps false p)).1)) }.

(** ** The executor *)

(** What the executor knows: the answered steps, the operations it will answer later, the
    steps that were planned, with what was known then; the call of the function and the
    calls of steps in flight, with the answers they were made with; the steps that ran, how
    many calls of the function are due, and how it ended. *)
Record executor := {
  ex_known : gmap string json;
  ex_open : list GeneratorOpcode;
  ex_planned : list (string * gmap string json);
  ex_calling : option (gmap string json);
  ex_running : list (string * gmap string json);
  ex_ran : list GeneratorOpcode;
  ex_due : nat;
  ex_done : option R }.

Definition ex_start : executor :=
  {| ex_known := ∅; ex_open := []; ex_planned := []; ex_calling := None; ex_running := [];
     ex_ran := []; ex_due := 1; ex_done := None |}.

Definition set_calls (planned : list (string * gmap string json)) (calling : option (gmap string json))
  (running : list (string * gmap string json)) (due : nat) (s : executor) : executor :=
  {| ex_known := ex_known s; ex_open := ex_open s; ex_planned := planned; ex_calling := calling;
     ex_running := running; ex_ran := ex_ran s; ex_due := due; ex_done := ex_done s |}.

Definition set_open (ops : list GeneratorOpcode) (s : executor) : executor :=
  {| ex_known := ex_known s; ex_open := ops; ex_planned := ex_planned s; ex_calling := ex_calling s;
     ex_running := ex_running s; ex_ran := ex_ran s; ex_due := ex_due s; ex_done := ex_done s |}.

(** An answer: a call is due. *)
Definition learn (op : GeneratorOpcode) (s : executor) : executor :=
  {| ex_known := <[g_id op := ans op]> (ex_known s); ex_open := ex_open s;
     ex_planned := ex_planned s; ex_calling := ex_calling s; ex_running := ex_running s;
     ex_ran := ex_ran s; ex_due := S (ex_due s); ex_done := ex_done s |}.

Definition add_ran (op : GeneratorOpcode) (s : executor) : executor :=
  {| ex_known := ex_known s; ex_open := ex_open s; ex_planned := ex_planned s;
     ex_calling := ex_calling s; ex_running := ex_running s; ex_ran := ex_ran s ++ [op];
     ex_due := ex_due s; ex_done := ex_done s |}.

Definition set_done (fin : R) (s : executor) : executor :=
  {| ex_known := ex_known s; ex_open := ex_open s; ex_planned := ex_planned s;
     ex_calling := ex_calling s; ex_running := ex_running s; ex_ran := ex_ran s;
     ex_due := ex_due s; ex_done := Some fin |}.

(** The steps that are planned or being called. *)
Definition announced (s : executor) : list (string * gmap string json) :=
  ex_planned s ++ ex_running s.

(** The calls in flight: the answers they were made with, and the step they are for. *)
Definition in_flight (s : executor) : list (gmap string json * option string) :=
  match ex_calling s with Some steps => [(steps, None)] | None => [] end ++
  ((λ x, (x.2, Some x.1)) <$> ex_running s).

(** An operation in the reply of a call that was made with [steps]: a planned step can be
    called; a step that ran is answered, and a call is due; what was reported before is
    ignored. *)
Definition receive (steps : gmap string json) (s : executor) (op : GeneratorOpcode) : executor :=
  match g_op op with
  | OpcodeStepPlanned =>
      if decide (ex_known s !! g_id op = None ∧ g_id op ∉ (announced s).*1) then
        set_calls ((g_id op, steps) :: ex_planned s) (ex_calling s) (ex_running s) (ex_due s) s
      else s
  | OpcodeStepRun | OpcodeStepError => add_ran op (learn op s)
  | _ =>
      if decide (ex_known s !! g_id op = None ∧ g_id op ∉ g_id <$> ex_open s) then
        set_open (ex_open s ++ [op]) s
      else s
  end.

Definition receive_reply (steps : gmap string json) (s : executor) (rep : list GeneratorOpcode + R) :
  executor :=
  match rep with
  | inl ops => foldl (receive steps) s ops
  | inr fin => set_done fin s
  end.

Definition answer_op (s : executor) (op : GeneratorOpcode) : executor :=
  learn op (set_open (filter (λ op', g_id op' ≠ g_id op) (ex_open s)) s).

(** The steps of an executor that has not ended: it calls the function, unless a call of the
    function is in flight; it calls a planned step, with the answers it had at some time
    since the step was planned; the reply to a call arrives; it answers an operation. *)
Inductive ex_step (s : executor) : executor → Prop :=
  | ex_call n :
      ex_done s = None → ex_calling s = None → ex_due s = S n →
      ex_step s (set_calls (ex_planned s) (Some (ex_known s)) (ex_running s) n s)
  | ex_reply steps rep :
      ex_done s = None → ex_calling s = Some steps → call steps None = Some rep →
      ex_step s (receive_reply steps (set_calls (ex_planned s) None (ex_running s) (ex_due s) s) rep)
  | ex_run h steps0 steps l1 l2 :
      ex_done s = None → ex_planned s = l1 ++ (h, steps0) :: l2 →
      steps0 ⊆ steps → steps ⊆ ex_known s →
      ex_step s (set_calls (l1 ++ l2) (ex_calling s) ((h, steps) :: ex_running s) (ex_due s) s)
  | ex_result h steps l1 l2 rep :
      ex_done s = None → ex_running s = l1 ++ (h, steps) :: l2 → call steps (Some h) = Some rep →
      ex_step s (receive_reply steps (set_calls (ex_planned s) (ex_calling s) (l1 ++ l2) (ex_due s) s) rep)
  | ex_answer op :
      ex_done s = None → op ∈ ex_open s → ex_step s (answer_op s op).

(** ** The invariant of the executor *)

Section seen.
Context (p : prog V) (l : calls) (r : result).
Hypothesis (Hview : View) (Hi : ideal answer p = Some (l, r)) (Hids : NoDup (g_id <$> l.*2)).

(** The operations of the execution, as the executor sees them. *)
Notation seen := (view <$> l.*2).

Lemma call_seen op : op ∈ l.*2 → g_id (view op) = g_id op ∧ g_op (view op) = g_op op.
Proof.
  intros ([id o] & -> & Hin)%list_elem_of_fmap. destruct (call_op answer p l r Hi id o Hin) as [Hid _].
  by apply (view_op o id).
Qed.

Lemma seen_ids : g_id <$> seen = g_id <$> l.*2.
Proof.
  rewrite <- list_fmap_compose. apply list_fmap_ext. intros i op Hop%list_elem_of_lookup_2.
  by destruct (call_seen op Hop).
Qed.

Lemma same_op o o' : o ∈ seen → o' ∈ seen → g_id o = g_id o' → o = o'.
Proof.
  intros Ho Ho' Heq. rewrite <- seen_ids in Hids.
  apply list_elem_of_lookup in Ho as [i Hi']. apply list_elem_of_lookup in Ho' as [j Hj].
  assert (i = j) as ->; [|congruence]. eapply (NoDup_lookup (g_id <$> seen)); [done|..];
    rewrite list_lookup_fmap; [by rewrite Hi'|by rewrite Hj, Heq].
Qed.

Lemma answers_within steps steps' : answers_of l steps' → steps ⊆ steps' → answers_of l steps.
Proof. intros Hs Hsub h j Hj. apply Hs. by eapply lookup_weaken. Qed.

Lemma answers_consistent steps : answers_of l steps → consistent answer steps l.
Proof.
  intros Hs. apply Forall_forall. intros [id o] Ho j Hj. simpl in *.
  apply (list_elem_of_fmap_2 snd) in Ho. destruct (call_seen o Ho) as [Hid _]. simpl in Hid.
  destruct (Hs (g_id o) j) as (o' & Ho' & Hid' & ->); [done|]. unfold answer.
  rewrite (same_op o' (view o)); [done|done|by apply (list_elem_of_fmap_2 view)|congruence].
Qed.

End seen.

Section invariant.
Context (req : Request) (p : prog V) (l : calls) (r : result) (fin : R).
Hypothesis (Hview : View) (Hcaller : Caller req p l fin).
Hypothesis (Hi : ideal answer p = Some (l, r)) (Hids : NoDup (g_id <$> l.*2)).

Notation seen := (view <$> l.*2).
Notation call_seen := (call_seen p l r Hview Hi).
Notation seen_ids := (seen_ids p l r Hview Hi).
Notation same_op := (same_op p l r Hview Hi Hids).

(** A step that may be called with [steps]. *)
Definition may_run (steps : gmap string json) (h : string) : Prop :=
  ∃ x, x ∈ frontier answer steps false p ∧ executed x.2 = true ∧ g_id x.2 = h ∧ plans req x = true.

Record ex_inv (s : executor) : Prop := {
  inv_known : answers_of l (ex_known s);
  inv_open op : op ∈ ex_open s → op ∈ seen ∧ executed op = false ∧ ex_known s !! g_id op = None;
  inv_announced h steps : (h, steps) ∈ announced s →
    steps ⊆ ex_known s ∧ ex_known s !! h = None ∧ may_run steps h;
  inv_once : NoDup (announced s).*1;
  inv_calling steps : ex_calling s = Some steps →
    steps ⊆ ex_known s ∧ (ex_due s = 0%nat → steps = ex_known s) ∧
    ∀ x, x ∈ frontier answer steps false p → executed x.2 = true → plans req x = false →
      ex_known s !! g_id x.2 = None;
  inv_ran : NoDup (ex_ran s);
  inv_ran_iff op : op ∈ ex_ran s ↔
    op ∈ seen ∧ executed op = true ∧ is_Some (ex_known s !! g_id op) }.

(** Everything that is waited for has been reported. *)
Definition covered (s : executor) (f : waiting) : Prop :=
  ∀ x, x ∈ f → view x.2 ∈ ex_open s ∨ is_Some (ex_known s !! g_id x.2) ∨
    g_id x.2 ∈ (announced s).*1.

(** A call that is waited for, as it is seen. *)
Lemma frontier_seen steps x :
  x ∈ frontier answer steps false p →
  view x.2 ∈ seen ∧ g_id (view x.2) = g_id x.2 ∧ executed (view x.2) = executed x.2 ∧
  g_op x.2 ≠ OpcodeStepPlanned ∧ g_op (view x.2) = g_op x.2.
Proof.
  intros Hx. destruct (frontier_calls answer p l r Hi steps false x Hx) as (id & Hid).
  destruct (call_op answer p l r Hi id x.2 Hid) as [_ Hop].
  apply (list_elem_of_fmap_2 snd) in Hid. simpl in Hid. destruct (call_seen x.2 Hid) as [Hg Ho].
  split_and!; [by apply (list_elem_of_fmap_2 view)|done| |done|done].
  unfold executed. by rewrite Ho.
Qed.

(** An operation of a step is not one of another kind. *)
Lemma other_op o x steps :
  o ∈ seen → executed o = false → x ∈ frontier answer steps false p → executed x.2 = true →
  g_id o ≠ g_id x.2.
Proof.
  intros Ho Hex Hx Hxe Heq. destruct (frontier_seen steps x Hx) as (Hv & Hg & He & _).
  rewrite (same_op o (view x.2)) in Hex; congruence.
Qed.

(** A step that may be called later than [steps] is not one that runs by itself. *)
Lemma plans_later steps steps' known h x :
  may_run steps h → steps ⊆ known → known !! h = None →
  x ∈ frontier answer steps' false p → steps' ⊆ known → known !! g_id x.2 = None →
  plans req x = true.
Proof.
  intros (y & Hy & _ & Hyh & Hplans) Hsub Hnew Hx Hsub' Hnew'.
  rewrite <- Hplans. apply (plans_same answer req p l r known x y Hi).
  - by apply (frontier_mono answer p l r Hi steps').
  - apply (frontier_mono answer p l r Hi steps); [done..|by rewrite Hyh].
Qed.

(** ** Replies that report *)

(** [s'] knows what [s] knows, and has heard of more. *)
Definition hears (s s' : executor) : Prop :=
  ex_known s' = ex_known s ∧ ex_ran s' = ex_ran s ∧ ex_due s' = ex_due s ∧ ex_done s' = ex_done s ∧
  ex_calling s' = ex_calling s ∧ ex_running s' = ex_running s ∧
  (∀ op, op ∈ ex_open s → op ∈ ex_open s') ∧ (∀ h, h ∈ (announced s).*1 → h ∈ (announced s').*1).

Lemma hears_refl s : hears s s.
Proof. unfold hears. naive_solver. Qed.

Lemma hears_trans s1 s2 s3 : hears s1 s2 → hears s2 s3 → hears s1 s3.
Proof.
  unfold hears. intros (-> & -> & -> & -> & -> & -> & ? & ?) (-> & -> & -> & -> & -> & -> & ? & ?).
  split_and!; auto.
Qed.

Lemma covered_hears s s' f : hears s s' → covered s f → covered s' f.
Proof.
  intros (Hk & _ & _ & _ & _ & _ & Ho & Hp') Hc x Hx. rewrite Hk.
  destruct (Hc x Hx) as [?|[?|?]]; eauto.
Qed.

(** A call that a reply to a call with [steps] may report. *)
Definition reportable (steps : gmap string json) (x : bool * GeneratorOpcode) : Prop :=
  x ∈ frontier answer steps false p ∧ (executed x.2 = true → plans req x = true).

Lemma receive_planned steps s x :
  ex_inv s → steps ⊆ ex_known s → reportable steps x → executed x.2 = true →
  let s' := receive steps s (view (announce x.2)) in ex_inv s' ∧ hears s s' ∧ covered s' [x].
Proof.
  intros Hs Hsub [Hx Hplans] Hex. specialize (Hplans Hex). unfold announce. rewrite Hex.
  assert (∃ id, g_id x.2 = once id) as (id & Hid).
  { destruct (frontier_calls answer p l r Hi steps false x Hx) as (id & Hid).
    exists id. by destruct (call_op answer p l r Hi id x.2 Hid). }
  destruct (view_op (planned_op (g_id x.2) (g_name x.2)) id Hid) as [Hg Ho].
  unfold receive. rewrite Ho, Hg. cbn [g_op g_id planned_op].
  destruct (decide _) as [[Hk Hnew]|Hno].
  - split_and!.
    + destruct Hs. constructor; unfold announced in *; simpl; auto; [|by constructor].
      intros h steps' [[= -> ->]|Hin]%elem_of_cons; [|by auto].
      split_and!; [done..|]. by exists x.
    + unfold hears, announced. simpl. split_and!; try done. intros h Hh. by right.
    + intros y ->%list_elem_of_singleton. right. right. left.
  - split_and!; [done|apply hears_refl|]. intros y ->%list_elem_of_singleton. right.
    destruct (ex_known s !! g_id x.2) eqn:Hk; [left; by eexists|right].
    destruct (decide (g_id x.2 ∈ (announced s).*1)); [done|by destruct Hno].
Qed.

Lemma receive_reported steps s x :
  ex_inv s → steps ⊆ ex_known s → x ∈ frontier answer steps false p → executed x.2 = false →
  let s' := receive steps s (view x.2) in ex_inv s' ∧ hears s s' ∧ covered s' [x].
Proof.
  intros Hs Hsub Hx Hex.
  destruct (frontier_seen _ _ Hx) as (Hl & Hg & He & Hplan & Ho). rewrite Hex in He.
  assert (receive steps s (view x.2) =
    if decide (ex_known s !! g_id (view x.2) = None ∧ g_id (view x.2) ∉ g_id <$> ex_open s) then
      set_open (ex_open s ++ [view x.2]) s
    else s) as ->.
  { unfold receive, executed in *. rewrite <- Ho in Hplan. by destruct (g_op (view x.2)). }
  destruct (decide _) as [[Hk Hnew]|Hno]; split_and!; simpl; try done.
  - destruct Hs. constructor; simpl; auto. intros op [Hop| ->%list_elem_of_singleton]%elem_of_app; auto.
  - unfold hears. simpl. split_and!; try done. intros op Hop. apply elem_of_app. by left.
  - intros y ->%list_elem_of_singleton. left. apply elem_of_app. right. left.
  - intros y ->%list_elem_of_singleton. rewrite <- Hg.
    destruct (ex_known s !! g_id (view x.2)) eqn:Hk; [right; left; by eexists|].
    destruct (decide (g_id (view x.2) ∈ g_id <$> ex_open s)) as [Hin|]; [|by destruct Hno].
    apply list_elem_of_fmap in Hin as (o & Hid & Hopen). left.
    destruct (inv_open s Hs o Hopen) as [Hol _]. by rewrite (same_op (view x.2) o).
Qed.

Lemma receive_one steps s x :
  ex_inv s → steps ⊆ ex_known s → reportable steps x →
  let s' := receive steps s (view (announce x.2)) in ex_inv s' ∧ hears s s' ∧ covered s' [x].
Proof.
  intros Hs Hsub Hx. destruct (executed x.2) eqn:Hex; [by apply receive_planned|].
  unfold announce. rewrite Hex. by apply receive_reported; [..|apply Hx|].
Qed.

(** The reports of steps that have not run. *)
Lemma receive_announced steps ops s :
  ex_inv s → steps ⊆ ex_known s →
  (∀ op, op ∈ ops → ∃ x, reportable steps x ∧ op = view (announce x.2)) →
  let s' := foldl (receive steps) s ops in ex_inv s' ∧ hears s s'.
Proof.
  revert s. induction ops as [|op ops IH]; intros s Hs Hsub Hops; [split; [done|apply hears_refl]|].
  destruct (Hops op) as (x & Hx & ->); [left|].
  destruct (receive_one steps s x Hs Hsub Hx) as (Hs1 & Hh1 & _). simpl.
  destruct (IH (receive steps s (view (announce x.2)))) as [? Hh2]; [done|by destruct Hh1 as (-> & _)| |].
  - intros op Hop. apply Hops. by right.
  - split; [done|]. by eapply hears_trans.
Qed.

(** The reports of all calls that are waited for. *)
Lemma reports_of steps f :
  (∀ x, x ∈ f → reportable steps x) →
  ∀ op, op ∈ view <$> (announce <$> f.*2) → ∃ x, reportable steps x ∧ op = view (announce x.2).
Proof.
  intros Hf op (o' & -> & (o & -> & (x & -> & Hx)%list_elem_of_fmap)%list_elem_of_fmap)%list_elem_of_fmap.
  exists x. split; [by apply Hf|done].
Qed.

(** When all that is waited for is reported, all of it is covered. *)
Lemma receive_all steps f s :
  ex_inv s → steps ⊆ ex_known s → (∀ x, x ∈ f → reportable steps x) →
  covered (foldl (receive steps) s (view <$> (announce <$> f.*2))) f.
Proof.
  revert s. induction f as [|y f IH]; intros s Hs Hsub Hf; [by intros x ?%elem_of_nil|].
  destruct (receive_one steps s y Hs Hsub) as (Hs1 & Hh1 & Hc1); [apply Hf; left|]. simpl.
  set (s1 := receive steps s (view (announce y.2))) in *.
  assert (steps ⊆ ex_known s1) as Hsub1 by (by destruct Hh1 as (-> & _)).
  destruct (receive_announced steps (view <$> (announce <$> f.*2)) s1) as [_ Hh2]; [done..| |].
  { apply reports_of. intros x Hx. apply Hf. by right. }
  intros x [->|Hx]%elem_of_cons.
  - apply (covered_hears _ _ _ Hh2 Hc1). left.
  - apply IH; [done..| |done]. intros z Hz. apply Hf. by right.
Qed.

(** ** Answers *)

(** An operation that has no answer, and that no call in flight can run. *)
Definition unanswered (s : executor) (op : GeneratorOpcode) : Prop :=
  op ∈ seen ∧ ex_known s !! g_id op = None ∧ g_id op ∉ (announced s).*1 ∧
  ∀ steps x, ex_calling s = Some steps → x ∈ frontier answer steps false p →
    executed x.2 = true → plans req x = false → g_id op ≠ g_id x.2.

(** What an answer does to the invariant, whether a step ran or an operation was open. *)
Lemma learn_inv s s' op :
  ex_inv s → unanswered s op → ex_known s' = <[g_id op := ans op]> (ex_known s) →
  announced s' = announced s → ex_calling s' = ex_calling s → ex_due s' = S (ex_due s) →
  (∀ op', op' ∈ ex_open s' → op' ∈ ex_open s ∧ g_id op' ≠ g_id op) →
  NoDup (ex_ran s') →
  (∀ op', op' ∈ ex_ran s' ↔ op' ∈ ex_ran s ∨ executed op = true ∧ op' = op) → ex_inv s'.
Proof.
  intros Hs (Hop & Hnew & Hann & Hcall) Hk Ha Hc Hd Hopen Hnd Hran. constructor; rewrite ?Hk.
  - intros h j. rewrite lookup_insert_Some. intros [[<- <-]|[_ Hj]]; [by exists op|].
    by apply (inv_known s Hs).
  - intros op' [Hin Hne]%Hopen. destruct (inv_open s Hs op' Hin) as (? & ? & ?).
    split_and!; [done..|]. by rewrite lookup_insert_ne.
  - intros h steps. rewrite Ha. intros Hin. destruct (inv_announced s Hs h steps Hin) as (Hsub & Hh & ?).
    assert (g_id op ≠ h) by (intros <-; apply Hann; by apply (list_elem_of_fmap_2 fst _ (_, steps))).
    split_and!; [|by rewrite lookup_insert_ne|done].
    etransitivity; [exact Hsub|by apply insert_subseteq].
  - rewrite Ha. by apply inv_once.
  - intros steps. rewrite Hc, Hd. intros Hst.
    destruct (inv_calling s Hs steps Hst) as (Hsub & _ & Hlone). split_and!; [|done|].
    + etransitivity; [exact Hsub|by apply insert_subseteq].
    + intros x Hx Hex Hplans. rewrite lookup_insert_ne by by apply (Hcall steps). by apply Hlone.
  - done.
  - intros op'. rewrite Hran, (inv_ran_iff s Hs). destruct (decide (g_id op = g_id op')) as [Heq|Hne].
    + rewrite <- Heq, Hnew, lookup_insert_eq. split.
      { intros [(_ & _ & [? ?])|[? ->]]; [done|]. split; [done|]. split; [done|]. by eexists. }
      intros (Hin & Hex & _). right. pose proof (same_op op op' Hop Hin Heq). by subst.
    + rewrite lookup_insert_ne by done. split; [|by left]. intros [?|[_ ->]]; done.
Qed.

(** The report of a step that has run. *)
Lemma receive_ran steps s op :
  ex_inv s → executed op = true → unanswered s op →
  let s' := receive steps s op in
  ex_inv s' ∧ ex_known s' = <[g_id op := ans op]> (ex_known s) ∧ ex_due s' = S (ex_due s) ∧
  ex_running s' = ex_running s ∧ ex_calling s' = ex_calling s ∧ ex_done s' = ex_done s.
Proof.
  intros Hs Hex Hun.
  assert (receive steps s op = add_ran op (learn op s)) as ->
    by (unfold receive, executed in *; by destruct (g_op op)).
  split; [|done]. apply (learn_inv s _ op); try done; simpl.
  - intros op' Hin. split; [done|]. intros Heq. destruct (inv_open s Hs op' Hin) as (Hin' & Hex' & _).
    destruct Hun as [Hop _]. rewrite (same_op op' op) in Hex'; congruence.
  - apply NoDup_app. split_and!; [by apply inv_ran| |apply NoDup_singleton].
    intros op' Hin ->%list_elem_of_singleton. apply (inv_ran_iff s Hs) in Hin as (_ & _ & [j Hj]).
    destruct Hun as (_ & Hnew & _). congruence.
  - intros op'. rewrite elem_of_app, list_elem_of_singleton. naive_solver.
Qed.

(** The answer to an open operation. *)
Lemma answer_inv s op :
  ex_inv s → op ∈ ex_open s → ex_inv (answer_op s op) ∧ ex_known s !! g_id op = None.
Proof.
  intros Hs Hop. destruct (inv_open s Hs op Hop) as (Hl & Hex & Hnew). split; [|done].
  apply (learn_inv s _ op); try done; simpl.
  - split_and!; [done..| |].
    + intros ([h steps] & Hh & Hin)%list_elem_of_fmap. simpl in Hh. subst h.
      destruct (inv_announced s Hs _ _ Hin) as (_ & _ & (x & Hx & Hxe & Hxh & _)).
      by apply (other_op op x steps).
    + intros steps x _ Hx Hxe _. by apply (other_op op x steps).
  - by intros op' [? ?]%list_elem_of_filter.
  - by apply inv_ran.
  - intros op'. rewrite Hex. naive_solver.
Qed.

(** ** What the replies say *)

(** The reply to a call of the function that waits for something. *)
Lemma plain_reply steps :
  let f := frontier answer steps false p in
  answers_of l steps → f ≠ [] →
  ∃ ops, call steps None = Some (inl ops) ∧
    ((∃ x, f = [x] ∧ executed x.2 = true ∧ plans req x = false ∧ ops = [view x.2]) ∨
     (ops = view <$> (announce <$> f.*2) ∧ ∀ x, x ∈ f → reportable steps x)).
Proof.
  intros f Hk Hf. eexists. split; [by apply (caller_reports steps None Hk)|].
  destruct (emit req None f).2 eqn:Hran; [left|right].
  - destruct (emit_runs req f) as (x & Hx & Hex & Hplans & He); [|done|].
    { by eapply (frontier_shaped answer). }
    exists x. unfold f in He. by rewrite He.
  - pose proof (emit_split req None f) as Hsplit. simpl in Hsplit. rewrite Hran in Hsplit.
    fold f. rewrite Hsplit by done. split; [done|]. intros x Hx. split; [done|].
    by apply (emit_plans req f x).
Qed.

(** The reply to the call of a step. *)
Lemma step_reply steps h :
  answers_of l steps → may_run steps h →
  ∃ pre x, call steps (Some h) = Some (inl (pre ++ [view x.2])) ∧
    x ∈ frontier answer steps false p ∧ executed x.2 = true ∧ g_id x.2 = h ∧
    ∀ op, op ∈ pre → ∃ y, y ∈ frontier answer steps false p ∧ executed y.2 = false ∧ op = view y.2.
Proof.
  intros Hk (x0 & Hx0 & Hex0 & Hh0 & _).
  assert (callable answer p steps (Some h)) as Hcallable by (intros h' [= <-]; by exists x0).
  assert (frontier answer steps false p ≠ []) as Hf
    by (intros Hf; rewrite Hf in Hx0; by apply elem_of_nil in Hx0).
  destruct (emit_target req h (frontier answer steps false p)) as (pre & x & He & Hx & Hex & Hh & Hpre);
    [by eapply emit_targeted|].
  exists (view <$> pre), x. rewrite (caller_reports steps (Some h) Hk Hcallable Hf), He, fmap_app.
  split_and!; try done. intros op (o & -> & Ho)%list_elem_of_fmap.
  destruct (Hpre o Ho) as (y & ? & ? & ->). by exists y.
Qed.

(** ** Runs of the executor *)

(** The invariant, with what keeps the executor from being stuck. *)
Record ex_ok (s : executor) : Prop := {
  ok_inv : ex_inv s;
  ok_due : ex_due s = 0%nat → ex_calling s = None → ex_done s = None →
    let f := frontier answer (ex_known s) false p in f ≠ [] ∧ covered s f;
  ok_done rep : ex_done s = Some rep → rep = fin ∧ frontier answer (ex_known s) false p = [] }.

Lemma answered_seen s h : ex_inv s → is_Some (ex_known s !! h) → h ∈ g_id <$> seen.
Proof.
  intros Hs [j Hj]. destruct (inv_known s Hs h j Hj) as (op & Hop & <- & _).
  by apply (list_elem_of_fmap_2 g_id).
Qed.

Lemma may_run_seen steps h : may_run steps h → h ∈ g_id <$> seen.
Proof.
  intros (x & Hx & _ & <- & _). destruct (frontier_seen steps x Hx) as (Hv & <- & _).
  by apply (list_elem_of_fmap_2 g_id).
Qed.

(** The answered steps and those in flight are different calls. *)
Lemma running_bound s : ex_inv s → (size (ex_known s) + length (ex_running s) ≤ length l)%nat.
Proof.
  intros Hs. rewrite <- length_map_to_list.
  assert (length l = length (g_id <$> seen)) as -> by by rewrite !length_fmap.
  transitivity (length ((map_to_list (ex_known s)).*1 ++ (ex_running s).*1));
    [by rewrite length_app, !length_fmap|].
  apply submseteq_length, NoDup_submseteq.
  - pose proof (inv_once s Hs) as Hnd. unfold announced in Hnd. rewrite fmap_app in Hnd.
    apply NoDup_app in Hnd as (_ & _ & Hnd).
    apply NoDup_app. split_and!; [apply NoDup_fst_map_to_list| |done].
    intros h ([h1 j] & -> & Hj%elem_of_map_to_list)%list_elem_of_fmap ([h2 steps] & Hh & Hin)%list_elem_of_fmap.
    simpl in *. subst h1. destruct (inv_announced s Hs h2 steps) as (_ & Hnew & _); [|congruence].
    apply elem_of_app. by right.
  - intros h [([h' j] & -> & Hj%elem_of_map_to_list)%list_elem_of_fmap
             |([h' steps] & -> & Hin)%list_elem_of_fmap]%elem_of_app; simpl.
    + apply (answered_seen s); [done|by eexists].
    + apply (may_run_seen steps). apply (inv_announced s Hs). apply elem_of_app. by right.
Qed.

(** What is left to do. *)
Definition measure (s : executor) : nat :=
  4 * (length l - size (ex_known s)) - length (ex_running s) + 2 * ex_due s +
  (if ex_calling s then 1 else 0) + (if ex_done s then 0 else 1).

Lemma measure_learn s s' h j :
  ex_inv s' → ex_known s !! h = None → ex_known s' = <[h := j]> (ex_known s) →
  ex_due s' = S (ex_due s) → (length (ex_running s) ≤ S (length (ex_running s')))%nat →
  (ex_calling s' = ex_calling s ∨ ex_calling s' = None) → ex_done s' = ex_done s →
  (measure s' < measure s)%nat.
Proof.
  intros Hs' Hnew Hk Hd Hr Hc He. pose proof (running_bound s' Hs') as Hb. unfold measure.
  rewrite He, Hd. rewrite Hk, map_size_insert_None in * by done.
  assert ((if ex_calling s' then 1 else 0) ≤ (if ex_calling s then 1 else 0))%nat
    by (destruct Hc as [-> | ->]; [done|lia]).
  lia.
Qed.

Lemma start_ok : ex_ok ex_start.
Proof.
  constructor; [|done|done]. constructor; simpl.
  - intros h j Hj. by rewrite lookup_empty in Hj.
  - by intros op ?%elem_of_nil.
  - by intros h steps ?%elem_of_nil.
  - constructor.
  - done.
  - constructor.
  - intros op. rewrite elem_of_nil. split; [done|]. intros (_ & _ & [j Hj]).
    by rewrite lookup_empty in Hj.
Qed.

(** The function is called. *)
Lemma call_ok s n :
  ex_ok s → ex_calling s = None → ex_due s = S n → ex_done s = None →
  let s' := set_calls (ex_planned s) (Some (ex_known s)) (ex_running s) n s in
  ex_ok s' ∧ (measure s' < measure s)%nat.
Proof.
  intros [Hs _ _] Hc Hd He. simpl. split.
  - constructor; [|done|simpl; congruence]. destruct Hs. constructor; simpl; try done.
    intros steps [= <-]. split_and!; [done..|]. intros x Hx _ _. by apply frontier_waits in Hx.
  - unfold measure. simpl. rewrite Hc, Hd, He. lia.
Qed.

(** A planned step is called. *)
Lemma planned_ok s h steps0 steps l1 l2 :
  ex_ok s → ex_done s = None → ex_planned s = l1 ++ (h, steps0) :: l2 →
  steps0 ⊆ steps → steps ⊆ ex_known s →
  let s' := set_calls (l1 ++ l2) (ex_calling s) ((h, steps) :: ex_running s) (ex_due s) s in
  ex_ok s' ∧ (measure s' < measure s)%nat.
Proof.
  intros [Hs Hdue _] He Hp H0 H1. simpl.
  set (s' := set_calls (l1 ++ l2) (ex_calling s) ((h, steps) :: ex_running s) (ex_due s) s).
  assert ((announced s').*1 ≡ₚ (announced s).*1) as Hperm.
  { unfold announced, s', set_calls. cbn [ex_planned ex_running].
    rewrite Hp, !fmap_app, !fmap_cons. cbn [fst]. solve_Permutation. }
  assert (ex_inv s') as Hs'.
  { pose proof (inv_announced s Hs) as Hann. pose proof (inv_once s Hs) as Hnd.
    destruct Hs. constructor; simpl; try done; [|by rewrite Hperm].
    intros h' steps' Hin.
    assert ((h', steps') = (h, steps) ∨ (h', steps') ∈ announced s) as [[= -> ->]|Hin'].
    { unfold announced in *. simpl in Hin. rewrite Hp. set_solver. }
    - destruct (Hann h steps0) as (Hsub & Hnew & x & Hx & Hex & Hxh & Hplans).
      { unfold announced. rewrite Hp. set_solver. }
      split_and!; [done..|]. exists x. split_and!; try done.
      apply (frontier_mono answer p l r Hi steps0); [done..|]. rewrite Hxh. by eapply lookup_weaken_None.
    - by apply Hann. }
  split.
  - constructor; [done| |simpl; congruence]. intros Hd Hc _.
    destruct (Hdue Hd Hc He) as [Hf Hcov]. split; [done|]. intros x Hx.
    rewrite Hperm. by apply Hcov.
  - pose proof (running_bound s' Hs') as Hb. unfold measure. simpl in *. rewrite He. lia.
Qed.

Lemma plain_inv s : ex_inv s → ex_inv (set_calls (ex_planned s) None (ex_running s) (ex_due s) s).
Proof. by intros []. Qed.

(** A reply that reports a step that has run. *)
Lemma ran_ok s0 s steps pre x :
  ex_inv s → steps ⊆ ex_known s → x ∈ frontier answer steps false p → executed x.2 = true →
  unanswered s (view x.2) →
  (∀ op, op ∈ pre → ∃ y, y ∈ frontier answer steps false p ∧ executed y.2 = false ∧ op = view y.2) →
  ex_known s = ex_known s0 → ex_due s = ex_due s0 →
  (length (ex_running s0) ≤ S (length (ex_running s)))%nat →
  (ex_calling s = ex_calling s0 ∨ ex_calling s = None) → ex_done s0 = None → ex_done s = None →
  let s' := foldl (receive steps) s (pre ++ [view x.2]) in ex_ok s' ∧ (measure s' < measure s0)%nat.
Proof.
  intros Hs Hsub Hx Hex Hun Hpre Hk Hd Hr Hc He0 He. simpl. rewrite foldl_app. simpl.
  assert (∀ op, op ∈ pre → ∃ y, reportable steps y ∧ op = view (announce y.2)) as Hpre'.
  { intros op Hop. destruct (Hpre op Hop) as (y & Hy & Hye & ->). exists y. unfold announce.
    rewrite Hye. split; [|done]. split; [done|congruence]. }
  destruct (receive_announced steps pre s Hs Hsub Hpre') as
    [Hs1 (Hk1 & _ & Hd1 & He1 & Hc1 & Hr1 & _ & _)].
  assert (announced (foldl (receive steps) s pre) = announced s) as Ha.
  { clear Hs Hsub Hun Hk Hd Hr Hc He Hs1 Hk1 Hd1 He1 Hc1 Hr1 Hpre'. revert s.
    induction pre as [|op pre IH]; intros s; [done|]. simpl. rewrite IH; [|intros; apply Hpre; by right].
    destruct (Hpre op) as (y & Hy & Hye & ->); [left|].
    destruct (frontier_seen steps y Hy) as (_ & _ & Hve & Hno & Ho). rewrite Hye in Hve.
    unfold receive, executed in *. rewrite <- Ho in Hno.
    destruct (g_op (view y.2)); try done; by destruct (decide _). }
  set (s1 := foldl (receive steps) s pre) in *.
  destruct (frontier_seen _ _ Hx) as (_ & _ & Hve & _).
  destruct (receive_ran steps s1 (view x.2) Hs1) as (Hs2 & Hk2 & Hd2 & Hr2 & Hc2 & He2);
    [by rewrite Hve|unfold unanswered; by rewrite Hk1, Ha, Hc1|].
  split.
  - constructor; [done|rewrite Hd2; done|]. intros rep. rewrite He2, He1, He. done.
  - apply (measure_learn _ _ (g_id (view x.2)) (ans (view x.2)) Hs2).
    + rewrite <- Hk. apply Hun.
    + by rewrite Hk2, Hk1, Hk.
    + by rewrite Hd2, Hd1, Hd.
    + by rewrite Hr2, Hr1.
    + by rewrite Hc2, Hc1.
    + by rewrite He2, He1, He, He0.
Qed.

(** The reply to a call of the function. *)
Lemma reply_ok s steps rep :
  ex_ok s → ex_calling s = Some steps → ex_done s = None → call steps None = Some rep →
  let s' := receive_reply steps (set_calls (ex_planned s) None (ex_running s) (ex_due s) s) rep in
  ex_ok s' ∧ (measure s' < measure s)%nat.
Proof.
  intros [Hs _ _] Hc He Hcall. simpl.
  set (s1 := set_calls (ex_planned s) None (ex_running s) (ex_due s) s).
  destruct (inv_calling s Hs steps Hc) as (Hsub & Hcur & Hlone).
  assert (answers_of l steps) as Hk by (by eapply answers_within; [apply inv_known|]).
  pose proof (plain_inv s Hs) as Hs1. fold s1 in Hs1.
  set (f := frontier answer steps false p) in *.
  assert (measure s1 < measure s)%nat as Hm1 by (unfold measure; simpl; rewrite Hc; lia).
  destruct (decide (f = [])) as [Hf|Hf].
  - rewrite (caller_finishes steps Hk Hf) in Hcall. injection Hcall as <-. simpl. split.
    + constructor; [by destruct Hs1|done|]. simpl. intros rep [= <-]. split; [done|].
      apply (complete_frontier answer p l r); [done|].
      eapply complete_mono; [exact Hsub|]. by eapply (frontier_complete answer).
    + unfold measure in *. simpl in *. rewrite He in *. lia.
  - destruct (plain_reply steps Hk Hf) as (ops & Hops & Hcases). rewrite Hops in Hcall.
    injection Hcall as <-. simpl. fold f in Hcases.
    destruct Hcases as [(x & Hx & Hex & Hplans & ->)|[-> Hrep]].
    + assert (x ∈ f) as Hin by (rewrite Hx; left).
      destruct (frontier_seen steps x Hin) as (Hv & Hg & _).
      apply (ran_ok s s1 steps [] x); try done; [|by intros op ?%elem_of_nil|simpl; lia|by right].
      split_and!; [done|rewrite Hg; by apply Hlone| |done].
      intros ([h steps'] & Hh & Hin')%list_elem_of_fmap. simpl in Hh. subst h.
      destruct (inv_announced s Hs _ _ Hin') as (Hsub' & Hnew & Hmay). rewrite Hg in Hnew.
      pose proof (plans_later steps' steps (ex_known s) _ x Hmay Hsub') as Hlater.
      rewrite Hg, Hplans in Hlater. by discriminate Hlater.
    + destruct (receive_announced steps (view <$> (announce <$> f.*2)) s1) as
        [Hs2 (Hk2 & _ & Hd2 & He2 & Hc2 & Hr2 & _)]; [done|done|by apply reports_of|].
      split; [|unfold measure in *; rewrite Hk2, Hd2, He2, Hc2, Hr2; simpl in *; lia].
      constructor; [done| |rewrite He2; simpl; congruence].
      rewrite Hd2, Hk2. simpl. intros Hd _ _. rewrite <- Hcur by done. split; [done|].
      by apply receive_all.
Qed.

(** The reply to the call of a step. *)
Lemma result_ok s h steps l1 l2 rep :
  ex_ok s → ex_done s = None → ex_running s = l1 ++ (h, steps) :: l2 →
  call steps (Some h) = Some rep →
  let s' := receive_reply steps (set_calls (ex_planned s) (ex_calling s) (l1 ++ l2) (ex_due s) s) rep in
  ex_ok s' ∧ (measure s' < measure s)%nat.
Proof.
  intros [Hs _ _] He Hr Hcall. simpl.
  set (s1 := set_calls (ex_planned s) (ex_calling s) (l1 ++ l2) (ex_due s) s).
  assert (announced s ≡ₚ (h, steps) :: announced s1) as Hperm.
  { unfold announced. simpl. rewrite Hr, !app_assoc. symmetry. apply Permutation_middle. }
  destruct (inv_announced s Hs h steps) as (Hsub & Hnew & Hmay); [rewrite Hperm; left|].
  destruct (step_reply steps h) as (pre & x & Hrep & Hx & Hex & Hxh & Hpre);
    [by eapply answers_within; [apply inv_known|]|done|].
  rewrite Hrep in Hcall. injection Hcall as <-.
  assert (ex_inv s1) as Hs1.
  { pose proof (inv_announced s Hs) as Hann. pose proof (inv_once s Hs) as Hnd.
    rewrite Hperm in Hnd. destruct Hs. constructor; simpl; try done.
    - intros h' steps' Hin. apply Hann. rewrite Hperm. by right.
    - by apply NoDup_cons in Hnd as [_ ?]. }
  destruct (frontier_seen steps x Hx) as (Hv & Hg & _).
  apply (ran_ok s s1 steps pre x); try done.
  - split_and!; [done|by rewrite Hg, Hxh| |].
    + pose proof (inv_once s Hs) as Hnd. rewrite Hperm in Hnd. simpl in Hnd.
      apply NoDup_cons in Hnd as [Hno _]. by rewrite Hg, Hxh.
    + intros steps' y Hc Hy Hye Hplans Heq.
      destruct (inv_calling s Hs steps' Hc) as (Hsub' & _ & Hlone).
      pose proof (plans_later steps steps' (ex_known s) h y Hmay Hsub Hnew Hy Hsub' (Hlone y Hy Hye Hplans)).
      congruence.
  - simpl. rewrite Hr, !length_app. simpl. lia.
  - by left.
Qed.

Lemma ex_step_ok s s' : ex_ok s → ex_step s s' → ex_ok s' ∧ (measure s' < measure s)%nat.
Proof.
  intros Hok [n He Hc Hd|steps rep He Hc Hcall|h steps0 steps l1 l2 He Hp H0 H1
    |h steps l1 l2 rep He Hr Hcall|op He Hop].
  - by apply call_ok.
  - by apply reply_ok.
  - by apply (planned_ok s h steps0 steps l1 l2).
  - by apply (result_ok s h steps l1 l2 rep).
  - pose proof (ok_inv s Hok) as Hs. destruct (answer_inv s op Hs Hop) as [Hs' Hnew]. split.
    + constructor; [done|done|]. simpl. congruence.
    + apply (measure_learn _ _ (g_id op) (ans op) Hs'); try done; [simpl; lia|by left].
Qed.

(** Every call in flight has a reply. *)
Lemma in_flight_reply s c : ex_inv s → c ∈ in_flight s → ∃ rep, call c.1 c.2 = Some rep.
Proof.
  intros Hs Hc. unfold in_flight in Hc. apply elem_of_app in Hc as [Hc|Hc].
  - destruct (ex_calling s) as [steps|] eqn:He; [|by apply elem_of_nil in Hc].
    apply list_elem_of_singleton in Hc as ->. destruct (inv_calling s Hs steps He) as (Hsub & _).
    assert (answers_of l steps) as Hk by (by eapply answers_within; [apply inv_known|]). simpl.
    destruct (decide (frontier answer steps false p = [])) as [Hf|Hf].
    + eexists. by apply caller_finishes.
    + destruct (plain_reply steps Hk Hf) as (ops & Hops & _). by eexists.
  - apply list_elem_of_fmap in Hc as ([h steps] & -> & Hin).
    destruct (inv_announced s Hs h steps) as (Hsub & _ & Hmay); [apply elem_of_app; by right|].
    destruct (step_reply steps h) as (pre & y & Hrep & _); [|done|by eexists].
    by eapply answers_within; [apply inv_known|].
Qed.

(** The executor is never stuck: a reply arrives, or there is something to call or answer. *)
Lemma progress s : ex_ok s → ex_done s = None → ∃ s', ex_step s s'.
Proof.
  intros Hok He. pose proof (ok_inv s Hok) as Hs. pose proof (in_flight_reply s) as Hfly.
  unfold in_flight in Hfly. destruct (ex_calling s) as [steps|] eqn:Hc.
  { destruct (Hfly (steps, None)) as [rep Hrep]; [done|left|]. eexists. by eapply ex_reply. }
  destruct (ex_due s) as [|n] eqn:Hd; [|eexists; by eapply ex_call].
  destruct (ok_due s Hok Hd Hc He) as [Hf Hcov].
  set (f := frontier answer (ex_known s) false p) in *.
  destruct f as [|x f'] eqn:Hfx; [done|].
  assert (x ∈ frontier answer (ex_known s) false p) as Hx by (unfold f in Hfx; rewrite Hfx; left).
  pose proof (frontier_waits answer _ _ _ _ Hx) as Hnew.
  destruct (Hcov x) as [Ho|[[j Hj]|([h steps] & Hh & Hin)%list_elem_of_fmap]]; [left|..].
  - eexists. by apply (ex_answer s (view x.2)).
  - congruence.
  - destruct (inv_announced s Hs h steps Hin) as (Hsub & _ & Hmay).
    unfold announced in Hin. apply elem_of_app in Hin as [Hin|Hin].
    + apply list_elem_of_split in Hin as (l1 & l2 & Hin). eexists. by eapply (ex_run s h steps steps).
    + destruct (Hfly (steps, Some h)) as [rep Hrep]; [done| |].
      { simpl. by apply (list_elem_of_fmap_2 (λ x, (x.2, Some x.1)) _ (h, steps)). }
      apply list_elem_of_split in Hin as (l1 & l2 & Hin). eexists. by eapply ex_result.
Qed.

Lemma ex_reachable_ok n s s' : ex_ok s → nsteps ex_step n s s' →
  ex_ok s' ∧ (n + measure s' ≤ measure s)%nat.
Proof.
  intros Hok Hn. induction Hn as [s|n s1 s2 s3 Hstep _ IH]; [split; [done|lia]|].
  destruct (ex_step_ok s1 s2 Hok Hstep) as [Hok2 Hm]. destruct (IH Hok2) as [Hok3 Hm3]. split; [done|lia].
Qed.

(** At the end nothing is in flight. *)
Lemma done_quiet s rep : ex_ok s → ex_done s = Some rep → announced s = [] ∧ ex_open s = [].
Proof.
  intros Hok He. pose proof (ok_inv s Hok) as Hs. destruct (ok_done s Hok rep He) as [_ Hf].
  split.
  - destruct (announced s) as [|[h steps] l'] eqn:Ha; [done|].
    destruct (inv_announced s Hs h steps) as (Hsub & Hnew & x & Hx & _ & Hxh & _); [rewrite Ha; left|].
    assert (x ∈ frontier answer (ex_known s) false p) as Hx'
      by (apply (frontier_mono answer p l r Hi steps); [done..|by rewrite Hxh]).
    rewrite Hf in Hx'. by apply elem_of_nil in Hx'.
  - destruct (ex_open s) as [|op ops] eqn:Ho; [done|].
    destruct (inv_open s Hs op) as (Hop & _ & Hnew); [rewrite Ho; left|].
    apply list_elem_of_fmap in Hop as (o & -> & Hop).
    pose proof (frontier_complete answer p l r Hi _ _ Hf) as Hc. unfold complete in Hc.
    rewrite Forall_forall in Hc. destruct (call_seen o Hop) as [Hg _].
    apply list_elem_of_fmap in Hop as (c & -> & Hc'). destruct (Hc c Hc') as [j Hj]. congruence.
Qed.
End invariant.

(** ** Runs that can be computed *)

Inductive event := ECall | EReply | ERun (h : string) | EResult (h : string) | EAnswer (h : string).

(** The first entry of a list with the key, and the list without it. *)
Fixpoint take_key {A} (h : string) (l : list (string * A)) : option (A * list (string * A)) :=
  match l with
  | [] => None
  | (k, a) :: l =>
      if decide (k = h) then Some (a, l) else (λ x, (x.1, (k, a) :: x.2)) <$> take_key h l
  end.

Lemma take_key_split {A} h (l : list (string * A)) a l' :
  take_key h l = Some (a, l') → ∃ l1 l2, l = l1 ++ (h, a) :: l2 ∧ l' = l1 ++ l2.
Proof.
  revert l'. induction l as [|[k b] l IH]; intros l'; simpl; [done|].
  destruct (decide (k = h)) as [->|]; [intros [= -> ->]; by exists [], l'|].
  intros ([a' l''] & Hl & [= -> ->])%fmap_Some. destruct (IH l'' Hl) as (l1 & l2 & -> & ->).
  by exists ((k, b) :: l1), l2.
Qed.

(** One step, if it is possible; a planned step is called with what was known when it was
    planned. *)
Definition ex_event (s : executor) (e : event) : option executor :=
  match ex_done s, e with
  | Some _, _ => None
  | None, ECall =>
      match ex_calling s, ex_due s with
      | None, S n => Some (set_calls (ex_planned s) (Some (ex_known s)) (ex_running s) n s)
      | _, _ => None
      end
  | None, EReply =>
      match ex_calling s with
      | Some steps =>
          receive_reply steps (set_calls (ex_planned s) None (ex_running s) (ex_due s) s) <$>
            call steps None
      | None => None
      end
  | None, ERun h =>
      match take_key h (ex_planned s) with
      | Some (steps, planned) =>
          Some (set_calls planned (ex_calling s) ((h, steps) :: ex_running s) (ex_due s) s)
      | None => None
      end
  | None, EResult h =>
      match take_key h (ex_running s) with
      | Some (steps, running) =>
          receive_reply steps (set_calls (ex_planned s) (ex_calling s) running (ex_due s) s) <$>
            call steps (Some h)
      | None => None
      end
  | None, EAnswer h => answer_op s ∘ snd <$> list_find (λ op, g_id op = h) (ex_open s)
  end.

Definition ex_events (es : list event) (s : executor) : option executor :=
  foldl (λ s e, s ≫= λ s, ex_event s e) (Some s) es.

Lemma ex_event_step s e s' :
  (∀ h steps, (h, steps) ∈ ex_planned s → steps ⊆ ex_known s) →
  ex_event s e = Some s' → ex_step s s'.
Proof.
  intros Hsub. unfold ex_event. destruct (ex_done s) eqn:Hdone; [done|].
  destruct e as [| |h|h|h].
  - destruct (ex_calling s) eqn:Hc; [done|]. destruct (ex_due s) as [|n] eqn:Hdue; [done|].
    intros [= <-]. by apply ex_call.
  - destruct (ex_calling s) as [steps|] eqn:Hc; [|done]. intros (rep & Hrep & ->)%fmap_Some.
    by apply ex_reply.
  - destruct (take_key h (ex_planned s)) as [[steps l']|] eqn:Ht; [|done]. intros [= <-].
    apply take_key_split in Ht as (l1 & l2 & Hl & ->).
    eapply ex_run; [done|exact Hl|done|]. apply (Hsub h). rewrite Hl. apply elem_of_app. right. left.
  - destruct (take_key h (ex_running s)) as [[steps l']|] eqn:Ht; [|done].
    apply take_key_split in Ht as (l1 & l2 & Hl & ->). intros (rep & Hrep & ->)%fmap_Some.
    by eapply ex_result.
  - intros ([i op] & (Hin & _ & _)%list_find_Some & ->)%fmap_Some.
    apply list_elem_of_lookup_2 in Hin. by apply ex_answer.
Qed.

Lemma ex_events_steps req p l r fin es s s' :
  View → Caller req p l fin → ideal answer p = Some (l, r) → NoDup (g_id <$> l.*2) →
  ex_ok req p l fin s → ex_events es s = Some s' → nsteps ex_step (length es) s s'.
Proof.
  intros Hview Hcaller Hi Hids. revert s. unfold ex_events.
  induction es as [|e es IH]; intros s Hok; simpl; [intros [= <-]; constructor|].
  destruct (ex_event s e) as [s1|] eqn:He; simpl.
  2: { assert (∀ es, foldl (λ s e, s ≫= λ s, ex_event s e) None es = None) as ->; [|done].
       clear. by induction es. }
  apply ex_event_step in He.
  2: { intros h steps Hin. eapply (inv_announced req p l s (ok_inv req p l fin s Hok) h).
       apply elem_of_app. by left. }
  intros Hes. econstructor; [exact He|]. apply IH; [|done]. by eapply (ex_step_ok req p l r).
Qed.

(** What every run of the executor has: it is short, no step has run twice, it is not stuck,
    and if it has ended it has ended with [fin], nothing is planned, in flight or open, every
    step has run, and every call has its answer. *)
Record run_ok (l : calls) (fin : R) (n : nat) (s : executor) : Prop := {
  run_short : (n ≤ 4 * length l + 3)%nat;
  run_once : NoDup (ex_ran s) ∧ ∀ op, op ∈ ex_ran s → op ∈ view <$> l.*2 ∧ executed op = true;
  run_goes_on : ex_done s = None → ∃ s', ex_step s s';
  run_ends rep : ex_done s = Some rep →
    rep = fin ∧ announced s = [] ∧ ex_open s = [] ∧
    ex_ran s ≡ₚ filter (λ op, executed op = true) (view <$> l.*2) ∧
    ∀ op, op ∈ view <$> l.*2 → ex_known s !! g_id op = Some (ans op) }.

(** Every schedule gives the same execution, whatever the function is called over. *)
Lemma caller_runs req p l r fin n s :
  View → Caller req p l fin → ideal answer p = Some (l, r) → NoDup (g_id <$> l.*2) →
  nsteps ex_step n ex_start s → run_ok l fin n s.
Proof.
  intros Hview Hcaller Hi Hids Hn.
  destruct (ex_reachable_ok req p l r fin Hview Hcaller Hi Hids n ex_start s) as [Hok Hm];
    [by apply start_ok|done|].
  pose proof (ok_inv _ _ _ _ s Hok) as Hs. split.
  - unfold measure in Hm. simpl in Hm. rewrite map_size_empty in Hm. lia.
  - split; [by eapply inv_ran|]. intros op Hop. by eapply inv_ran_iff in Hop as (? & ? & _).
  - by apply (progress req p l r fin).
  - intros rep Hrep. destruct (ok_done _ _ _ _ s Hok rep Hrep) as [-> Hf].
    destruct (done_quiet req p l r fin Hview Hi s fin Hok Hrep) as [Hann Hopen].
    pose proof (frontier_complete answer p l r Hi _ _ Hf) as Hc. unfold complete in Hc.
    rewrite Forall_forall in Hc.
    assert (∀ op, op ∈ view <$> l.*2 → ex_known s !! g_id op = Some (ans op)) as Hknown.
    { intros op (o & -> & ([id o'] & -> & Hio)%list_elem_of_fmap)%list_elem_of_fmap. simpl.
      destruct (Hc _ Hio) as [j Hj]. simpl in Hj.
      pose proof (answers_consistent p l r Hview Hi Hids (ex_known s) (inv_known _ _ _ s Hs)) as Hcons.
      unfold consistent in Hcons. rewrite Forall_forall in Hcons. specialize (Hcons _ Hio j Hj).
      simpl in Hcons. apply (list_elem_of_fmap_2 snd) in Hio.
      destruct (call_seen p l r Hview Hi o' Hio) as [-> _]. by rewrite Hj, Hcons. }
    split_and!; [done..| |done]. apply NoDup_Permutation; [by eapply inv_ran| |].
    + apply NoDup_filter. apply (NoDup_fmap_1 g_id).
      by rewrite (seen_ids p l r Hview Hi).
    + intros op. rewrite (inv_ran_iff req p l s Hs), list_elem_of_filter. split; [naive_solver|].
      intros [Hex Hop]. split_and!; [done..|]. rewrite Hknown by done. by eexists.
Qed.
End executor.
