(* ===== verification/Configs.v ===== *)
(** * Function configurations (createFunctionConfigs in handler.go)

    What is registered for each function, with the URL the executor calls. *)

From S2P Require Import Prelude GoBytes GoUrl GoUrlParse UrlText GoTime GoHttp Env Errors Step Program.
From S2P Require Import Functions Handler.

Open Scope Z_scope.

(** [inngest.Debounce], [sdk.SDKStep] and [sdk.SDKFunction] of the vendored packages. *)
Record DebounceCfg := {
  dc_key : option string; dc_period : string; dc_timeout : option string }.

Record SDKStep := {
  ss_id : string; ss_name : string; ss_retries : option Z; ss_url : string }.

Record SDKFunction := {
  cf_name : string;
  cf_slug : string;
  cf_triggers : list TriggerT;
  cf_concurrency : option (list Concurrency);
  cf_priority : option Priority;
  cf_eventBatch : option EventBatchConfig;
  cf_idempotency : option string;
  cf_rateLimit : option RateLimitCfg;
  cf_throttle : option Throttle;
  cf_debounce : option DebounceCfg;
  cf_timeouts : option TimeoutsCfg;
  cf_cancel : list CancelT;
  cf_step : SDKStep }.

(** A failure of the loop: an error, or a panic. *)
Inductive cfg_failure := CfgError (e : goerr) | CfgPanic (text : string).

Definition nil_deref : string := "runtime error: invalid memory address or nil pointer dereference".

(** The triggers that are registered: [Trigger.Triggers] is the trigger itself, and
    one that is not an event must be a schedule. *)
Definition config_trigger (t : TriggerT) : res cfg_failure (list TriggerT) :=
  match tr_event t with
  | Some e => Ok [EventTrigger (et_event e) (et_expression e)]
  | None =>
      match tr_cron t with
      | Some c => Ok [CronTrigger (ct_cron c)]
      | None => Err (CfgPanic nil_deref)
      end
  end.

(** The query of a function's URL. *)
Definition function_query (slug rawQuery : string) : string :=
  values_encode (values_set "step" "step" (values_set "fnId" slug (url_query rawQuery))).

Section configs.
Context {V : Type}.

Definition function_config (appName : string) (fn : ServableFunction V) (appURL : url) :
  res cfg_failure SDKFunction :=
  let c := Config fn in
  try triggers <- config_trigger (Trigger fn) ;
  Ok {| cf_name := Name fn;
        cf_slug := Slug fn appName;
        cf_triggers := triggers;
        cf_concurrency := match fo_concurrency c with [] => None | l => Some l end;
        cf_priority := fo_priority c;
        cf_eventBatch := fo_batchEvents c;
        cf_idempotency := fo_idempotency c;
        cf_rateLimit := GetRateLimit c;
        cf_throttle := fo_throttle c;
        cf_debounce := (λ d, {| dc_key := Some (deb_key d);
                                dc_period := duration_string (deb_period d);
                                dc_timeout := duration_string <$> deb_timeout d |}) <$> fo_debounce c;
        cf_timeouts := GetTimeouts c;
        cf_cancel := fo_cancel c;
        cf_step := {| ss_id := "step"; ss_name := Name fn; ss_retries := fo_retries c;
                      ss_url := url_string appURL |} |}.

(** The loop; the query of [appURL] is set again for every function, on top of the
    one before. *)
Fixpoint configs_loop (appName : string) (fns : list (ServableFunction V)) (appURL : url) :
  res cfg_failure (list SDKFunction) :=
  match fns with
  | [] => Ok []
  | fn :: fns =>
      let appURL := set_RawQuery (function_query (Slug fn appName) (u_RawQuery appURL)) appURL in
      try f <- function_config appName fn appURL ;
      try fs <- configs_loop appName fns appURL ;
      Ok (f :: fs)
  end.

Definition createFunctionConfigs (appName : string) (fns : list (ServableFunction V)) (appURL : url)
  (isConnect : bool) : res cfg_failure (list SDKFunction) :=
  if str_empty appName then Err (CfgError (EText "missing app name"))
  else if negb isConnect && bool_decide (appURL = zero_url) then
    Err (CfgError (EText "missing URL"))
  else configs_loop appName fns appURL.

(** ** The URLs *)

(** The URL of a function: the app's with [fnId] and [step] set in its query. *)
Definition is_function_url (appName : string) (appURL : url) (fn : ServableFunction V) (u : url) :
  Prop :=
  (∃ q, u = set_RawQuery q appURL ∧ str_all query_byte q = true) ∧
  values_get "fnId" (url_query (u_RawQuery u)) = Slug fn appName ∧
  values_get "step" (url_query (u_RawQuery u)) = "step" ∧
  ∀ k, k ∉ ["fnId"; "step"] →
    url_query (u_RawQuery u) !! k = url_query (u_RawQuery appURL) !! k.

Lemma function_query_spec slug raw :
  url_query (function_query slug raw) =
  values_set "step" "step" (values_set "fnId" slug (url_query raw)).
Proof.
  unfold function_query. unfold url_query at 1. rewrite parse_query_encode; [done|].
  unfold values_set. apply map_Forall_insert_2; [done|]. apply map_Forall_insert_2; [done|].
  apply parse_query_nonempty.
Qed.

Lemma is_function_url_next appName appURL fn slug u :
  is_function_url appName (set_RawQuery (function_query slug (u_RawQuery appURL)) appURL) fn u →
  is_function_url appName appURL fn u.
Proof.
  intros ((q & -> & Hq) & Hfn & Hstep & Hother). split_and!; [by exists q|done|done|].
  intros k Hk. rewrite Hother by done. simpl. rewrite function_query_spec. unfold values_set.
  rewrite !lookup_insert_ne by set_solver. done.
Qed.

Lemma is_function_url_own appName appURL (fn : ServableFunction V) :
  is_function_url appName appURL fn
    (set_RawQuery (function_query (Slug fn appName) (u_RawQuery appURL)) appURL).
Proof.
  split_and!; [eexists; split; [done|apply values_encode_bytes]|..]; simpl;
    rewrite function_query_spec.
  - rewrite values_get_set_ne by done. apply values_get_set.
  - apply values_get_set.
  - intros k Hk. unfold values_set. rewrite !lookup_insert_ne by set_solver. done.
Qed.

(** The text of the URL of a function is parsed back to it. *)
Lemma function_url_text appName appURL fn u :
  web_url appURL → is_function_url appName appURL fn u → url_parse (url_string u) = Some u.
Proof.
  intros [? ? ? ? ?] ((q & -> & Hq) & _). apply web_url_round_trip. split; try done.
  eapply str_all_weaken; [exact query_byte_text|exact Hq].
Qed.

(** What the configuration of a function must be. *)
Definition is_config (appName : string) (appURL : url) (fn : ServableFunction V) (c : SDKFunction) :
  Prop :=
  ∃ u triggers, config_trigger (Trigger fn) = Ok triggers ∧ cf_triggers c = triggers ∧
    cf_slug c = Slug fn appName ∧ cf_name c = Name fn ∧
    ss_retries (cf_step c) = fo_retries (Config fn) ∧
    ss_url (cf_step c) = url_string u ∧ is_function_url appName appURL fn u.

Lemma configs_loop_spec appName fns appURL cfgs :
  configs_loop appName fns appURL = Ok cfgs → Forall2 (is_config appName appURL) fns cfgs.
Proof.
  revert appURL cfgs. induction fns as [|fn fns IH]; intros appURL cfgs; simpl.
  { by intros [= <-]. }
  set (q := function_query _ _). unfold function_config.
  destruct (config_trigger (Trigger fn)) as [triggers|] eqn:Ht; [|done]. simpl.
  destruct (configs_loop _ _ _) as [fs|] eqn:Hfs; [|done]. simpl. intros [= <-].
  constructor.
  - exists (set_RawQuery q appURL), triggers. split_and!; try done. apply is_function_url_own.
  - eapply Forall2_impl; [by apply IH|]. intros f c (u & t & ? & ? & ? & ? & ? & ? & Hu).
    exists u, t. split_and!; try done. by eapply is_function_url_next.
Qed.

Lemma createFunctionConfigs_spec appName fns appURL isConnect cfgs :
  createFunctionConfigs appName fns appURL isConnect = Ok cfgs →
  Forall2 (is_config appName appURL) fns cfgs.
Proof.
  unfold createFunctionConfigs. destruct (str_empty appName); [done|].
  destruct (_ && _); [done|]. apply configs_loop_spec.
Qed.

(** The first function with its own slug is found under it. *)
Lemma find_function_own (h : handler V) fn :
  fn ∈ h_funcs h → NoDup ((λ f, Slug f (h_appName h)) <$> h_funcs h) →
  (∀ g, g ∈ h_funcs h → Slug g "" = Slug fn (h_appName h) →
        Slug g (h_appName h) = Slug fn (h_appName h)) →
  find_function h (Slug fn (h_appName h)) = Some fn.
Proof.
  unfold find_function. intros Hin Hnd Hold.
  destruct (go_find _ _) as [f|] eqn:Hf.
  - apply go_find_Some in Hf as (l1 & l2 & Hl & Hf & _). f_equal.
    assert (f ∈ h_funcs h) as Hfin by (rewrite Hl; set_solver).
    assert (Slug f (h_appName h) = Slug fn (h_appName h)) as Hs.
    { apply orb_true_iff in Hf as [Hf|Hf]; apply bool_decide_eq_true in Hf; [done|by apply Hold]. }
    apply list_elem_of_lookup in Hin as [i Hi], Hfin as [j Hj].
    assert (j = i) as ->; [|congruence].
    eapply (NoDup_lookup _ _ _ (Slug fn (h_appName h)) Hnd); rewrite list_lookup_fmap.
    + by rewrite Hj, <- Hs.
    + by rewrite Hi.
  - apply go_find_None in Hf. rewrite Forall_forall in Hf. specialize (Hf fn Hin). simpl in Hf.
    by rewrite bool_decide_eq_true_2 in Hf.
Qed.

(** C18: registering round-trips through URLs.  Every function is registered under
    its slug, with its triggers and retries, at the app's URL with [fnId] and [step]
    added to its query and every other parameter kept; the text that is registered
    parses back to that URL, for the URL of a web server; and a request whose URL
    carries its query is dispatched to the same function, as long as slugs are distinct
    and none is the unprefixed slug of another function. *)
Theorem function_urls_dispatch (h : handler V) appURL cfgs :
  createFunctionConfigs (h_appName h) (h_funcs h) appURL false = Ok cfgs →
  NoDup ((λ f, Slug f (h_appName h)) <$> h_funcs h) →
  (∀ f g, f ∈ h_funcs h → g ∈ h_funcs h → Slug g "" = Slug f (h_appName h) →
          Slug g (h_appName h) = Slug f (h_appName h)) →
  Forall2 (λ fn c, cf_slug c = Slug fn (h_appName h) ∧
    ss_retries (cf_step c) = fo_retries (Config fn) ∧
    config_trigger (Trigger fn) = Ok (cf_triggers c) ∧
    ∃ u, ss_url (cf_step c) = url_string u ∧ is_function_url (h_appName h) appURL fn u ∧
         (web_url appURL → url_parse (ss_url (cf_step c)) = Some u) ∧
         find_function h (values_get "fnId" (url_query (u_RawQuery u))) = Some fn)
    (h_funcs h) cfgs.
Proof.
  intros Hcfg Hnd Hold. apply createFunctionConfigs_spec in Hcfg.
  apply Forall2_same_length_lookup_2; [by eapply Forall2_length|].
  intros i fn c Hfn Hc.
  destruct (Forall2_lookup_lr _ _ _ _ _ _ Hcfg Hfn Hc) as (u & t & ? & -> & ? & ? & ? & Htext & Hu).
  split_and!; try done. exists u. split_and!; try done.
  { intros Hweb. rewrite Htext. by eapply function_url_text. }
  destruct Hu as (_ & -> & _).
  apply list_elem_of_lookup_2 in Hfn. apply find_function_own; auto.
Qed.
End configs.

(** ** Example *)

Definition shop : handler unit :=
  {| h_opts := zero_opts; h_appName := "shop";
     h_funcs := [constant_function "pay"; constant_function "ship"] |}.

Definition shop_url : url :=
  {| u_Scheme := "https"; u_Opaque := ""; u_User := None; u_Host := "shop.example";
     u_Path := "/api/inngest"; u_RawPath := ""; u_OmitHost := false; u_ForceQuery := false;
     u_RawQuery := "tenant=a%20b"; u_Fragment := ""; u_RawFragment := "" |}.

Definition shop_configs : list SDKFunction :=
  match createFunctionConfigs "shop" (h_funcs shop) shop_url false with Ok c => c | Err _ => [] end.

Example shop_urls :
  ss_url ∘ cf_step <$> shop_configs =
  ["https://shop.example/api/inngest?fnId=shop-pay&step=step&tenant=a+b";
   "https://shop.example/api/inngest?fnId=shop-ship&step=step&tenant=a+b"].
Proof. vm_compute. reflexivity. Qed.

Lemma shop_web : web_url shop_url.
Proof.
  split; [by exists "h"%char, "ttps"|by split_and!|right; by eexists|done|by split_and!].
Defined.

Lemma function_urls_dispatch_witness :
  web_url shop_url ∧
  createFunctionConfigs (h_appName shop) (h_funcs shop) shop_url false = Ok shop_configs ∧
  NoDup ((λ f, Slug f (h_appName shop)) <$> h_funcs shop) ∧
  (∀ f g, f ∈ h_funcs shop → g ∈ h_funcs shop → Slug g "" = Slug f (h_appName shop) →
          Slug g (h_appName shop) = Slug f (h_appName shop)) ∧
  Forall2 (λ fn c, cf_slug c = Slug fn (h_appName shop) ∧
    ss_retries (cf_step c) = fo_retries (Config fn) ∧
    config_trigger (Trigger fn) = Ok (cf_triggers c) ∧
    ∃ u, ss_url (cf_step c) = url_string u ∧ is_function_url (h_appName shop) shop_url fn u ∧
         (web_url shop_url → url_parse (ss_url (cf_step c)) = Some u) ∧
         find_function shop (values_get "fnId" (url_query (u_RawQuery u))) = Some fn)
    (h_funcs shop) shop_configs.
Proof.
  assert (createFunctionConfigs (h_appName shop) (h_funcs shop) shop_url false = Ok shop_configs)
    as Hc by (vm_compute; reflexivity).
  assert (NoDup ((λ f, Slug f (h_appName shop)) <$> h_funcs shop)) as Hnd
    by (apply (bool_decide_unpack _); vm_compute; exact I).
  assert (∀ f g, f ∈ h_funcs shop → g ∈ h_funcs shop → Slug g "" = Slug f (h_appName shop) →
          Slug g (h_appName shop) = Slug f (h_appName shop)) as Hold.
  { intros f g Hf Hg. simpl in Hf, Hg. rewrite !elem_of_cons, elem_of_nil in Hf, Hg.
    destruct Hf as [->|[->|[]]], Hg as [->|[->|[]]]; vm_compute; congruence. }
  split; [exact shop_web|]. split; [exact Hc|]. split; [exact Hnd|]. split; [exact Hold|].
  exact (function_urls_dispatch shop shop_url shop_configs Hc Hnd Hold).
Defined.
