(* ===== verification/Serve.v ===== *)
(** * Serving requests: invocations, inspections and trust probes (handler.go)

    The handlers behind GET and POST.  A handler takes the response writer and ends
    with the writer and the error it returns, or panics. *)

From S2P Require Import Prelude GoBytes GoUrl GoUrlParse GoTime GoJson GoHttp Env Errors.
From S2P Require Import Signature Manager Step Program Functions Handler Invoke.

Open Scope Z_scope.

(** What a handler returns: the writer and a nillable error. *)
Definition handled : Type := outcome (writer * option goerr).

Definition bool_json (b : bool) : json := JBool b.
Definition opt_string (s : option string) : json := match s with Some s => JStr s | None => JNull end.

(** A [*time.Time]. *)
Definition opt_time (t : option time) : option json :=
  match t with None => Some JNull | Some t => JStr <$> marshal_time t end.

(** [type StreamResponse struct] *)
Definition StreamResponse_json (status : Z) (body : json) (noRetry : bool) (retryAt : option time) :
  option json :=
  r ← opt_time retryAt;
  Some (JObj [("status", jint status); ("body", body); ("retryAt", r); ("noRetry", JBool noRetry);
              ("headers", JNull)]).

(** [trustProbeResponse]: the error is left out when it is nil. *)
Definition trustProbeResponse_json (error : option string) : json :=
  JObj (match error with Some e => [("error", JStr e)] | None => [] end).

(** [sdkrequest.ErrorResponse] *)
Definition ErrorResponse_json (message : string) : json := JObj [("message", JStr message)].

(** ** publicerr (vendored) *)

(** [publicerr.Error] as it is marshalled. *)
Definition public_json (code message : string) (status : Z) : json :=
  JObj ((if str_empty code then [] else [("code", JStr code)]) ++
        [("error", JStr message); ("data", JNull); ("status", jint status)]).

(** [publicerr.WriteHTTP]: an error of another type has no exported field. *)
Definition WriteHTTP (e : goerr) (w : writer) : writer :=
  match e with
  | EPublic code message status _ =>
      write_json (Some (public_json code message status)) (WriteHeader status w)
  | _ => write_json (Some (JObj [])) w
  end.

(** The error of the trust probe as a [publicerr.Error] with a status; [None] when
    its message has to be computed and that panics. *)
Definition as_public (e : goerr) : option goerr :=
  let fix_status perr :=
    match perr with
    | EPublic code message status err =>
        EPublic code message (if status =? 0 then 500 else status) err
    | e => e
    end in
  match err_find (λ e, match e with EPublic _ _ _ _ => Some e | _ => None end) e with
  | Some perr => Some (fix_status perr)
  | None => match err_msg e with Some msg => Some (EPublic "" msg 500 (Some e)) | None => None end
  end.

(** ** Inspections *)

Record insecureInspection := {
  ii_SchemaVersion : string;
  ii_AuthenticationSucceeded : option bool;
  ii_FunctionCount : Z;
  ii_HasEventKey : bool;
  ii_HasSigningKey : bool;
  ii_HasSigningKeyFallback : bool;
  ii_Mode : string }.

(** [si_insecure] is embedded: its fields are written as fields of the whole. *)
Record secureInspection := {
  si_insecure : insecureInspection;
  si_APIOrigin : string;
  si_AppID : string;
  si_Env : option string;
  si_EventAPIOrigin : string;
  si_EventKeyHash : option string;
  si_Framework : string;
  si_SDKLanguage : string;
  si_SDKVersion : string;
  si_ServeOrigin : option string;
  si_ServePath : option string;
  si_SigningKeyFallbackHash : option string;
  si_SigningKeyHash : option string }.

Definition capabilities : json :=
  JObj [("in_band_sync", JStr "v1"); ("trust_probe", JStr "v1"); ("connect", JStr "v1")].

Definition insecureInspection_fields (i : insecureInspection) : list (string * json) :=
  [("schema_version", JStr (ii_SchemaVersion i));
   ("authentication_succeeded",
      match ii_AuthenticationSucceeded i with Some b => JBool b | None => JNull end);
   ("function_count", jint (ii_FunctionCount i));
   ("has_event_key", JBool (ii_HasEventKey i));
   ("has_signing_key", JBool (ii_HasSigningKey i));
   ("has_signing_key_fallback", JBool (ii_HasSigningKeyFallback i));
   ("mode", JStr (ii_Mode i))].

Definition insecureInspection_json (i : insecureInspection) : json := JObj (insecureInspection_fields i).

(** The capabilities are the constant of the package. *)
Definition secureInspection_json (i : secureInspection) : json :=
  JObj (insecureInspection_fields (si_insecure i) ++
    [("api_origin", JStr (si_APIOrigin i)); ("app_id", JStr (si_AppID i));
     ("capabilities", capabilities); ("env", opt_string (si_Env i));
     ("event_api_origin", JStr (si_EventAPIOrigin i));
     ("event_key_hash", opt_string (si_EventKeyHash i));
     ("framework", JStr (si_Framework i)); ("sdk_language", JStr (si_SDKLanguage i));
     ("sdk_version", JStr (si_SDKVersion i)); ("serve_origin", opt_string (si_ServeOrigin i));
     ("serve_path", opt_string (si_ServePath i));
     ("signing_key_fallback_hash", opt_string (si_SigningKeyFallbackHash i));
     ("signing_key_hash", opt_string (si_SigningKeyHash i))]).

Section serve.
Context {V : Type}.
Implicit Types h : handler V.

(** The environment, the canonicaliser of signatures, the type [map[string]any],
    the text of a stack trace, [json.Marshal] on a response, and the clock. *)
Context (Getenv : string → string) (jcs : string → option string).
Context (map_type : gotype V) (stack : string) (marshal_any : V → option json) (now : time).

Abbreviation dev h := (isDev Getenv (h_opts h)).
Abbreviation signingKey h := (GetSigningKey Getenv (h_opts h)).
Abbreviation fallbackKey h := (GetSigningKeyFallback Getenv (h_opts h)).

(** The limit of a request body. *)
Definition max_body h : Z :=
  if ho_MaxBodySize (h_opts h) =? 0 then DefaultMaxBodySize else ho_MaxBodySize (h_opts h).

Definition query_get (k : string) (r : http_request) : string :=
  values_get k (url_query (u_RawQuery (hr_url r))).

(** ** handler.invoke *)

(** The error text of decoding the request is not modelled. *)
Definition errDecode : goerr := EText "json: cannot unmarshal request".

(** The heartbeats of a streaming response: spaces written before the function is
    done, and after (the goroutine may be between its check and its write). *)
Record heartbeats := { hb_before : nat; hb_after : bool }.

Definition start_stream (hb : heartbeats) (w : writer) : writer :=
  let w := WriteHeader 201 w in
  if decide (hb_before hb = 0%nat) then w else Write (str_repeat (hb_before hb) " ") w.

Definition end_stream (hb : heartbeats) (w : writer) : writer :=
  if hb_after hb then Write " " w else w.

Definition encoded (j : option json) (w : writer) : writer * option goerr :=
  (write_json j w, match j with Some _ => None | None => Some errMarshal end).

Definition marshal_response (v : option V) : option json :=
  match v with Some v => marshal_any v | None => Some JNull end.

Definition ops_json (ops : list GeneratorOpcode) : json := JArr (GeneratorOpcode_json <$> ops).

(** The reply after the function has been called, while streaming. *)
Definition stream_reply (i : invocation V) (w : writer) : handled :=
  let '(noRetry, retryAt, err) := settle (inv_ops i) (inv_err i) in
  match err with
  | Some e =>
      match err_msg e with
      | None => Panic (UserPanic "runtime error: invalid memory address or nil pointer dereference")
      | Some msg =>
          Return (encoded (StreamResponse_json 500 (JStr ("error calling function: " +:+ msg))
                             noRetry retryAt) w)
      end
  | None =>
      match inv_ops i with
      | [] => Return (encoded (b ← marshal_response (inv_response i);
                               StreamResponse_json 200 b false None) w)
      | ops => Return (encoded (StreamResponse_json 206 (ops_json ops) false None) w)
      end
  end.

Definition retry_headers (noRetry : bool) (retryAt : option time) (w : writer) : writer :=
  let w := if noRetry then edit_header (header_add HeaderKeyNoRetry "true") w else w in
  match retryAt with
  | Some t => edit_header (header_add HeaderKeyRetryAfter (format_rfc3339 t)) w
  | None => w
  end.

(** The reply after the function has been called, without streaming. *)
Definition plain_reply (i : invocation V) (w : writer) : writer * option goerr :=
  let '(noRetry, retryAt, err) := settle (inv_ops i) (inv_err i) in
  let w := retry_headers noRetry retryAt w in
  match err with
  | Some e => (w, Some e)
  | None =>
      match inv_ops i with
      | [] => encoded (marshal_response (inv_response i)) w
      | ops => encoded (Some (ops_json ops)) (WriteHeader 206 w)
      end
  end.

Definition target_of (r : http_request) : option string :=
  let rawStepID := query_get "stepId" r in
  if negb (str_empty rawStepID) && negb (bool_decide (rawStepID = "step"))
  then Some rawStepID else None.

Definition handler_invoke h (hb : heartbeats) (r : http_request) (w : writer) : handled :=
  let sig := if dev h then "" else header_get HeaderKeySignature (hr_header r) in
  if negb (dev h) && str_empty sig then Return (w, Some (ESentinel ErrUnauthorized))
  else
    let '(w, byt) := read_all (max_body h) (hr_body r) w in
    match byt with
    | Err e => Return (w, Some (errorf "" (ESentinel ErrBadRequest) (": " +:+ fmt_err "s" e)))
    | Ok byt =>
        let '(valid, _, _) := ValidateRequestSignature jcs now sig (signingKey h) (fallbackKey h)
                                byt (dev h) in
        if negb valid then Return (w, Some (ESentinel ErrUnauthorized))
        else
          let fnID := query_get "fnId" r in
          match unmarshal_Request byt with
          | None =>
              Return (w, Some (errorf "" (ESentinel ErrBadRequest) (": " +:+ fmt_err "s" errDecode)))
          | Some request =>
              match find_function h fnID with
              | None =>
                  Return (w, Some (errorf "" (ESentinel ErrFunctionMissing) (": " +:+ fnID)))
              | Some fn =>
                  let streaming := ho_UseStreaming (h_opts h) in
                  let w := if streaming then start_stream hb w else w in
                  match invoke map_type stack fn request (target_of r) with
                  | Panic p => Panic p
                  | Return i =>
                      if streaming then
                        match stream_reply i w with
                        | Return (w, err) => Return (end_stream hb w, err)
                        | Panic p => Panic p
                        end
                      else Return (plain_reply i w)
                  end
              end
          end
    end.

(** ** Making an inspection *)

Definition createInsecureInspection h (authenticationSucceeded : option bool) : insecureInspection :=
  {| ii_SchemaVersion := "2024-05-24";
     ii_AuthenticationSucceeded := authenticationSucceeded;
     ii_FunctionCount := Z.of_nat (length (h_funcs h));
     ii_HasEventKey := negb (str_empty (Getenv "INNGEST_EVENT_KEY"));
     ii_HasSigningKey := negb (str_empty (signingKey h));
     ii_HasSigningKeyFallback := negb (str_empty (fallbackKey h));
     ii_Mode := if dev h then "dev" else "cloud" |}.

(** The hash of a key that may be unset. *)
Definition key_hash (what key : string) : res goerr (option string) :=
  if str_empty key then Ok None
  else match hashedSigningKey key with
       | Some k => Ok (Some k)
       | None => Err (errorf ("error hashing " +:+ what +:+ ": ") (EText "encoding/hex: invalid") "")
       end.

Definition createSecureInspection h : res goerr secureInspection :=
  let apiOrigin := if dev h then DevServerURL Getenv else defaultAPIOrigin in
  let eventAPIOrigin := if dev h then DevServerURL Getenv else defaultEventAPIOrigin in
  let eventKey := Getenv "INNGEST_EVENT_KEY" in
  try signingKeyHash <- key_hash "signing key" (signingKey h) ;
  try signingKeyFallbackHash <- key_hash "signing key fallback" (fallbackKey h) ;
  let env := GetEnv Getenv (h_opts h) in
  let URL := ho_URL (h_opts h) in
  Ok {| si_insecure := createInsecureInspection h (Some true);
        si_APIOrigin := apiOrigin;
        si_AppID := h_appName h;
        si_Env := if str_empty env then None else Some env;
        si_EventAPIOrigin := eventAPIOrigin;
        si_EventKeyHash := if str_empty eventKey then None else Some (hashEventKey eventKey);
        si_Framework := "";
        si_SDKLanguage := SDKLanguage;
        si_SDKVersion := SDKVersion;
        si_ServeOrigin := (λ u, u_Scheme u +:+ "://" +:+ u_Host u) <$> URL;
        si_ServePath := u_Path <$> URL;
        si_SigningKeyFallbackHash := signingKeyFallbackHash;
        si_SigningKeyHash := signingKeyHash |}.

Definition inspect h (r : http_request) (w : writer) : writer * option goerr :=
  let sig := header_get HeaderKeySignature (hr_header r) in
  let '(valid, _, _) :=
    if str_empty sig then (false, "", None)
    else ValidateRequestSignature jcs now sig (signingKey h) (fallbackKey h) "" (dev h) in
  if valid then
    match createSecureInspection h with
    | Err e => (w, Some e)
    | Ok inspection =>
        encoded (Some (secureInspection_json inspection))
          (edit_header (header_set HeaderKeyContentType "application/json") w)
    end
  else
    let authenticationSucceeded := if str_empty sig then None else Some false in
    encoded (Some (insecureInspection_json (createInsecureInspection h authenticationSucceeded)))
      (edit_header (header_set HeaderKeyContentType "application/json") w).

(** ** Trust probe *)

Definition trust h (r : http_request) (w : writer) : writer * option goerr :=
  if dev h then (WriteHeader 200 w, None)
  else
    let w := edit_header (header_add "Content-Type" "application/json") w in
    let sig := header_get HeaderKeySignature (hr_header r) in
    if str_empty sig then
      (w, Some (EPublic "" ("missing " +:+ HeaderKeySignature +:+ " header") 401 None))
    else
      let '(w, byt) := read_all (max_body h) (hr_body r) w in
      match byt with
      | Err e =>
          (w, Some (EPublic "" ("error decoding function request: " +:+ fmt_err "s" e) 400 None))
      | Ok byt =>
          match ValidateRequestSignature jcs now sig (signingKey h) (fallbackKey h) byt (dev h) with
          | (_, _, Some e) =>
              (w, Some (EPublic "" ("error validating signature: " +:+ fmt_err "s" e) 401 None))
          | (false, _, None) => (w, Some (EPublic "" "invalid signature" 401 None))
          | (true, key, None) =>
              let byt := json_print (trustProbeResponse_json None) in
              let resSig := signWithoutJCS now now key byt in
              let w := edit_header (header_add "X-Inngest-Signature" resSig) w in
              (Write byt (WriteHeader 200 w), None)
          end
      end.
End serve.
