(* ===== verification/Sync.v ===== *)
(** * Synchronisation and the HTTP entry point (handler.go, net.go)

    In-band and out-of-band registration, the authenticated request with its
    fallback key, and [ServeHTTP], which turns the errors of every handler into
    responses. *)

From S2P Require Import Prelude GoBytes GoUrl GoUrlParse GoTime GoJson JsonWire GoFloat GoHttp Env Errors.
From S2P Require Import Signature Manager Step Program Functions Handler Invoke Configs Serve.

Open Scope Z_scope.

(** ** Outgoing requests (net.go) *)

Record out_request := { or_method : method; or_url : string; or_header : header; or_body : string }.

(** A response: its status and what can be read of its body. *)
Record out_response := { os_status : Z; os_body : string }.

Section fetch.
(** The network: how the n-th request is answered. *)
Context (Do : nat → out_request → res goerr out_response).

(** The [Authorization] header for a signing key. *)
Definition authorize (key : string) (r : out_request) : res goerr out_request :=
  match hashedSigningKey key with
  | None => Err (errorf "error creating signing key: " (EText "encoding/hex: invalid") "")
  | Some k =>
      Ok {| or_method := or_method r; or_url := or_url r;
            or_header := header_set HeaderKeyAuthorization ("Bearer " +:+ k) (or_header r);
            or_body := or_body r |}
  end.

Definition unauthorized (status : Z) : bool := (status =? 401) || (status =? 403).

(** The requests that were sent, and the response or error. *)
Definition fetchWithAuthFallback (createRequest : res goerr out_request)
  (signingKey signingKeyFallback : string) : list out_request * res goerr out_response :=
  let prepared := res_map_err (λ e, errorf "error creating request: " e "") createRequest in
  let do n req := res_map_err (λ e, errorf "error making request: " e "") (Do n req) in
  match (try req <- prepared ;
         if str_empty signingKey then Ok req else authorize signingKey req) with
  | Err e => ([], Err e)
  | Ok req =>
      match do 0%nat req with
      | Err e => ([req], Err e)
      | Ok resp =>
          if unauthorized (os_status resp) && negb (str_empty signingKeyFallback) then
            match (try req <- prepared ; authorize signingKeyFallback req) with
            | Err e => ([req], Err e)
            | Ok req' => ([req; req'], do 1%nat req')
            end
          else ([req], Ok resp)
      end
  end.
End fetch.

Section sync.
Context {V : Type}.
Implicit Types h : handler V.
Context (Getenv : string → string) (jcs : string → option string).
Context (map_type : gotype V) (stack : string) (marshal_any : V → option json) (now : time).

(** The JSON of the vendored configuration types ([None] when a value is not
    supported), the text [fmt] prints for a decoded value, the network, and
    [http.NewRequest]'s verdict on a URL. *)
Context (marshal_configs : list SDKFunction → option json) (fmt_value : json → string).
Context (Do : nat → out_request → res goerr out_response).

Abbreviation dev h := (isDev Getenv (h_opts h)).
Abbreviation signingKey h := (GetSigningKey Getenv (h_opts h)).
Abbreviation fallbackKey h := (GetSigningKeyFallback Getenv (h_opts h)).

Definition syscode_error (code message : string) : goerr :=
  EPublic "" "" 401 (Some (ESyscode code message)).

(** ** In-band synchronisation *)

(** [inBandSynchronizeRequest], as decoded. *)
Definition decode_sync_request (byt : string) : option string :=
  j ← json_parse byt; unmarshal (decode_struct [("url", dec_string (λ v _, v))]) "" j.

(** [inBandSynchronizeRequest.Validate] *)
Definition Sync_Validate (URL : string) : option goerr :=
  if str_empty URL then Some (EText "missing URL") else None.

(** [inBandSynchronizeResponse] *)
Definition sync_response (appID : string) (env : option string) (fns : json)
  (inspection : json) (URL : string) : json :=
  JObj [("app_id", JStr appID); ("env", opt_string env); ("framework", JNull);
        ("functions", fns); ("inspection", inspection); ("platform", JNull);
        ("sdk_author", JStr SDKAuthor); ("sdk_language", JStr SDKLanguage);
        ("sdk_version", JStr SDKVersion); ("url", JStr URL)].

(** [types.StructToMap] for a value that [json.Marshal] makes a document of, or not: the
    text is read again, into a map, whose document this is; a map that is nil is [null]. *)
Definition StructToMap (v : option json) : res goerr json :=
  match v with
  | None => Err (errorf "failed to marshal: " errMarshal "")
  | Some byt =>
      match json_parse (json_print byt) ≫= decode_any with
      | Some (JObj out) => Ok (JObj out)
      | Some JNull => Ok JNull
      | _ => Err (errorf "failed to unmarshal: " errDecode "")
      end
  end.

Lemma decode_any_int n : - 10 ^ 15 < n < 10 ^ 15 → decode_any (jint n) = Some (jint n).
Proof. intros Hn. simpl. by rewrite float64_keeps_integers. Qed.

(** The conversion of an inspection cannot fail. *)
Lemma inspection_to_map i :
  - 10 ^ 15 < ii_FunctionCount (si_insecure i) < 10 ^ 15 →
  ∃ fields, StructToMap (Some (secureInspection_json i)) = Ok (JObj fields).
Proof.
  intros Hn. unfold StructToMap.
  assert (json_ok (secureInspection_json i) = true) as Hok.
  { unfold secureInspection_json, insecureInspection_fields, opt_string. cbn [app json_ok forallb snd].
    rewrite json_ok_int. by repeat case_match. }
  rewrite (json_parse_text _ Hok). unfold secureInspection_json, insecureInspection_fields.
  assert (∀ o, ∃ j, decode_any (json_clean (opt_string o)) = Some j) as Hopt
    by (intros [s|]; by eexists).
  assert (∀ o : option bool, ∃ j, decode_any (json_clean match o with Some b => JBool b | None => JNull end)
    = Some j) as Hbool by (intros [b|]; by eexists).
  destruct (Hbool (ii_AuthenticationSucceeded (si_insecure i))) as [j0 H0].
  destruct (Hopt (si_Env i)) as [j1 H1]. destruct (Hopt (si_EventKeyHash i)) as [j2 H2].
  destruct (Hopt (si_ServeOrigin i)) as [j3 H3]. destruct (Hopt (si_ServePath i)) as [j4 H4].
  destruct (Hopt (si_SigningKeyFallbackHash i)) as [j5 H5].
  destruct (Hopt (si_SigningKeyHash i)) as [j6 H6].
  pose proof (decode_any_int _ Hn) as Hint. simpl in Hint. simpl.
  rewrite H0, H1, H2, H3, H4, H5, H6, Hint. simpl. by eexists.
Qed.

Definition malformed (e : goerr) : goerr :=
  EPublic "" "" 400 (Some (errorf "malformed input: " e "")).

Definition cfg_result {A} (r : res cfg_failure A) : outcome (res goerr A) :=
  match r with
  | Ok a => Return (Ok a)
  | Err (CfgError e) => Return (Err (errorf "error creating function configs: " e ""))
  | Err (CfgPanic s) => Panic (UserPanic s)
  end.

(** What follows the validation of the request. *)
Definition inBandReply h (skey : string) (appURL : url) (w : writer) : handled :=
  match cfg_result (createFunctionConfigs (h_appName h) (h_funcs h) appURL false) with
  | Panic p => Panic p
  | Return (Err e) => Return (w, Some e)
  | Return (Ok fns) =>
      let env := GetEnv Getenv (h_opts h) in
      match createSecureInspection Getenv h with
      | Err e => Return (w, Some (errorf "error creating inspection: " e ""))
      | Ok inspection =>
          match StructToMap (Some (secureInspection_json inspection)), marshal_configs fns with
          | Err e, _ => Return (w, Some (errorf "error converting inspection to map: " e ""))
          | Ok _, None => Return (w, Some (errorf "error marshalling response: " errMarshal ""))
          | Ok inspectionMap, Some fns =>
              let respBody := sync_response (h_appName h) (if str_empty env then None else Some env)
                                fns inspectionMap (url_string appURL) in
              let resSig := signWithoutJCS now now skey (json_print respBody) in
              let w := edit_header (header_add HeaderKeySignature resSig) w in
              let w := edit_header (header_add HeaderKeyContentType "application/json") w in
              let w := edit_header (header_add HeaderKeySyncKind SyncKindInBand) w in
              Return (encoded (Some respBody) w)
          end
      end
  end.

Definition inBandSync h (r : http_request) (w : writer) : handled :=
  let sig := if dev h then "" else header_get HeaderKeySignature (hr_header r) in
  if negb (dev h) && str_empty sig then
    Return (w, Some (syscode_error "http_missing_header"
                       ("missing " +:+ HeaderKeySignature +:+ " header")))
  else
    let '(w, reqByt) := read_all (max_body h) (hr_body r) w in
    match reqByt with
    | Err _ => Return (w, Some (EPublic "" "" 500 (Some (EText "error reading request body"))))
    | Ok reqByt =>
        match ValidateRequestSignature jcs now sig (signingKey h) (fallbackKey h) reqByt (dev h) with
        | (_, _, Some _) =>
            Return (w, Some (syscode_error "sig_verification_failed" "error validating signature"))
        | (false, _, None) =>
            Return (w, Some (syscode_error "sig_verification_failed" "invalid signature"))
        | (true, skey, None) =>
            match decode_sync_request reqByt with
            | None => Return (w, Some (malformed errDecode))
            | Some URL =>
                match Sync_Validate URL with
                | Some e => Return (w, Some (malformed e))
                | None =>
                    match url_parse URL with
                    | None => Return (w, Some (malformed (EText ("parse " +:+ URL))))
                    | Some appURL => inBandReply h skey (default appURL (ho_URL (h_opts h))) w
                    end
                end
            end
        end
    end.

(** ** Out-of-band synchronisation *)

Definition request_scheme (r : http_request) : string := if hr_tls r then "https" else "http".

(** [handler.url]; a URL that cannot be parsed is nil. *)
Definition handler_url h (r : http_request) : option url :=
  match ho_URL (h_opts h) with
  | Some u => Some u
  | None => url_parse (request_scheme r +:+ "://" +:+ hr_host r +:+ hr_requestURI r)
  end.

(** [sdk.RegisterRequest] *)
Definition register_request h (URL : string) (fns : json) : json :=
  JObj ([("v", JStr "1"); ("url", JStr URL); ("deployType", JStr "ping");
         ("sdk", JStr HeaderValueSDK); ("framework", JStr ""); ("appName", JStr (h_appName h))] ++
        (let v := default "" (ho_AppVersion (h_opts h)) in
         if str_empty v then [] else [("appVersion", JStr v)]) ++
        [("functions", fns);
         ("headers", JObj [("env", JStr (GetEnv Getenv (h_opts h)));
                           ("platform", JStr (platform Getenv))]);
         ("idempotencyKey", JStr ""); ("capabilities", capabilities)]).

Definition register_url h : string :=
  match ho_RegisterURL (h_opts h) with
  | Some u => u
  | None =>
      if dev h then DevServerURL Getenv +:+ "/fn/register" else defaultAPIOrigin +:+ "/fn/register"
  end.

(** The URL of the incoming request without the sync ID. *)
Definition without_deployId (u : url) : url :=
  set_RawQuery (values_encode (values_del "deployId" (url_query (u_RawQuery u)))) u.

Definition createRequest h (r : http_request) (syncID : string) (config : option json) :
  res goerr out_request :=
  match config with
  | None => Err (errorf "error marshalling function config: " errMarshal "")
  | Some byt =>
      match url_parse (register_url h) with
      | None => Err (errorf "error creating new request: " (EText ("parse " +:+ register_url h)) "")
      | Some u =>
          let u := if str_empty syncID then u
                   else set_RawQuery
                          (values_encode (values_set "deployId" syncID (url_query (u_RawQuery u)))) u in
          let kind := header_get HeaderKeyServerKind (hr_header r) in
          let hd := if str_empty kind then ∅ else header_set HeaderKeyExpectedServerKind kind ∅ in
          let env := GetEnv Getenv (h_opts h) in
          let hd := if str_empty env then hd else header_add HeaderKeyEnv env hd in
          Ok {| or_method := MethodPost; or_url := url_string u;
                or_header := SetBasicRequestHeaders hd; or_body := json_print byt |}
      end
  end.

(** The error of a refused registration. *)
Definition register_error (resp : out_response) : goerr :=
  match json_parse (os_body resp) ≫= decode_any with
  | Some (JObj fields) =>
      EText ("Error registering functions: " +:+
             match find_last (λ '(k, v), if decide (k = "error") then Some v else None) fields with
             | Some (JStr s) => s
             | Some v => fmt_value v
             | None => "%!s(<nil>)"
             end)
  | Some JNull => EText "Error registering functions: %!s(<nil>)"
  | _ => errorf "error reading register response: " errDecode (newline +:+ newline +:+ os_body resp)
  end.

Definition outOfBandSync h (r : http_request) (w : writer) :
  outcome (list out_request * writer * option goerr) :=
  let syncID := values_get "deployId" (url_query (u_RawQuery (hr_url r))) in
  let pathAndParams := url_string (without_deployId (hr_url r)) in
  match handler_url h r with
  | None => Panic (UserPanic nil_deref)
  | Some appURL =>
      match cfg_result (createFunctionConfigs (h_appName h) (h_funcs h) appURL false) with
      | Panic p => Panic p
      | Return (Err e) => Return ([], w, Some e)
      | Return (Ok fns) =>
          let URL := request_scheme r +:+ "://" +:+ hr_host r +:+ pathAndParams in
          let config := register_request h URL <$> marshal_configs fns in
          let '(sent, resp) := fetchWithAuthFallback Do (createRequest h r syncID config)
                                 (signingKey h) (fallbackKey h) in
          match resp with
          | Err e => Return (sent, w, Some (errorf "error performing registration request: " e ""))
          | Ok resp =>
              if 299 <? os_status resp then Return (sent, w, Some (register_error resp))
              else Return (sent, edit_header (header_add HeaderKeySyncKind SyncKindOutOfBand) w, None)
          end
      end
  end.

Definition register h (r : http_request) (w : writer) :
  outcome (list out_request * writer * option goerr) :=
  if bool_decide (header_get HeaderKeySyncKind (hr_header r) = SyncKindInBand) &&
     IsInBandSyncAllowed Getenv (h_opts h)
  then match inBandSync h r w with
       | Return (w, e) => Return ([], w, e)
       | Panic p => Panic p
       end
  else outOfBandSync h r w.

(** ** ServeHTTP *)

(** The status of an error of an invocation. *)
Definition invoke_status (e : goerr) : Z :=
  if err_is (TSentinel ErrFunctionMissing) e then 410
  else if err_is (TSentinel ErrBadRequest) e then 400
  else if err_is (TSentinel ErrUnauthorized) e then 401
  else 500.

(** The status and code of an error of a registration. *)
Definition register_status (e : goerr) : Z * string :=
  match e with
  | EPublic _ _ status (Some (ESyscode code _)) => (status, code)
  | EPublic _ _ status _ => (status, "unknown")
  | _ => (500, "unknown")
  end.

Definition panicked : panicval := UserPanic nil_deref.

(** An error response with a JSON body; the header is set too late to be sent. *)
Definition error_response (status : Z) (contentType : string) (body : string → json) (e : goerr)
  (w : writer) : outcome writer :=
  match err_msg e with
  | None => Panic panicked
  | Some msg =>
      Return (write_json (Some (body msg))
        (edit_header (header_set contentType "application/json") (WriteHeader status w)))
  end.

(** The requests sent while serving, and the response; [Panic] aborts the
    connection. *)
Definition ServeHTTP h (hb : heartbeats) (r : http_request) (w : writer) :
  outcome (list out_request * writer) :=
  if negb (ho_Logger (h_opts h)) then Panic panicked
  else
    let w := SetBasicResponseHeaders w in
    match hr_method r with
    | MethodGet =>
        match inspect Getenv jcs now h r w with
        | (w, Some e) => Return ([], WriteHTTP e w)
        | (w, None) => Return ([], w)
        end
    | MethodPost =>
        if bool_decide (query_get "probe" r = "trust") then
          match trust Getenv jcs now h r w with
          | (w, Some e) =>
              match as_public e with
              | Some perr => Return ([], WriteHTTP perr w)
              | None => Panic panicked
              end
          | (w, None) => Return ([], w)
          end
        else
          match handler_invoke Getenv jcs map_type stack marshal_any now h hb r w with
          | Panic p => Panic p
          | Return (w, None) => Return ([], w)
          | Return (w, Some e) =>
              match error_response (invoke_status e) "content-type" ErrorResponse_json e w with
              | Return w => Return ([], w)
              | Panic p => Panic p
              end
          end
    | MethodPut =>
        match register h r w with
        | Panic p => Panic p
        | Return (sent, w, None) => Return (sent, w)
        | Return (sent, w, Some e) =>
            let '(status, code) := register_status e in
            match error_response status "Content-Type"
                    (λ msg, JObj [("code", JStr code); ("message", JStr msg)]) e w with
            | Return w => Return (sent, w)
            | Panic p => Panic p
            end
        end
    | MethodOther _ => Return ([], w)
    end.
End sync.
