(* ===== verification/ServeProps.v ===== *)
(** * What the HTTP endpoint guarantees

    Authentication before execution, the response for every kind of reply, and the
    signatures of the responses that carry one. *)

From S2P Require Import Prelude GoBytes GoUrl GoUrlParse GoTime GoJson GoHttp Env Errors.
From S2P Require Import Signature Manager Step Program Functions Handler Invoke Configs Serve Sync.

Open Scope Z_scope.

#[local] Opaque hashedSigningKey signWithoutJCS ValidateRequestSignature.

(** ** Outgoing requests *)

(** [req'] is [req] signed with [key]: it carries the bearer hash of the key, if there is
    one, and is otherwise the same. *)
Definition carries (key : string) (req req' : out_request) : Prop :=
  or_method req' = or_method req ∧ or_url req' = or_url req ∧ or_body req' = or_body req ∧
  ((key = "" ∧ or_header req' = or_header req) ∨
   (key ≠ "" ∧ ∃ k, hashedSigningKey key = Some k ∧
      or_header req' = header_set HeaderKeyAuthorization ("Bearer " +:+ k) (or_header req))).

Definition refused (r : res goerr out_response) : Prop :=
  ∃ resp, r = Ok resp ∧ (os_status resp = 401 ∨ os_status resp = 403).

Lemma authorize_carries key req :
  key ≠ "" →
  match authorize key req with
  | Ok req' => carries key req req'
  | Err _ => hashedSigningKey key = None
  end.
Proof.
  intros Hkey. unfold authorize. destruct (hashedSigningKey key) as [k|] eqn:Hk; [|done].
  split_and!; try done. right. eauto.
Qed.

Lemma unauthorized_true status : unauthorized status = true ↔ status = 401 ∨ status = 403.
Proof. unfold unauthorized. rewrite orb_true_iff, !Z.eqb_eq. done. Qed.

(** C20: the request with its fallback, for a request that can be created.  Nothing is sent
    only when the key cannot be hashed.  Otherwise the request goes out under the key; it is sent a second time, under
    the fallback key, exactly when there is a fallback key that can be hashed and the
    answer to the first was 401 or 403.  The result is the answer to the last request, or
    an error when the fallback key cannot be hashed. *)
Theorem fetch_sends_at_most_twice Do req key fallback :
  let answer n req := res_map_err (λ e, errorf "error making request: " e "") (Do n req) in
  let '(sent, resp) := fetchWithAuthFallback Do (Ok req) key fallback in
  match sent with
  | [] => key ≠ "" ∧ hashedSigningKey key = None ∧ is_ok resp = false
  | [first] => carries key req first ∧
      ((¬ (refused (Do 0%nat first) ∧ fallback ≠ "") ∧ resp = answer 0%nat first) ∨
       (refused (Do 0%nat first) ∧ fallback ≠ "" ∧ hashedSigningKey fallback = None ∧
        is_ok resp = false))
  | [first; second] => carries key req first ∧
      refused (Do 0%nat first) ∧ fallback ≠ "" ∧ carries fallback req second ∧
      resp = answer 1%nat second
  | _ => False
  end.
Proof.
  intros answer. unfold fetchWithAuthFallback. simpl.
  assert (match (if str_empty key then Ok req else authorize key req) with
    | Ok first => carries key req first
    | Err _ => key ≠ "" ∧ hashedSigningKey key = None end) as Hfirst.
  { destruct key as [|a key]; simpl; [split_and!; by auto|].
    pose proof (authorize_carries (String a key) req ltac:(done)) as Ha.
    by destruct (authorize _ _). }
  destruct (if str_empty key then Ok req else authorize key req) as [first|e].
  2: { destruct Hfirst. by split_and!. }
  unfold answer. destruct (Do 0%nat first) as [r|e] eqn:Hdo; simpl.
  2: { rewrite Hdo. split; [done|]. left. split; [|done]. by intros [(r & ? & _) _]. }
  destruct (unauthorized (os_status r)) eqn:Hun; simpl.
  2: { rewrite Hdo. split; [done|]. left. split; [|done]. intros [(r' & [= <-] & Hst) _].
       apply unauthorized_true in Hst. congruence. }
  apply unauthorized_true in Hun.
  assert (refused (Ok r)) as Hr by (exists r; by split).
  destruct fallback as [|a fb]; simpl.
  { rewrite Hdo. split; [done|]. left. split; [|done]. by intros [_ ?]. }
  pose proof (authorize_carries (String a fb) req ltac:(done)) as Ha.
  destruct (authorize (String a fb) req) as [second|e]; simpl; rewrite Hdo; [by split_and!|].
  split; [done|]. by right.
Qed.

Lemma lone_step_error_true ops :
  lone_step_error ops = true ↔ ∃ op, ops = [op] ∧ g_op op = OpcodeStepError.
Proof.
  destruct ops as [|op [|]]; simpl; [naive_solver| |naive_solver].
  split; [|by intros (? & [= ->] & ->)]. intros Hop. exists op. by destruct (g_op op).
Qed.

Section endpoint.
Context {V : Type} (Getenv : string → string) (jcs : string → option string).
Context (map_type : gotype V) (stack : string) (marshal_any : V → option json) (now : time).
Context (marshal_configs : list SDKFunction → option json) (fmt_value : json → string).
Context (Do : nat → out_request → res goerr out_response).
Implicit Types h : handler V.

Abbreviation serve := (ServeHTTP Getenv jcs map_type stack marshal_any now marshal_configs
  fmt_value Do).
Abbreviation dev h := (isDev Getenv (h_opts h)).
Abbreviation validate h sig byt := (ValidateRequestSignature jcs now sig
  (GetSigningKey Getenv (h_opts h)) (GetSigningKeyFallback Getenv (h_opts h)) byt (dev h)).

Definition with_funcs (fs : list (ServableFunction V)) h : handler V :=
  {| h_opts := h_opts h; h_appName := h_appName h; h_funcs := fs |}.

(** ** Authentication *)

(** The request is an invocation whose signature does not verify. *)
Definition unsigned h (r : http_request) : Prop :=
  dev h = false ∧ hr_method r = MethodPost ∧ query_get "probe" r ≠ "trust" ∧
  (validate h (header_get HeaderKeySignature (hr_header r)) (b_bytes (hr_body r))).1.1 = false.

(** C9: outside of development nothing of a function runs before the signature of the
    request has been verified: an invocation whose signature does not verify gets the
    same response whatever functions are registered, with status 401, or 400 when its
    body cannot be read. *)
Theorem unsigned_requests_run_nothing h fs hb r :
  ho_Logger (h_opts h) = true → unsigned h r →
  serve h hb r new_writer = serve (with_funcs fs h) hb r new_writer ∧
  ∃ w, serve h hb r new_writer = Return ([], w) ∧ (rw_status w = 401 ∨ rw_status w = 400).
Proof.
  intros Hlog (Hdev & Hm & Hprobe & Hv). unfold ServeHTTP, handler_invoke. simpl.
  rewrite Hlog, Hm, Hdev, bool_decide_eq_false_2 by done. simpl.
  rewrite Hdev in Hv.
  destruct (str_empty _) eqn:Hsig; simpl.
  { split; [done|]. eexists. split; [done|]. by left. }
  unfold read_all, max_body. simpl.
  destruct (_ <? _); simpl.
  { split; [done|]. eexists. split; [done|]. by right. }
  destruct (b_err (hr_body r)) as [e|]; simpl.
  { split; [done|]. eexists. split; [done|]. by right. }
  destruct (ValidateRequestSignature _ _ _ _ _ _ _) as [[valid key] e]. simpl in Hv. subst valid.
  simpl. split; [done|]. eexists. split; [done|]. by left.
Qed.

(** ** Responses *)

(** The request is an invocation of [fn] with [request] that passes every check. *)
Record accepted h (r : http_request) (request : Request) (fn : ServableFunction V) : Prop := {
  acc_logger : ho_Logger (h_opts h) = true;
  acc_method : hr_method r = MethodPost;
  acc_probe : query_get "probe" r ≠ "trust";
  acc_header : dev h = true ∨ header_get HeaderKeySignature (hr_header r) ≠ "";
  acc_read : b_err (hr_body r) = None;
  acc_size : Z.of_nat (String.length (b_bytes (hr_body r))) ≤ Z.max 0 (max_body h);
  acc_valid : (validate h (if dev h then "" else header_get HeaderKeySignature (hr_header r))
                 (b_bytes (hr_body r))).1.1 = true;
  acc_request : unmarshal_Request (b_bytes (hr_body r)) = Some request;
  acc_function : find_function h (query_get "fnId" r) = Some fn }.

Lemma accepted_invoke h hb r request fn w :
  accepted h r request fn →
  handler_invoke Getenv jcs map_type stack marshal_any now h hb r w =
  match invoke map_type stack fn request (target_of r) with
  | Panic p => Panic p
  | Return i =>
      if ho_UseStreaming (h_opts h) then
        match stream_reply marshal_any i (start_stream hb w) with
        | Return (w, err) => Return (end_stream hb w, err)
        | Panic p => Panic p
        end
      else Return (plain_reply marshal_any i w)
  end.
Proof.
  intros [_ _ _ Hsig Hread Hsize Hv Hreq Hfn]. unfold handler_invoke, read_all.
  rewrite (proj2 (Z.ltb_ge _ _) Hsize), Hread.
  assert (negb (dev h) && str_empty (if dev h then "" else
    header_get HeaderKeySignature (hr_header r)) = false) as ->.
  { destruct (dev h); [done|]. simpl. destruct Hsig as [|Hsig]; [done|].
    by destruct (header_get _ _). }
  destruct (validate h _ _) as [[valid key] e]. simpl in Hv. subst valid. cbn [negb].
  rewrite Hreq, Hfn. by destruct (ho_UseStreaming (h_opts h)).
Qed.

(** The status and body of the response to an invocation; [None] when its error
    cannot be printed. *)
Definition expected (i : invocation V) : option (Z * json) :=
  match reply_of i with
  | ReplyOps ops => Some (206, ops_json ops)
  | ReplyResponse v =>
      match marshal_response marshal_any v with
      | Some j => Some (200, j)
      | None => Some (500, ErrorResponse_json "json: unsupported value")
      end
  | ReplyError e =>
      match err_msg e with
      | Some m => Some (invoke_status e, ErrorResponse_json m)
      | None => None
      end
  end.

(** The headers that go out with it. *)
Definition expected_headers (i : invocation V) : header :=
  let '(noRetry, retryAt, _) := settle (inv_ops i) (inv_err i) in
  rw_header (retry_headers noRetry retryAt (SetBasicResponseHeaders new_writer)).

Lemma retry_headers_sent noRetry retryAt w :
  rw_sent (retry_headers noRetry retryAt w) = rw_sent w ∧
  rw_body (retry_headers noRetry retryAt w) = rw_body w.
Proof. unfold retry_headers. by destruct noRetry, retryAt. Qed.

Lemma response_write_json status j w :
  rw_sent w = None → rw_body w = "" →
  response_of (write_json (Some j) (WriteHeader status w)) = (status, rw_header w, json_encode j).
Proof.
  intros Hs Hb. unfold response_of, write_json, Write, WriteHeader. rewrite Hs. simpl. by rewrite Hb.
Qed.

(** What an accepted invocation is answered, once its function has been called. *)
Lemma accepted_answer h hb r request fn i :
  accepted h r request fn → ho_UseStreaming (h_opts h) = false →
  invoke map_type stack fn request (target_of r) = Return i →
  match expected i with
  | Some (status, j) => ∃ w, serve h hb r new_writer = Return ([], w) ∧
      response_of w = (status, expected_headers i, json_encode j)
  | None => serve h hb r new_writer = Panic panicked
  end.
Proof.
  intros Hacc Hstream Hi. unfold ServeHTTP.
  rewrite (acc_logger _ _ _ _ Hacc), (acc_method _ _ _ _ Hacc).
  rewrite bool_decide_eq_false_2 by apply (acc_probe _ _ _ _ Hacc). cbn [negb].
  rewrite (accepted_invoke _ _ _ _ _ _ Hacc), Hi, Hstream.
  unfold plain_reply, expected, expected_headers, reply_of.
  destruct (settle (inv_ops i) (inv_err i)) as [[noRetry retryAt] err]. simpl.
  destruct (retry_headers_sent noRetry retryAt (SetBasicResponseHeaders new_writer)) as [Hs Hb].
  set (w := retry_headers noRetry retryAt (SetBasicResponseHeaders new_writer)) in *.
  change (rw_sent (SetBasicResponseHeaders new_writer)) with (@None (Z * header)) in Hs.
  change (rw_body (SetBasicResponseHeaders new_writer)) with "" in Hb. clearbody w.
  destruct err as [e|].
  - unfold error_response. destruct (err_msg e) as [m|]; [|done]. eexists. split; [done|].
    unfold response_of, write_json, Write, WriteHeader. rewrite Hs. simpl. by rewrite Hb.
  - destruct (inv_ops i) as [|op ops].
    + unfold encoded. destruct (marshal_response marshal_any (inv_response i)) as [j|].
      * eexists. split; [done|]. unfold response_of, write_json, Write, WriteHeader. rewrite Hs.
        simpl. by rewrite Hb.
      * simpl. eexists. split; [done|].
        unfold response_of, write_json, Write, WriteHeader. rewrite Hs. simpl. by rewrite Hb.
    + simpl. eexists. split; [done|].
      unfold response_of, Write, WriteHeader. rewrite Hs. simpl. by rewrite Hb.
Qed.

(** ** What an invocation is answered, from its results alone *)

(** The error that is told to the executor: that of the invocation, unless its only
    operation is the error of a step. *)
Definition raised (i : invocation V) (e : goerr) : Prop :=
  inv_err i = Some e ∧ ¬ ∃ op, inv_ops i = [op] ∧ g_op op = OpcodeStepError.

Definition has_step_error (e : goerr) : Prop := ∃ n m d, in_chain (EStep n m d) e.

(** The status of an error by what it wraps. *)
Inductive error_status (e : goerr) : Z → Prop :=
  | status_missing : in_chain (ESentinel ErrFunctionMissing) e → error_status e 410
  | status_bad_request :
      ¬ in_chain (ESentinel ErrFunctionMissing) e → in_chain (ESentinel ErrBadRequest) e →
      error_status e 400
  | status_unauthorized :
      ¬ in_chain (ESentinel ErrFunctionMissing) e → ¬ in_chain (ESentinel ErrBadRequest) e →
      in_chain (ESentinel ErrUnauthorized) e → error_status e 401
  | status_other :
      ¬ in_chain (ESentinel ErrFunctionMissing) e → ¬ in_chain (ESentinel ErrBadRequest) e →
      ¬ in_chain (ESentinel ErrUnauthorized) e → error_status e 500.

Definition message (m : string) : json := JObj [("message", JStr m)].

(** The status and the document of the answer: the operations when there are any, the
    value of a function that is done, or an error. *)
Inductive answers (i : invocation V) : Z → json → Prop :=
  | answers_ops :
      (∀ e, ¬ raised i e) → inv_ops i ≠ [] →
      answers i 206 (JArr (GeneratorOpcode_json <$> inv_ops i))
  | answers_nothing :
      (∀ e, ¬ raised i e) → inv_ops i = [] → inv_response i = None → answers i 200 JNull
  | answers_value v j :
      (∀ e, ¬ raised i e) → inv_ops i = [] → inv_response i = Some v → marshal_any v = Some j →
      answers i 200 j
  | answers_unserialisable v :
      (∀ e, ¬ raised i e) → inv_ops i = [] → inv_response i = Some v → marshal_any v = None →
      answers i 500 (message "json: unsupported value")
  | answers_step_error e :
      raised i e → has_step_error e →
      answers i 500 (message ("Unhandled step error: " +:+ fmt_err "s" e))
  | answers_error e status m :
      raised i e → ¬ has_step_error e → error_status e status → err_msg e = Some m →
      answers i status (message m).

(** The run is not to be tried again: the error says so, or is that of a step that the
    function passed on. *)
Definition final_error (i : invocation V) : Prop :=
  ∃ e, inv_err i = Some e ∧
    ((∃ oe, in_chain (ENoRetry oe) e) ∨ raised i e ∧ has_step_error e).

(** The headers of every response. *)
Definition common_headers : header :=
  {[ "Content-Type" := ["application/json"]; "X-Inngest-Sdk" := [HeaderValueSDK];
     "User-Agent" := [HeaderValueSDK] ]}.

(** The headers of the answer: the common ones, and when and whether to try again. *)
Record answer_headers (i : invocation V) (hd : header) : Prop := {
  hd_no_retry : (final_error i ∧ hd !! "X-Inngest-No-Retry" = Some ["true"]) ∨
                (¬ final_error i ∧ hd !! "X-Inngest-No-Retry" = None);
  hd_retry_after :
    (∃ e t, inv_err i = Some e ∧ first_retry_at e t ∧
       hd !! "Retry-After" = Some [format_rfc3339 t]) ∨
    ((∀ e t, inv_err i = Some e → ¬ first_retry_at e t) ∧ hd !! "Retry-After" = None);
  hd_common k : k ≠ "X-Inngest-No-Retry" → k ≠ "Retry-After" → hd !! k = common_headers !! k }.

Lemma raised_settle i e :
  raised i e ↔ inv_err i = Some e ∧ lone_step_error (inv_ops i) = false.
Proof. unfold raised. by rewrite <- lone_step_error_true, not_true_iff_false. Qed.

Lemma not_step_error e : IsStepError e = false ↔ ¬ has_step_error e.
Proof. rewrite <- not_true_iff_false. unfold has_step_error. by rewrite IsStepError_chain. Qed.

Lemma invoke_status_spec e : error_status e (invoke_status e).
Proof.
  unfold invoke_status.
  pose proof (is_sentinel_chain ErrFunctionMissing e) as H1.
  pose proof (is_sentinel_chain ErrBadRequest e) as H2.
  pose proof (is_sentinel_chain ErrUnauthorized e) as H3.
  destruct (err_is (TSentinel ErrFunctionMissing) e); [apply status_missing; tauto|].
  destruct (err_is (TSentinel ErrBadRequest) e); [apply status_bad_request; naive_solver|].
  destruct (err_is (TSentinel ErrUnauthorized) e);
    [apply status_unauthorized|apply status_other]; naive_solver.
Qed.

(** The error that is left when the retry flags have been taken. *)
Lemma settle_error i :
  match (settle (inv_ops i) (inv_err i)).2 with
  | None => ∀ e, ¬ raised i e
  | Some e' => ∃ e, raised i e ∧
      ((has_step_error e ∧ e' = EText ("Unhandled step error: " +:+ fmt_err "s" e)) ∨
       (¬ has_step_error e ∧ e' = e))
  end.
Proof.
  unfold settle. destruct (lone_step_error (inv_ops i)) eqn:Hlone; simpl.
  { intros e [_ Hno]%raised_settle. congruence. }
  destruct (inv_err i) as [e|] eqn:He; simpl; [|by intros e [? _]%raised_settle; congruence].
  assert (raised i e) as Hr by by apply raised_settle.
  destruct (IsStepError e) eqn:Hstep; exists e; (split; [done|]).
  - left. split; [|done]. by apply IsStepError_chain.
  - right. by apply not_step_error in Hstep.
Qed.

Lemma expected_answers i :
  match expected i with
  | Some (status, j) => answers i status j
  | None => ∃ e, raised i e ∧ ¬ has_step_error e ∧ err_msg e = None
  end.
Proof.
  pose proof (settle_error i) as Hs. unfold expected, reply_of.
  destruct (settle (inv_ops i) (inv_err i)).2 as [e'|].
  - destruct Hs as (e & Hr & [[Hstep ->]|[Hstep ->]]); [by apply answers_step_error|].
    destruct (err_msg e) as [m|] eqn:Hm; [|by eauto].
    eapply answers_error; [done..|apply invoke_status_spec|done].
  - destruct (inv_ops i) as [|op ops] eqn:Hops.
    + unfold marshal_response. destruct (inv_response i) as [v|] eqn:Hv; [|by apply answers_nothing].
      destruct (marshal_any v) eqn:Hm; [by eapply answers_value|by eapply answers_unserialisable].
    + unfold ops_json. rewrite <- Hops. apply answers_ops; [done|by rewrite Hops].
Qed.

Lemma settle_flags ops err :
  (settle ops err).1.1 =
    (opt_err IsNoRetryError err || (negb (lone_step_error ops) && opt_err IsStepError err)) ∧
  (settle ops err).1.2 = err ≫= GetRetryAtTime.
Proof.
  unfold settle. destruct (lone_step_error ops); simpl; [by rewrite orb_false_r|].
  destruct err as [e|]; [|done]. simpl. destruct (IsStepError e); simpl; [by rewrite orb_true_r|].
  by rewrite orb_false_r.
Qed.

Lemma final_error_flag i : (settle (inv_ops i) (inv_err i)).1.1 = true ↔ final_error i.
Proof using Type.
  rewrite (proj1 (settle_flags _ _)). unfold final_error. setoid_rewrite raised_settle.
  destruct (inv_err i) as [e|]; simpl.
  - rewrite orb_true_iff, andb_true_iff, negb_true_iff, IsNoRetryError_chain, IsStepError_chain.
    unfold has_step_error. split.
    + intros [Hn|[Hl Hs]]; exists e; split; auto.
    + intros (e' & [= <-] & [Hn|[[_ Hl] Hs]]); auto.
  - rewrite andb_false_r. split; [done|]. by intros (e & ? & _).
Qed.

Lemma retry_headers_lookup noRetry retryAt :
  let hd := rw_header (retry_headers noRetry retryAt (SetBasicResponseHeaders new_writer)) in
  hd !! "X-Inngest-No-Retry" = (if noRetry then Some ["true"] else None) ∧
  hd !! "Retry-After" = (λ t, [format_rfc3339 t]) <$> retryAt ∧
  ∀ k, k ≠ "X-Inngest-No-Retry" → k ≠ "Retry-After" → hd !! k = common_headers !! k.
Proof.
  assert (rw_header (SetBasicResponseHeaders new_writer) = common_headers) as Hb
    by (apply (bool_decide_unpack _); vm_compute; exact I).
  assert (∀ v m, m !! "X-Inngest-No-Retry" = None →
    header_add HeaderKeyNoRetry v m = <["X-Inngest-No-Retry" := [v]]> m) as Hn.
  { intros v m Hm. unfold header_add, values_append.
    replace (canonical_key HeaderKeyNoRetry) with "X-Inngest-No-Retry" by by vm_compute.
    by rewrite Hm. }
  assert (∀ v m, m !! "Retry-After" = None →
    header_add HeaderKeyRetryAfter v m = <["Retry-After" := [v]]> m) as Ha.
  { intros v m Hm. unfold header_add, values_append.
    replace (canonical_key HeaderKeyRetryAfter) with "Retry-After" by by vm_compute.
    by rewrite Hm. }
  assert (common_headers !! "X-Inngest-No-Retry" = None) as Hc1 by done.
  assert (common_headers !! "Retry-After" = None) as Hc2 by done.
  unfold retry_headers. simpl.
  destruct noRetry, retryAt as [t|]; cbn [edit_header rw_header]; rewrite Hb;
    rewrite ?Hn by done; rewrite ?Ha by (rewrite ?lookup_insert_ne by done; done);
    split_and!; intros; by simplify_map_eq.
Qed.

Lemma expected_headers_spec i : answer_headers i (expected_headers i).
Proof.
  unfold expected_headers. pose proof (final_error_flag i) as Hf.
  pose proof (proj2 (settle_flags (inv_ops i) (inv_err i))) as Ht.
  destruct (settle (inv_ops i) (inv_err i)) as [[noRetry retryAt] err]. simpl in Hf, Ht.
  destruct (retry_headers_lookup noRetry retryAt) as (Hn & Ha & Hk). split; [| |done].
  - rewrite Hn. destruct noRetry; [left|right]; naive_solver.
  - rewrite Ha, Ht. destruct (inv_err i) as [e|]; simpl; [|right; naive_solver].
    destruct (GetRetryAtTime e) as [t|] eqn:Hget; simpl.
    + left. exists e, t. by rewrite <- GetRetryAtTime_first.
    + right. split; [|done]. intros e' t [= <-]. by rewrite <- GetRetryAtTime_first, Hget.
Qed.

(** C7: the response to an accepted invocation, from the results of its function.
    Operations are answered with 206, a finished function with 200 and its value, and an
    error that is told with its message and the status of what it wraps: 410, 400, 401 or
    500.  [X-Inngest-No-Retry] is sent exactly when the error is final, [Retry-After]
    exactly when it holds an instant, also beside operations, and the other headers are
    those of every response.  Only an error that cannot be printed has no response: it
    makes the handler panic. *)
Theorem accepted_response h hb r request fn i :
  accepted h r request fn → ho_UseStreaming (h_opts h) = false →
  invoke map_type stack fn request (target_of r) = Return i →
  (serve h hb r new_writer = Panic panicked ∧
     ∃ e, raised i e ∧ ¬ has_step_error e ∧ err_msg e = None) ∨
  ∃ w status hd j, serve h hb r new_writer = Return ([], w) ∧
    response_of w = (status, hd, json_encode j) ∧ answers i status j ∧ answer_headers i hd.
Proof.
  intros Hacc Hs Hi. pose proof (accepted_answer h hb r request fn i Hacc Hs Hi) as Ha.
  pose proof (expected_answers i) as Hx. destruct (expected i) as [[status j]|]; [|by left].
  destruct Ha as (w & Hw & Hr). right. exists w, status, (expected_headers i), j.
  split_and!; try done. apply expected_headers_spec.
Qed.

(** ** Signed responses *)

(** The response verifies under [key] for as long as signatures live. *)
Definition verifies (key : string) (w : writer) : Prop :=
  ∀ now', clock_ok now' → normalizeKey (normalizeKey key) = normalizeKey key →
    time_sub now' (time_unix (to_unix now)) ≤ signatureTimeDeltaMax →
    let '(_, hd, body) := response_of w in
    ValidateResponseSignature now' (header_get HeaderKeySignature hd) key body = (true, None).

Lemma sign_ts_now : sign_ts now now = to_unix now.
Proof. unfold sign_ts. by destruct (is_zero now). Qed.

Lemma header_get_add k v (m : header) :
  m !! canonical_key k = None → header_get k (header_add k v m) = v.
Proof. apply values_get_append. Qed.

Lemma header_get_add_ne k k' v (m : header) :
  canonical_key k ≠ canonical_key k' → header_get k (header_add k' v m) = header_get k m.
Proof. apply values_get_append_ne. Qed.

(** A trust probe is answered with 200 only to a request that verified, and the
    answer carries a signature that verifies under the key the request verified
    under. *)
Theorem trust_response_verifies h hb r w :
  ho_Logger (h_opts h) = true → dev h = false →
  hr_method r = MethodPost → query_get "probe" r = "trust" →
  serve h hb r new_writer = Return ([], w) → rw_status w = 200 →
  ∃ key, (key = GetSigningKey Getenv (h_opts h) ∨ key = GetSigningKeyFallback Getenv (h_opts h)) ∧
    validate h (header_get HeaderKeySignature (hr_header r)) (b_bytes (hr_body r)) =
      (true, key, None) ∧
    verifies key w.
Proof.
  intros Hlog Hdev Hm Hprobe. unfold ServeHTTP, trust. rewrite Hlog, Hm, Hdev.
  rewrite bool_decide_eq_true_2 by done. cbn [negb].
  set (w0 := edit_header _ (SetBasicResponseHeaders new_writer)).
  destruct (str_empty _); [by intros [= <-]|]. unfold read_all.
  destruct (_ <? _); [by intros [= <-]|].
  destruct (b_err (hr_body r)) as [e|]; [by intros [= <-]|].
  destruct (ValidateRequestSignature _ _ _ _ _ _ _) as [[[] key] [e|]] eqn:Hv;
    [by intros [= <-]| |by intros [= <-]..].
  intros [= <-] _. exists key. split; [by eapply validated_key|]. split; [done|].
  intros now' Hnow Hkey Hexp.
  assert (∀ s b, response_of (Write b (WriteHeader 200 (edit_header
    (header_add "X-Inngest-Signature" s) w0))) =
    (200, header_add "X-Inngest-Signature" s (rw_header w0), b)) as -> by done.
  unfold HeaderKeySignature. rewrite header_get_add by (vm_compute; reflexivity).
  apply signed_response_valid; [done..| |reflexivity]. by rewrite sign_ts_now.
Qed.

(** C21: a response to an in-band synchronisation verifies under the key the request
    verified under. *)
Theorem sync_response_verifies h r w :
  dev h = false →
  inBandSync Getenv jcs now marshal_configs h r (SetBasicResponseHeaders new_writer) =
    Return (w, None) →
  ∃ key, (key = GetSigningKey Getenv (h_opts h) ∨ key = GetSigningKeyFallback Getenv (h_opts h)) ∧
    validate h (header_get HeaderKeySignature (hr_header r)) (b_bytes (hr_body r)) =
      (true, key, None) ∧
    verifies key w.
Proof.
  intros Hdev. unfold inBandSync. rewrite Hdev. cbn [negb].
  destruct (true && _); [done|]. unfold read_all. destruct (_ <? _); [done|].
  destruct (b_err (hr_body r)) as [e|]; [done|].
  destruct (ValidateRequestSignature _ _ _ _ _ _ _) as [[[] key] [e|]] eqn:Hv; try done.
  destruct (decode_sync_request _) as [URL|]; [|done].
  destruct (Sync_Validate URL); [done|]. destruct (url_parse URL) as [u|]; [|done].
  unfold inBandReply.
  destruct (cfg_result _) as [[fns|e]|p]; try done.
  destruct (createSecureInspection Getenv h) as [inspection|e]; [|done].
  destruct (StructToMap _) as [inspectionMap|e]; [|done].
  destruct (marshal_configs fns) as [j|]; [|done].
  intros [= <-]. exists key. split; [by eapply validated_key|]. split; [done|].
  intros now' Hnow Hkey Hexp.
  set (respBody := sync_response _ _ _ _ _).
  set (sig := signWithoutJCS now now key (json_print respBody)).
  unfold response_of, Write, WriteHeader. cbn -[header_get header_add json_encode].
  rewrite header_get_add_ne by done. rewrite header_get_add_ne by done.
  rewrite header_get_add by (vm_compute; reflexivity).
  apply signed_response_valid; [done..| |apply trim_suffix_app]. by rewrite sign_ts_now.
Qed.

(** ** Streaming *)

(** The document at the end of a stream. *)
Definition stream_document (i : invocation V) : option json :=
  let '(noRetry, retryAt, err) := settle (inv_ops i) (inv_err i) in
  match reply_of i with
  | ReplyError e =>
      m ← err_msg e;
      StreamResponse_json 500 (JStr ("error calling function: " +:+ m)) noRetry retryAt
  | ReplyOps ops => StreamResponse_json 206 (ops_json ops) false None
  | ReplyResponse v => b ← marshal_response marshal_any v; StreamResponse_json 200 b false None
  end.

Lemma start_stream_spec hb w :
  rw_sent w = None → rw_body w = "" →
  (∃ hd, rw_sent (start_stream hb w) = Some (201, hd)) ∧
  rw_body (start_stream hb w) = str_repeat (hb_before hb) " ".
Proof.
  intros Hs Hb. unfold start_stream, Write, WriteHeader. rewrite Hs. simpl.
  destruct (decide _) as [->|]; simpl; rewrite Hb; eauto.
Qed.

Lemma Write_sent s w st : rw_sent w = Some st → rw_sent (Write s w) = Some st.
Proof. intros Hs. unfold Write. by rewrite (WriteHeader_sent _ _ _ Hs). Qed.

Lemma Write_body s w : rw_body (Write s w) = rw_body w +:+ s.
Proof. unfold Write, WriteHeader. by destruct (rw_sent w). Qed.

(** C22: a streaming response to an accepted invocation has status 201 however the
    function ends, and its body is white space around one JSON document, which holds
    the status, the body and the retry flags of the reply. *)
Theorem stream_response h hb r request fn i j :
  accepted h r request fn → ho_UseStreaming (h_opts h) = true →
  invoke map_type stack fn request (target_of r) = Return i →
  stream_document i = Some j →
  ∃ w, serve h hb r new_writer = Return ([], w) ∧ rw_status w = 201 ∧
    (response_of w).2 =
      str_repeat (hb_before hb) " " +:+ json_encode j +:+ (if hb_after hb then " " else "").
Proof.
  intros Hacc Hstream Hi Hj. unfold ServeHTTP.
  rewrite (acc_logger _ _ _ _ Hacc), (acc_method _ _ _ _ Hacc).
  rewrite bool_decide_eq_false_2 by apply (acc_probe _ _ _ _ Hacc). cbn [negb].
  rewrite (accepted_invoke _ _ _ _ _ _ Hacc), Hi, Hstream.
  destruct (start_stream_spec hb (SetBasicResponseHeaders new_writer) eq_refl eq_refl)
    as [[hd Hs] Hb].
  set (w := start_stream hb _) in *. clearbody w.
  assert (stream_reply marshal_any i w = Return (encoded (Some j) w)) as ->.
  { revert Hj. unfold stream_document, stream_reply, reply_of.
    destruct (settle (inv_ops i) (inv_err i)) as [[noRetry retryAt] [e|]]; cbn [snd].
    - destruct (err_msg e) as [m|]; [|done]. cbn [mbind option_bind]. by intros ->.
    - destruct (inv_ops i) as [|op ops]; by intros ->. }
  simpl. exists (end_stream hb (Write (json_encode j) w)).
  split; [done|]. unfold rw_status, response_of, end_stream.
  destruct (hb_after hb).
  - rewrite !(Write_sent _ _ (201, hd)) by (try apply Write_sent; done). cbn [fst snd]. split; [done|].
    rewrite !Write_body, Hb. by rewrite app_assoc'.
  - rewrite (Write_sent _ _ (201, hd)) by done. cbn [fst snd]. split; [done|].
    rewrite Write_body, Hb. by rewrite app_nil_r'.
Qed.

(** ** Misconfigurations *)

(** After [SetOptions] with options that name no logger, every request makes the
    handler panic; a handler made by [NewHandler] with the same options answers an
    inspection. *)
Theorem set_options_breaks_serving opts app h hb r w :
  ho_Logger opts = false →
  serve (SetOptions opts h) hb r w = Panic panicked ∧
  (hr_method r = MethodGet → ∃ w', serve (NewHandler app opts) hb r w = Return ([], w')).
Proof.
  intros Hl. unfold ServeHTTP. split; [simpl; by rewrite Hl|]. intros ->.
  assert (ho_Logger (h_opts (NewHandler (V:=V) app opts)) = true) as ->.
  { unfold NewHandler. rewrite Hl. simpl. by destruct (_ =? _). }
  cbn [negb]. destruct (inspect _ _ _ _ _ _) as [w' [e|]]; by eexists.
Qed.

(** In an out-of-band synchronisation the sync ID is removed from the URL of the
    app, but it stays in the URLs of the functions. *)
Theorem sync_id_stays_in_function_urls h r u cfgs :
  ho_URL (h_opts h) = None → handler_url h r = Some u →
  createFunctionConfigs (h_appName h) (h_funcs h) u false = Ok cfgs →
  values_get "deployId" (url_query (u_RawQuery (without_deployId (hr_url r)))) = "" ∧
  Forall (λ c, ∃ v, ss_url (cf_step c) = url_string v ∧
    values_get "deployId" (url_query (u_RawQuery v)) =
    values_get "deployId" (url_query (u_RawQuery u))) cfgs.
Proof.
  intros Hurl Hu Hcfg. split.
  - unfold without_deployId. simpl. unfold url_query at 1. rewrite parse_query_encode.
    + unfold values_get, values_del. simpl. by rewrite lookup_delete_eq.
    + apply map_Forall_delete, parse_query_nonempty.
  - apply createFunctionConfigs_spec in Hcfg. apply Forall_forall. intros c Hc.
    apply list_elem_of_lookup in Hc as [k Hc].
    destruct (lookup_lt_is_Some_2 (h_funcs h) k) as [fn Hfn].
    { rewrite (Forall2_length _ _ _ Hcfg). by eapply lookup_lt_Some. }
    destruct (Forall2_lookup_lr _ _ _ _ _ _ Hcfg Hfn Hc) as (v & t & _ & _ & _ & _ & _ & Hv & Hq).
    exists v. split; [done|]. destruct Hq as (_ & _ & _ & Hother). unfold values_get.
    rewrite Hother; [done|]. apply (bool_decide_unpack _). exact I.
Qed.
End endpoint.

(** ** Examples *)

Section examples.
(** An empty environment, and a canonicaliser that reprints. *)
Definition no_env : string → string := λ _, "".
Definition no_network : nat → out_request → res goerr out_response := λ _ _, Err (EText "offline").
Definition no_configs : list SDKFunction → option json := λ _, Some (JArr []).

Definition echo_function : ServableFunction json :=
  as_servable id {| sf_fc := basic_opts "echo" "Echo"; sf_trigger := EventTrigger "echo" None;
                    sf_type := EvConcrete raw_type; sf_f := λ i, PRet (in_event i) None |}.

Definition echo_opts (key : option string) (streaming : bool) : HandlerOpts :=
  {| ho_Logger := true; ho_SigningKey := key; ho_SigningKeyFallback := None;
     ho_APIBaseURL := None; ho_EventAPIBaseURL := None; ho_ServeOrigin := None;
     ho_ServePath := None; ho_Env := None; ho_RegisterURL := None; ho_AppVersion := None;
     ho_MaxBodySize := 0; ho_URL := None; ho_UseStreaming := streaming;
     ho_AllowInBandSync := Some true;
     ho_Dev := Some match key with Some _ => false | None => true end |}.

Definition echo_handler (key : option string) (streaming : bool) : handler json :=
  {| h_opts := echo_opts key streaming; h_appName := "app"; h_funcs := [echo_function] |}.

Definition request_to (m : method) (query : string) (sig : string) (byt : string) : http_request :=
  {| hr_method := m; hr_url := set_RawQuery query zero_url;
     hr_requestURI := "/api/inngest?" +:+ query; hr_host := "app.example"; hr_tls := true;
     hr_header := if str_empty sig then ∅ else header_set HeaderKeySignature sig ∅;
     hr_body := {| b_bytes := byt; b_err := None |} |}.

Definition quoted (s : string) : string := json_quote s.

(** {"event":{},"events":[]} *)
Definition echo_body : string := "{" +:+ quoted "event" +:+ ":{}," +:+ quoted "events" +:+ ":[]}".

Definition echo_request : Request :=
  match unmarshal_Request echo_body with Some r => r | None => zero_Request end.

Definition beats : heartbeats := {| hb_before := 2; hb_after := true |}.

Definition echo_call : http_request := request_to MethodPost "fnId=app-echo" "" echo_body.

Lemma echo_accepted streaming :
  accepted no_env reprint clock0 (echo_handler None streaming) echo_call echo_request echo_function.
Proof.
  split; try reflexivity; [by vm_compute|by left|vm_compute; congruence].
Defined.

Definition echo_invocation : invocation json :=
  match invoke raw_type "" echo_function echo_request (target_of echo_call) with
  | Return i => i
  | Panic _ => {| inv_response := None; inv_ops := []; inv_err := None; inv_log := [] |}
  end.

Lemma echo_invoked :
  invoke raw_type "" echo_function echo_request (target_of echo_call) = Return echo_invocation.
Proof. vm_compute. reflexivity. Defined.

Lemma accepted_response_witness :
  ∃ w status hd j,
    ServeHTTP no_env reprint raw_type "" Some clock0 no_configs json_print no_network
      (echo_handler None false) beats echo_call new_writer = Return ([], w) ∧
    response_of w = (status, hd, json_encode j) ∧
    answers Some echo_invocation status j ∧ answer_headers echo_invocation hd.
Proof.
  destruct (accepted_response no_env reprint raw_type "" Some clock0 no_configs json_print
    no_network (echo_handler None false) beats echo_call echo_request echo_function
    echo_invocation (echo_accepted false) eq_refl echo_invoked) as [[_ (e & [He _] & _)]|H].
  - vm_compute in He. discriminate He.
  - exact H.
Defined.

Lemma stream_response_witness :
  ∃ j, stream_document Some echo_invocation = Some j ∧
  ∃ w, ServeHTTP no_env reprint raw_type "" Some clock0 no_configs json_print no_network
         (echo_handler None true) beats echo_call new_writer = Return ([], w) ∧
       rw_status w = 201 ∧ (response_of w).2 = "  " +:+ json_encode j +:+ " ".
Proof.
  eexists. split; [vm_compute; reflexivity|].
  eapply (stream_response no_env reprint raw_type "" Some clock0 no_configs json_print no_network
    (echo_handler None true) beats echo_call echo_request echo_function echo_invocation);
    [apply echo_accepted|reflexivity|apply echo_invoked|vm_compute; reflexivity].
Defined.

Lemma unsigned_requests_run_nothing_witness :
  let h := echo_handler (Some testKey) false in
  let r := request_to MethodPost "fnId=app-echo" "t=1700000000&s=00" echo_body in
  let serve h := ServeHTTP no_env reprint raw_type "" Some clock0 no_configs json_print no_network
                   h beats r new_writer in
  unsigned no_env reprint clock0 h r ∧
  serve h = serve (with_funcs [] h) ∧
  ∃ w, serve h = Return ([], w) ∧ (rw_status w = 401 ∨ rw_status w = 400).
Proof.
  intros h r serve.
  assert (unsigned no_env reprint clock0 h r) as Hu by (repeat split; by vm_compute).
  split; [exact Hu|].
  exact (unsigned_requests_run_nothing no_env reprint raw_type "" Some clock0 no_configs json_print
           no_network h [] beats r eq_refl Hu).
Defined.

Definition probe_body : string := "{}".
Definition probe_sig : string := Sign reprint clock0 clock0 testKey probe_body.
Definition probe : http_request := request_to MethodPost "probe=trust" probe_sig probe_body.

Definition probed : writer :=
  match ServeHTTP no_env reprint raw_type "" Some clock0 no_configs json_print no_network
          (echo_handler (Some testKey) false) beats probe new_writer with
  | Return (_, w) => w
  | Panic _ => new_writer
  end.

Lemma trust_response_verifies_witness :
  ∃ key, (key = testKey ∨ key = "") ∧
    ValidateRequestSignature reprint clock0 probe_sig testKey "" probe_body false =
      (true, key, None) ∧
    verifies clock0 key probed.
Proof.
  apply (trust_response_verifies no_env reprint raw_type "" Some clock0 no_configs json_print
    no_network (echo_handler (Some testKey) false) beats probe probed);
    try reflexivity; vm_compute; reflexivity.
Defined.

(** {"url":"https://app.example/api"} *)
Definition sync_body : string := "{" +:+ quoted "url" +:+ ":" +:+ quoted "https://app.example/api" +:+ "}".
Definition sync_sig : string := Sign reprint clock0 clock0 testKey sync_body.
Definition sync_call : http_request := request_to MethodPut "" sync_sig sync_body.

Definition synced : writer :=
  match inBandSync no_env reprint clock0 no_configs (echo_handler (Some testKey) false) sync_call
          (SetBasicResponseHeaders new_writer) with
  | Return (w, _) => w
  | Panic _ => new_writer
  end.

Lemma sync_response_verifies_witness :
  ∃ key, (key = testKey ∨ key = "") ∧
    ValidateRequestSignature reprint clock0 sync_sig testKey "" sync_body false =
      (true, key, None) ∧
    verifies clock0 key synced.
Proof.
  apply (sync_response_verifies no_env reprint clock0 no_configs
    (echo_handler (Some testKey) false) sync_call synced);
    [reflexivity|vm_compute; reflexivity].
Defined.

Lemma set_options_breaks_serving_witness :
  let serve h := ServeHTTP no_env reprint raw_type "" Some clock0 no_configs json_print no_network
                   h beats (request_to MethodGet "" "" "") new_writer in
  serve (SetOptions zero_opts (NewHandler "app" zero_opts)) = Panic panicked ∧
  (MethodGet = MethodGet → ∃ w', serve (NewHandler "app" zero_opts) = Return ([], w')).
Proof.
  exact (set_options_breaks_serving no_env reprint raw_type "" Some clock0 no_configs json_print
    no_network zero_opts "app" (NewHandler "app" zero_opts) beats (request_to MethodGet "" "" "")
    new_writer eq_refl).
Defined.

Definition deploy_url : url := default zero_url (url_parse "https://app.example/api/inngest?deployId=42").
Definition deploy_call : http_request :=
  request_to MethodPut "deployId=42" "" "".
Definition deploy_configs : list SDKFunction :=
  match createFunctionConfigs "app" [echo_function] deploy_url false with Ok c => c | Err _ => [] end.

Lemma sync_id_stays_in_function_urls_witness :
  length deploy_configs = 1%nat ∧
  values_get "deployId" (url_query (u_RawQuery deploy_url)) = "42" ∧
  values_get "deployId" (url_query (u_RawQuery (without_deployId (hr_url deploy_call)))) = "" ∧
  Forall (λ c, ∃ v, ss_url (cf_step c) = url_string v ∧
    values_get "deployId" (url_query (u_RawQuery v)) =
    values_get "deployId" (url_query (u_RawQuery deploy_url))) deploy_configs.
Proof.
  split; [reflexivity|]. split; [reflexivity|].
  apply (sync_id_stays_in_function_urls (echo_handler None false) deploy_call deploy_url
    deploy_configs); [reflexivity|vm_compute; reflexivity|vm_compute; reflexivity].
Defined.
End examples.
