(* ===== verification/Wire.v ===== *)
(** * What goes over the wire

    The operations a function reports are well-typed and well-formed JSON, and the
    executor reads them back from the response; a request survives its JSON; so the
    result of a step comes back to the function as it was reported. *)

From S2P Require Import Prelude GoBytes GoHash GoTime GoJson JsonWire Errors Manager Step Program.
From S2P Require Import GoHttp Env Signature Functions Handler Invoke Serve Sync ServeProps.

Open Scope Z_scope.

(** ** Well-typed operations *)

Definition no_data (op : GeneratorOpcode) : bool :=
  match g_data op, g_error op with None, None => true | _, _ => false end.

(** The names of the members of an object. *)
Definition keys (j : json) : list string :=
  match j with JObj kvs => kvs.*1 | _ => [] end.

Definition is_null (j : json) : bool := match j with JNull => true | _ => false end.

(** Which parts an operation has is a function of its opcode. *)
Definition op_typed (op : GeneratorOpcode) : bool :=
  match g_op op with
  | OpcodeStepPlanned => is_null (g_opts op) && no_data op
  | OpcodeStepRun =>
      is_null (g_opts op) && match g_error op with None => true | Some _ => false end
  | OpcodeStepError =>
      is_null (g_opts op) &&
      match g_data op, g_error op with
      | None, Some u => bool_decide (ue_name u = "Step failed")
      | _, _ => false
      end
  | OpcodeSleep => bool_decide (keys (g_opts op) = ["duration"]) && no_data op
  | OpcodeWaitForEvent =>
      bool_decide (keys (g_opts op) ∈ [["event"; "timeout"]; ["event"; "if"; "timeout"]]) &&
      no_data op
  | OpcodeInvokeFunction =>
      bool_decide (keys (g_opts op) ∈
        [["function_id"; "payload"]; ["function_id"; "payload"; "timeout"]]) && no_data op
  | OpcodeAIGateway =>
      bool_decide (keys (g_opts op) ∈ [["url"; "auth_key"; "format"; "body"];
        ["url"; "headers"; "auth_key"; "format"; "body"]]) &&
      match g_data op, g_error op with Some _, None => true | _, _ => false end
  | OpcodeNone | OpcodeStep => false
  end.

(** The parts of an operation are documents. *)
Definition parts_ok (op : GeneratorOpcode) : bool :=
  json_ok (g_opts op) && json_ok (raw_json (g_data op)) &&
  match g_error op with Some u => json_ok (raw_json (ue_data u)) | None => true end.

Definition op_ok (op : GeneratorOpcode) : Prop :=
  (∃ u, g_id op = MustHash u) ∧ op_typed op = true ∧ parts_ok op = true.

(** A type whose values are marshalled to documents. *)
Definition marshals {V} (t : gotype V) : Prop := ∀ v j, gt_marshal t v = Some j → json_ok j = true.

(** The values of a program that reach the executor are marshalled to documents. *)
Fixpoint serialisable {V} (p : prog V) : Prop :=
  match p with
  | PRet _ _ | PPanic _ => True
  | PLog _ k | PSleep _ _ _ k => serialisable k
  | PRun _ t _ body k => marshals t ∧ serialisable body ∧ ∀ v e, serialisable (k v e)
  | PWait _ _ _ _ k => ∀ v e, serialisable (k v e)
  | PInvoke _ _ _ o k =>
      json_ok (io_data o) = true ∧ json_ok (io_user o) = true ∧ ∀ v e, serialisable (k v e)
  | PInfer _ tin _ _ _ _ k => marshals tin ∧ ∀ v e, serialisable (k v e)
  | PParallel _ fns k => foldr (λ f P, serialisable f ∧ P) True fns ∧ ∀ rs, serialisable (k rs)
  end.

Lemma op_json_ok op : parts_ok op = true → json_ok (GeneratorOpcode_json op) = true.
Proof.
  unfold parts_ok. intros [[Ho Hd]%andb_true_iff He]%andb_true_iff. simpl. rewrite Ho, Hd. simpl.
  destruct (g_error op) as [[n m [d|]]|]; simpl in *; by rewrite ?He.
Qed.

(** ** Computations that only append operations *)

Section appends.
Context (P : GeneratorOpcode → Prop).

Definition appends {A} (m : M A) : Prop := ∀ w, ∃ new, ops (m w).1 = ops w ++ new ∧ Forall P new.

Lemma appends_same {A} (m : M A) : (∀ w, ops (m w).1 = ops w) → appends m.
Proof. intros Hm w. exists []. by rewrite app_nil_r. Qed.

Lemma appends_bind {A B} (m : M A) (k : A → M B) :
  appends m → (∀ a, appends (k a)) → appends (bind m k).
Proof.
  intros Hm Hk w. unfold bind. destruct (Hm w) as (n1 & Hn1 & H1).
  destruct (m w) as [w1 [a|p]]; simpl in *; [|by eauto].
  destruct (Hk a w1) as (n2 & Hn2 & H2). exists (n1 ++ n2).
  rewrite Hn2, Hn1, app_assoc. split; [done|]. by apply Forall_app.
Qed.

Lemma appends_appendOp op : P op → appends (appendOp op).
Proof. intros Hop w. exists [op]. by repeat constructor. Qed.

Lemma appends_ret {A} (a : A) : appends (ret a).
Proof. by apply appends_same. Qed.

Lemma appends_panic {A} p : appends (panic (A:=A) p).
Proof. by apply appends_same. Qed.

Lemma appends_setErr e : appends (setErr e).
Proof. by apply appends_same. Qed.

Lemma appends_newOp {A} o id opts (k : UnhashedOp → M A) :
  (∀ pos, appends (k {| uo_op := o; uo_id := id; uo_opts := opts; uo_pos := pos |})) →
  appends (u <- newOp o id opts;; k u).
Proof. intros Hk w. apply (Hk _ (bump id w)). Qed.

Lemma appends_log s : appends (log s).
Proof. by apply appends_same. Qed.

Lemma appends_preflight c : appends (preflight c).
Proof.
  apply appends_same. intros w. by destruct (preflight_cases c w) as [(-> & _)|(p & ->)].
Qed.

Lemma appends_defer {A} (m : M A) : appends m → appends (defer_cancel m).
Proof. intros Hm w. specialize (Hm w). unfold defer_cancel. by destruct (m w). Qed.

Lemma appends_fail {A} e : appends (fail_hijack (A:=A) e).
Proof. by apply appends_same. Qed.

Lemma appends_parallel {V} c (fns : list (ctx → M (V * option goerr))) :
  Forall (λ f, appends (f (with_parallel c))) fns → appends (Parallel c fns).
Proof.
  intros Hfns. apply appends_bind.
  - generalize (@nil (Result V)) false (@None panicval).
    induction Hfns as [|f fns Hf _ IH]; intros rs pl un; [apply appends_ret|]. intros w. simpl.
    destruct (Hf w) as (n1 & Hn1 & H1).
    destruct (f (with_parallel c) w) as [w1 [[v e]|[| |]]]; simpl in Hn1;
      match goal with |- context [parallel_loop _ _ ?a ?b ?d w1] =>
        destruct (IH a b d w1) as (n2 & Hn2 & H2) end;
      exists (n1 ++ n2); rewrite Hn2, Hn1, app_assoc; (split; [done|by apply Forall_app]).
  - intros [[rs pl] [p|]]; [apply appends_panic|]. destruct pl; [apply appends_panic|apply appends_ret].
Qed.
End appends.

#[local] Hint Resolve appends_ret appends_panic appends_setErr appends_log
  appends_preflight appends_fail appends_defer : core.

(** [walk] follows a tool to the operations it appends. *)
Ltac walk :=
  repeat first
    [ progress auto
    | apply appends_newOp; intros ?
    | apply appends_bind; [|intros ?]
    | apply appends_appendOp
    | apply appends_defer
    | match goal with |- appends _ (match ?x with _ => _ end) => destruct x eqn:? end ].

Lemma hash_of (op : UnhashedOp) : ∃ u, MustHash op = MustHash u.
Proof. by exists op. Qed.

Section tool_ops.
Context {V : Type} (req : Request).
Implicit Types (t : gotype V) (c : ctx).

(** An operation of a tool: its identifier is a hash, the rest computes. *)
Ltac op_ok := split; [apply hash_of|split; [try reflexivity|]].

Lemma marshalled t v : marshals t → json_ok (raw_json (gt_marshal t v)) = true.
Proof. intros Ht. destruct (gt_marshal t v) eqn:Hv; [by apply (Ht v)|done]. Qed.

Lemma Run_appends c t id f : marshals t → appends op_ok (f c) → appends op_ok (Run req c t id f).
Proof.
  intros Ht Hf. unfold Run, run_memo, run_finish. walk.
  all: op_ok; unfold parts_ok; simpl; rewrite ?marshalled; done.
Qed.

Lemma Sleep_appends c id d : appends op_ok (Sleep req c id d).
Proof. unfold Sleep. walk. by op_ok. Qed.

Lemma WaitForEvent_appends c t id o : appends op_ok (WaitForEvent req c t id o).
Proof. unfold WaitForEvent. walk. all: op_ok; by destruct (wo_if o). Qed.

Lemma Invoke_appends c t id o :
  json_ok (io_data o) = true → json_ok (io_user o) = true → appends op_ok (Invoke req c t id o).
Proof.
  intros Hd Hu. unfold Invoke, invoke_memo. walk.
  all: op_ok; unfold op_typed, parts_ok; simpl; destruct (0 <? io_timeout o); simpl; by rewrite ?Hd, ?Hu.
Qed.

Lemma Infer_appends c tin t id o b : marshals tin → appends op_ok (Infer req c tin t id o b).
Proof.
  intros Ht. unfold Infer, infer_memo. walk.
  match goal with H : gt_marshal tin b = Some ?j |- _ => apply Ht in H as Hj end.
  op_ok.
  - unfold op_typed, inferOpcodeOpts_json. simpl. by destruct (iro_headers o).
  - unfold parts_ok, inferOpcodeOpts_json. simpl. rewrite Hj.
    destruct (iro_headers o) as [|kv hs]; simpl; rewrite ?Hj; [done|].
    rewrite !andb_true_r. clear. induction hs; by simpl.
Qed.
End tool_ops.

Lemma serialisable_all {V} (fns : list (prog V)) :
  foldr (λ f P, serialisable f ∧ P) True fns → Forall serialisable fns.
Proof. induction fns as [|f fns IH]; simpl; [done|]. intros [? ?]. auto. Qed.

Lemma exec_appends {V} req (p : prog V) c : serialisable p → appends op_ok (exec req p c).
Proof.
  revert c. induction p as [v e|s|s k IHk|r t id body k IHb IHk|r id d k IHk
    |r t id o k IHk|r t id o k IHk|r ti t id o b k IHk|r fns k IHf IHk] using prog_ind_nested;
    intros c Hp; simpl in *; auto.
  - apply appends_bind; auto.
  - destruct Hp as (Ht & Hb & Hk). apply appends_bind; [|intros [v e]; auto].
    apply Run_appends; auto.
  - apply appends_bind; auto using Sleep_appends.
  - apply appends_bind; [apply WaitForEvent_appends|intros [v e]; auto].
  - destruct Hp as (Hd & Hu & Hk). apply appends_bind; [by apply Invoke_appends|intros [v e]; auto].
  - destruct Hp as (Ht & Hk). apply appends_bind; [by apply Infer_appends|intros [v e]; auto].
  - destruct Hp as (Hfns%serialisable_all & Hk). apply appends_bind; [|auto].
    apply appends_parallel, Forall_forall. intros m Hm. rewrite Forall_forall in IHf, Hfns.
    apply list_elem_of_In, in_map_iff in Hm as (f & <- & Hf%list_elem_of_In). by apply IHf; auto.
Qed.

(** ** The operations of an invocation *)

Lemma invocation_ops_typed {V} (map_type : gotype V) stack (sf : ServableFunction V) req target i :
  (∀ f arg, Func sf = Some f → serialisable (f arg)) →
  invoke map_type stack sf req target = Return i → Forall op_ok (inv_ops i).
Proof.
  intros Hf Hi. unfold invoke in Hi. destruct (Func sf) as [f|]; [|by simplify_eq/=].
  destruct (decode_events _ _ _) as [[[evt evts]|p]|e]; simplify_eq/=; [|done].
  match goal with |- context [exec req ?p ?c start] =>
    destruct (exec_appends req p c ltac:(by apply Hf) start) as (new & Hops & Hnew) end.
  unfold collect. destruct (exec req _ _ start) as [w o]. simpl in *. unfold ops in Hops.
  by rewrite Hops.
Qed.

(** ** The executor reads the operations *)

Definition Opcode_of_name (s : string) : option Opcode :=
  go_find (λ o, bool_decide (Opcode_name o = s))
    [OpcodeNone; OpcodeStep; OpcodeStepRun; OpcodeStepError; OpcodeStepPlanned; OpcodeSleep;
     OpcodeWaitForEvent; OpcodeInvokeFunction; OpcodeAIGateway].

Definition zero_op : GeneratorOpcode :=
  {| g_id := ""; g_op := OpcodeNone; g_name := ""; g_opts := JNull; g_data := None;
     g_error := None |}.

Definition UserError_fields : list (string * decoder UserError) :=
  [("name", dec_string (λ v u, {| ue_name := v; ue_message := ue_message u; ue_data := ue_data u |}));
   ("message", dec_string (λ v u, {| ue_name := ue_name u; ue_message := v; ue_data := ue_data u |}));
   ("data", dec_raw (λ v u,
      {| ue_name := ue_name u; ue_message := ue_message u; ue_data := Some v |}))].

Definition zero_UserError : UserError := {| ue_name := ""; ue_message := ""; ue_data := None |}.

(** Decoding of an operation by the tags it is encoded with. *)
Definition op_fields : list (string * decoder GeneratorOpcode) :=
  [("op", λ j o,
      match j with
      | JStr s =>
          match Opcode_of_name s with
          | Some c => ({| g_id := g_id o; g_op := c; g_name := g_name o; g_opts := g_opts o;
                          g_data := g_data o; g_error := g_error o |}, true)
          | None => (o, false)
          end
      | _ => (o, false)
      end);
   ("id", dec_string (λ v o, {| g_id := v; g_op := g_op o; g_name := g_name o;
      g_opts := g_opts o; g_data := g_data o; g_error := g_error o |}));
   ("name", dec_string (λ v o, {| g_id := g_id o; g_op := g_op o; g_name := v;
      g_opts := g_opts o; g_data := g_data o; g_error := g_error o |}));
   ("opts", dec_raw (λ v o, {| g_id := g_id o; g_op := g_op o; g_name := g_name o;
      g_opts := v; g_data := g_data o; g_error := g_error o |}));
   ("data", dec_raw (λ v o, {| g_id := g_id o; g_op := g_op o; g_name := g_name o;
      g_opts := g_opts o; g_data := Some v; g_error := g_error o |}));
   ("error", λ j o,
      let set e := {| g_id := g_id o; g_op := g_op o; g_name := g_name o; g_opts := g_opts o;
                      g_data := g_data o; g_error := e |} in
      match j with
      | JNull => (set None, true)
      | _ => let '(u, ok) := decode_struct UserError_fields j zero_UserError in (set (Some u), ok)
      end)].

(** The operations in the body of a response. *)
Definition read_ops (body : string) : option (list GeneratorOpcode) :=
  match json_parse body with
  | Some (JArr l) => mapM (unmarshal (decode_struct op_fields) zero_op) l
  | _ => None
  end.

(** What is read of an operation: a missing datum is read as [null]. *)
Definition received (op : GeneratorOpcode) : GeneratorOpcode :=
  {| g_id := clean (g_id op); g_op := g_op op; g_name := clean (g_name op);
     g_opts := json_clean (g_opts op); g_data := Some (json_clean (raw_json (g_data op)));
     g_error := (λ u, {| ue_name := clean (ue_name u); ue_message := clean (ue_message u);
                         ue_data := json_clean <$> ue_data u |}) <$> g_error op |}.

Lemma Opcode_name_clean o : clean (Opcode_name o) = Opcode_name o ∧ Opcode_of_name (Opcode_name o) = Some o.
Proof. by destruct o. Qed.

Lemma decode_op op :
  decode_struct op_fields (json_clean (GeneratorOpcode_json op)) zero_op = (received op, true).
Proof.
  destruct op as [id o name opts data err]. destruct (Opcode_name_clean o) as [Hc Hn].
  assert (∀ s, (match Opcode_of_name (clean (Opcode_name o)) with
    | Some c => ({| g_id := g_id s; g_op := c; g_name := g_name s; g_opts := g_opts s;
                    g_data := g_data s; g_error := g_error s |}, true)
    | None => (s, false)
    end) = ({| g_id := g_id s; g_op := o; g_name := g_name s; g_opts := g_opts s;
                    g_data := g_data s; g_error := g_error s |}, true)) as Ho by (by rewrite Hc, Hn).
  change (decode_members op_fields (clean_member <$>
    [("op", JStr (Opcode_name o)); ("id", JStr id); ("name", JStr name); ("opts", opts);
     ("data", raw_json data);
     ("error", match err with Some u => UserError_json u | None => JNull end);
     ("displayName", JNull)]) zero_op = (received (Build_GeneratorOpcode id o name opts data err), true)).
  cbn [fmap list_fmap].
  destruct err as [[n m [d|]]|]; members (apply Ho).
Qed.

(** The body of the response that reports operations (Serve.v writes
    [JArr (GeneratorOpcode_json <$> ops)]) is read back as these operations. *)
Lemma read_ops_spaced ws ops :
  str_all is_space ws = true → Forall (λ op, parts_ok op = true) ops →
  read_ops (json_print (JArr (GeneratorOpcode_json <$> ops)) +:+ ws) = Some (received <$> ops).
Proof.
  intros Hws Hops. unfold read_ops. rewrite json_parse_print; [|clear Hws|done].
  - cbn [json_clean]. rewrite <- list_fmap_compose. apply mapM_Some_2, Forall2_fmap_2.
    apply Forall_Forall2_diag, Forall_true. intros op. unfold unmarshal, compose.
    by rewrite decode_op.
  - cbn [json_ok]. apply forallb_Forall_true, Forall_fmap. eapply Forall_impl; [exact Hops|].
    intros op. apply op_json_ok.
Qed.

Lemma read_ops_encode ops :
  Forall (λ op, parts_ok op = true) ops →
  read_ops (json_encode (JArr (GeneratorOpcode_json <$> ops))) = Some (received <$> ops).
Proof. by apply read_ops_spaced. Qed.

Lemma read_ops_text ops :
  Forall (λ op, parts_ok op = true) ops →
  read_ops (json_print (JArr (GeneratorOpcode_json <$> ops))) = Some (received <$> ops).
Proof. intros Hops. rewrite <- (app_nil_r' (json_print _)). by apply read_ops_spaced. Qed.

(** ** The response with the operations *)

(** C10: what the endpoint reports.  The operations of a function whose values are marshalled
    to documents have the parts of their opcode, hashes for identifiers and well-formed
    documents in them; they are answered with 206 in a body from which exactly they are
    read, up to the bytes that are not UTF-8. *)
Theorem reported_ops_read_back {V} Getenv jcs (map_type : gotype V) stack marshal_any now
    marshal_configs fmt_value Do (h : handler V) hb r request fn i ops :
  accepted Getenv jcs now h r request fn → ho_UseStreaming (h_opts h) = false →
  (∀ f arg, Func fn = Some f → serialisable (f arg)) →
  invoke map_type stack fn request (target_of r) = Return i → reply_of i = ReplyOps ops →
  Forall op_ok ops ∧
  ∃ w, ServeHTTP Getenv jcs map_type stack marshal_any now marshal_configs fmt_value Do h hb r
         new_writer = Return ([], w) ∧
       rw_status w = 206 ∧ read_ops (rw_body w) = Some (received <$> ops).
Proof.
  intros Hacc Hstream Hf Hi Hops.
  assert (Forall op_ok ops) as Hok.
  { pose proof (invocation_ops_typed _ _ _ _ _ _ Hf Hi) as Hok. unfold reply_of in Hops.
    destruct (settle _ _).2; [done|]. destruct (inv_ops i); by simplify_eq. }
  split; [done|].
  pose proof (accepted_answer Getenv jcs map_type stack marshal_any now marshal_configs fmt_value Do
    h hb r request fn i Hacc Hstream Hi) as Hans.
  unfold expected in Hans. rewrite Hops in Hans. destruct Hans as (w & Hw & Hr). exists w.
  split; [done|]. unfold rw_status.
  split; [by rewrite Hr|]. replace (rw_body w) with (response_of w).2.
  2: { unfold response_of. by destruct (rw_sent w) as [[]|]. }
  rewrite Hr. apply read_ops_encode.
  eapply Forall_impl; [exact Hok|]. by intros op (_ & _ & ?).
Qed.

(** ** Requests *)

Definition CallStack_json (s : CallStack) : json :=
  JObj [("current", jint (current s)); ("stack", JArr (JStr <$> stack s))].

Definition CallCtx_json (c : CallCtx) : json :=
  JObj [("disable_immediate_execution", JBool (disableImmediateExecution c));
        ("env", JStr (cc_env c)); ("fn_id", JStr (cc_functionID c)); ("run_id", JStr (cc_runID c));
        ("step_id", JStr (cc_stepID c)); ("stack", CallStack_json (cc_stack c));
        ("attempt", jint (cc_attempt c))].

(** [json.Marshal] of a request whose steps are written in the order [steps]. *)
Definition Request_json (steps : list (string * json)) (r : Request) : json :=
  JObj [("event", raw_json (r_event r)); ("events", JArr (r_events r)); ("steps", JObj steps);
        ("ctx", CallCtx_json (r_callCtx r)); ("use_api", JBool (r_useAPI r))].

(** A request with integers of its machine types, an event, and its steps. *)
Record sendable (steps : list (string * json)) (r : Request) : Prop := {
  sb_current : 0 ≤ current (cc_stack (r_callCtx r)) < 2 ^ 64;
  sb_attempt : in_int64 (cc_attempt (r_callCtx r));
  sb_event : is_Some (r_event r);
  sb_steps : r_steps r = list_to_map steps;
  sb_nodup : NoDup steps.*1;
  sb_ok : json_ok (Request_json steps r) = true;
  sb_utf8 : json_utf8 (Request_json steps r) = true }.

Lemma dec_uint_format {S} (set : Z → S → S) n s :
  0 ≤ n < 2 ^ 64 → dec_uint set (jint n) s = (set n s, true).
Proof.
  intros Hn. unfold dec_uint, jint, format_int. rewrite (proj2 (Z.ltb_ge _ _) (proj1 Hn)).
  rewrite parse_format_uint, format_uint_nonempty by lia.
  by rewrite (proj2 (Z.ltb_lt _ _) (proj2 Hn)).
Qed.

Lemma dec_int_format {S} (set : Z → S → S) n s :
  in_int64 n → dec_int set (jint n) s = (set n s, true).
Proof. intros Hn. unfold dec_int, jint. by rewrite atoi_format_int. Qed.

Lemma dec_strings_strings {S} (set : list string → S → S) l s :
  dec_strings set (JArr (JStr <$> l)) s = (set l s, true).
Proof.
  unfold dec_strings. f_equal.
  - f_equal. induction l as [|x l IH]; [done|]. simpl. by f_equal.
  - by induction l.
Qed.

Lemma decode_CallCtx c :
  0 ≤ current (cc_stack c) < 2 ^ 64 → in_int64 (cc_attempt c) →
  decode_struct CallCtx_fields (CallCtx_json c) zero_CallCtx = (c, true).
Proof.
  destruct c as [dis env fn run st [cur stk] att]. cbn [current cc_stack cc_attempt]. intros Hcur Hatt.
  assert (decode_struct CallStack_fields (CallStack_json {| current := cur; stack := stk |}) zero_CallStack =
    ({| current := cur; stack := stk |}, true)) as Hst.
  { members (first [by apply dec_uint_format|apply dec_strings_strings]). }
  members (first [by apply dec_int_format|cbn -[decode_struct CallStack_json CallStack_fields]; rewrite Hst; reflexivity]).
Qed.

Lemma steps_insert (steps : list (string * json)) :
  NoDup steps.*1 →
  foldl (λ m kv, <[kv.1 := kv.2]> m) ∅ steps = (list_to_map steps : gmap string json).
Proof.
  intros Hnd. assert (∀ m : gmap string json,
    foldl (λ m kv, <[kv.1 := kv.2]> m) m steps = list_to_map steps ∪ m) as Hm.
  { induction steps as [|[k v] steps IH]; intros m; [simpl; by rewrite (left_id_L (∅ : gmap string json) (∪))|].
    apply NoDup_cons in Hnd as [Hk Hnd]. cbn [foldl fst snd]. rewrite IH by done. simpl.
    rewrite <- insert_union_l, insert_union_r by by apply not_elem_of_list_to_map_1. done. }
  by rewrite Hm, (right_id_L (∅ : gmap string json) (∪)).
Qed.

Lemma decode_Request steps r :
  sendable steps r →
  decode_struct Request_fields (Request_json steps r) zero_Request = (r, true).
Proof.
  intros [Hcur Hatt [ev Hev] Hsteps Hnd _ _]. destruct r as [event events st c api].
  cbn [r_event r_steps r_callCtx] in *. subst event st.
  pose proof (decode_CallCtx c Hcur Hatt) as Hc. rewrite <- steps_insert by done.
  members (cbn -[decode_struct CallCtx_json CallCtx_fields]; rewrite Hc; reflexivity).
Qed.

Lemma request_read_back steps r :
  sendable steps r → unmarshal_Request (json_encode (Request_json steps r)) = Some r.
Proof.
  intros Hr. unfold unmarshal_Request. rewrite json_parse_encode by apply (sb_ok _ _ Hr).
  rewrite json_clean_id by apply (sb_utf8 _ _ Hr). simpl. unfold unmarshal.
  by rewrite decode_Request.
Qed.

(** C12: a request survives its JSON, in whatever order its steps are written. *)
Theorem request_round_trip steps r :
  sendable steps r → unmarshal_Request (json_encode (Request_json steps r)) = Some r.
Proof. apply request_read_back. Qed.

(** ** The result of a step comes back *)

Lemma memo_data {V} (t : gotype V) id d v w :
  gt_unmarshal t d = (v, None) → run_memo t id (JObj [("data", d)]) w = (w, Return (v, None)).
Proof. intros Hd. unfold run_memo. simpl. by rewrite Hd. Qed.

(** The value survives the encoding of its type, up to the bytes that are not UTF-8. *)
Definition codec {V} (t : gotype V) (v : V) (d : json) : Prop :=
  gt_marshal t v = Some d ∧ json_ok d = true ∧ gt_unmarshal t (json_clean d) = (v, None).

(** A step that runs now and succeeds with [v]. *)
Record succeeds {V} (req : Request) (c : ctx) (id : string) (f : ctx → M (V * option goerr))
    (w w' : world) (v : V) : Prop := {
  sc_mgr : cx_mgr c = true;
  sc_live : cancelled w = false;
  sc_fresh : r_steps req !! step_hash (m_indexes (w_mgr w)) id = None;
  sc_target : match cx_target c with
              | Some h => h = step_hash (m_indexes (w_mgr w)) id
              | None => cx_parallel c || disableImmediateExecution (r_callCtx req) = false
              end;
  sc_body : f c (bump id w) = (w', Return (v, None)) }.

Lemma Run_succeeds {V} req c (t : gotype V) id f w w' v d :
  succeeds req c id f w w' v → gt_marshal t v = Some d →
  Run req c t id f w =
  (upd Cancel (upd (AppendOp (step_run_op (step_hash (m_indexes (w_mgr w)) id) id (Some d))) w'),
   Panic ControlHijack).
Proof.
  intros [Hm Hl Hf Ht Hb] Hd. unfold Run, bind at 1.
  destruct (preflight_cases c w) as [(-> & _)|(p & Hp)].
  2: { unfold preflight, cancelled in *. by rewrite Hm, Hl in Hp. }
  unfold bind at 1. change (newOp OpcodeStep id JNull w) with (bump id w, @Return UnhashedOp
    {| uo_op := OpcodeStep; uo_id := id; uo_opts := JNull;
       uo_pos := next_index (m_indexes (w_mgr w)) id |}).
  cbv beta iota. unfold Step. change (MustHash _) with (step_hash (m_indexes (w_mgr w)) id).
  rewrite Hf. cbv zeta. unfold getTargetStepID, isParallel.
  destruct (cx_target c) as [h|].
  - subst h. rewrite bool_decide_eq_true_2 by done. cbn [negb andb orb].
    unfold defer_cancel, bind. rewrite Hb. unfold run_finish. by rewrite Hd.
  - cbn [andb]. rewrite Ht. unfold defer_cancel, bind. rewrite Hb. unfold run_finish. by rewrite Hd.
Qed.

Lemma step_hash_clean idx id : clean (step_hash idx id) = step_hash idx id.
Proof.
  apply (clean_ascii is_hex_lower); [|apply hex_encode_all]. intros c Hc.
  unfold is_hex_lower, is_digit, in_range in Hc. lia.
Qed.

(** A stored result is returned. *)
Lemma Run_stored {V} req c (t : gotype V) id f w v d :
  cx_mgr c = true → cancelled w = false →
  r_steps req !! step_hash (m_indexes (w_mgr w)) id = Some (JObj [("data", d)]) →
  gt_unmarshal t d = (v, None) → Run req c t id f w = (bump id w, Return (v, None)).
Proof.
  intros Hm Hl Hs Hd. unfold Run, bind.
  destruct (preflight_cases c w) as [(-> & _)|(p & Hp)].
  2: { unfold preflight, cancelled in *. by rewrite Hm, Hl in Hp. }
  simpl. unfold Step. change (MustHash _) with (step_hash (m_indexes (w_mgr w)) id).
  rewrite Hs. by apply memo_data.
Qed.

(** C11: the result of a step comes back.  A step that ran and succeeded is reported in the
    response; when the executor stores the datum it read under the identifier it read,
    and sends it in whatever request, the step returns its value in place of running,
    wherever the identifier has been used as often. *)
Theorem step_result_round_trip {V} (t : gotype V) req c id f w w' v d :
  codec t v d → succeeds req c id f w w' v →
  ∃ op back,
    ops (Run req c t id f w).1 = ops w' ++ [op] ∧
    read_ops (json_encode (JArr (GeneratorOpcode_json <$> [op]))) = Some [back] ∧
    ∀ steps req2 c2 f2 w2,
      sendable steps req2 → r_steps req2 !! g_id back = Some (JObj [("data", raw_json (g_data back))]) →
      cx_mgr c2 = true → cancelled w2 = false → m_indexes (w_mgr w2) = m_indexes (w_mgr w) →
      ∃ r, unmarshal_Request (json_encode (Request_json steps req2)) = Some r ∧
           Run r c2 t id f2 w2 = (bump id w2, Return (v, None)).
Proof.
  intros (Hm & Hok & Hu) Hs. rewrite (Run_succeeds _ _ _ _ _ _ _ _ _ Hs Hm).
  eexists _, _. split; [reflexivity|]. split.
  { rewrite read_ops_encode; [reflexivity|]. repeat constructor. unfold parts_ok. simpl. by rewrite Hok. }
  intros steps req2 c2 f2 w2 Hsend Hstep Hm2 Hl2 Hidx. exists req2.
  split; [by apply request_read_back|]. eapply Run_stored; [done|done| |exact Hu].
  rewrite Hidx. cbn [received g_id g_data step_run_op raw_json default] in Hstep.
  by rewrite step_hash_clean in Hstep.
Qed.

(** ** Examples *)

(** A type of strings. *)
Definition string_type : gotype json :=
  {| gt_zero := JStr ""; gt_kind := KOther;
     gt_marshal := λ v, match v with JStr _ => Some v | _ => None end;
     gt_unmarshal := λ j, match j with
                          | JStr _ => (j, None)
                          | JNull => (JStr "", None)
                          | _ => (JStr "", Some errType)
                          end;
     gt_unmarshal_elem := λ j, (j, None) |}.

Lemma string_marshals : marshals string_type.
Proof. by intros [] j [= <-]. Qed.

Lemma request_round_trip_witness :
  let c := {| disableImmediateExecution := false; cc_env := "prod"; cc_functionID := "fn";
              cc_runID := "run"; cc_stepID := "step";
              cc_stack := {| current := 1; stack := ["s"] |}; cc_attempt := 2 |} in
  let steps := [("s", JObj [("data", jint 7)]); ("p", JNull)] in
  let r := {| r_event := Some (JObj []); r_events := [JObj []]; r_steps := list_to_map steps;
              r_callCtx := c; r_useAPI := false |} in
  unmarshal_Request (json_encode (Request_json steps r)) = Some r.
Proof.
  intros c steps r. apply (request_round_trip steps r).
  split; try reflexivity; try (by eexists).
  repeat constructor; set_solver.
Defined.

(** A function that charges a card. *)
Definition charge : prog json :=
  PRun Given string_type "charge" (PLog "charged" (PRet (JStr "receipt") None)) PRet.

Definition charge_function : ServableFunction json :=
  as_servable id {| sf_fc := basic_opts "echo" "Echo"; sf_trigger := EventTrigger "echo" None;
                    sf_type := EvConcrete raw_type; sf_f := λ _, charge |}.

Definition charge_handler : handler json :=
  {| h_opts := echo_opts None false; h_appName := "app"; h_funcs := [charge_function] |}.

Definition charge_op : GeneratorOpcode :=
  step_run_op (step_hash ∅ "charge") "charge" (Some (JStr "receipt")).

Lemma charge_serialisable : serialisable charge.
Proof. split; [apply string_marshals|done]. Defined.

Definition charge_invocation : invocation json :=
  {| inv_response := None; inv_ops := [charge_op]; inv_err := None; inv_log := ["charged"] |}.

Lemma reported_ops_read_back_witness :
  ∃ w, ServeHTTP no_env reprint raw_type "" Some clock0 no_configs json_print no_network
         charge_handler beats echo_call new_writer = Return ([], w) ∧
       rw_status w = 206 ∧ read_ops (rw_body w) = Some [charge_op].
Proof.
  refine (proj2 (reported_ops_read_back no_env reprint raw_type "" Some clock0 no_configs json_print
    no_network charge_handler beats echo_call echo_request charge_function charge_invocation
    [charge_op] _ _ _ _ _)).
  - split; try reflexivity; [by vm_compute|by left|vm_compute; congruence].
  - reflexivity.
  - intros f arg [= <-]. exact charge_serialisable.
  - vm_compute. reflexivity.
  - reflexivity.
Defined.

Lemma step_result_round_trip_witness :
  let c := SetManager background in
  let f := exec zero_Request (PLog "charged" (PRet (JStr "receipt") None)) in
  let steps := [(step_hash ∅ "charge", JObj [("data", JStr "receipt")])] in
  let req2 := {| r_event := Some (JObj []); r_events := []; r_steps := list_to_map steps;
                 r_callCtx := zero_CallCtx; r_useAPI := false |} in
  ∃ op r,
    ops (Run zero_Request c string_type "charge" f start).1 = [op] ∧
    unmarshal_Request (json_encode (Request_json steps req2)) = Some r ∧
    Run r c string_type "charge" (λ _, panic (UserPanic "again")) start =
      (bump "charge" start, Return (JStr "receipt", None)).
Proof.
  intros c f steps req2.
  destruct (step_result_round_trip string_type zero_Request c "charge" f start
    {| w_mgr := w_mgr (bump "charge" start); w_log := ["charged"] |} (JStr "receipt") (JStr "receipt"))
    as (op & back & Hop & Hback & Hrun).
  { split; [reflexivity|split; reflexivity]. }
  { split; reflexivity. }
  exists op.
  assert (back = charge_op) as ->.
  { assert (op = charge_op) as -> by (vm_compute in Hop; injection Hop as <-; reflexivity).
    vm_compute in Hback. injection Hback as <-. reflexivity. }
  destruct (Hrun steps req2 c (λ _, panic (UserPanic "again")) start) as (r & Hr & Hret);
    [|reflexivity..|].
  { split; try reflexivity; try (by eexists).
    apply NoDup_singleton. }
  exists r. split; [exact Hop|]. split; [exact Hr|exact Hret].
Defined.
