(* ===== verification/Client.v ===== *)
(** * Sending events (client.go, event.go)

    Events with their validation and map form, and the client that posts them. *)

From S2P Require Import Prelude GoBytes GoUrl GoUrlParse GoTime GoJson JsonWire GoFloat.
From S2P Require Import GoHttp Env Errors Manager Step Sync.

Open Scope Z_scope.

(** ** Events (event.go) *)

Definition ExternalID : string := "external_id".
Definition Email : string := "email".

(** [type Event struct]; data and user are kept as the documents they marshal to, a
    nil map or interface is [None]. *)
Record Event := {
  e_ID : option string;
  e_Name : string;
  e_Data : option (gmap string json);
  e_User : option json;
  e_Timestamp : Z;
  e_Version : string }.

Definition Validate (e : Event) : option goerr :=
  if str_empty (e_Name e) then Some (EText "event name must be present")
  else if decide (default ∅ (e_Data e) = ∅) then Some (EText "event data must be present")
  else None.

(** A map as it is marshalled: sorted by key. *)
Definition map_json (m : gmap string json) : json :=
  JObj (merge_sort (λ a b, String.le a.1 b.1) (map_to_list m)).

(** [float64(e.Timestamp)] is exact up to 2^53; the number is kept as an integer. *)
Definition Event_Map (e : Event) : gmap string json :=
  let data : gmap string json :=
    <["name" := JStr (e_Name e)]> (<["data" := map_json (default ∅ (e_Data e))]>
    (<["user" := default (JObj []) (e_User e)]> (<["ts" := jint (e_Timestamp e)]> ∅))) in
  let data := if str_empty (e_Version e) then data else <["v" := JStr (e_Version e)]> data in
  match e_ID e with Some id => <["id" := JStr id]> data | None => data end.

(** [json.Marshal] of an [Event]. *)
Definition Event_json (e : Event) : json :=
  JObj (match e_ID e with Some id => [("id", JStr id)] | None => [] end ++
        [("name", JStr (e_Name e));
         ("data", match e_Data e with Some m => map_json m | None => JNull end)] ++
        match e_User e with Some u => [("user", u)] | None => [] end ++
        (if e_Timestamp e =? 0 then [] else [("ts", jint (e_Timestamp e))]) ++
        (if str_empty (e_Version e) then [] else [("v", JStr (e_Version e))])).

(** *** [GenericEvent] *)

(** [type GenericEvent struct]: its data and user by what they marshal to.  Data that
    cannot be marshalled are [None], and so is a user that is left out as empty. *)
Record GenericEvent := {
  ge_ID : option string; ge_Name : string; ge_Data : option json; ge_User : option json;
  ge_Timestamp : Z; ge_Version : string }.

Definition GenericEvent_json (ge : GenericEvent) : option json :=
  data ← ge_Data ge;
  Some (JObj (match ge_ID ge with Some id => [("id", JStr id)] | None => [] end ++
        [("name", JStr (ge_Name ge)); ("data", data)] ++
        match ge_User ge with Some u => [("user", u)] | None => [] end ++
        (if ge_Timestamp ge =? 0 then [] else [("ts", jint (ge_Timestamp ge))]) ++
        (if str_empty (ge_Version ge) then [] else [("v", JStr (ge_Version ge))]))).

Definition dec_opt_string {S} (set : option string → S → S) : decoder S := λ j s,
  match j with JStr v => (set (Some v) s, true) | JNull => (set None s, true) | _ => (s, false) end.

Definition zero_Event : Event :=
  {| e_ID := None; e_Name := ""; e_Data := None; e_User := None; e_Timestamp := 0;
     e_Version := "" |}.

Definition Event_fields : list (string * decoder Event) :=
  [("id", dec_opt_string (λ v e, {| e_ID := v; e_Name := e_Name e; e_Data := e_Data e;
      e_User := e_User e; e_Timestamp := e_Timestamp e; e_Version := e_Version e |}));
   ("name", dec_string (λ v e, {| e_ID := e_ID e; e_Name := v; e_Data := e_Data e;
      e_User := e_User e; e_Timestamp := e_Timestamp e; e_Version := e_Version e |}));
   ("data", dec_map (λ v e, {| e_ID := e_ID e; e_Name := e_Name e; e_Data := v;
      e_User := e_User e; e_Timestamp := e_Timestamp e; e_Version := e_Version e |}));
   ("user", dec_any (λ v e, {| e_ID := e_ID e; e_Name := e_Name e; e_Data := e_Data e;
      e_User := v; e_Timestamp := e_Timestamp e; e_Version := e_Version e |}));
   ("ts", dec_int (λ v e, {| e_ID := e_ID e; e_Name := e_Name e; e_Data := e_Data e;
      e_User := e_User e; e_Timestamp := v; e_Version := e_Version e |}));
   ("v", dec_string (λ v e, {| e_ID := e_ID e; e_Name := e_Name e; e_Data := e_Data e;
      e_User := e_User e; e_Timestamp := e_Timestamp e; e_Version := v |}))].

(** [GenericEvent.Event], from the document the generic event marshals to: through its
    text, as both calls of encoding/json do.  Errors of both directions are dropped, and
    what was decoded before one is kept. *)
Definition Generic_Event (ge : option json) : Event :=
  let byt := match ge with Some j => json_print j | None => "" end in
  match json_parse byt with
  | Some j => (decode_struct Event_fields j zero_Event).1
  | None => zero_Event
  end.

(** [GenericEvent.Validate] *)
Definition Generic_Validate (name : string) : option goerr :=
  if str_empty name then Some (EText "event name must be present") else None.

(** [Time.UnixNano], which wraps in int64, and [Timestamp]: Go divides towards zero. *)
Definition unix_nano (t : time) : Z :=
  wrap64 ((t_ext t - unix_to_internal) * second + t_nsec t).

Definition Timestamp (t : time) : Z := Z.quot (unix_nano t) 1000000.

(** [Time.UnixMilli] *)
Definition unix_milli (t : time) : Z :=
  wrap64 ((t_ext t - unix_to_internal) * 1000 + t_nsec t / 1000000).

Definition NowMillis (now : time) : Z := unix_milli now.

(** From the epoch to the year 2262 the two timestamps agree. *)
Lemma timestamp_is_milli t :
  0 ≤ t_nsec t < second → 0 ≤ t_ext t - unix_to_internal < 9223372036 →
  Timestamp t = NowMillis t.
Proof.
  intros Hn Hs. unfold Timestamp, NowMillis, unix_nano, unix_milli, second in *.
  set (sec := t_ext t - unix_to_internal) in *.
  assert (0 ≤ t_nsec t / 1000000 < 1000) as Hm.
  { split; [apply Z.div_pos; lia|apply Z.div_lt_upper_bound; lia]. }
  rewrite !wrap64_small by (unfold in_int64, min_int64, max_int64; lia).
  rewrite Z.quot_div_nonneg by lia.
  replace (sec * 1000000000 + t_nsec t) with (t_nsec t + (sec * 1000) * 1000000) by lia.
  rewrite Z.div_add by lia. lia.
Qed.

(** Later the nanoseconds wrap; before the epoch the division rounds the other way. *)
Example timestamp_wraps :
  Timestamp (Time (unix_to_internal + 9300000000) 0 0) < 0 ∧
  NowMillis (Time (unix_to_internal + 9300000000) 0 0) = 9300000000000.
Proof. done. Qed.

Example timestamp_rounds_up :
  Timestamp (Time (unix_to_internal - 1) 999500000 0) = 0 ∧
  NowMillis (Time (unix_to_internal - 1) 999500000 0) = -1.
Proof. done. Qed.

(** ** The client (client.go) *)

Definition defaultEndpoint : string := "https://inn.gs".

(** [type ClientOpts struct] without the HTTP client. *)
Record ClientOpts := {
  co_EventKey : option string; co_EventURL : option string; co_Env : option string }.

(** A value passed to [Send]: the verdict of its [Validate] method, if it has one, and
    what it marshals to. *)
Record sendable := { s_validate : option goerr; s_json : option json }.

Definition send_event (e : Event) : sendable :=
  {| s_validate := Validate e; s_json := Some (Event_json e) |}.

(** The IDs of an [eventAPIResponse]: what the decoder has stored by the time it ends,
    with or without an error. *)
Definition decode_ids (body : string) : list string :=
  match parse_value (S (String.length body)) body with
  | Some (j, _) => (decode_struct [("ids", dec_strings (λ v _, v))] j []).1
  | None => []
  end.

(** [NewClient] fills in an HTTP client, which is a parameter here. *)
Definition NewClient (opts : ClientOpts) : ClientOpts := opts.

Section client.
Context (Getenv : string → string) (Post : out_request → res goerr out_response).

Definition client_GetEnv (a : ClientOpts) : string :=
  match co_Env a with Some e => e | None => Getenv "INNGEST_ENV" end.

Definition GetEventKey (a : ClientOpts) : string :=
  match co_EventKey a with
  | Some k => k
  | None =>
      let envVar := Getenv "INNGEST_EVENT_KEY" in
      if negb (str_empty envVar) then envVar
      else if IsDev Getenv then "NO_EVENT_KEY_SET" else ""
  end.

(** The URL events are posted to. *)
Definition event_url (a : ClientOpts) : string :=
  let ep := if IsDev Getenv then DevServerURL Getenv else defaultEndpoint in
  default ep (co_EventURL a) +:+ "/e/" +:+ GetEventKey a.

(** The error of the first event that is not valid. *)
Definition first_invalid (e : list sendable) : option goerr := head (omap s_validate e).

Definition marshal_all (e : list sendable) : option json := JArr <$> mapM s_json e.

Definition event_response (resp : out_response) : res goerr (option (list string)) :=
  if (os_status resp =? 200) || (os_status resp =? 201) then
    match decode_ids (os_body resp) with
    | [id] => Ok (Some [id])
    | _ => Ok None
    end
  else if os_status resp =? 400 then Err (EText "invalid event data")
  else if os_status resp =? 401 then Err (EText "unknown ingest key")
  else if os_status resp =? 403 then
    Err (EText "this ingest key is not authorized to send this event")
  else Err (EText ("unknown status code sending event: " +:+ format_int (os_status resp))).

(** [SendMany]: the requests that are sent and the result.  A request with the SDK's
    headers is built and dropped; [http.Client.Post] sends one of its own. *)
Definition SendMany (a : ClientOpts) (e : list sendable) :
  list out_request * res goerr (option (list string)) :=
  match first_invalid e with
  | Some err => ([], Err (errorf "error validating event: " err ""))
  | None =>
      match marshal_all e with
      | None => ([], Err (errorf "error marshalling event to json: " errMarshal ""))
      | Some byt =>
          match url_parse (event_url a) with
          | None => ([], Err (errorf "error creating event request: "
                                (EText ("parse " +:+ event_url a)) ""))
          | Some u =>
              let req := {| or_method := MethodPost; or_url := url_string u;
                            or_header := header_set "Content-Type" "application/json" ∅;
                            or_body := json_print byt |} in
              ([req], try resp <- res_map_err (λ e, errorf "error sending event request: " e "")
                                    (Post req) ;
                      event_response resp)
          end
      end
  end.

Definition Send (a : ClientOpts) (e : sendable) : list out_request * res goerr string :=
  let '(sent, r) := SendMany a [e] in
  (sent, match r with
         | Err err => Err err
         | Ok (Some (id :: _)) => Ok id
         | Ok _ => Ok ""
         end).

(** ** Properties *)

(** What a client is told for a status of the event API. *)
Definition answered (resp : out_response) (r : res goerr (option (list string))) : Prop :=
  let ids := decode_ids (os_body resp) in
  let status := os_status resp in
  ((status = 200 ∨ status = 201) ∧
     ((length ids = 1%nat ∧ r = Ok (Some ids)) ∨ (length ids ≠ 1%nat ∧ r = Ok None))) ∨
  (status = 400 ∧ r = Err (EText "invalid event data")) ∨
  (status = 401 ∧ r = Err (EText "unknown ingest key")) ∨
  (status = 403 ∧ r = Err (EText "this ingest key is not authorized to send this event")) ∨
  (status ∉ [200; 201; 400; 401; 403] ∧
     r = Err (EText ("unknown status code sending event: " +:+ format_int status))).

Lemma event_response_answered resp : answered resp (event_response resp).
Proof.
  unfold answered, event_response.
  destruct (Z.eqb_spec (os_status resp) 200) as [|H200]; [|destruct (Z.eqb_spec (os_status resp) 201) as [|H201]].
  1,2: left; split; [tauto|]; simpl; destruct (decode_ids (os_body resp)) as [|id [|]]; simpl;
    (by left) || (by right).
  right. simpl. destruct (Z.eqb_spec (os_status resp) 400) as [|H400]; [by left|].
  right. destruct (Z.eqb_spec (os_status resp) 401) as [|H401]; [by left|].
  right. destruct (Z.eqb_spec (os_status resp) 403) as [|H403]; [by left|].
  right. split; [|done]. rewrite !not_elem_of_cons. repeat split; try done. apply not_elem_of_nil.
Qed.

(** C24: what [SendMany] sends, when, and what it returns.  No request is sent unless every
    event is valid and marshals and the URL parses, and then the result is an error;
    otherwise one POST carries all events as one JSON array, in order, to the events
    endpoint, and the result is the error of the network or what the status of the answer
    says: for 200 and 201 the ID when there is exactly one, and an error for every other. *)
Theorem send_many_sends_once a e :
  let '(sent, r) := SendMany a e in
  (sent = [] ∧ is_ok r = false ∧
     (Exists (λ s, s_validate s ≠ None) e ∨ Exists (λ s, s_json s = None) e ∨
      url_parse (event_url a) = None)) ∨
  ∃ req docs u, sent = [req] ∧ Forall (λ s, s_validate s = None) e ∧
    Forall2 (λ s j, s_json s = Some j) e docs ∧ url_parse (event_url a) = Some u ∧
    or_method req = MethodPost ∧ or_url req = url_string u ∧ or_body req = json_print (JArr docs) ∧
    or_header req = header_set "Content-Type" "application/json" ∅ ∧
    ((∃ err, Post req = Err err ∧ r = Err (errorf "error sending event request: " err "")) ∨
     (∃ resp, Post req = Ok resp ∧ answered resp r)).
Proof.
  unfold SendMany. destruct (first_invalid e) as [err|] eqn:Hv.
  { left. split; [done|]. split; [done|]. left. unfold first_invalid in Hv.
    apply head_Some in Hv as [l Hl].
    assert (err ∈ omap s_validate e) as Hin by (rewrite Hl; left).
    apply list_elem_of_omap in Hin as (s & Hs & Herr). apply Exists_exists. exists s.
    split; [done|]. congruence. }
  assert (Forall (λ s, s_validate s = None) e) as Hvalid.
  { unfold first_invalid in Hv. apply head_None in Hv. apply Forall_forall. intros s Hs.
    destruct (s_validate s) as [x|] eqn:Hx; [|done].
    assert (x ∈ omap s_validate e) as Hin by (apply list_elem_of_omap; eauto).
    rewrite Hv in Hin. by apply elem_of_nil in Hin. }
  unfold marshal_all. destruct (mapM s_json e) as [docs|] eqn:Hm; simpl.
  - apply mapM_Some_1 in Hm.
    destruct (url_parse (event_url a)) as [u|] eqn:Hu; [right|left; split_and!; tauto].
    eexists _, docs, u. split_and!; try done.
    destruct (Post _) as [resp|err] eqn:Hpost; [right|left]; eexists; (split; [done|]); [|done].
    apply event_response_answered.
  - left. split; [done|]. split; [done|]. right. left.
    apply mapM_None_1 in Hm. eapply Exists_impl; [exact Hm|]. done.
Qed.

(** The branch environment of the client is never sent: no request carries the
    header [X-Inngest-Env]. *)
Theorem send_many_has_no_env_header a e req :
  req ∈ (SendMany a e).1 → header_get HeaderKeyEnv (or_header req) = "".
Proof.
  unfold SendMany. destruct (first_invalid e); [by intros ?%elem_of_nil|].
  destruct (marshal_all e); [|by intros ?%elem_of_nil].
  destruct (url_parse (event_url a)); [|by intros ?%elem_of_nil].
  intros ->%list_elem_of_singleton. vm_compute. reflexivity.
Qed.

(** The IDs of a batch are only returned when there is exactly one. *)
Theorem event_response_ids resp :
  os_status resp = 200 ∨ os_status resp = 201 →
  event_response resp =
    Ok (if decide (length (decode_ids (os_body resp)) = 1%nat)
        then Some (decode_ids (os_body resp)) else None).
Proof.
  intros Hs. unfold event_response.
  replace ((os_status resp =? 200) || (os_status resp =? 201)) with true by lia.
  by destruct (decode_ids (os_body resp)) as [|id [|]].
Qed.
End client.

(** ** Events and their documents *)

Lemma foldl_insert_lookup (kvs : list (string * json)) (m : gmap string json) k :
  NoDup kvs.*1 →
  foldl (λ m kv, <[kv.1 := kv.2]> m) m kvs !! k =
  match (list_to_map kvs : gmap string json) !! k with Some v => Some v | None => m !! k end.
Proof.
  revert m. induction kvs as [|[k' v] kvs IH]; intros m Hnd; [done|]. simpl in Hnd.
  apply NoDup_cons in Hnd as [Hk' Hnd]. simpl. rewrite IH by done.
  destruct (decide (k = k')) as [->|Hne].
  - rewrite (not_elem_of_list_to_map_1 kvs k' Hk'). simpl. by rewrite !lookup_insert_eq.
  - simpl. by rewrite !lookup_insert_ne by done.
Qed.

(** A map comes back from its document. *)
Lemma map_json_round_trip (m : gmap string json) :
  match map_json m with
  | JObj kvs => foldl (λ m kv, <[kv.1 := kv.2]> m) ∅ kvs = m
  | _ => False
  end.
Proof.
  unfold map_json. pose proof (merge_sort_Permutation (λ a b : string * json, String.le a.1 b.1)
    (map_to_list m)) as Hp. set (kvs := merge_sort _ _) in *.
  assert (NoDup kvs.*1) as Hnd by (rewrite Hp; apply NoDup_fst_map_to_list).
  apply map_eq. intros k. rewrite foldl_insert_lookup by done.
  rewrite (list_to_map_proper _ _ Hnd Hp), list_to_map_to_list, lookup_empty.
  by destruct (m !! k).
Qed.

(** One field of a document. *)
Definition apply_field (e : Event) (kv : string * json) : Event :=
  match find_field Event_fields kv.1 with Some d => (d kv.2 e).1 | None => e end.

Lemma decode_Event_fields kvs e :
  (decode_struct Event_fields (JObj kvs) e).1 = foldl apply_field e kvs.
Proof.
  cbn [decode_struct].
  assert (∀ ok, (foldl (λ acc kv, match find_field Event_fields kv.1 with
    | Some d => let '(s, ok) := d kv.2 acc.1 in (s, ok && acc.2)
    | None => acc end) (e, ok) kvs).1 = foldl apply_field e kvs) as H; [|apply H].
  revert e. induction kvs as [|kv kvs IH]; intros e ok; [done|]. cbn [foldl].
  unfold apply_field at 2. destruct (find_field Event_fields kv.1) as [d|]; [|apply IH].
  cbn [fst snd]. destruct (d kv.2 e) as [e' ok']. apply IH.
Qed.

(** Decoded data: only those of an object are kept. *)
Definition data_map (j : json) : option (gmap string json) :=
  match j with
  | JObj kvs => Some (foldl (λ m kv, <[kv.1 := (decode_value kv.2).1]> m) ∅ kvs)
  | _ => None
  end.

(** A decoded value; nil when it is null, or a number that is out of range. *)
Definition as_any (j : json) : option json :=
  match j with
  | JNull => None
  | JNum lit => JNum <$> float64_text lit
  | j => Some (decode_value j).1
  end.

Section fields.
Context (i : option string) (n : string) (d : option (gmap string json)).
Context (t : Z) (v : string).

Abbreviation ev i n d u t v := {| e_ID := i; e_Name := n; e_Data := d; e_User := u;
  e_Timestamp := t; e_Version := v |}.

Lemma apply_data j : apply_field (ev i n None None t v) ("data", j) = ev i n (data_map j) None t v.
Proof. by destruct j. Qed.

Lemma apply_user j : apply_field (ev i n d None t v) ("user", j) = ev i n d (as_any j) t v.
Proof.
  destruct j as [| |lit| | |]; try done. unfold apply_field. cbn [fst snd].
  change (find_field Event_fields "user") with (Some (dec_any (λ v e, ev (e_ID e) (e_Name e)
    (e_Data e) v (e_Timestamp e) (e_Version e)))).
  cbn [dec_any as_any]. by destruct (float64_text lit).
Qed.

Lemma apply_ts u x : in_int64 x → apply_field (ev i n d u t v) ("ts", jint x) = ev i n d u x v.
Proof.
  intros Hx. unfold apply_field, jint. cbn [fst snd].
  change (find_field Event_fields "ts") with (Some (dec_int (λ v e, ev (e_ID e) (e_Name e) (e_Data e)
    (e_User e) v (e_Version e)))).
  cbn [dec_int]. by rewrite atoi_format_int.
Qed.
End fields.

(** The fields an event or a generic event is marshalled with. *)
Definition event_doc (id : option string) (name : string) (data : json) (user : option json)
  (ts : Z) (v : string) : list (string * json) :=
  match id with Some id => [("id", JStr id)] | None => [] end ++
  [("name", JStr name); ("data", data)] ++
  match user with Some u => [("user", u)] | None => [] end ++
  (if ts =? 0 then [] else [("ts", jint ts)]) ++
  (if str_empty v then [] else [("v", JStr v)]).

Lemma event_doc_ok id name data user ts v :
  json_ok data = true → (∀ u, user = Some u → json_ok u = true) →
  json_ok (JObj (event_doc id name data user ts v)) = true.
Proof.
  intros Hd Hu. cbn [json_ok]. unfold event_doc. rewrite !forallb_app. cbn [forallb snd].
  rewrite Hd. destruct id, user as [u|]; cbn [forallb snd json_ok]; rewrite ?(Hu u eq_refl);
    (destruct (ts =? 0); [|cbn [forallb snd]; rewrite json_ok_int]);
    by destruct (str_empty v).
Qed.

(** Its decoding, after its text has been read. *)
Lemma event_doc_decoded id name data user ts v :
  in_int64 ts →
  (decode_struct Event_fields (json_clean (JObj (event_doc id name data user ts v))) zero_Event).1 =
  {| e_ID := clean <$> id; e_Name := clean name; e_Data := data_map (json_clean data);
     e_User := user ≫= λ u, as_any (json_clean u); e_Timestamp := ts; e_Version := clean v |}.
Proof.
  intros Hts. cbn [json_clean]. rewrite decode_Event_fields. unfold event_doc.
  rewrite !fmap_app, !foldl_app. cbn [fmap list_fmap fst snd foldl json_clean].
  change (clean "name") with "name". change (clean "data") with "data".
  assert (foldl apply_field zero_Event ((λ kv, (clean kv.1, json_clean kv.2)) <$>
      match id with Some id => [("id", JStr id)] | None => [] end) =
    {| e_ID := clean <$> id; e_Name := ""; e_Data := None; e_User := None; e_Timestamp := 0;
       e_Version := "" |}) as -> by by destruct id.
  change (apply_field ?e ("name", JStr ?x)) with {| e_ID := e_ID e; e_Name := x; e_Data := e_Data e;
    e_User := e_User e; e_Timestamp := e_Timestamp e; e_Version := e_Version e |}.
  cbn [e_ID e_Data e_User e_Timestamp e_Version]. rewrite apply_data.
  assert (∀ i n d t v, foldl apply_field {| e_ID := i; e_Name := n; e_Data := d; e_User := None;
      e_Timestamp := t; e_Version := v |} ((λ kv, (clean kv.1, json_clean kv.2)) <$>
      match user with Some u => [("user", u)] | None => [] end) =
    {| e_ID := i; e_Name := n; e_Data := d; e_User := user ≫= λ u, as_any (json_clean u);
       e_Timestamp := t; e_Version := v |}) as ->.
  { intros i n d t v'. destruct user; [|done]. apply apply_user. }
  assert (∀ i n d u v, foldl apply_field {| e_ID := i; e_Name := n; e_Data := d; e_User := u;
      e_Timestamp := 0; e_Version := v |} ((λ kv, (clean kv.1, json_clean kv.2)) <$>
      (if ts =? 0 then [] else [("ts", jint ts)])) =
    {| e_ID := i; e_Name := n; e_Data := d; e_User := u; e_Timestamp := ts; e_Version := v |}) as ->.
  { intros i n d u v'. destruct (Z.eqb_spec ts 0) as [->|]; [done|]. by apply apply_ts. }
  by destruct v.
Qed.

Lemma event_doc_event id name data user ts v :
  json_ok data = true → (∀ u, user = Some u → json_ok u = true) → in_int64 ts →
  Generic_Event (Some (JObj (event_doc id name data user ts v))) =
  {| e_ID := clean <$> id; e_Name := clean name; e_Data := data_map (json_clean data);
     e_User := user ≫= λ u, as_any (json_clean u); e_Timestamp := ts; e_Version := clean v |}.
Proof.
  intros Hd Hu Hts. unfold Generic_Event. rewrite json_parse_text by by apply event_doc_ok.
  by apply event_doc_decoded.
Qed.

(** An event that decoding leaves as it is: its strings are UTF-8, its data and its user are
    plain values. *)
Record plain_event (e : Event) : Prop := {
  pe_id : ∀ id, e_ID e = Some id → valid_utf8 id = true;
  pe_name : valid_utf8 (e_Name e) = true;
  pe_version : valid_utf8 (e_Version e) = true;
  pe_data : ∀ m, e_Data e = Some m → plain_value (map_json m);
  pe_user : ∀ u, e_User e = Some u → u ≠ JNull ∧ plain_value u;
  pe_ts : in_int64 (e_Timestamp e) }.

Lemma data_map_plain m : plain_value (map_json m) → data_map (json_clean (map_json m)) = Some m.
Proof.
  intros Hp. pose proof (plain_value_spec _ Hp) as (_ & Hu & _). rewrite (json_clean_id _ Hu).
  pose proof (map_json_round_trip m) as Hm. unfold map_json in *.
  inversion Hp as [| | | | |? Hkvs _]; subst. cbn [data_map]. f_equal.
  etransitivity; [|exact Hm]. clear Hp Hu Hm. revert Hkvs.
  generalize (∅ : gmap string json). induction (merge_sort _ _) as [|kv kvs IH]; intros acc Hkvs; [done|].
  apply Forall_cons in Hkvs as [[_ Hv] Hkvs]. cbn [foldl].
  destruct (plain_value_spec _ Hv) as (_ & _ & ->). by apply IH.
Qed.

Lemma as_any_plain u : u ≠ JNull → plain_value u → as_any (json_clean u) = Some u.
Proof.
  intros Hne Hp. pose proof (plain_value_spec _ Hp) as (_ & Hu & Hd).
  rewrite (json_clean_id _ Hu).
  destruct u as [| |lit| | |]; try done; cbn [as_any]; [|by rewrite Hd..].
  inversion Hp as [| |? _ Hf| | |]; subst. by rewrite Hf.
Qed.

(** C23: the conversion of a generic event, through its JSON text.  Whatever its type of
    data, the ID, the name, the version and the timestamp are kept, the strings up to the
    bytes that are not UTF-8; the data are kept when they marshal to an object; in the data
    and the user numbers are rounded to float64, or become nil when they are out of range.
    A plain event, whose strings are UTF-8 and whose numbers are those of float64, such as
    integers of at most fifteen digits, comes back as it was. *)
Theorem event_round_trip ge data e :
  ge_Data ge = Some data → json_ok data = true → (∀ u, ge_User ge = Some u → json_ok u = true) →
  in_int64 (ge_Timestamp ge) → plain_event e →
  Generic_Event (GenericEvent_json ge) =
    {| e_ID := clean <$> ge_ID ge; e_Name := clean (ge_Name ge);
       e_Data := data_map (json_clean data);
       e_User := ge_User ge ≫= (λ u, as_any (json_clean u));
       e_Timestamp := ge_Timestamp ge; e_Version := clean (ge_Version ge) |} ∧
  Generic_Event (Some (Event_json e)) = e.
Proof.
  intros Hdata Hd Hu Hts [Hid Hname Hv Hed Heu Hets]. split.
  - unfold GenericEvent_json. rewrite Hdata. by apply event_doc_event.
  - change (Event_json e) with (JObj (event_doc (e_ID e) (e_Name e)
      (match e_Data e with Some m => map_json m | None => JNull end) (e_User e) (e_Timestamp e)
      (e_Version e))).
    rewrite event_doc_event; [|destruct (e_Data e); [by apply plain_value_spec, Hed|done]| |done].
    2: { intros u Hu'. by apply plain_value_spec, Heu. }
    apply bool_decide_eq_true in Hname, Hv. destruct e as [id name d u ts v]. simpl in *.
    rewrite Hname, Hv. f_equal.
    + destruct id as [id|]; [|done]. simpl. f_equal. by apply (bool_decide_eq_true _), Hid.
    + destruct d as [m|]; [by apply data_map_plain, Hed|done].
    + destruct u as [u|]; [|done]. destruct (Heu u eq_refl). by apply as_any_plain.
Qed.

(** ** Examples *)

Definition signup : Event :=
  {| e_ID := Some "1"; e_Name := "signup"; e_Data := Some {[ "plan" := JStr "free" ]};
     e_User := None; e_Timestamp := 1700000000000; e_Version := "" |}.

(** A generic event with a struct for data, whose number is not a float64. *)
Definition upgrade : GenericEvent :=
  {| ge_ID := None; ge_Name := "upgrade";
     ge_Data := Some (JObj [("plan", JStr "pro"); ("serial", JNum "9007199254740993")]);
     ge_User := None; ge_Timestamp := 0; ge_Version := "2" |}.

Lemma signup_plain : plain_event signup.
Proof.
  split; try done; try (intros ? [= <-]; done).
  - intros m [= <-].
    assert (map_json {[ "plan" := JStr "free" ]} = JObj [("plan", JStr "free")]) as ->
      by (vm_compute; reflexivity).
    apply plain_obj; [|vm_compute; reflexivity].
    apply Forall_singleton. split; [reflexivity|]. by apply plain_str.
Defined.

Lemma event_round_trip_witness :
  e_Data (Generic_Event (GenericEvent_json upgrade)) =
    Some (<["serial" := JNum "9007199254740992"]> {[ "plan" := JStr "pro" ]}) ∧
  Generic_Event (Some (Event_json signup)) = signup.
Proof.
  destruct (event_round_trip upgrade
    (JObj [("plan", JStr "pro"); ("serial", JNum "9007199254740993")]) signup) as [-> Hs].
  - reflexivity.
  - vm_compute. reflexivity.
  - discriminate.
  - vm_compute. split; congruence.
  - exact signup_plain.
  - split; [vm_compute; reflexivity|exact Hs].
Defined.

Lemma send_many_has_no_env_header_witness :
  let a := {| co_EventKey := Some "key"; co_EventURL := None; co_Env := Some "branch" |} in
  let post := λ _, Ok {| os_status := 200; os_body := "{}" |} in
  let req := {| or_method := MethodPost; or_url := "https://inn.gs/e/key";
                or_header := header_set "Content-Type" "application/json" ∅;
                or_body := json_print (JArr [Event_json signup]) |} in
  req ∈ (SendMany (λ _, "") post a [send_event signup]).1 ∧
  header_get HeaderKeyEnv (or_header req) = "".
Proof.
  intros a post req.
  assert (req ∈ (SendMany (λ _, "") post a [send_event signup]).1) as Hin by (vm_compute; left).
  split; [exact Hin|]. exact (send_many_has_no_env_header (λ _, "") post a _ req Hin).
Defined.

Lemma event_response_ids_witness :
  let resp := {| os_status := 200; os_body := "{" +:+ json_quote "ids" +:+ ":[" +:+ json_quote "a" +:+
                   "," +:+ json_quote "b" +:+ "]}" |} in
  decode_ids (os_body resp) = ["a"; "b"] ∧ event_response resp = Ok None.
Proof.
  intros resp. split; [vm_compute; reflexivity|].
  rewrite (event_response_ids resp (or_introl eq_refl)). vm_compute. reflexivity.
Defined.
