(* ===== verification/Buffer.v ===== *)
(** * The buffer of unacknowledged replies (connect/buffer.go)

    Replies wait for the gateway's acknowledgement in [pendingAck]; those that were
    not acknowledged or could not be written are in [buffered], from where they are
    sent over the API.  Every operation holds the lock, so an execution is a sequence
    of operations, kept as a step relation. *)

From S2P Require Import Prelude GoBytes GoTime Errors.

Open Scope Z_scope.

(** [connectproto.SDKResponse] (generated code), with the fields the SDK sets. *)
Inductive SDKResponseStatus := NOT_COMPLETED | ERROR | DONE.

Record SDKResponse := {
  sr_RequestId : string; sr_EnvId : string; sr_AppId : string; sr_Status : SDKResponseStatus;
  sr_Body : string; sr_NoRetry : bool; sr_RetryAfter : option string; sr_SdkVersion : string;
  sr_RequestVersion : Z }.

(** ** The buffer *)

(** [waiters] are the responses for which a goroutine of [addPending] is running;
    none of them ever ends, since [break] only leaves its [select]. *)
Record messageBuffer := {
  buffered : gmap string SDKResponse;
  pendingAck : gmap string SDKResponse;
  waiters : list SDKResponse }.

Definition newMessageBuffer : messageBuffer :=
  {| buffered := ∅; pendingAck := ∅; waiters := [] |}.

Definition hasMessages (m : messageBuffer) : bool := negb (bool_decide (buffered m = ∅)).

Definition append_msg (msg : SDKResponse) (m : messageBuffer) : messageBuffer :=
  {| buffered := <[sr_RequestId msg := msg]> (buffered m);
     pendingAck := delete (sr_RequestId msg) (pendingAck m);
     waiters := waiters m |}.

Definition addPending (resp : SDKResponse) (m : messageBuffer) : messageBuffer :=
  {| buffered := buffered m;
     pendingAck := <[sr_RequestId resp := resp]> (pendingAck m);
     waiters := resp :: waiters m |}.

(** One round of the goroutine for [resp], after its timeout or the end of its
    context. *)
Definition expire (resp : SDKResponse) (m : messageBuffer) : messageBuffer :=
  match pendingAck m !! sr_RequestId resp with
  | Some _ =>
      {| buffered := <[sr_RequestId resp := resp]> (buffered m);
         pendingAck := delete (sr_RequestId resp) (pendingAck m);
         waiters := waiters m |}
  | None => m
  end.

Definition acknowledge (id : string) (m : messageBuffer) : messageBuffer :=
  {| buffered := buffered m; pendingAck := delete id (pendingAck m); waiters := waiters m |}.

(** [handleMessageReplyAck] (connection.go): the payload is decoded into the message
    itself, so the request ID that is acknowledged is the empty one.  [unmarshal] is
    the protobuf decoder's verdict on reading the payload as a message. *)
Definition handleMessageReplyAck (unmarshal : string → bool) (payload : string) (m : messageBuffer) :
  messageBuffer * option goerr :=
  if unmarshal payload then (acknowledge "" m, None)
  else (m, Some (errorf "could not unmarshal reply ack data: " (EText "proto: cannot parse") "")).

(** ** Flushing *)

Section flush.
(** How the n-th message sent over the API fares, and the order in which the n-th
    pass ranges over the map. *)
Context (send : nat → SDKResponse → bool).
Context (order : nat → gmap string SDKResponse → list (string * SDKResponse)).

(** The loop over the map: it ends at the first failure.  The counter is the number
    of messages sent so far. *)
Fixpoint flush_pass (l : list (string * SDKResponse)) (n : nat) (m : gmap string SDKResponse) :
  nat * gmap string SDKResponse :=
  match l with
  | [] => (n, m)
  | (id, msg) :: l =>
      if send n msg then flush_pass l (S n) (delete id m) else (S n, m)
  end.

(** The loop over the attempts, with the number of attempts that are left. *)
Fixpoint flush_attempts (tries : nat) (n : nat) (m : gmap string SDKResponse) :
  nat * gmap string SDKResponse * option goerr :=
  match tries with
  | O => (n, m, Some (EText ("could not send " +:+ format_int (Z.of_nat (size m)) +:+
                             " buffered messages")))
  | S tries =>
      let '(n, m) := flush_pass (order n m) n m in
      if decide (m = ∅) then (n, m, None) else flush_attempts tries n m
  end.

(** [flush]: five attempts.  The number of messages sent over the API, the buffer, and
    the error. *)
Definition flush (b : messageBuffer) : nat * messageBuffer * option goerr :=
  let '(n, m, err) := flush_attempts 5 0 (buffered b) in
  (n, {| buffered := m; pendingAck := pendingAck b; waiters := waiters b |}, err).

Hypothesis order_perm : ∀ n m, order n m ≡ₚ map_to_list m.

(** What an attempt to send some messages must satisfy: it starts from the map [m]
    having sent [n], and ends with [m'] having sent [n']. *)
Record pass_ok (n : nat) (m : gmap string SDKResponse) (n' : nat) (m' : gmap string SDKResponse)
    (failures : nat) : Prop := {
  pass_subset : m' ⊆ m;
  pass_sent id msg : m !! id = Some msg → m' !! id = None → ∃ k, (n ≤ k < n')%nat ∧ send k msg = true;
  pass_count : (n' + size m' = n + size m + failures)%nat }.

Lemma pass_ok_refl n m : pass_ok n m n m 0.
Proof. split; [done|congruence|lia]. Qed.

Lemma pass_ok_trans n1 m1 n2 m2 n3 m3 f1 f2 :
  (n1 ≤ n2 ≤ n3)%nat → pass_ok n1 m1 n2 m2 f1 → pass_ok n2 m2 n3 m3 f2 →
  pass_ok n1 m1 n3 m3 (f1 + f2).
Proof.
  intros Hn [Hs1 Hd1 Hc1] [Hs2 Hd2 Hc2]. split; [by etrans| |lia].
  intros id msg Hid Hno. destruct (m2 !! id) as [msg'|] eqn:H2.
  - assert (msg' = msg) as ->.
    { eapply lookup_weaken in H2; [|exact Hs1]. congruence. }
    destruct (Hd2 id msg H2 Hno) as (k & ? & ?). exists k. split; [lia|done].
  - destruct (Hd1 id msg Hid H2) as (k & ? & ?). exists k. split; [lia|done].
Qed.

Lemma flush_pass_ok l n m :
  NoDup l.*1 → (∀ id msg, (id, msg) ∈ l → m !! id = Some msg) →
  let '(n', m') := flush_pass l n m in
  (n ≤ n')%nat ∧ ∃ f, (f ≤ 1)%nat ∧ pass_ok n m n' m' f ∧
    (f = 0%nat → ∀ id, id ∈ l.*1 → m' !! id = None).
Proof.
  revert n m. induction l as [|[id msg] l IH]; intros n m Hnd Hl; simpl.
  { split; [done|]. exists 0%nat. split; [lia|]. split; [apply pass_ok_refl|].
    intros _ id ?%elem_of_nil. done. }
  simpl in Hnd. apply NoDup_cons in Hnd as [Hid Hnd].
  assert (m !! id = Some msg) as Hm by (apply Hl; left).
  destruct (send n msg) eqn:Hsend.
  - assert (pass_ok n m (S n) (delete id m) 0) as Hone.
    { split; [apply delete_subseteq| |].
      - intros id' msg' Hid' Hno. destruct (decide (id' = id)) as [->|Hne].
        + exists n. split; [lia|]. congruence.
        + rewrite lookup_delete_ne in Hno by done. congruence.
      - rewrite map_size_delete, Hm. assert (size m ≠ 0)%nat; [|simpl; lia].
        intros H0. apply map_size_empty_inv in H0. by rewrite H0, lookup_empty in Hm. }
    specialize (IH (S n) (delete id m) Hnd).
    destruct (flush_pass l (S n) (delete id m)) as [n' m'].
    destruct IH as (Hle & f & Hf & Hpass & Hall).
    { intros id' msg' Hin. rewrite lookup_delete_ne; [apply Hl; by right|].
      intros ->. apply Hid. apply list_elem_of_fmap. by exists (id', msg'). }
    split; [lia|]. exists f. split; [done|]. split.
    + apply (pass_ok_trans n m (S n) (delete id m) n' m' 0 f); [lia|done|done].
    + intros Hf0 id' [->|Hin]%elem_of_cons; [|by apply Hall].
      assert (delete id m !! id = None) as Hdel by apply lookup_delete_eq.
      destruct (m' !! id) as [x|] eqn:Hx; [|done].
      eapply lookup_weaken in Hx; [|apply (pass_subset _ _ _ _ _ Hpass)]. congruence.
  - split; [lia|]. exists 1%nat. split; [lia|]. split; [|lia].
    split; [done|congruence|lia].
Qed.

Lemma flush_attempts_ok tries n m :
  let '(n', m', err) := flush_attempts tries n m in
  (n ≤ n')%nat ∧ ∃ f, (f ≤ tries)%nat ∧ pass_ok n m n' m' f ∧
    match err with
    | None => m' = ∅
    | Some e => f = tries ∧ ((0 < tries)%nat ∨ m ≠ ∅ → m' ≠ ∅) ∧
        e = EText ("could not send " +:+ format_int (Z.of_nat (size m')) +:+ " buffered messages")
    end.
Proof.
  revert n m. induction tries as [|tries IH]; intros n m; simpl.
  { split; [done|]. exists 0%nat. split; [lia|]. split; [apply pass_ok_refl|].
    split; [done|]. split; [|done]. intros [?|?]; [lia|done]. }
  pose proof (flush_pass_ok (order n m) n m) as Hpass.
  destruct (flush_pass (order n m) n m) as [n1 m1].
  destruct Hpass as (Hle & f & Hf & Hpass & Hall).
  { rewrite order_perm. apply NoDup_fst_map_to_list. }
  { intros id msg Hin. rewrite order_perm in Hin. by apply elem_of_map_to_list. }
  destruct (decide (m1 = ∅)) as [->|Hne].
  { split; [done|]. exists f. split; [lia|]. done. }
  assert (f = 1)%nat as ->.
  { destruct (decide (f = 1)%nat) as [|Hf1]; [done|]. exfalso. apply Hne. apply map_empty.
    intros id. destruct (m1 !! id) as [msg|] eqn:Hm1; [|done].
    rewrite <- Hm1. apply Hall; [lia|]. rewrite order_perm.
    apply list_elem_of_fmap. exists (id, msg). split; [done|]. apply elem_of_map_to_list.
    eapply lookup_weaken; [exact Hm1|]. apply (pass_subset _ _ _ _ _ Hpass). }
  specialize (IH n1 m1). destruct (flush_attempts tries n1 m1) as [[n' m'] err].
  destruct IH as (Hle' & f & Hf' & Hpass' & Herr). split; [lia|].
  exists (1 + f)%nat. split; [lia|]. split; [by eapply pass_ok_trans|].
  destruct err; [|done]. destruct Herr as (-> & Hm' & ->). split; [done|].
  split; [|done]. intros _. apply Hm'. by right.
Qed.

Lemma flush_keeps b n b' err :
  flush b = (n, b', err) → buffered b' ⊆ buffered b ∧ pendingAck b' = pendingAck b.
Proof.
  unfold flush. pose proof (flush_attempts_ok 5 0 (buffered b)) as Hf.
  destruct (flush_attempts 5 0 (buffered b)) as [[n1 m] err1].
  destruct Hf as (_ & f & _ & [Hsub _ _] & _). by intros [= <- <- <-].
Qed.

(** C25: flushing, in whatever order the map is ranged over.  It always ends; nothing
    is dropped: a message leaves the buffer only after it was sent with success; it
    succeeds exactly when the buffer is empty; it fails exactly after five failed
    sends, and sends no message again that went through. *)
Theorem flush_spec b :
  let '(n, b', err) := flush b in
  buffered b' ⊆ buffered b ∧ pendingAck b' = pendingAck b ∧
  (∀ id msg, buffered b !! id = Some msg → buffered b' !! id = None →
     ∃ k, (k < n)%nat ∧ send k msg = true) ∧
  (err = None ↔ buffered b' = ∅) ∧
  (err = None → (n ≤ size (buffered b) + 5)%nat) ∧
  (err ≠ None → n = (size (buffered b) - size (buffered b') + 5)%nat).
Proof.
  unfold flush. pose proof (flush_attempts_ok 5 0 (buffered b)) as Hf.
  destruct (flush_attempts 5 0 (buffered b)) as [[n m] err].
  destruct Hf as (_ & f & Hle & [Hsub Hsent Hcount] & Herr). simpl.
  assert (size m ≤ size (buffered b))%nat as Hsize by by apply map_subseteq_size.
  split; [done|]. split; [done|]. split.
  { intros id msg Hid Hno. destruct (Hsent id msg Hid Hno) as (k & ? & ?).
    exists k. split; [lia|done]. }
  destruct err as [e|].
  - destruct Herr as (-> & Hne & _). split; [|split; [done|intros _; lia]].
    split; [done|]. intros ->. exfalso. apply Hne; [lia|done].
  - split; [done|]. split; [|done]. intros _. lia.
Qed.
End flush.

(** [if h.messageBuffer.hasMessages() { err = h.messageBuffer.flush(..) }], for some
    answers of the API and some order of the map. *)
Definition flush_to (b b' : messageBuffer) (err : option goerr) : Prop :=
  if hasMessages b then
    ∃ send order n, (∀ n m, order n m ≡ₚ map_to_list m) ∧ flush send order b = (n, b', err)
  else b' = b ∧ err = None.

(** ** Executions *)

(** An operation on the buffer; a flush is labelled with the messages it sent. *)
Inductive buffer_op :=
  | OpPending (r : SDKResponse)
  | OpAppend (r : SDKResponse)
  | OpExpire (r : SDKResponse)
  | OpAck (id : string)
  | OpFlush (sent : gmap string SDKResponse).

Inductive buffer_step (b : messageBuffer) : buffer_op → messageBuffer → Prop :=
  | step_pending r : buffer_step b (OpPending r) (addPending r b)
  | step_append r : buffer_step b (OpAppend r) (append_msg r b)
  | step_expire r : r ∈ waiters b → buffer_step b (OpExpire r) (expire r b)
  | step_ack id : buffer_step b (OpAck id) (acknowledge id b)
  | step_flush send order n b' err :
      (∀ n m, order n m ≡ₚ map_to_list m) → flush send order b = (n, b', err) →
      buffer_step b (OpFlush (buffered b ∖ buffered b')) b'.

Inductive buffer_run : messageBuffer → list buffer_op → messageBuffer → Prop :=
  | run_nil b : buffer_run b [] b
  | run_step b1 op b2 ops b3 :
      buffer_step b1 op b2 → buffer_run b2 ops b3 → buffer_run b1 (op :: ops) b3.

(** What a flush that is not skipped does is a step; one that is skipped, none. *)
Lemma flush_to_run b b' err :
  flush_to b b' err → (b' = b ∧ err = None) ∨ buffer_step b (OpFlush (buffered b ∖ buffered b')) b'.
Proof.
  unfold flush_to. destruct (hasMessages b); [|by left].
  intros (send & order & n & Hord & Hf). right. by eapply step_flush.
Qed.

(** The operation does not acknowledge [r], and handles no other reply to its
    request. *)
Definition keeps (r : SDKResponse) (op : buffer_op) : Prop :=
  match op with
  | OpPending r' | OpAppend r' | OpExpire r' => sr_RequestId r' = sr_RequestId r → r' = r
  | OpAck id => id ≠ sr_RequestId r
  | OpFlush _ => True
  end.

(** Where the reply [r] is. *)
Definition held (r : SDKResponse) (b : messageBuffer) : Prop :=
  pendingAck b !! sr_RequestId r = Some r ∨ buffered b !! sr_RequestId r = Some r.

Lemma step_keeps r b op b' :
  buffer_step b op b' → keeps r op → held r b →
  held r b' ∨ ∃ sent, op = OpFlush sent ∧ sent !! sr_RequestId r = Some r.
Proof.
  unfold held. intros Hstep Hkeep Hr. destruct Hstep as [r'|r'|r' Hw|id|send order n b' err Hp Hf];
    simpl in Hkeep.
  - left. simpl. destruct (decide (sr_RequestId r' = sr_RequestId r)) as [Heq|Hne].
    + rewrite (Hkeep Heq), lookup_insert_eq. by left.
    + by rewrite lookup_insert_ne.
  - left. simpl. destruct (decide (sr_RequestId r' = sr_RequestId r)) as [Heq|Hne].
    + rewrite (Hkeep Heq), lookup_insert_eq. by right.
    + by rewrite lookup_insert_ne, lookup_delete_ne.
  - left. unfold expire. destruct (pendingAck b !! sr_RequestId r') as [x|] eqn:Hx; [|done]. simpl.
    destruct (decide (sr_RequestId r' = sr_RequestId r)) as [Heq|Hne].
    + rewrite (Hkeep Heq), lookup_insert_eq. by right.
    + by rewrite lookup_insert_ne, lookup_delete_ne.
  - left. simpl. by rewrite lookup_delete_ne.
  - destruct (flush_keeps send order Hp b n b' err Hf) as [Hsub Hpend].
    rewrite Hpend. destruct Hr as [Hr|Hr]; [by left; left|].
    destruct (buffered b' !! sr_RequestId r) as [r'|] eqn:Hr'.
    + left. right. eapply lookup_weaken in Hr'; [|done]. congruence.
    + right. eexists. split; [done|]. apply lookup_difference_Some. done.
Qed.

Lemma run_keeps r b ops b' :
  buffer_run b ops b' → Forall (keeps r) ops → held r b →
  held r b' ∨ ∃ sent, OpFlush sent ∈ ops ∧ sent !! sr_RequestId r = Some r.
Proof.
  induction 1 as [b|b1 op b2 ops b3 Hstep _ IH]; intros Hk Hr; [by left|].
  apply Forall_cons in Hk as [Hop Hk].
  destruct (step_keeps r _ _ _ Hstep Hop Hr) as [Hr2|(sent & -> & Hsent)].
  - destruct (IH Hk Hr2) as [|(sent & Hin & ?)]; [by left|]. right. exists sent.
    split; [by right|done].
  - right. exists sent. split; [left|done].
Qed.

(** No reply is lost: once a reply has been handed to the buffer, then in every
    execution that neither acknowledges its request nor handles another reply to it,
    the reply stays pending or buffered until a flush has sent it. *)
Theorem unacknowledged_reply_kept r b ops b' :
  buffer_run b (OpPending r :: ops) b' ∨ buffer_run b (OpAppend r :: ops) b' →
  Forall (keeps r) ops →
  held r b' ∨ ∃ sent, OpFlush sent ∈ ops ∧ sent !! sr_RequestId r = Some r.
Proof.
  intros Hrun Hk.
  assert (∃ b1, buffer_run b1 ops b' ∧ held r b1) as (b1 & Hrun1 & Hheld);
    [|by apply (run_keeps r b1)].
  destruct Hrun as [Hrun|Hrun]; inversion Hrun as [|? op b2 ? ? Hstep Hrest]; subst;
    inversion Hstep; subst; eexists; (split; [exact Hrest|]).
  - left. apply lookup_insert_eq.
  - right. apply lookup_insert_eq.
Qed.

(** The gateway's acknowledgements have no effect: whatever request an
    acknowledgement names, the reply to it stays pending, is buffered when its time
    is over, and so is sent a second time. *)
Theorem acknowledged_reply_sent_again unmarshal payload r b :
  sr_RequestId r ≠ "" →
  let b1 := (handleMessageReplyAck unmarshal payload (addPending r b)).1 in
  pendingAck b1 !! sr_RequestId r = Some r ∧ r ∈ waiters b1 ∧
  buffered (expire r b1) !! sr_RequestId r = Some r.
Proof.
  intros Hr b1.
  assert (pendingAck b1 !! sr_RequestId r = Some r) as Hp.
  { unfold b1, handleMessageReplyAck. destruct (unmarshal payload); simpl.
    - by rewrite lookup_delete_ne, lookup_insert_eq.
    - apply lookup_insert_eq. }
  split; [done|]. split.
  - unfold b1, handleMessageReplyAck. destruct (unmarshal payload); left.
  - unfold expire. rewrite Hp. apply lookup_insert_eq.
Qed.

(** The goroutine of an older reply replaces a newer one to the same request:
    when it wakes up while the newer reply is pending, the older reply is buffered and
    the newer one is in neither map. *)
Theorem older_reply_replaces_newer r1 r2 b :
  sr_RequestId r1 = sr_RequestId r2 → r1 ≠ r2 →
  let b' := expire r1 (addPending r2 (addPending r1 b)) in
  buffer_run b [OpPending r1; OpPending r2; OpExpire r1] b' ∧
  buffered b' !! sr_RequestId r2 = Some r1 ∧ ¬ held r2 b'.
Proof.
  intros Hid Hne b'. split.
  { repeat econstructor. }
  unfold b', held, expire. simpl. rewrite Hid, !lookup_insert_eq. simpl.
  rewrite lookup_insert_eq, lookup_delete_eq. split; [done|]. intros [|]; congruence.
Qed.

(** ** What is in the buffer *)

(** The replies an operation puts into the buffer. *)
Definition op_replies (op : buffer_op) : list SDKResponse :=
  match op with OpPending r | OpAppend r | OpExpire r => [r] | _ => [] end.

Lemma buffer_step_buffered b op b' k resp :
  buffer_step b op b' → buffered b' !! k = Some resp →
  buffered b !! k = Some resp ∨ resp ∈ op_replies op.
Proof.
  destruct 1 as [r'|r'|r' Hw|id|send order n b' err Hp Hf]; simpl; auto.
  - rewrite lookup_insert_Some. intros [[_ ->]|[_ ?]]; [right; left|by left].
  - unfold expire. destruct (pendingAck b !! _); simpl; [|by left].
    rewrite lookup_insert_Some. intros [[_ ->]|[_ ?]]; [right; left|by left].
  - destruct (flush_keeps send order Hp b n b' err Hf) as [Hsub _].
    intros Hk. left. by eapply lookup_weaken.
Qed.

Lemma buffer_run_buffered b ops b' k resp :
  buffer_run b ops b' → buffered b' !! k = Some resp →
  buffered b !! k = Some resp ∨ ∃ op, op ∈ ops ∧ resp ∈ op_replies op.
Proof.
  induction 1 as [|b1 op b2 ops b3 Hs _ IH]; [by left|]. intros Hk.
  destruct (IH Hk) as [Hk2|(op' & ? & ?)]; [|right; exists op'; split; [by right|done]].
  destruct (buffer_step_buffered _ _ _ _ _ Hs Hk2); [by left|].
  right. exists op. split; [left|done].
Qed.

(** A goroutine waits for every reply that is pending. *)
Definition pending_waits (b : messageBuffer) : Prop :=
  ∀ k resp, pendingAck b !! k = Some resp → resp ∈ waiters b ∧ sr_RequestId resp = k.

Lemma pending_waits_run b ops b' : buffer_run b ops b' → pending_waits b → pending_waits b'.
Proof.
  induction 1 as [|b1 op b2 ops b3 Hs _ IH]; [done|]. intros Hb. apply IH. clear IH. intros k resp.
  destruct Hs as [r'|r'|r' Hw|id|send order n b' err Hp Hf]; simpl.
  - intros [[<- <-]|[_ Hk]]%lookup_insert_Some; [split; [left|done]|].
    destruct (Hb k resp Hk). split; [by right|done].
  - intros [_ ?]%lookup_delete_Some. by apply Hb.
  - unfold expire. destruct (pendingAck b1 !! _); simpl; [intros [_ ?]%lookup_delete_Some|];
      by apply Hb.
  - intros [_ ?]%lookup_delete_Some. by apply Hb.
  - destruct (flush_keeps send order Hp b1 n b' err Hf) as [_ Hpend]. rewrite Hpend.
    unfold flush in Hf. destruct (flush_attempts _ _ _ _) as [[n' m'] err']. simplify_eq. simpl.
    intros. by apply Hb.
Qed.

(** A flush whose messages all go through. *)
Lemma flush_pass_all l n m id :
  id ∈ l.*1 ∨ m !! id = None → (flush_pass (λ _ _, true) l n m).2 !! id = None.
Proof.
  revert n m. induction l as [|[k r] l IH]; intros n m; simpl.
  - by intros [?%elem_of_nil|].
  - intros Hid. apply IH. destruct (decide (id = k)) as [->|Hne]; [right; apply lookup_delete_eq|].
    rewrite lookup_delete_ne by done. set_solver.
Qed.

Lemma flush_sends b : ∃ b', buffer_step b (OpFlush (buffered b)) b'.
Proof.
  destruct (flush (λ _ _, true) (λ _, map_to_list) b) as [[n b'] err] eqn:Hf. exists b'.
  assert (buffered b' = ∅) as Hnone.
  { unfold flush in Hf. simpl in Hf.
    pose proof (flush_pass_all (map_to_list (buffered b)) 0 (buffered b)) as Hall.
    destruct (flush_pass _ _ _ _) as [n1 m1]. simpl in Hall.
    assert (m1 = ∅) as ->.
    { apply map_empty. intros id. apply Hall. destruct (buffered b !! id) as [r|] eqn:Hr; [left|by right].
      apply list_elem_of_fmap. exists (id, r). split; [done|]. by apply elem_of_map_to_list. }
    rewrite decide_True in Hf by done. by simplify_eq. }
  pose proof (step_flush b (λ _ _, true) (λ _, map_to_list) n b' err) as Hs.
  rewrite Hnone, map_difference_empty in Hs. by apply Hs.
Qed.

(** ** Examples *)

Definition reply_to (id body : string) : SDKResponse :=
  {| sr_RequestId := id; sr_EnvId := ""; sr_AppId := ""; sr_Status := DONE; sr_Body := body;
     sr_NoRetry := false; sr_RetryAfter := None; sr_SdkVersion := ""; sr_RequestVersion := 0 |}.

Lemma flush_spec_witness :
  let b := append_msg (reply_to "1" "a") (append_msg (reply_to "2" "b") newMessageBuffer) in
  let '(n, b', err) := flush (λ k _, (2 <=? k)%nat) (λ _, map_to_list) b in
  n = 4%nat ∧ buffered b' = ∅ ∧ (err = None ↔ buffered b' = ∅).
Proof.
  intros b. pose proof (flush_spec (λ k _, (2 <=? k)%nat) (λ _, map_to_list) (λ _ _, reflexivity _) b)
    as Hs.
  assert (flush (λ k _, (2 <=? k)%nat) (λ _, map_to_list) b =
    (4%nat, newMessageBuffer, None)) as Hf by (vm_compute; reflexivity).
  rewrite Hf in Hs |- *. destruct Hs as (_ & _ & _ & Herr & _).
  split; [reflexivity|]. split; [reflexivity|exact Herr].
Defined.

Lemma unacknowledged_reply_kept_witness :
  let r := reply_to "1" "a" in
  held r (expire r (addPending r newMessageBuffer)) ∨
  ∃ sent, OpFlush sent ∈ [OpExpire r] ∧ sent !! "1" = Some r.
Proof.
  intros r. apply (unacknowledged_reply_kept r newMessageBuffer [OpExpire r]).
  - left. repeat econstructor.
  - repeat constructor.
Defined.

Lemma acknowledged_reply_sent_again_witness :
  let r := reply_to "1" "a" in
  let b1 := (handleMessageReplyAck (λ _, true) "1" (addPending r newMessageBuffer)).1 in
  pendingAck b1 !! "1" = Some r ∧ r ∈ waiters b1 ∧ buffered (expire r b1) !! "1" = Some r.
Proof.
  intros r. exact (acknowledged_reply_sent_again (λ _, true) "1" r newMessageBuffer
    ltac:(discriminate)).
Defined.

Lemma older_reply_replaces_newer_witness :
  let r1 := reply_to "1" "a" in
  let r2 := reply_to "1" "b" in
  let b' := expire r1 (addPending r2 (addPending r1 newMessageBuffer)) in
  buffer_run newMessageBuffer [OpPending r1; OpPending r2; OpExpire r1] b' ∧
  buffered b' !! "1" = Some r1 ∧ ¬ held r2 b'.
Proof.
  intros r1 r2. exact (older_reply_replaces_newer r1 r2 newMessageBuffer eq_refl
    ltac:(discriminate)).
Defined.
