(* ===== verification/WorkerPool.v ===== *)
(** * The worker pool (connect/worker_pool.go)

    A channel with room for [concurrency] messages, as many workers, and a wait group
    that counts messages from [Add] to [Done].  The goroutines interleave, so the pool
    is a step relation. *)

From S2P Require Import Prelude.

Section pool.
Context {msg : Type} (concurrency : nat).

(** [wp_adding] are the messages whose [Add] waits for room in the channel,
    [wp_running] those a worker is handling, [wp_idle] the workers that wait for a
    message, [wp_inProgress] the counter of the wait group. *)
Record pool := {
  wp_adding : list msg;
  wp_queue : list msg;
  wp_running : list msg;
  wp_idle : nat;
  wp_cancelled : bool;
  wp_inProgress : nat }.

(** [NewWorkerPool] *)
Definition NewWorkerPool : pool :=
  {| wp_adding := []; wp_queue := []; wp_running := []; wp_idle := concurrency;
     wp_cancelled := false; wp_inProgress := 0 |}.

Inductive pool_event :=
  | EvAdd (m : msg)
  | EvSend (m : msg)
  | EvTake (m : msg)
  | EvDone (m : msg)
  | EvCancel
  | EvExit.

(** A worker whose context has ended may still take a message: [select] chooses among
    the cases that are ready. *)
Inductive pool_step : pool → pool_event → pool → Prop :=
  | pool_add p m :
      pool_step p (EvAdd m)
        {| wp_adding := wp_adding p ++ [m]; wp_queue := wp_queue p; wp_running := wp_running p;
           wp_idle := wp_idle p; wp_cancelled := wp_cancelled p;
           wp_inProgress := S (wp_inProgress p) |}
  | pool_send p m a1 a2 :
      wp_adding p = a1 ++ m :: a2 → (length (wp_queue p) < concurrency)%nat →
      pool_step p (EvSend m)
        {| wp_adding := a1 ++ a2; wp_queue := wp_queue p ++ [m]; wp_running := wp_running p;
           wp_idle := wp_idle p; wp_cancelled := wp_cancelled p;
           wp_inProgress := wp_inProgress p |}
  | pool_take p m q n :
      wp_queue p = m :: q → wp_idle p = S n →
      pool_step p (EvTake m)
        {| wp_adding := wp_adding p; wp_queue := q; wp_running := m :: wp_running p;
           wp_idle := n; wp_cancelled := wp_cancelled p; wp_inProgress := wp_inProgress p |}
  | pool_done p m r1 r2 :
      wp_running p = r1 ++ m :: r2 →
      pool_step p (EvDone m)
        {| wp_adding := wp_adding p; wp_queue := wp_queue p; wp_running := r1 ++ r2;
           wp_idle := S (wp_idle p); wp_cancelled := wp_cancelled p;
           wp_inProgress := pred (wp_inProgress p) |}
  | pool_cancel p :
      pool_step p EvCancel
        {| wp_adding := wp_adding p; wp_queue := wp_queue p; wp_running := wp_running p;
           wp_idle := wp_idle p; wp_cancelled := true; wp_inProgress := wp_inProgress p |}
  | pool_exit p n :
      wp_cancelled p = true → wp_idle p = S n →
      pool_step p EvExit
        {| wp_adding := wp_adding p; wp_queue := wp_queue p; wp_running := wp_running p;
           wp_idle := n; wp_cancelled := true; wp_inProgress := wp_inProgress p |}.

Inductive pool_run : pool → list pool_event → pool → Prop :=
  | pool_run_nil p : pool_run p [] p
  | pool_run_cons p1 e p2 es p3 :
      pool_step p1 e p2 → pool_run p2 es p3 → pool_run p1 (e :: es) p3.

(** [Wait] returns when the counter is zero. *)
Definition wait_returns (p : pool) : Prop := wp_inProgress p = 0%nat.

(** ** Invariant *)

Record pool_ok (p : pool) : Prop := {
  ok_count : wp_inProgress p =
    (length (wp_adding p) + length (wp_queue p) + length (wp_running p))%nat;
  ok_queue : (length (wp_queue p) ≤ concurrency)%nat;
  ok_workers : (length (wp_running p) + wp_idle p ≤ concurrency)%nat;
  ok_alive : wp_cancelled p = false → (length (wp_running p) + wp_idle p = concurrency)%nat }.

Lemma pool_ok_new : pool_ok NewWorkerPool.
Proof. split; simpl; lia. Qed.

Lemma pool_ok_step p e p' : pool_step p e p' → pool_ok p → pool_ok p'.
Proof.
  intros Hstep [Hc Hq Hw Ha]. destruct Hstep as [p m|p m a1 a2 Hadd Hroom|p m q n Hqueue Hidle
    |p m r1 r2 Hrun|p|p n Hcan Hidle];
    [|rewrite Hadd in *|rewrite Hqueue, Hidle in *|rewrite Hrun in *| |rewrite Hcan, Hidle in *];
    split; simpl in *; rewrite ?length_app in *; simpl in *; try (intros Hal; specialize (Ha Hal)); lia.
Qed.

Lemma pool_ok_run p es p' : pool_run p es p' → pool_ok p → pool_ok p'.
Proof. induction 1; eauto using pool_ok_step. Qed.

(** In every execution at most [concurrency] messages are handled at a time and
    at most as many are queued; the wait group counts exactly the messages that were
    added and not handled to the end, so [Wait] returns only when none is left. *)
Theorem pool_bounds es p :
  pool_run NewWorkerPool es p →
  (length (wp_running p) ≤ concurrency)%nat ∧ (length (wp_queue p) ≤ concurrency)%nat ∧
  (wait_returns p ↔ wp_adding p = [] ∧ wp_queue p = [] ∧ wp_running p = []).
Proof.
  intros Hrun. destruct (pool_ok_run _ _ _ Hrun pool_ok_new) as [Hc Hq Hw _].
  split; [lia|]. split; [done|]. unfold wait_returns. rewrite Hc. split.
  - intros H0. destruct (wp_adding p), (wp_queue p), (wp_running p); simpl in H0; try lia. done.
  - intros (-> & -> & ->). done.
Qed.

(** ** Draining *)

Lemma pool_run_app p1 es1 p2 es2 p3 :
  pool_run p1 es1 p2 → pool_run p2 es2 p3 → pool_run p1 (es1 ++ es2) p3.
Proof. induction 1; simpl; eauto using pool_run. Qed.

(** A live pool with messages left can make a step that brings them closer to the
    end, without anything new being added. *)
Lemma pool_progress p :
  (0 < concurrency)%nat → pool_ok p → wp_cancelled p = false → wp_inProgress p ≠ 0%nat →
  ∃ es p', pool_run p es p' ∧ wp_cancelled p' = false ∧
    (wp_inProgress p' < wp_inProgress p)%nat ∧
    Forall (λ e, match e with EvSend _ | EvTake _ | EvDone _ => True | _ => False end) es.
Proof.
  intros Hpos Hok Hal Hne. pose proof Hok as [Hc Hq Hw Ha]. specialize (Ha Hal).
  destruct (wp_running p) as [|m r] eqn:Hrun.
  2: { eexists [EvDone m], _. split.
       { eapply pool_run_cons; [|apply pool_run_nil]. by apply (pool_done p m [] r). }
       split; [exact Hal|]. simpl. simpl in Hc. split; [lia|by repeat constructor]. }
  simpl in Ha. destruct (wp_idle p) as [|n] eqn:Hidle; [lia|].
  destruct (wp_queue p) as [|m q] eqn:Hqueue.
  - destruct (wp_adding p) as [|m a] eqn:Hadd; [simpl in Hc; lia|].
    eexists [EvSend m; EvTake m; EvDone m], _. split.
    { eapply pool_run_cons; [apply (pool_send p m [] a Hadd); rewrite Hqueue; simpl; lia|].
      eapply pool_run_cons; [apply (pool_take _ m [] n); simpl; [by rewrite Hqueue|done]|].
      eapply pool_run_cons; [by eapply (pool_done _ m [])|]. apply pool_run_nil. }
    split; [exact Hal|]. simpl. simpl in Hc. split; [lia|by repeat constructor].
  - eexists [EvTake m; EvDone m], _. split.
    { eapply pool_run_cons; [by apply (pool_take p m q n)|].
      eapply pool_run_cons; [by eapply (pool_done _ m [])|]. apply pool_run_nil. }
    split; [exact Hal|]. simpl. simpl in Hc. split; [lia|by repeat constructor].
Qed.

Definition draining (e : pool_event) : Prop :=
  match e with EvSend _ | EvTake _ | EvDone _ => True | _ => False end.

Lemma pool_drains_n n p :
  (0 < concurrency)%nat → pool_ok p → wp_cancelled p = false → (wp_inProgress p ≤ n)%nat →
  ∃ es p', pool_run p es p' ∧ Forall draining es ∧ wait_returns p'.
Proof.
  intros Hpos. revert p. induction n as [|n IH]; intros p Hok Hal Hn.
  - exists [], p. split; [apply pool_run_nil|]. split; [done|]. unfold wait_returns. lia.
  - destruct (decide (wp_inProgress p = 0%nat)) as [H0|Hne].
    + exists [], p. split; [apply pool_run_nil|]. done.
    + destruct (pool_progress p Hpos Hok Hal Hne) as (es & p' & Hrun & Hal' & Hlt & Hes).
      destruct (IH p') as (es' & p'' & Hrun' & Hes' & Hwait);
        [by eapply pool_ok_run|done|lia|].
      exists (es ++ es'), p''. split; [by eapply pool_run_app|]. split; [|done].
      by apply Forall_app.
Qed.

(** From every state a live pool can reach, the work it holds can be finished
    without anything else happening, and then [Wait] returns. *)
Theorem pool_can_drain es p :
  (0 < concurrency)%nat → pool_run NewWorkerPool es p → wp_cancelled p = false →
  ∃ es' p', pool_run p es' p' ∧ Forall draining es' ∧ wait_returns p'.
Proof.
  intros Hpos Hrun Hal. apply (pool_drains_n (wp_inProgress p) p); [done| |done|done].
  eapply pool_ok_run; [exact Hrun|apply pool_ok_new].
Qed.

(** A pool without workers that still holds messages. *)
Definition stuck (p : pool) : Prop :=
  wp_running p = [] ∧ wp_idle p = 0%nat ∧ (0 < length (wp_adding p) + length (wp_queue p))%nat.

Lemma stuck_step p e p' : pool_step p e p' → stuck p → stuck p'.
Proof.
  intros Hstep (Hr & Hi & Hq). unfold stuck.
  destruct Hstep as [p m|p m a1 a2 Hadd Hroom|p m q n Hqueue Hidle|p m r1 r2 Hrun|p|p n Hcan Hidle];
    simpl; rewrite ?length_app; simpl.
  - split; [done|]. split; [done|]. lia.
  - rewrite Hadd, length_app in Hq. simpl in Hq. split; [done|]. split; [done|]. lia.
  - congruence.
  - rewrite Hr in Hrun. by destruct r1.
  - done.
  - congruence.
Qed.

(** When the context given to [NewWorkerPool] ends, the workers may leave with
    messages in the queue; from then on [Wait] never returns, whatever happens. *)
Theorem stuck_pool_never_finishes es es' p p' :
  pool_run NewWorkerPool es p → stuck p → pool_run p es' p' → ¬ wait_returns p'.
Proof.
  intros Hrun Hstuck Hrun' Hwait.
  assert (pool_ok p') as [Hc _ _ _].
  { eapply pool_ok_run; [exact Hrun'|]. eapply pool_ok_run; [exact Hrun|apply pool_ok_new]. }
  assert (stuck p') as (_ & _ & Hq).
  { clear -Hrun' Hstuck. induction Hrun'; eauto using stuck_step. }
  unfold wait_returns in Hwait. lia.
Qed.
End pool.

(** ** Examples *)

(** A pool with one worker: message 7 running, then added only, then stranded. *)
Definition pool_at (adding queue running : list nat) (idle : nat) (cancelled : bool) : pool :=
  {| wp_adding := adding; wp_queue := queue; wp_running := running; wp_idle := idle;
     wp_cancelled := cancelled; wp_inProgress := 1 |}.

Lemma example_running :
  pool_run 1 (NewWorkerPool 1) [EvAdd 7; EvSend 7; EvTake 7] (pool_at [] [] [7] 0 false).
Proof.
  eapply pool_run_cons; [apply pool_add|].
  eapply pool_run_cons; [apply (pool_send 1 _ 7 [] []); simpl; [reflexivity|lia]|].
  eapply pool_run_cons; [apply (pool_take 1 _ 7 [] 0); reflexivity|]. apply pool_run_nil.
Defined.

Lemma example_added : pool_run 1 (NewWorkerPool 1) [EvAdd 7] (pool_at [7] [] [] 1 false).
Proof. eapply pool_run_cons; [apply pool_add|]. apply pool_run_nil. Defined.

Lemma example_stranded :
  pool_run 1 (NewWorkerPool 1) [EvAdd 7; EvSend 7; EvCancel; EvExit] (pool_at [] [7] [] 0 true).
Proof.
  eapply pool_run_cons; [apply pool_add|].
  eapply pool_run_cons; [apply (pool_send 1 _ 7 [] []); simpl; [reflexivity|lia]|].
  eapply pool_run_cons; [apply pool_cancel|].
  eapply pool_run_cons; [apply (pool_exit 1 _ 0); reflexivity|]. apply pool_run_nil.
Defined.

Lemma pool_bounds_witness :
  let p := pool_at [] [] [7] 0 false in
  (length (wp_running p) ≤ 1)%nat ∧ (length (wp_queue p) ≤ 1)%nat ∧
  (wait_returns p ↔ wp_adding p = [] ∧ wp_queue p = [] ∧ wp_running p = []).
Proof. intros p. exact (pool_bounds 1 _ p example_running). Defined.

Lemma pool_can_drain_witness :
  ∃ es' p', pool_run 1 (pool_at [7] [] [] 1 false) es' p' ∧ Forall draining es' ∧ wait_returns p'.
Proof. exact (pool_can_drain 1 _ _ ltac:(lia) example_added eq_refl). Defined.

Lemma stuck_pool_never_finishes_witness :
  stuck (pool_at [] [7] [] 0 true) ∧ ¬ wait_returns (pool_at [] [7] [] 0 true).
Proof.
  assert (stuck (pool_at [] [7] [] 0 true)) as Hs by (repeat split; simpl; lia).
  split; [exact Hs|].
  exact (stuck_pool_never_finishes 1 _ [] _ _ example_stranded Hs (pool_run_nil 1 _)).
Defined.
