(* ===== verification/ConnectInvoke.v ===== *)
(** * Invocations over a worker connection (connect/invoke.go, connect.go)

    Requests that arrive over a WebSocket: acknowledgement, invocation and reply; and the
    options a handler connects with.
    Protocol buffers and the WebSocket are third-party code: their verdicts are
    parameters. *)

From S2P Require Import Prelude GoBytes GoTime GoJson GoHttp Env Errors.
From S2P Require Import Manager Step Program Functions Handler Invoke Configs Serve ServeProps.
From S2P Require Import GoUrl GoUrlParse Signature Sync Buffer.

Open Scope Z_scope.

(** [connectproto.GatewayExecutorRequestData] (generated code), the fields that are
    used. *)
Record ExecutorRequest := {
  er_RequestId : string; er_EnvId : string; er_AppId : string; er_FunctionSlug : string;
  er_StepId : option string; er_RequestPayload : string }.

(** A message written to the gateway. *)
Inductive worker_msg :=
  | WorkerRequestAck (requestId appId functionSlug : string) (stepId : option string)
  | WorkerReply (r : SDKResponse).

Section connect_invoke.
Context {V : Type}.
Implicit Types h : handler V.
Context (map_type : gotype V) (stack : string) (marshal_any : V → option json).

(** Decoding of the gateway's request, serialisation of the acknowledgement and of the
    reply, and the result of the n-th write to the WebSocket. *)
Context (decode_request : string → option ExecutorRequest).
Context (marshal_ack : ExecutorRequest → bool) (marshal_reply : SDKResponse → bool).
Context (write : nat → worker_msg → option goerr).

(** [getServableFunctionBySlug] *)
Definition getServableFunctionBySlug h (slug : string) : option (ServableFunction V) :=
  go_find (λ f, bool_decide (Slug f (h_appName h) = slug)) (h_funcs h).

(** [InvokeFunction]: the error for a missing function has no cause. *)
Definition InvokeFunction h (slug : string) (stepId : option string) (request : Request) :
  outcome (invocation V) :=
  match getServableFunctionBySlug h slug with
  | None =>
      Return (failed_invocation (EPublic "" ("function not found: " +:+ slug) 410 None))
  | Some fn => invoke map_type stack fn request stepId
  end.

(** The reply for an invocation. *)
Definition sdk_response (body : ExecutorRequest) (i : invocation V) :
  outcome (res goerr SDKResponse) :=
  let '(noRetry, retryAt, err) := settle (inv_ops i) (inv_err i) in
  let mk status text version :=
    {| sr_RequestId := er_RequestId body; sr_EnvId := er_EnvId body; sr_AppId := er_AppId body;
       sr_Status := status; sr_Body := text; sr_NoRetry := noRetry;
       sr_RetryAfter := format_rfc3339 <$> retryAt; sr_SdkVersion := version;
       sr_RequestVersion := 0 |} in
  match err with
  | Some e =>
      match err_msg e with
      | None => Panic (UserPanic nil_deref)
      | Some msg => Return (Ok (mk ERROR ("error calling function: " +:+ msg) HeaderValueSDK))
      end
  | None =>
      match inv_ops i with
      | [] =>
          match marshal_response marshal_any (inv_response i) with
          | Some j => Return (Ok (mk DONE (json_print j) ""))
          | None => Return (Err (errorf "could not serialize resp: " errMarshal ""))
          end
      | ops => Return (Ok (mk NOT_COMPLETED (json_print (ops_json ops)) ""))
      end
  end.

(** The step an executor targets. *)
Definition connect_step (body : ExecutorRequest) : option string :=
  match er_StepId body with
  | Some id => if decide (id = "step") then None else Some id
  | None => None
  end.

(** [connectInvoke]: the messages written, and the reply or error; [Panic] ends the
    process, since nothing recovers from it. *)
Definition connectInvoke h (payload : string) :
  list worker_msg * outcome (res goerr SDKResponse) :=
  match decode_request payload with
  | None => ([], Return (Err (errorf "invalid gateway message data: " (EText "proto: cannot parse") "")))
  | Some body =>
      match unmarshal_Request (er_RequestPayload body) with
      | None => ([], Return (Err (errorf "invalid SDK request payload: " errDecode "")))
      | Some request =>
          if negb (marshal_ack body) then ([], Return (Err (EPublic "" "malformed input" 400 None)))
          else
            let ack := WorkerRequestAck (er_RequestId body) (er_AppId body) (er_FunctionSlug body)
                         (er_StepId body) in
            match write 0%nat ack with
            | Some _ => ([ack], Return (Err (EPublic "" "failed to ack worker request" 400 None)))
            | None =>
                ([ack], match InvokeFunction h (er_FunctionSlug body) (connect_step body) request with
                        | Panic p => Panic p
                        | Return i => sdk_response body i
                        end)
            end
      end
  end.

(** [handleInvokeMessage]: the messages written, and the buffer and error it ends
    with. *)
Definition handleInvokeMessage h (payload : string) (b : messageBuffer) :
  list worker_msg * outcome (messageBuffer * option goerr) :=
  let '(sent, r) := connectInvoke h payload in
  match r with
  | Panic p => (sent, Panic p)
  | Return (Err e) => (sent, Return (b, Some (errorf "could not handle sdk request: " e "")))
  | Return (Ok resp) =>
      if negb (marshal_reply resp) then
        (sent, Return (b, Some (errorf "could not serialize sdk response: " (EText "proto") "")))
      else
        let b := addPending resp b in
        (sent ++ [WorkerReply resp],
         match write (length sent) (WorkerReply resp) with
         | Some e => Return (append_msg resp b, Some (errorf "could not send sdk response: " e ""))
         | None => Return (b, None)
         end)
  end.

(** ** Properties *)

(** C28: the two transports agree.  For the same invocation, a worker connection
    replies that the run is not completed, or done, exactly when the HTTP handler
    answers 206, or 200, with the same document, and replies with an error exactly when
    the HTTP handler answers with that error; the retry flag and instant are the same.
    The worker fails without a reply in one case only: the function is done and its value
    cannot be serialised, which the HTTP handler answers with an error.  An error that
    cannot be printed makes both panic. *)
Theorem connect_agrees_with_http body i w :
  let '(w', err) := plain_reply marshal_any i w in
  let retryAt := inv_err i ≫= GetRetryAtTime in
  match sdk_response body i with
  | Return (Ok resp) =>
      sr_RequestId resp = er_RequestId body ∧ sr_EnvId resp = er_EnvId body ∧
      sr_AppId resp = er_AppId body ∧
      (sr_NoRetry resp = true ↔ final_error i) ∧
      sr_RetryAfter resp = format_rfc3339 <$> retryAt ∧
      let w0 := retry_headers (sr_NoRetry resp) retryAt w in
      match sr_Status resp with
      | ERROR => (∃ e, raised i e) ∧ w' = w0 ∧ ∃ e msg, err = Some e ∧ err_msg e = Some msg ∧
          sr_Body resp = "error calling function: " +:+ msg
      | NOT_COMPLETED => (∀ e, ¬ raised i e) ∧ inv_ops i ≠ [] ∧
          err = None ∧ w' = Write (sr_Body resp +:+ newline) (WriteHeader 206 w0)
      | DONE => (∀ e, ¬ raised i e) ∧ inv_ops i = [] ∧
          err = None ∧ w' = Write (sr_Body resp +:+ newline) w0
      end
  | Return (Err e) => (∀ e, ¬ raised i e) ∧ inv_ops i = [] ∧
      marshal_response marshal_any (inv_response i) = None ∧ err = Some errMarshal
  | Panic _ => ∃ e, raised i e ∧ err = Some e ∧ err_msg e = None
  end.
Proof.
  pose proof (settle_error i) as Herr. pose proof (final_error_flag i) as Hflag.
  pose proof (proj2 (settle_flags (inv_ops i) (inv_err i))) as Hat.
  unfold plain_reply, sdk_response.
  destruct (settle (inv_ops i) (inv_err i)) as [[noRetry retryAt] err]; simpl in *.
  rewrite <- Hat. destruct err as [e|].
  - destruct Herr as (e0 & Hr & He). destruct (err_msg e) as [msg|] eqn:Hmsg.
    + simpl. split_and!; try done; by eauto.
    + exists e0. destruct He as [[_ ->]|[_ ->]]; done.
  - destruct (inv_ops i) as [|op ops].
    + destruct (marshal_response marshal_any (inv_response i)); simpl; by split_and!.
    + simpl. by split_and!.
Qed.

(** Nothing of a function runs before its request has been acknowledged: when the
    acknowledgement is not written, the handler sends nothing else, leaves the buffer
    alone and fails the same way whatever functions there are. *)
Theorem no_run_without_ack h fs payload b e :
  (∀ m, write 0%nat m = Some e) →
  let h' := {| h_opts := h_opts h; h_appName := h_appName h; h_funcs := fs |} in
  handleInvokeMessage h payload b = handleInvokeMessage h' payload b ∧
  ∃ sent err, handleInvokeMessage h payload b = (sent, Return (b, Some err)) ∧
    (length sent ≤ 1)%nat.
Proof.
  intros Hw h'. unfold handleInvokeMessage, connectInvoke.
  assert (∀ sent err, (length sent ≤ 1)%nat → ∃ s e, (sent, Return (b, Some err)) =
    (s : list worker_msg, Return (b, Some e) : outcome (messageBuffer * option goerr)) ∧
    (length s ≤ 1)%nat) as Hend by eauto.
  destruct (decode_request payload) as [body|]; [|split; [done|apply Hend; simpl; lia]].
  destruct (unmarshal_Request _) as [request|]; [|split; [done|apply Hend; simpl; lia]].
  destruct (marshal_ack body); simpl; [rewrite Hw|]; (split; [done|apply Hend; simpl; lia]).
Qed.

(** A reply that was produced and serialised is in the buffer when the handler
    ends, pending if it was written and buffered if it was not. *)
Theorem produced_reply_is_held h payload b sent resp :
  connectInvoke h payload = (sent, Return (Ok resp)) → marshal_reply resp = true →
  ∃ b' err, handleInvokeMessage h payload b = (sent ++ [WorkerReply resp], Return (b', err)) ∧
    held resp b' ∧ (err = None ↔ pendingAck b' !! sr_RequestId resp = Some resp).
Proof.
  intros Hc Hm. unfold handleInvokeMessage. rewrite Hc, Hm. simpl.
  destruct (write (length sent) (WorkerReply resp)) as [e|].
  - eexists _, _. split; [done|]. split.
    + right. apply lookup_insert_eq.
    + simpl. rewrite lookup_delete_eq. by split; intros.
  - eexists _, _. split; [done|]. split.
    + left. apply lookup_insert_eq.
    + simpl. by rewrite lookup_insert_eq.
Qed.

(** A request for a function the worker does not have ends the process: the error
    for it has no cause, and printing it panics outside any recovery. *)
Theorem unknown_function_crashes h payload body request b :
  decode_request payload = Some body → unmarshal_Request (er_RequestPayload body) = Some request →
  marshal_ack body = true → (∀ m, write 0%nat m = None) →
  Forall (λ f, Slug f (h_appName h) ≠ er_FunctionSlug body) (h_funcs h) →
  ∃ sent, handleInvokeMessage h payload b = (sent, Panic (UserPanic nil_deref)).
Proof.
  intros Hd Hr Ha Hw Hfs. unfold handleInvokeMessage, connectInvoke.
  rewrite Hd, Hr, Ha, Hw. simpl. unfold InvokeFunction.
  assert (getServableFunctionBySlug h (er_FunctionSlug body) = None) as ->.
  { apply go_find_None. eapply Forall_impl; [exact Hfs|]. intros f Hf.
    by apply bool_decide_eq_false_2. }
  simpl. by eexists.
Qed.
End connect_invoke.

(** ** Connecting (handler.Connect in connect.go) *)

(** [connect.Opts], without the values that are constants of the SDK. *)
Record ConnectionOpts := {
  co_AppName : string; co_Env : option string; co_Functions : list SDKFunction;
  co_HashedSigningKey : string; co_HashedSigningKeyFallback : string; co_MaxConcurrency : Z;
  co_APIBaseUrl : string; co_IsDev : bool; co_DevServerUrl : string; co_InstanceID : string;
  co_AppVersion : option string; co_Platform : string }.

Definition defaultMaxWorkerConcurrency : Z := 1000.

Definition connectPlaceholder : url :=
  {| u_Scheme := "ws"; u_Opaque := ""; u_User := None; u_Host := "connect"; u_Path := "";
     u_RawPath := ""; u_OmitHost := false; u_ForceQuery := false; u_RawQuery := "";
     u_Fragment := ""; u_RawFragment := "" |}.

Section connect.
Context {V : Type} (Getenv : string → string).

(** [handler.Connect], up to the call of [connect.Connect] with the options. *)
Definition handler_Connect (h : handler V) (InstanceID : option string) (MaxConcurrency : Z) :
  outcome (res goerr ConnectionOpts) :=
  let concurrency :=
    if MaxConcurrency <? 1 then defaultMaxWorkerConcurrency else MaxConcurrency in
  match InstanceID with
  | None => Return (Err (EText "missing required Instance ID"))
  | Some instance =>
      match cfg_result (createFunctionConfigs (h_appName h) (h_funcs h) connectPlaceholder true) with
      | Panic p => Panic p
      | Return (Err e) => Return (Err e)
      | Return (Ok fns) =>
          let hashed what key := res_map_err (λ e, errorf what e "")
            (res_of_option (EText "encoding/hex: invalid") (hashedSigningKey key)) in
          let signingKey := GetSigningKey Getenv (h_opts h) in
          let fallbackKey := GetSigningKeyFallback Getenv (h_opts h) in
          Return (
            if str_empty signingKey then Err (EText "signing key is required")
            else
              try hashedKey <- hashed "failed to hash signing key: " signingKey ;
              try hashedFallbackKey <-
                (if str_empty fallbackKey then Ok ""
                 else hashed "failed to hash fallback signing key: " fallbackKey) ;
              Ok {| co_AppName := h_appName h; co_Env := ho_Env (h_opts h); co_Functions := fns;
                    co_HashedSigningKey := hashedKey;
                    co_HashedSigningKeyFallback := hashedFallbackKey;
                    co_MaxConcurrency := concurrency;
                    co_APIBaseUrl := GetAPIBaseURL Getenv (h_opts h);
                    co_IsDev := isDev Getenv (h_opts h); co_DevServerUrl := DevServerURL Getenv;
                    co_InstanceID := instance; co_AppVersion := ho_AppVersion (h_opts h);
                    co_Platform := platform Getenv |})
      end
  end.
End connect.

(** ** Examples *)

Section examples.
Definition echo_exec (slug : string) : ExecutorRequest :=
  {| er_RequestId := "req-1"; er_EnvId := "env"; er_AppId := "app"; er_FunctionSlug := slug;
     er_StepId := Some "step"; er_RequestPayload := echo_body |}.

(** A gateway that names the function in its payload, and a socket that takes the
    first [n] messages. *)
Definition by_slug (payload : string) : option ExecutorRequest := Some (echo_exec payload).
Definition takes (n : nat) : nat → worker_msg → option goerr :=
  λ k _, if (k <? n)%nat then None else Some (EText "broken pipe").

Definition echo_connect (n : nat) :=
  connectInvoke raw_type "" Some by_slug (λ _, true) (takes n) (echo_handler None false) "app-echo".

Definition echo_reply : SDKResponse :=
  {| sr_RequestId := "req-1"; sr_EnvId := "env"; sr_AppId := "app"; sr_Status := DONE;
     sr_Body := "{}"; sr_NoRetry := false; sr_RetryAfter := None; sr_SdkVersion := "";
     sr_RequestVersion := 0 |}.

Lemma no_run_without_ack_witness :
  let run h := handleInvokeMessage raw_type "" Some by_slug (λ _, true) (λ _, true) (takes 0)
                 h "app-echo" newMessageBuffer in
  (∀ m, takes 0 0%nat m = Some (EText "broken pipe")) ∧
  run (echo_handler None false) = run (with_funcs [] (echo_handler None false)) ∧
  ∃ sent err, run (echo_handler None false) = (sent, Return (newMessageBuffer, Some err)) ∧
    (length sent ≤ 1)%nat.
Proof.
  intros run. split; [reflexivity|].
  exact (no_run_without_ack raw_type "" Some by_slug (λ _, true) (λ _, true) (takes 0)
    (echo_handler None false) [] "app-echo" newMessageBuffer (EText "broken pipe")
    (λ _, eq_refl)).
Defined.

Lemma produced_reply_is_held_witness :
  ∃ sent, echo_connect 1 = (sent, Return (Ok echo_reply)) ∧
  ∃ b' err, handleInvokeMessage raw_type "" Some by_slug (λ _, true) (λ _, true) (takes 1)
              (echo_handler None false) "app-echo" newMessageBuffer =
            (sent ++ [WorkerReply echo_reply], Return (b', err)) ∧
    held echo_reply b' ∧ (err = None ↔ pendingAck b' !! "req-1" = Some echo_reply).
Proof.
  eexists. split; [vm_compute; reflexivity|].
  apply (produced_reply_is_held raw_type "" Some by_slug (λ _, true) (λ _, true) (takes 1)
    (echo_handler None false) "app-echo" newMessageBuffer _ echo_reply);
    [vm_compute; reflexivity|reflexivity].
Defined.

Lemma unknown_function_crashes_witness :
  by_slug "app-gone" = Some (echo_exec "app-gone") ∧
  unmarshal_Request echo_body = Some echo_request ∧
  Forall (λ f, Slug f "app" ≠ "app-gone") (h_funcs (echo_handler None false)) ∧
  ∃ sent, handleInvokeMessage raw_type "" Some by_slug (λ _, true) (λ _, true) (takes 9)
            (echo_handler None false) "app-gone" newMessageBuffer =
          (sent, Panic (UserPanic nil_deref)).
Proof.
  assert (unmarshal_Request echo_body = Some echo_request) as Hr by (vm_compute; reflexivity).
  assert (Forall (λ f, Slug f "app" ≠ "app-gone") (h_funcs (echo_handler None false))) as Hf.
  { constructor; [vm_compute; discriminate|constructor]. }
  split; [reflexivity|]. split; [exact Hr|]. split; [exact Hf|].
  apply (unknown_function_crashes raw_type "" Some by_slug (λ _, true) (λ _, true) (takes 9)
    (echo_handler None false) "app-gone" (echo_exec "app-gone") echo_request newMessageBuffer);
    [reflexivity|exact Hr|reflexivity|by intros [|]|exact Hf].
Defined.
End examples.
