(* ===== verification/EndToEnd.v ===== *)
(** * Executions over the transports

    The executor of [Executor] calls a function in process, over HTTP with signed requests
    and JSON in both directions, or over a worker connection: whichever it is, every schedule
    is the ideal execution. *)

From S2P Require Import Prelude GoBytes GoUrl GoUrlParse GoTime GoHash GoJson JsonWire GoHttp Env Errors.
From S2P Require Import Signature Manager Step Program Functions Handler Invoke Replay Groups Durable.
From S2P Require Import Executor Configs Serve Sync ServeProps Wire Buffer ConnectInvoke.

Open Scope Z_scope.

#[local] Arguments step_hash : simpl never.

Notation calls := (list (string * GeneratorOpcode)).

(** ** In process *)

Section in_process.
Context {V : Type} (ans : GeneratorOpcode → json).
Context (stack : string) (map_type : gotype V) (sf : ServableFunction V) (req : Request).
Context (p : prog V) (l : calls) (r : ending V).

(** A reply that holds operations, or ends the execution. *)
Definition split_reply (rep : reply V) : list GeneratorOpcode + reply V :=
  match rep with ReplyOps ops => inl ops | rep => inr rep end.

Definition invoke_call (steps : gmap string json) (target : option string) :
  option (list GeneratorOpcode + reply V) :=
  split_reply ∘ fst <$> Groups.call stack map_type sf req steps target.

Lemma invoke_view : View id.
Proof. by intros op id _. Qed.

Lemma target_length steps target :
  ideal ans p = Some (l, r) → callable ans p steps target →
  ∀ h, target = Some h → String.length h = 40%nat.
Proof.
  intros Hi Hcall h Hh. destruct (Hcall h Hh) as (x & Hx & _ & <-).
  destruct (frontier_calls ans p l r Hi steps false x Hx) as (id & Hid).
  destruct (call_op ans p l r Hi id x.2 Hid) as [-> _]. exact (step_hash_length id ∅).
Qed.

Lemma invoke_caller :
  runs_program map_type sf req p → ideal ans p = Some (l, r) → NoDup (g_id <$> l.*2) →
  Caller invoke_call id ans req p l (final stack r).
Proof.
  intros Hp Hi Hids. split.
  - intros steps Hs Hf. unfold invoke_call. rewrite option_fmap_compose.
    apply (answers_consistent id ans p l r invoke_view Hi Hids) in Hs.
    rewrite (call_finishes ans stack map_type sf req p l r Hp Hi Hids steps Hs Hf). simpl.
    pose proof (final_no_ops stack r) as Hno. unfold split_reply.
    destruct (final stack r) as [|ops|]; [done|by destruct (Hno ops)|done].
  - intros steps target Hs Hcall Hf. unfold invoke_call. rewrite option_fmap_compose.
    apply (answers_consistent id ans p l r invoke_view Hi Hids) in Hs.
    rewrite (call_reports ans stack map_type sf req p l r Hp Hi Hids steps target Hs Hcall);
      [|by apply (target_length steps)|done]. by rewrite list_fmap_id, emit_with_steps.
Qed.

(** C1: every schedule is the ideal execution.  A function that calls tools, alone and in
    groups, with distinct names, and that returns, panics, or is failed by a tool that cannot
    read its answer, is run by an executor that calls it, calls planned steps and answers
    operations in whatever order; its calls overlap, and carry the answers it had when they
    were made or when their step was planned.  Every run ends: within four steps for every
    call of a tool and three more; it is never stuck before it has ended; at any time every
    step has run at most once; and the first answer that is not a list of operations is how
    the ideal execution ends: by then nothing is planned, in flight or open, each step of that
    execution has run exactly once, and every call has the answer that it has there. *)
Theorem every_schedule n s :
  runs_program map_type sf req p → ideal ans p = Some (l, r) → NoDup (g_id <$> l.*2) →
  nsteps (ex_step invoke_call ans) n ex_start s →
  (n ≤ 4 * length l + 3)%nat ∧
  (NoDup (ex_ran s) ∧ ∀ op, op ∈ ex_ran s → op ∈ l.*2 ∧ executed op = true) ∧
  (ex_done s = None → ∃ s', ex_step invoke_call ans s s') ∧
  (∀ rep, ex_done s = Some rep →
     rep = final stack r ∧ ex_planned s = [] ∧ ex_running s = [] ∧ ex_open s = [] ∧
     ex_ran s ≡ₚ filter (λ op, executed op = true) l.*2 ∧
     ∀ op, op ∈ l.*2 → ex_known s !! g_id op = Some (ans op)).
Proof.
  intros Hp Hi Hids Hn.
  destruct (caller_runs invoke_call id ans req p l r (final stack r) n s invoke_view
    (invoke_caller Hp Hi Hids) Hi Hids Hn) as [Hshort Honce Hgo Hend].
  rewrite list_fmap_id in Honce, Hend. split_and!; [done|apply Honce|apply Honce|done|].
  intros rep Hrep. destruct (Hend rep Hrep) as (-> & [-> ->]%app_nil & ?). done.
Qed.
End in_process.

(** ** What both ends of a transport need *)

Section transported.
Context {V : Type} (ans : GeneratorOpcode → json).
Context (stack : string) (map_type : gotype V) (sf : ServableFunction V) (req : Request).
Context (p : prog V) (l : calls) (r : ending V).

(** The executor reads the operations it is sent. *)
Notation answered := (answer received ans).

Lemma received_view : View received.
Proof.
  intros op id Hid. unfold received. simpl. split; [|done]. rewrite Hid. apply step_hash_clean.
Qed.

(** The request can be sent, and the answers are documents. *)
Record documents : Prop := {
  doc_request : sendable [] (with_steps req ∅);
  doc_answers op : op ∈ l.*2 → json_ok (answered op) = true ∧ json_utf8 (answered op) = true }.

Lemma answers_documents steps :
  ideal answered p = Some (l, r) → documents → answers_of received ans l steps →
  Forall (λ kv, valid_utf8 kv.1 = true ∧ json_ok kv.2 = true ∧ json_utf8 kv.2 = true)
    (map_to_list steps).
Proof.
  intros Hi Hdoc Hs. apply Forall_forall. intros [h j] Hin%elem_of_map_to_list. simpl.
  destruct (Hs h j Hin) as (op & Hop & <- & ->).
  apply list_elem_of_fmap in Hop as (o & -> & ([id o'] & -> & Hio)%list_elem_of_fmap). simpl.
  split; [apply clean_valid|apply (doc_answers Hdoc); by apply (list_elem_of_fmap_2 snd _ (id, o'))].
Qed.

Lemma sendable_steps steps :
  ideal answered p = Some (l, r) → documents → answers_of received ans l steps →
  sendable (map_to_list steps) (with_steps req steps).
Proof.
  intros Hi Hdoc Hs. pose proof (answers_documents steps Hi Hdoc Hs) as Hall.
  destruct (doc_request Hdoc) as [Hcur Hatt Hev _ _ Hok Hutf]. split; try done.
  - simpl. by rewrite list_to_map_to_list.
  - apply NoDup_fst_map_to_list.
  - unfold Request_json in *. cbn [json_ok forallb snd] in *. rewrite !andb_true_iff in Hok |- *.
    assert (forallb (λ kv, json_ok kv.2) (map_to_list steps) = true); [|tauto].
    apply forallb_Forall_true. eapply Forall_impl; [exact Hall|]. by intros kv (_ & ? & _).
  - unfold Request_json in *. cbn [json_utf8 forallb fst snd] in *. rewrite !andb_true_iff in Hutf |- *.
    assert (forallb (λ kv, valid_utf8 kv.1 && json_utf8 kv.2) (map_to_list steps) = true); [|tauto].
    apply forallb_Forall_true. eapply Forall_impl; [exact Hall|]. intros kv (? & _ & ?).
    by apply andb_true_iff.
Qed.

(** A call in process, by its invocation. *)
Lemma call_invocation steps target rep :
  fst <$> Groups.call stack map_type sf req steps target = Some rep →
  ∃ i, invoke map_type stack sf (with_steps req steps) target = Return i ∧ reply_of i = rep.
Proof. unfold Groups.call. destruct (invoke _ _ _ _ _) as [i|]; [|done]. intros [= <-]. by exists i. Qed.

Lemma reply_ops_of (i : invocation V) ops : reply_of i = ReplyOps ops → inv_ops i = ops.
Proof. unfold reply_of. destruct (settle _ _).2; [done|]. by destruct (inv_ops i); intros [= <-]. Qed.

(** A transport that carries the operations of an invocation, and its end. *)
Lemma transport_caller {R} (call : gmap string json → option string → option (list GeneratorOpcode + R))
  (fin : R) :
  runs_program map_type sf req p → ideal answered p = Some (l, r) → NoDup (g_id <$> l.*2) →
  (∀ f arg, Func sf = Some f → serialisable (f arg)) →
  (∀ steps target i, answers_of received ans l steps →
     (∀ h, target = Some h → String.length h = 40%nat) →
     invoke map_type stack sf (with_steps req steps) target = Return i →
     match reply_of i with
     | ReplyOps ops => Forall (λ op, parts_ok op = true) ops → call steps target = Some (inl (received <$> ops))
     | rep => rep = final stack r → call steps target = Some (inr fin)
     end) →
  Caller call received ans req p l fin.
Proof.
  intros Hp Hi Hids Hser Hcarry. split.
  - intros steps Hs Hf.
    pose proof (answers_consistent received ans p l r received_view Hi Hids steps Hs) as Hc.
    destruct (call_invocation steps None _ (call_finishes answered stack map_type sf req p l r Hp Hi
      Hids steps Hc Hf)) as (i & Hinv & Hrep).
    specialize (Hcarry steps None i Hs ltac:(done) Hinv). rewrite Hrep in Hcarry.
    pose proof (final_no_ops stack r) as Hno.
    destruct (final stack r) as [|ops|]; [by apply Hcarry|by destruct (Hno ops)|by apply Hcarry].
  - intros steps target Hs Hcall Hf.
    pose proof (answers_consistent received ans p l r received_view Hi Hids steps Hs) as Hc.
    pose proof (target_length answered p l r steps target Hi Hcall) as Hlen.
    destruct (call_invocation steps target _ (call_reports answered stack map_type sf req p l r Hp Hi
      Hids steps target Hc Hcall Hlen Hf)) as (i & Hinv & Hrep).
    specialize (Hcarry steps target i Hs Hlen Hinv). rewrite Hrep in Hcarry.
    rewrite emit_with_steps in *. apply Hcarry. rewrite <- (reply_ops_of i _ Hrep).
    eapply Forall_impl; [by eapply invocation_ops_typed|]. by intros op (_ & _ & ?).
Qed.
End transported.

(** ** Over HTTP *)

Section http.
Context {V : Type} (Getenv : string → string) (jcs : string → option string).
Context (map_type : gotype V) (stack : string) (marshal_any : V → option json) (now : time).
Context (marshal_configs : list SDKFunction → option json) (fmt_value : json → string).
Context (Do : nat → out_request → res goerr out_response).
Context (h : handler V) (hb : heartbeats) (sf : ServableFunction V) (req : Request).

(** The request the executor sends is this one, with the step, the body and the signature of
    the call; it signs at the time [at_] by its clock. *)
Context (base : http_request) (at_ : time).

Abbreviation key := (GetSigningKey Getenv (h_opts h)).

Definition request_body (steps : gmap string json) : string :=
  json_encode (Request_json (map_to_list steps) (with_steps req steps)).

Definition step_url (target : option string) : url :=
  set_RawQuery (values_encode (values_set "stepId" (default "step" target)
    (url_query (u_RawQuery (hr_url base))))) (hr_url base).

Definition post (steps : gmap string json) (target : option string) : http_request :=
  let body := request_body steps in
  {| hr_method := MethodPost; hr_url := step_url target; hr_requestURI := hr_requestURI base;
     hr_host := hr_host base; hr_tls := hr_tls base;
     hr_header := header_set HeaderKeySignature (Sign jcs at_ at_ key body) (hr_header base);
     hr_body := {| b_bytes := body; b_err := None |} |}.

(** What the executor makes of a response: operations, or the end of the execution. *)
Definition read_response (w : writer) : option (list GeneratorOpcode + Z * string) :=
  let '(status, _, body) := response_of w in
  if status =? 206 then inl <$> read_ops body else Some (inr (status, body)).

Definition http_call (steps : gmap string json) (target : option string) :
  option (list GeneratorOpcode + Z * string) :=
  match ServeHTTP Getenv jcs map_type stack marshal_any now marshal_configs fmt_value Do h hb
          (post steps target) new_writer with
  | Return ([], w) => read_response w
  | _ => None
  end.

(** The endpoint serves the function; outside of development the two ends share a key, and
    a signature arrives before it expires. *)
Record deployed : Prop := {
  dp_logger : ho_Logger (h_opts h) = true;
  dp_streaming : ho_UseStreaming (h_opts h) = false;
  dp_probe : query_get "probe" base ≠ "trust";
  dp_function : find_function h (query_get "fnId" base) = Some sf;
  dp_signed : isDev Getenv (h_opts h) = true ∨
    clock_ok now ∧ normalizeKey (normalizeKey key) = normalizeKey key ∧
    time_sub now (time_unix (sign_ts at_ at_)) ≤ signatureTimeDeltaMax }.

Lemma query_step_url k target r :
  query_get k {| hr_method := hr_method r; hr_url := step_url target;
    hr_requestURI := hr_requestURI r; hr_host := hr_host r; hr_tls := hr_tls r;
    hr_header := hr_header r; hr_body := hr_body r |} =
  if decide (k = "stepId") then default "step" target else query_get k base.
Proof.
  unfold query_get, step_url. simpl. unfold url_query at 1. rewrite parse_query_encode.
  - simpl. destruct (decide _) as [->|Hk]; [apply values_get_set|by apply values_get_set_ne].
  - apply map_Forall_insert_2; [done|]. apply parse_query_nonempty.
Qed.

Lemma post_query k steps target :
  query_get k (post steps target) =
    if decide (k = "stepId") then default "step" target else query_get k base.
Proof. apply (query_step_url k target (post steps target)). Qed.

Lemma post_target steps target :
  (∀ h, target = Some h → String.length h = 40%nat) → target_of (post steps target) = target.
Proof.
  intros Hlen. unfold target_of. rewrite post_query. simpl. destruct target as [t|]; [|done]. simpl.
  specialize (Hlen t eq_refl). rewrite bool_decide_eq_false_2 by (intros ->; done).
  by destruct t.
Qed.

Lemma post_accepted steps target :
  deployed → sendable (map_to_list steps) (with_steps req steps) →
  Z.of_nat (String.length (request_body steps)) ≤ Z.max 0 (max_body h) →
  accepted Getenv jcs now h (post steps target) (with_steps req steps) sf.
Proof.
  intros [Hlog Hst Hprobe Hfn Hsig] Hsend Hsize. split; try done.
  - by rewrite post_query.
  - right. simpl. by rewrite header_get_set.
  - simpl. rewrite header_get_set. destruct Hsig as [Hdev|(Hnow & Hkey & Hage)].
    { by rewrite Hdev. }
    destruct (isDev Getenv (h_opts h)); [done|]. unfold ValidateRequestSignature.
    rewrite (proj2 (validate_ok_iff jcs now (Sign jcs at_ at_ key (request_body steps)) key
      (request_body steps) Hnow)); [done|].
    exists (sign_ts at_ at_). split_and!; [|done|].
    + unfold sign_ts. case_match; apply to_unix_int64.
    + unfold Sign. by rewrite Hkey.
  - simpl. by apply request_read_back.
  - by rewrite post_query.
Qed.

Lemma read_response_ops w hd ops :
  response_of w = (206, hd, json_encode (ops_json ops)) → Forall (λ op, parts_ok op = true) ops →
  read_response w = Some (inl (received <$> ops)).
Proof. unfold read_response, ops_json. intros -> Hok. simpl. by rewrite read_ops_encode. Qed.

Lemma read_response_end w status hd body :
  response_of w = (status, hd, body) → status ≠ 206 → read_response w = Some (inr (status, body)).
Proof. unfold read_response. intros -> Hs. by rewrite (proj2 (Z.eqb_neq _ _) Hs). Qed.

Section execution.
Context (ans : GeneratorOpcode → json) (p : prog V) (l : calls) (r : ending V).

(** The status and the document that end the execution. *)
Definition http_final (status : Z) (j : json) : Prop :=
  expected marshal_any (final_invocation stack r) = Some (status, j).

(** The requests of the execution are not too large. *)
Definition fits : Prop := ∀ steps, answers_of received ans l steps →
  Z.of_nat (String.length (request_body steps)) ≤ Z.max 0 (max_body h).

Lemma http_final_status status j : http_final status j → status ≠ 206.
Proof.
  unfold http_final, expected. pose proof (final_no_ops stack r) as Hno. unfold final in Hno.
  destruct (reply_of _) as [e|ops|v]; [|by destruct (Hno ops)|].
  - destruct (err_msg e); [|done]. intros [= <- _]. unfold invoke_status. by repeat case_match.
  - destruct (marshal_response _ _); intros [= <- _]; done.
Qed.

Lemma http_caller status j :
  deployed → documents ans req l → fits → http_final status j →
  runs_program map_type sf req p → ideal (answer received ans) p = Some (l, r) →
  NoDup (g_id <$> l.*2) → (∀ f arg, Func sf = Some f → serialisable (f arg)) →
  Caller http_call received ans req p l (status, json_encode j).
Proof.
  intros Hdep Hdoc Hfit Hfin Hp Hi Hids Hser. pose proof (http_final_status _ _ Hfin) as Hstatus.
  apply (transport_caller ans stack map_type sf req p l r http_call); try done.
  intros steps target i Hs Hlen Hinv.
  pose proof (sendable_steps ans req p l r steps Hi Hdoc Hs) as Hsend.
  pose proof (post_accepted steps target Hdep Hsend (Hfit steps Hs)) as Hacc.
  rewrite <- (post_target steps target Hlen) in Hinv.
  pose proof (accepted_answer Getenv jcs map_type stack marshal_any now marshal_configs fmt_value Do
    h hb _ _ sf i Hacc (dp_streaming Hdep) Hinv) as Hans.
  unfold http_call.
  assert (reply_of i = final stack r → expected marshal_any i = Some (status, j)) as Hexp.
  { intros Hrep. unfold http_final, expected in *. unfold final in Hrep. by rewrite Hrep. }
  destruct (reply_of i) as [e|ops|v] eqn:Hrep.
  - intros He. rewrite (Hexp He) in Hans. destruct Hans as (w & -> & Hw). by eapply read_response_end.
  - intros Hok. unfold expected in Hans. rewrite Hrep in Hans. destruct Hans as (w & -> & Hw).
    by eapply read_response_ops.
  - intros He. rewrite (Hexp He) in Hans. destruct Hans as (w & -> & Hw). by eapply read_response_end.
Qed.

(** C2: executions end to end.  The executor signs its requests and sends them with the
    answers it has as JSON, the endpoint verifies and decodes them, calls the function, and
    reports operations or the result as JSON, which the executor reads back.  Whatever the
    schedule, a run of the executor ends within four steps for every call of a tool and three
    more, is never stuck, and ends with the status and the document of the ideal execution's
    result, having run each of its steps once. *)
Theorem every_schedule_over_http status j n s :
  deployed → documents ans req l → fits → http_final status j →
  runs_program map_type sf req p → (∀ f arg, Func sf = Some f → serialisable (f arg)) →
  ideal (answer received ans) p = Some (l, r) → NoDup (g_id <$> l.*2) →
  nsteps (ex_step http_call ans) n ex_start s →
  run_ok http_call received ans l (status, json_encode j) n s.
Proof.
  intros Hdep Hdoc Hfit Hfin Hp Hser Hi Hids. apply caller_runs with (req := req) (p := p) (r := r);
    [apply received_view|by apply http_caller|done|done].
Qed.
End execution.
End http.

(** ** Over a worker connection *)

Section connection.
Context {V : Type} (map_type : gotype V) (stack : string) (marshal_any : V → option json).
Context (decode_request : string → option ExecutorRequest) (encode_request : ExecutorRequest → string).
Context (marshal_ack : ExecutorRequest → bool) (write : nat → worker_msg → option goerr).
Context (h : handler V) (sf : ServableFunction V) (req : Request) (base : ExecutorRequest).

(** The message the gateway sends for a call. *)
Definition gateway_message (steps : gmap string json) (target : option string) : ExecutorRequest :=
  {| er_RequestId := er_RequestId base; er_EnvId := er_EnvId base; er_AppId := er_AppId base;
     er_FunctionSlug := er_FunctionSlug base; er_StepId := target;
     er_RequestPayload := request_body req steps |}.

(** What the executor makes of a reply. *)
Definition read_sdk_response (resp : SDKResponse) :
  option (list GeneratorOpcode + SDKResponseStatus * string) :=
  match sr_Status resp with
  | NOT_COMPLETED => inl <$> read_ops (sr_Body resp)
  | status => Some (inr (status, sr_Body resp))
  end.

Definition connection_call (steps : gmap string json) (target : option string) :
  option (list GeneratorOpcode + SDKResponseStatus * string) :=
  match connectInvoke map_type stack marshal_any decode_request marshal_ack write h
          (encode_request (gateway_message steps target)) with
  | (_, Return (Ok resp)) => read_sdk_response resp
  | _ => None
  end.

(** The gateway's messages are decoded, acknowledged, and reach the function. *)
Record connected : Prop := {
  cn_decode m : decode_request (encode_request m) = Some m;
  cn_ack m : marshal_ack m = true;
  cn_write m : write 0%nat m = None;
  cn_function : getServableFunctionBySlug h (er_FunctionSlug base) = Some sf }.

(** The status and the text of the message for a reply. *)
Definition reply_text (rep : reply V) : option (SDKResponseStatus * string) :=
  match rep with
  | ReplyError e => (λ m, (ERROR, "error calling function: " +:+ m)) <$> err_msg e
  | ReplyOps ops => Some (NOT_COMPLETED, json_print (ops_json ops))
  | ReplyResponse v => (λ j, (DONE, json_print j)) <$> marshal_response marshal_any v
  end.

Lemma sdk_response_reply body i :
  match sdk_response marshal_any body i with
  | Return (Ok resp) => Some (sr_Status resp, sr_Body resp)
  | _ => None
  end = reply_text (reply_of i).
Proof.
  unfold reply_of, sdk_response. destruct (settle _ _) as [[noRetry retryAt] [e|]]; cbn [snd].
  - unfold reply_text. by destruct (err_msg e).
  - destruct (inv_ops i) as [|op ops]; [|done]. unfold reply_text.
    by destruct (marshal_response marshal_any (inv_response i)).
Qed.

Lemma connection_reply steps target i :
  connected → sendable (map_to_list steps) (with_steps req steps) →
  (∀ h, target = Some h → String.length h = 40%nat) →
  invoke map_type stack sf (with_steps req steps) target = Return i →
  connection_call steps target =
    match reply_text (reply_of i) with
    | Some (NOT_COMPLETED, text) => inl <$> read_ops text
    | Some (status, text) => Some (inr (status, text))
    | None => None
    end.
Proof.
  intros [Hdec Hack Hwrite Hfn] Hsend Hlen Hinv.
  unfold connection_call, connectInvoke. rewrite Hdec. simpl.
  unfold request_body. rewrite request_read_back by done. rewrite Hack, Hwrite. simpl.
  unfold InvokeFunction. rewrite Hfn.
  assert (connect_step (gateway_message steps target) = target) as ->.
  { unfold connect_step. simpl. destruct target as [t|]; [|done].
    rewrite decide_False; [done|]. intros ->. by specialize (Hlen _ eq_refl). }
  rewrite Hinv, <- (sdk_response_reply (gateway_message steps target) i).
  unfold read_sdk_response. destruct (sdk_response _ _ _) as [[resp|]|]; [|done..].
  by destruct (sr_Status resp).
Qed.

Section execution.
Context (ans : GeneratorOpcode → json) (p : prog V) (l : calls) (r : ending V).

Lemma connection_caller status text :
  connected → documents ans req l → reply_text (final stack r) = Some (status, text) →
  runs_program map_type sf req p → ideal (answer received ans) p = Some (l, r) →
  NoDup (g_id <$> l.*2) → (∀ f arg, Func sf = Some f → serialisable (f arg)) →
  Caller connection_call received ans req p l (status, text).
Proof.
  intros Hcn Hdoc Hfin Hp Hi Hids Hser.
  apply (transport_caller ans stack map_type sf req p l r connection_call); try done.
  intros steps target i Hs Hlen Hinv.
  pose proof (sendable_steps ans req p l r steps Hi Hdoc Hs) as Hsend.
  pose proof (connection_reply steps target i Hcn Hsend Hlen Hinv) as Hcall.
  destruct (reply_of i) as [e|ops|v]; intros Hrep.
  - rewrite Hcall, Hrep, Hfin. rewrite <- Hrep in Hfin. simpl in Hfin.
    destruct (err_msg e); by simplify_eq/=.
  - rewrite Hcall. cbn [reply_text]. unfold ops_json. by rewrite read_ops_text.
  - rewrite Hcall, Hrep, Hfin. rewrite <- Hrep in Hfin. simpl in Hfin.
    destruct (marshal_response _ _); by simplify_eq/=.
Qed.

(** The same over a worker connection: the gateway's messages carry the request as JSON,
    the worker acknowledges and calls the function, and its replies carry the operations or
    the result. *)
Theorem every_schedule_over_connection status text n s :
  connected → documents ans req l → reply_text (final stack r) = Some (status, text) →
  runs_program map_type sf req p → (∀ f arg, Func sf = Some f → serialisable (f arg)) →
  ideal (answer received ans) p = Some (l, r) → NoDup (g_id <$> l.*2) →
  nsteps (ex_step connection_call ans) n ex_start s →
  run_ok connection_call received ans l (status, text) n s.
Proof.
  intros Hcn Hdoc Hfin Hp Hser Hi Hids. apply caller_runs with (req := req) (p := p) (r := r);
    [apply received_view|by apply connection_caller|done|done].
Qed.
End execution.
End connection.

(** ** Example: a trip, with steps that run out of order *)

Definition step_of (id v : string) (e : option goerr) (k : json → option goerr → prog json) :
  prog json := PRun Given string_type id (PLog id (PRet (JStr v) e)) k.

Definition approval : WaitForEventOpts :=
  {| wo_name := "approval"; wo_event := "trip/approved"; wo_timeout := 60 * second; wo_if := None |}.

Definition trip : prog json :=
  step_of "charge" "paid" None (λ paid _,
  PParallel Given
    [step_of "hotel" "hotel" None (λ v _,
       PSleep Given "pause" (90 * second)
         (PRun Given string_type "confirm" (PLog "confirm" (PRet v None)) PRet));
     PWait Given raw_type "approval" approval (λ v e,
       PRet v (if opt_err IsStepError e then e else None));
     step_of "flight" "flight" None PRet]
    (λ rs, step_of "mail" "" (Some (EText "no address")) (λ _ e,
       PRet (JArr (paid :: (pr_value <$> rs))) None))).

Definition trip_function : ServableFunction json := group_function trip.
Definition trip_request : Request := order_request false.

(** The hotel and the flight are booked at once; the function is called again when the flight
    is booked, and that call returns after the hotel is booked too. *)
Definition trip_schedule : list event :=
  [ECall; EReply; ECall; EReply; ERun (once "flight"); ERun (once "hotel"); EResult (once "flight");
   ECall; EResult (once "hotel"); EReply; ECall; EReply; EAnswer (once "pause"); ECall; EReply;
   EAnswer (once "approval"); ERun (once "confirm"); EResult (once "confirm"); ECall; EReply;
   ECall; EReply].

Definition trip_result : json := JArr [JStr "paid"; JStr "hotel"; JNull; JStr "flight"].

Definition trip_steps : list string := ["charge"; "flight"; "hotel"; "confirm"; "mail"].

(** What is left of a run: the names of the steps that ran, and how it ended. *)
Definition outcome_of {R} (s : option (executor (R:=R))) : list string * option R :=
  match s with Some s => (g_name <$> ex_ran s, ex_done s) | None => ([], None) end.

Lemma trip_runs : runs_program raw_type trip_function trip_request trip.
Proof. exists (λ _, trip), (JObj []), []. done. Qed.

Definition trip_calls (ans : GeneratorOpcode → json) : calls :=
  match ideal ans trip with Some (l, _) => l | None => [] end.

Lemma trip_ideal : ideal stored trip = Some (trip_calls stored, Returns (trip_result, None)).
Proof. vm_compute. reflexivity. Qed.

Lemma trip_names : NoDup (g_id <$> (trip_calls stored).*2).
Proof. apply (bool_decide_unpack _). vm_compute. exact I. Qed.

Notation trip_in_process := (invoke_call "" raw_type trip_function trip_request).

Lemma trip_in_process_ends :
  outcome_of (ex_events trip_in_process stored trip_schedule ex_start) =
    (trip_steps, Some (ReplyResponse (Some trip_result))).
Proof. vm_compute. reflexivity. Qed.

(** A run that follows a schedule. *)
Lemma scheduled_run {R} (call : gmap string json → option string → option (list GeneratorOpcode + R))
  view ans req (p : prog json) l r fin es x :
  View view → Caller call view ans req p l fin → ideal (answer view ans) p = Some (l, r) →
  NoDup (g_id <$> l.*2) → outcome_of (ex_events call ans es ex_start) = (x, Some fin) →
  ∃ s, nsteps (ex_step call ans) (length es) ex_start s ∧ g_name <$> ex_ran s = x ∧ ex_done s = Some fin.
Proof.
  intros Hview Hcaller Hi Hids Hend.
  destruct (ex_events call ans es ex_start) as [s|] eqn:Hs; [|done]. injection Hend as <- Hdone.
  exists s. split; [|done].
  eapply (ex_events_steps call view ans req p l r fin); try done. by apply start_ok.
Qed.

(** A function that panics once its step has run. *)
Definition crash : prog json := step_of "charge" "paid" None (λ _ _, PPanic "out of stock").

Lemma crash_ends :
  match outcome_of (ex_events (invoke_call "trace" raw_type (group_function crash) trip_request) stored
    [ECall; EReply; ECall; EReply] ex_start) with
  | (ran, Some (ReplyError (EText text))) =>
      ran = ["charge"] ∧
      text = "function panicked: out of stock.  stack:" +:+ newline +:+ "trace"
  | _ => False
  end.
Proof. vm_compute. done. Qed.

(** A step whose answer is not a string. *)
Lemma unreadable_ends :
  match outcome_of (ex_events (invoke_call "" raw_type (group_function crash) trip_request)
    (λ _, JObj [("data", jint 5)]) [ECall; EReply; ECall; EReply] ex_start) with
  | (ran, Some (ReplyError (EWrap _ _))) => ran = ["charge"]
  | _ => False
  end.
Proof. vm_compute. done. Qed.

Lemma every_schedule_witness :
  ∃ s, nsteps (ex_step trip_in_process stored) 22 ex_start s ∧
    g_name <$> ex_ran s = trip_steps ∧ ex_done s = Some (ReplyResponse (Some trip_result)) ∧
    ex_ran s ≡ₚ filter (λ op, executed op = true) (trip_calls stored).*2.
Proof.
  destruct (scheduled_run trip_in_process id stored trip_request trip (trip_calls stored)
    (Returns (trip_result, None)) (ReplyResponse (Some trip_result)) trip_schedule trip_steps) as (s & Hn & Hran & Hdone).
  - exact invoke_view.
  - exact (invoke_caller stored "" raw_type trip_function trip_request trip (trip_calls stored)
      (Returns (trip_result, None)) trip_runs trip_ideal trip_names).
  - exact trip_ideal.
  - exact trip_names.
  - exact trip_in_process_ends.
  - exists s. split; [exact Hn|]. split; [exact Hran|]. split; [exact Hdone|].
    destruct (every_schedule stored "" raw_type trip_function trip_request trip (trip_calls stored)
      (Returns (trip_result, None)) 22 s trip_runs trip_ideal trip_names Hn) as (_ & _ & _ & Hend).
    destruct (Hend _ Hdone) as (_ & _ & _ & _ & Hperm & _). exact Hperm.
Defined.

(** ** Example: the trip over HTTP *)

(** Every map of some of the given entries. *)
Fixpoint submaps (kvs : list (string * json)) : list (gmap string json) :=
  match kvs with
  | [] => [∅]
  | (k, v) :: kvs => submaps kvs ++ (insert k v <$> submaps kvs)
  end.

Lemma submaps_complete kvs m : m ⊆ (list_to_map kvs : gmap string json) → m ∈ submaps kvs.
Proof.
  revert m. induction kvs as [|[k v] kvs IH]; intros m Hsub; simpl in *.
  { apply list_elem_of_singleton. apply map_empty. intros i.
    destruct (m !! i) eqn:Hi; [|done]. by apply (lookup_weaken _ _ _ _ Hi) in Hsub. }
  apply elem_of_app. destruct (m !! k) as [v'|] eqn:Hk.
  - right. apply list_elem_of_fmap. exists (delete k m). split.
    + pose proof (lookup_weaken _ _ _ _ Hk Hsub) as Hv. rewrite lookup_insert_eq in Hv.
      injection Hv as <-. by rewrite insert_delete_id.
    + apply IH, map_subseteq_spec. intros i x [Hne Hi]%lookup_delete_Some.
      apply (lookup_weaken _ _ _ _ Hi) in Hsub. by rewrite lookup_insert_ne in Hsub.
  - left. apply IH, map_subseteq_spec. intros i x Hi.
    apply (lookup_weaken _ _ _ _ Hi) in Hsub. rewrite lookup_insert_ne in Hsub; [done|].
    intros ->. congruence.
Qed.

(** The answers of an execution, by the steps' identifiers. *)
Definition answer_list (ans : GeneratorOpcode → json) (l : calls) : list (string * json) :=
  (λ op, (g_id op, ans op)) <$> (received <$> l.*2).

Lemma answers_submap ans l steps :
  NoDup (answer_list ans l).*1 → answers_of received ans l steps → steps ∈ submaps (answer_list ans l).
Proof.
  intros Hnd Hs. apply submaps_complete, map_subseteq_spec. intros h j Hj.
  destruct (Hs h j Hj) as (op & Hop & <- & ->). apply elem_of_list_to_map_1; [done|].
  by apply (list_elem_of_fmap_2 (λ op, (g_id op, ans op))).
Qed.

Definition trip_handler : handler json :=
  {| h_opts := echo_opts (Some testKey) false; h_appName := "app"; h_funcs := [trip_function] |}.

Definition trip_post : http_request := request_to MethodPost "fnId=app-checkout" "" "".

Abbreviation trip_http := (http_call no_env reprint raw_type "" Some clock1 no_configs json_print
  no_network trip_handler beats trip_request trip_post clock0).

Definition trip_reply : string := json_encode trip_result.

Lemma trip_answered : ideal (answer received stored) trip = Some (trip_calls stored, Returns (trip_result, None)).
Proof. vm_compute. reflexivity. Qed.

Lemma trip_documents : documents stored trip_request (trip_calls stored).
Proof.
  assert (sendable [] (with_steps trip_request ∅)) as Hreq.
  { split; [done|done|by eexists|done|constructor|reflexivity|reflexivity]. }
  split; [exact Hreq|].
  assert (forallb (λ op, json_ok (answer received stored op) && json_utf8 (answer received stored op))
    (trip_calls stored).*2 = true) as Hall by (vm_compute; reflexivity).
  intros op Hop. apply andb_true_iff. rewrite forallb_forall in Hall.
  by apply Hall, list_elem_of_In.
Qed.

Lemma trip_fits : fits trip_handler trip_request stored (trip_calls stored).
Proof.
  assert (NoDup (answer_list stored (trip_calls stored)).*1) as Hnd
    by (apply (bool_decide_unpack _); vm_compute; exact I).
  assert (forallb (λ m, Z.of_nat (String.length (request_body trip_request m)) <=? 4096)
    (submaps (answer_list stored (trip_calls stored))) = true) as Hall by (vm_compute; reflexivity).
  intros steps Hs. rewrite forallb_forall in Hall. transitivity 4096; [|done].
  apply Z.leb_le, Hall, list_elem_of_In. by apply answers_submap.
Qed.

Lemma trip_deployed : deployed no_env clock1 trip_handler trip_function trip_post clock0.
Proof.
  split; [reflexivity|reflexivity|vm_compute; congruence|vm_compute; reflexivity|].
  right. split; [exact clock1_ok|]. split; [vm_compute; reflexivity|]. vm_compute. congruence.
Qed.

Lemma trip_serialisable f arg : Func trip_function = Some f → serialisable (f arg).
Proof. intros [= <-]. simpl. repeat split; by intros [] j [= <-]. Qed.

Lemma trip_http_final : http_final "" Some (Returns (trip_result, None)) 200 trip_result.
Proof. vm_compute. reflexivity. Qed.

Lemma trip_http_ends :
  outcome_of (ex_events trip_http stored trip_schedule ex_start) = (trip_steps, Some (200, trip_reply)).
Proof. vm_compute. reflexivity. Qed.

Lemma every_schedule_over_http_witness :
  ∃ s, nsteps (ex_step trip_http stored) 22 ex_start s ∧
    g_name <$> ex_ran s = trip_steps ∧ ex_done s = Some (200, trip_reply) ∧
    run_ok trip_http received stored (trip_calls stored) (200, trip_reply) 22 s.
Proof.
  destruct (scheduled_run trip_http received stored trip_request trip (trip_calls stored)
    (Returns (trip_result, None)) (200, trip_reply) trip_schedule trip_steps) as (s & Hn & Hran & Hdone).
  - exact received_view.
  - exact (http_caller no_env reprint raw_type "" Some clock1 no_configs json_print no_network
      trip_handler beats trip_function trip_request trip_post clock0 stored trip (trip_calls stored)
      (Returns (trip_result, None)) 200 trip_result trip_deployed trip_documents trip_fits trip_http_final
      trip_runs trip_answered trip_names trip_serialisable).
  - exact trip_answered.
  - exact trip_names.
  - exact trip_http_ends.
  - exists s. split; [exact Hn|]. split; [exact Hran|]. split; [exact Hdone|].
    exact (every_schedule_over_http no_env reprint raw_type "" Some clock1 no_configs json_print
      no_network trip_handler beats trip_function trip_request trip_post clock0 stored trip
      (trip_calls stored) (Returns (trip_result, None)) 200 trip_result 22 s trip_deployed trip_documents
      trip_fits trip_http_final trip_runs trip_serialisable trip_answered trip_names Hn).
Defined.

(** ** Example: the trip over a worker connection *)

(** An encoding of the gateway's messages: each field's bytes after a plus, and a dot. *)
Fixpoint frame (s rest : string) : string :=
  match s with
  | "" => String "." rest
  | String c s => String "+" (String c (frame s rest))
  end.

Fixpoint unframe (s : string) : option (string * string) :=
  match s with
  | String "." rest => Some ("", rest)
  | String "+" (String c s) => prod_map (String c) id <$> unframe s
  | _ => None
  end.

Lemma unframe_frame s rest : unframe (frame s rest) = Some (s, rest).
Proof. induction s as [|c s IH]; [done|]. simpl in *. by rewrite IH. Qed.

Definition encode_message (m : ExecutorRequest) : string :=
  foldr frame (match er_StepId m with Some id => frame id "" | None => "" end)
    [er_RequestId m; er_EnvId m; er_AppId m; er_FunctionSlug m; er_RequestPayload m].

Definition decode_message (s : string) : option ExecutorRequest :=
  unframe s ≫= λ '(rid, s), unframe s ≫= λ '(env, s), unframe s ≫= λ '(app, s),
  unframe s ≫= λ '(slug, s), unframe s ≫= λ '(payload, s),
  Some {| er_RequestId := rid; er_EnvId := env; er_AppId := app; er_FunctionSlug := slug;
          er_StepId := fst <$> unframe s; er_RequestPayload := payload |}.

Lemma decode_encode m : decode_message (encode_message m) = Some m.
Proof.
  destruct m as [rid env app slug [id|] payload]; unfold decode_message, encode_message; simpl;
    do 5 (rewrite unframe_frame; simpl); [by rewrite unframe_frame|done].
Qed.

Definition trip_message : ExecutorRequest :=
  {| er_RequestId := "r1"; er_EnvId := "prod"; er_AppId := "app"; er_FunctionSlug := "app-checkout";
     er_StepId := None; er_RequestPayload := "" |}.

Abbreviation trip_connection := (connection_call raw_type "" Some decode_message encode_message
  (λ _, true) (λ _ _, None) trip_handler trip_request trip_message).

Definition trip_text : string := json_print trip_result.

Lemma trip_connected :
  connected decode_message encode_message (λ _, true) (λ _ _, None) trip_handler trip_function trip_message.
Proof. split; [exact decode_encode|done|done|vm_compute; reflexivity]. Qed.

Lemma trip_reply_text : reply_text Some (final "" (Returns (trip_result, None))) = Some (DONE, trip_text).
Proof. vm_compute. reflexivity. Qed.

Lemma trip_connection_ends :
  outcome_of (ex_events trip_connection stored trip_schedule ex_start) = (trip_steps, Some (DONE, trip_text)).
Proof. vm_compute. reflexivity. Qed.

Lemma every_schedule_over_connection_witness :
  ∃ s, nsteps (ex_step trip_connection stored) 22 ex_start s ∧
    g_name <$> ex_ran s = trip_steps ∧ ex_done s = Some (DONE, trip_text) ∧
    run_ok trip_connection received stored (trip_calls stored) (DONE, trip_text) 22 s.
Proof.
  destruct (scheduled_run trip_connection received stored trip_request trip (trip_calls stored)
    (Returns (trip_result, None)) (DONE, trip_text) trip_schedule trip_steps) as (s & Hn & Hran & Hdone).
  - exact received_view.
  - exact (connection_caller raw_type "" Some decode_message encode_message (λ _, true) (λ _ _, None)
      trip_handler trip_function trip_request trip_message stored trip (trip_calls stored)
      (Returns (trip_result, None)) DONE trip_text trip_connected trip_documents trip_reply_text
      trip_runs trip_answered trip_names trip_serialisable).
  - exact trip_answered.
  - exact trip_names.
  - exact trip_connection_ends.
  - exists s. split; [exact Hn|]. split; [exact Hran|]. split; [exact Hdone|].
    exact (every_schedule_over_connection raw_type "" Some decode_message encode_message (λ _, true)
      (λ _ _, None) trip_handler trip_function trip_request trip_message stored trip
      (trip_calls stored) (Returns (trip_result, None)) DONE trip_text 22 s trip_connected trip_documents
      trip_reply_text trip_runs trip_serialisable trip_answered trip_names Hn).
Defined.
