(* ===== verification/Handshake.v ===== *)
(** * Establishing a worker connection (connect/workerapi.go, connect/handshake.go,
    prepareConnection and the end of handleConnection in connect/connection.go)

    The API client, the handshake with a gateway, and what each failure and each way a
    connection ends is reported as.  HTTP, the WebSocket and protocol buffers are
    third-party code: what they answer is kept in a record. *)

From S2P Require Import Prelude GoBytes GoUrl GoUrlParse GoJson Errors GoHttp Env Sync Buffer.

Open Scope Z_scope.

(** ** Messages *)

(** [connectproto.GatewayMessageType] (generated code). *)
Inductive GatewayMessageType :=
  | GATEWAY_HELLO | WORKER_CONNECT | GATEWAY_CONNECTION_READY | GATEWAY_EXECUTOR_REQUEST
  | WORKER_READY | WORKER_REQUEST_ACK | WORKER_REPLY | WORKER_REPLY_ACK | WORKER_PAUSE
  | WORKER_HEARTBEAT | GATEWAY_HEARTBEAT | GATEWAY_CLOSING.

#[export] Instance GatewayMessageType_eq_dec : EqDecision GatewayMessageType.
Proof. solve_decision. Defined.

Definition kind_text (k : GatewayMessageType) : string :=
  match k with
  | GATEWAY_HELLO => "GATEWAY_HELLO" | WORKER_CONNECT => "WORKER_CONNECT"
  | GATEWAY_CONNECTION_READY => "GATEWAY_CONNECTION_READY"
  | GATEWAY_EXECUTOR_REQUEST => "GATEWAY_EXECUTOR_REQUEST" | WORKER_READY => "WORKER_READY"
  | WORKER_REQUEST_ACK => "WORKER_REQUEST_ACK" | WORKER_REPLY => "WORKER_REPLY"
  | WORKER_REPLY_ACK => "WORKER_REPLY_ACK" | WORKER_PAUSE => "WORKER_PAUSE"
  | WORKER_HEARTBEAT => "WORKER_HEARTBEAT" | GATEWAY_HEARTBEAT => "GATEWAY_HEARTBEAT"
  | GATEWAY_CLOSING => "GATEWAY_CLOSING"
  end.

Record ConnectMessage := { cm_Kind : GatewayMessageType; cm_Payload : string }.

(** [connectproto.StartResponse] (generated code), the fields the code uses. *)
Record StartResponse := {
  st_GatewayEndpoint : string; st_GatewayGroup : string;
  st_SessionToken : string; st_SyncToken : string }.

(** What the outside world answers during one attempt: a request to the API gets an
    error, or a status and what reading the body gives; dialling a WebSocket, its n-th
    read, and a write of a kind of message. *)
Record gateway_io := {
  io_do : out_request → res goerr (Z * res goerr string);
  io_dial : string → option goerr;
  io_read : nat → res goerr ConnectMessage;
  io_write : GatewayMessageType → option goerr }.

Section handshake.
(** Protocol buffers: the start request for some excluded gateways, the response, the
    buffered reply, the response to it, and the connect message for a start response
    and a connection ID ([connect_message] in [StartWorker]).  Failures give no bytes. *)
Context (marshal_start : list string → option string).
Context (decode_start : string → option StartResponse).
Context (marshal_sdk_response : SDKResponse → option string) (decode_flush : string → bool).
Context (marshal_connect : StartResponse → string → option string).

(** [opts.RewriteGatewayEndpoint] *)
Context (RewriteGatewayEndpoint : option (url → res goerr url)).

(** [type workerApiClient struct] *)
Record workerApiClient := { wa_env : option string; wa_apiBaseUrl : string }.

Definition newWorkerApiClient (apiBaseUrl : string) (env : option string) : workerApiClient :=
  {| wa_env := env; wa_apiBaseUrl := apiBaseUrl |}.

Definition errProto : goerr := EText "proto: invalid message".

(** A request to the API; the error is that of a URL that cannot be parsed. *)
Definition api_request (a : workerApiClient) (path hashedSigningKey body : string) :
  res goerr out_request :=
  let target := wa_apiBaseUrl a +:+ path in
  match url_parse target with
  | None => Err (EText ("parse " +:+ target))
  | Some u =>
      let hd := header_set "Content-Type" "application/protobuf" ∅ in
      let hd := header_set "Authorization" ("Bearer " +:+ hashedSigningKey) hd in
      let hd := match wa_env a with Some env => header_add "X-Inngest-Env" env hd | None => hd end in
      Ok {| or_method := MethodPost; or_url := url_string u; or_header := hd; or_body := body |}
  end.

(** A failed call, with the text the code puts before it. *)
Definition failing {A} (text : string) (r : res goerr A) : res goerr A :=
  res_map_err (λ e, errorf text e "") r.

Definition unexpected_status (status : Z) : goerr :=
  EText ("unexpected status code: " +:+ format_int status).

(** [workerApiClient.start] *)
Definition start (a : workerApiClient) (io : gateway_io) (hashedSigningKey : string)
  (exclude : list string) : res goerr StartResponse :=
  try reqBody <- failing "could not marshal start request: "
    (res_of_option errProto (marshal_start exclude)) ;
  try httpReq <- failing "could not create start request: "
    (api_request a "/v0/connect/start" hashedSigningKey reqBody) ;
  try httpRes <- failing "could not send start request: " (io_do io httpReq) ;
  let '(status, read) := httpRes in
  if negb (status =? 200) then
    if status =? 401 then Err (newReconnectErr (ESentinel ErrUnauthenticated))
    else if status =? 429 then Err (newReconnectErr (ESentinel ErrTooManyConnections))
    else
      try _ <- failing "could not read start error: " read ;
      Err (unexpected_status status)
  else
    try byt <- failing "could not read start response: " read ;
    failing "could not unmarshal start response: " (res_of_option errProto (decode_start byt)).

(** [workerApiClient.sendBufferedMessage] *)
Definition sendBufferedMessage (a : workerApiClient) (io : gateway_io) (hashedSigningKey : string)
  (req : SDKResponse) : res goerr unit :=
  try reqBody <- failing "could not marshal sdk response for flush request: "
    (res_of_option errProto (marshal_sdk_response req)) ;
  try httpReq <- failing "could not create flush request: "
    (api_request a "/v0/connect/flush" hashedSigningKey reqBody) ;
  try httpRes <- failing "could not send flush request: " (io_do io httpReq) ;
  let '(status, read) := httpRes in
  if negb (status =? 200) then Err (unexpected_status status)
  else
    try byt <- failing "could not read flush response: " read ;
    if decode_flush byt then Ok tt
    else failing "could not unmarshal flush response: " (Err errProto).

(** A failure that asks for a reconnection. *)
Definition retrying {A} (text : string) (r : res goerr A) : res goerr A :=
  res_map_err (λ e, newReconnectErr (errorf text e "")) r.

(** The gateway's next message must have a kind. *)
Definition expect_kind (io : gateway_io) (n : nat) (kind : GatewayMessageType) (what : string) :
  res goerr unit :=
  try msg <- retrying ("did not receive gateway " +:+ what +:+ " message: ") (io_read io n) ;
  if decide (cm_Kind msg = kind) then Ok tt
  else Err (newReconnectErr
         (EText ("expected gateway " +:+ what +:+ " message, got " +:+ kind_text (cm_Kind msg)))).

(** [performConnectHandshake] *)
Definition performConnectHandshake (io : gateway_io) (connectionId : string)
  (startResponse : StartResponse) : res goerr unit :=
  try _ <- expect_kind io 0 GATEWAY_HELLO "hello" ;
  try _ <- failing "could not serialize sdk connect message: "
    (res_of_option errProto (marshal_connect startResponse connectionId)) ;
  match io_write io WORKER_CONNECT with
  | Some _ => Err (newReconnectErr (EText "could not send initial message"))
  | None => expect_kind io 1 GATEWAY_CONNECTION_READY "connection ready"
  end.

(** [prepareConnection]: the group of the gateway that was connected to. *)
Definition prepareConnection (a : workerApiClient) (io : gateway_io) (connectionId : string)
  (hashedSigningKey : string) (excludeGateways : list string) : res goerr string :=
  try startRes <- retrying "could not start connection: "
    (start a io hashedSigningKey excludeGateways) ;
  let endpoint := st_GatewayEndpoint startRes in
  try gatewayHost <- retrying "received invalid start gateway host: "
    (res_of_option (EText ("parse " +:+ endpoint)) (url_parse endpoint)) ;
  try gatewayHost <- match RewriteGatewayEndpoint with
                     | None => Ok gatewayHost
                     | Some f => retrying "rewriting gateway host failed: " (f gatewayHost)
                     end ;
  try _ <- retrying "could not connect to gateway: "
    match io_dial io (url_string gatewayHost) with Some e => Err e | None => Ok tt end ;
  try _ <- retrying "could not perform connect handshake: "
    (performConnectHandshake io connectionId startRes) ;
  Ok (st_GatewayGroup startRes).

(** ** The read loop *)

Definition hex_escape (n : Z) : string :=
  esc ("x" +:+ String (hex_digit (n / 16)) (String (hex_digit (n mod 16)) "")).

Definition go_quote_byte (c : ascii) : string :=
  let n := ord c in
  if n =? 34 then esc (String quote_char "")
  else if n =? 92 then esc (String backslash "")
  else if n =? 7 then esc "a"
  else if n =? 8 then esc "b"
  else if n =? 12 then esc "f"
  else if n =? 10 then esc "n"
  else if n =? 13 then esc "r"
  else if n =? 9 then esc "t"
  else if n =? 11 then esc "v"
  else if (n <? 32) || (n =? 127) then hex_escape n
  else String c "".

Fixpoint go_quote_from (fuel : nat) (s : string) : string :=
  match fuel, s with
  | S fuel, String c r =>
      if ord c <? 128 then go_quote_byte c +:+ go_quote_from fuel r
      else match utf8_len s with
      | O => hex_escape (ord c) +:+ go_quote_from fuel r
      | n => let '(seq, rest) := str_split_at n s in seq +:+ go_quote_from fuel rest
      end
  | _, _ => ""
  end.

(** What [fmt] prints under [%q], for text whose characters above ASCII are printable. *)
Definition go_quote (s : string) : string :=
  String quote_char (go_quote_from (String.length s) s +:+ String quote_char "").

(** What one round of the read loop of [handleConnection] does. *)
Inductive read_effect :=
  | REnd (e : goerr)
  | RInvoke (payload : string)
  | RHeartbeat
  | RReplyAck (payload : string)
  | RUnknown.

Definition read_step (r : res goerr ConnectMessage) : read_effect :=
  match r with
  | Err e => REnd e
  | Ok msg =>
      match cm_Kind msg with
      | GATEWAY_CLOSING => REnd (ESentinel ErrGatewayDraining)
      | GATEWAY_EXECUTOR_REQUEST => RInvoke (cm_Payload msg)
      | GATEWAY_HEARTBEAT => RHeartbeat
      | WORKER_REPLY_ACK => RReplyAck (cm_Payload msg)
      | _ => RUnknown
      end
  end.

(** How [handleConnection] returns. *)
Inductive connection_end := EndShutdown | EndDraining | EndError (e : goerr).

(** The error of [websocket.CloseError{}]. *)
Definition zero_close : goerr := EClose "" ("status = StatusCode(0) and reason = " +:+ go_quote "").

(** After the read loop ended with [err], when the context has ended or not, and when
    that of the reader has, because no heartbeat came. *)
Definition connection_ended (ctxErr readerCtxErr : bool) (err : goerr) : connection_end :=
  if ctxErr then EndShutdown
  else if err_is (TSentinel ErrGatewayDraining) err then EndDraining
  else EndError (newReconnectErr
    match err_find (λ e, match e with EClose reason _ => Some (reason, e) | _ => None end) err with
    | Some (reason, cerr) =>
        errorf ("connection closed with reason " +:+ go_quote reason +:+ ": ") cerr ""
    | None =>
        if err_is (TSentinel ErrNetClosed) err || err_is (TSentinel ErrEOF) err then
          errorf "connection closed unexpectedly: " zero_close ""
        else if readerCtxErr then
          EText "connection closed unexpectedly due to missed heartbeat"
        else EText "connection closed unexpectedly: %!w(<nil>)"
    end).

(** ** Lemmas *)

Lemma err_is_reconnect t e : err_is t (newReconnectErr e) = err_is t e.
Proof. unfold err_is. destruct t; reflexivity. Qed.

Lemma as_close_reconnect e : as_close (newReconnectErr e) = as_close e.
Proof. done. Qed.

Lemma as_close_errorf pre e post : as_close (errorf pre e post) = as_close e.
Proof. done. Qed.

Lemma shouldReconnect_errorf pre e post : shouldReconnect (errorf pre e post) = shouldReconnect e.
Proof. done. Qed.

(** Errors that come from outside: none of this package's. *)
Definition foreign (e : goerr) : Prop :=
  err_is (TSentinel ErrUnauthenticated) e = false ∧
  err_is (TSentinel ErrTooManyConnections) e = false.

Record foreign_io (io : gateway_io) : Prop := {
  foreign_do req e : io_do io req = Err e → foreign e;
  foreign_body req st e : io_do io req = Ok (st, Err e) → foreign e;
  foreign_dial u e : io_dial io u = Some e → foreign e;
  foreign_read n e : io_read io n = Err e → foreign e }.

Lemma foreign_errorf pre e post : foreign e → foreign (errorf pre e post).
Proof. unfold foreign. by rewrite !err_is_errorf. Qed.

Lemma foreign_reconnect e : foreign e → foreign (newReconnectErr e).
Proof. unfold foreign. by rewrite !err_is_reconnect. Qed.

Lemma foreign_text m : foreign (EText m).
Proof. done. Qed.

(** The API refused the key, or the connection. *)
Definition refused (a : workerApiClient) (io : gateway_io) (key : string) (exclude : list string)
  (status : Z) : Prop :=
  ∃ body req read, marshal_start exclude = Some body ∧
    api_request a "/v0/connect/start" key body = Ok req ∧ io_do io req = Ok (status, read).

#[local] Ltac not_refused := intros (? & ? & ? & ? & ? & ?); congruence.

Lemma start_error a io key exclude e :
  foreign_io io → start a io key exclude = Err e →
  (foreign e ∧ ¬ refused a io key exclude 401 ∧ ¬ refused a io key exclude 429) ∨
  (e = newReconnectErr (ESentinel ErrUnauthenticated) ∧ refused a io key exclude 401) ∨
  (e = newReconnectErr (ESentinel ErrTooManyConnections) ∧ refused a io key exclude 429).
Proof.
  intros Hio. unfold start, refused.
  destruct (marshal_start exclude) as [body|]; simpl.
  2: { intros [= <-]. left. split; [apply foreign_errorf, foreign_text|split; not_refused]. }
  destruct (api_request _ _ _ _) as [req|e'] eqn:Hreq; simpl.
  2: { intros [= <-]. left. split; [|split; not_refused]. apply foreign_errorf.
       unfold api_request in Hreq. destruct (url_parse _); [done|].
       injection Hreq as <-. apply foreign_text. }
  destruct (io_do io req) as [[st read]|e'] eqn:Hdo; simpl.
  2: { intros [= <-]. left. split; [|split; not_refused].
       apply foreign_errorf. by eapply foreign_do. }
  destruct (Z.eqb_spec st 200) as [->|H200]; simpl.
  - intros He. left. split; [|split; not_refused]. destruct read as [byt|e'']; simpl in He.
    + destruct (decode_start byt); simpl in He; [done|]. injection He as <-. 
      apply foreign_errorf, foreign_text.
    + injection He as <-. apply foreign_errorf. by eapply foreign_body.
  - destruct (Z.eqb_spec st 401) as [->|H401]; [intros [= <-]; right; left; eauto 10|].
    destruct (Z.eqb_spec st 429) as [->|H429]; [intros [= <-]; right; right; eauto 10|].
    intros He. left. split; [|split; not_refused]. destruct read as [byt|e'']; simpl in He.
    + injection He as <-. apply foreign_text.
    + injection He as <-. apply foreign_errorf. by eapply foreign_body.
Qed.

Lemma refused_once a io key exclude st st' :
  refused a io key exclude st → refused a io key exclude st' → st = st'.
Proof. intros (? & ? & ? & ? & ? & ?) (? & ? & ? & ? & ? & ?). congruence. Qed.

Lemma start_not_refused a io key exclude r :
  start a io key exclude = Ok r →
  ¬ refused a io key exclude 401 ∧ ¬ refused a io key exclude 429.
Proof.
  unfold start. destruct (marshal_start exclude) as [body|] eqn:Hm; simpl; [|done].
  destruct (api_request _ _ _ _) as [req|] eqn:Hreq; simpl; [|done].
  destruct (io_do io req) as [[st read]|] eqn:Hdo; simpl; [|done].
  destruct (Z.eqb_spec st 200) as [->|H200]; simpl.
  - intros _. split; intros (? & ? & ? & ? & ? & ?); congruence.
  - destruct (st =? 401); [done|]. destruct (st =? 429); [done|]. by destruct read.
Qed.

Lemma retrying_Err {A} text (r : res goerr A) e :
  retrying text r = Err e → ∃ e', r = Err e' ∧ e = newReconnectErr (errorf text e' "").
Proof. destruct r; simpl; [done|]. intros [= <-]. eauto. Qed.

Lemma expect_kind_foreign io n kind what e :
  foreign_io io → expect_kind io n kind what = Err e → foreign e.
Proof.
  intros Hio. unfold expect_kind. destruct (io_read io n) as [msg|e'] eqn:Hr; simpl.
  - case_decide; [done|]. intros [= <-]. apply foreign_reconnect, foreign_text.
  - intros [= <-]. apply foreign_reconnect, foreign_errorf. by eapply foreign_read.
Qed.

Lemma performConnectHandshake_foreign io id st e :
  foreign_io io → performConnectHandshake io id st = Err e → foreign e.
Proof.
  intros Hio. unfold performConnectHandshake.
  destruct (expect_kind io 0 _ _) as [[]|e'] eqn:Hh; simpl.
  2: { intros [= <-]. by eapply expect_kind_foreign. }
  destruct (marshal_connect st id); simpl.
  2: { intros [= <-]. apply foreign_errorf, foreign_text. }
  destruct (io_write io _).
  - intros [= <-]. apply foreign_reconnect, foreign_text.
  - by apply expect_kind_foreign.
Qed.

(** C37: every failure to establish a connection asks for a reconnection, and says that
    the key was refused, or that there are too many connections, exactly when the API
    answered the start request with 401, or 429. *)
Theorem prepare_errors a io id key exclude e :
  foreign_io io →
  (∀ f u e, RewriteGatewayEndpoint = Some f → f u = Err e → foreign e) →
  prepareConnection a io id key exclude = Err e →
  shouldReconnect e = true ∧
  (err_is (TSentinel ErrUnauthenticated) e = true ↔ refused a io key exclude 401) ∧
  (err_is (TSentinel ErrTooManyConnections) e = true ↔ refused a io key exclude 429).
Proof.
  intros Hio Hrw. unfold prepareConnection.
  assert (∀ text e', foreign e' → ¬ refused a io key exclude 401 → ¬ refused a io key exclude 429 →
    let e := newReconnectErr (errorf text e' "") in
    shouldReconnect e = true ∧
    (err_is (TSentinel ErrUnauthenticated) e = true ↔ refused a io key exclude 401) ∧
    (err_is (TSentinel ErrTooManyConnections) e = true ↔ refused a io key exclude 429)) as Hfor.
  { intros text e' [H1 H2] H3 H4. simpl. split; [done|].
    rewrite !err_is_reconnect, !err_is_errorf, H1, H2. by split; split. }
  destruct (start a io key exclude) as [startRes|e'] eqn:Hstart; simpl.
  - pose proof (start_not_refused a io key exclude startRes Hstart) as [H401 H429].
    set (u := url_parse _). destruct u as [u|]; simpl.
    2: { intros [= <-]. apply Hfor; [apply foreign_text|done|done]. }
    destruct (match RewriteGatewayEndpoint with Some _ => _ | None => _ end) as [v|e'] eqn:Hv; simpl.
    2: { intros [= <-]. destruct RewriteGatewayEndpoint as [f|] eqn:Hf; [|done].
         apply retrying_Err in Hv as (e'' & He & ->). apply Hfor; [by eapply Hrw|done|done]. }
    destruct (io_dial io _) as [e'|] eqn:Hdial; simpl.
    { intros [= <-]. apply Hfor; [by eapply foreign_dial|done|done]. }
    destruct (performConnectHandshake io id _) as [[]|e'] eqn:Hp; simpl; [done|].
    intros [= <-]. apply Hfor; [by eapply performConnectHandshake_foreign|done|done].
  - intros [= <-]. destruct (start_error _ _ _ _ _ Hio Hstart) as [(Hf & H1 & H2)|[[-> Hr]|[-> Hr]]].
    + by apply Hfor.
    + split; [done|]. split; [by split|]. split; [done|]. intros Hr'.
      pose proof (refused_once _ _ _ _ _ _ Hr Hr'). done.
    + split; [done|]. split; [|by split]. split; [done|]. intros Hr'.
      pose proof (refused_once _ _ _ _ _ _ Hr Hr'). done.
Qed.
End handshake.

(** ** Examples *)

Section examples.
Definition example_api : workerApiClient :=
  {| wa_env := Some "staging"; wa_apiBaseUrl := "https://api.example" |}.

(** The response is the name of the gateway's group. *)
Definition example_start (_ : list string) : option string := Some "start".
Definition example_response (byt : string) : option StartResponse :=
  Some {| st_GatewayEndpoint := "wss://gw.example/"; st_GatewayGroup := byt;
          st_SessionToken := "session"; st_SyncToken := "sync" |}.
Definition example_hello (_ : StartResponse) (_ : string) : option string := Some "connect".

(** An API that answers with a status, and a gateway that accepts. *)
Definition example_io (status : Z) : gateway_io :=
  {| io_do := λ _, Ok (status, Ok "group-a");
     io_dial := λ _, None;
     io_read := λ n, Ok {| cm_Kind := match n with O => GATEWAY_HELLO | _ => GATEWAY_CONNECTION_READY end;
                           cm_Payload := "" |};
     io_write := λ _, None |}.

Definition example_prepare (status : Z) : res goerr string :=
  prepareConnection example_start example_response example_hello None example_api
    (example_io status) "01J" "signkey" [].

Example prepare_accepted : example_prepare 200 = Ok "group-a".
Proof. vm_compute. reflexivity. Qed.

Lemma example_io_foreign status : foreign_io (example_io status).
Proof. split; by intros. Defined.

Lemma prepare_errors_witness :
  ∃ e, example_prepare 401 = Err e ∧ shouldReconnect e = true ∧
    err_is (TSentinel ErrUnauthenticated) e = true ∧
    err_is (TSentinel ErrTooManyConnections) e = false.
Proof.
  eexists. split; [vm_compute; reflexivity|].
  eassert (H := prepare_errors example_start example_response example_hello None example_api
    (example_io 401) "01J" "signkey" [] _ (example_io_foreign 401) _ eq_refl).
  Unshelve. 2: { by intros. }
  split; [exact (proj1 H)|]. split; [|vm_compute; reflexivity].
  apply (proj1 (proj2 H)). eexists _, _, _. split; [reflexivity|]. split; vm_compute; reflexivity.
Defined.
End examples.
