(* ===== verification/Heartbeat.v ===== *)
(** * Heartbeats (handleConnection in connect/connection.go)

    A goroutine sends a heartbeat at every interval, another one checks at every interval
    that the gateway's last heartbeat is not too old, and ends the read loop if it is.
    Instants are nanoseconds of the monotonic clock. *)

From S2P Require Import Prelude GoTime.

Open Scope Z_scope.

(** The constant of connect/handler.go. *)
Definition WorkerHeartbeatInterval : Z := 10 * second.

#[local] Abbreviation I := WorkerHeartbeatInterval.

(** The test of a check at [now]; [None] is the zero time, which is before every other. *)
Definition heartbeat_missed (lastGatewayHeartbeatReceived : option Z) (now : Z) : bool :=
  let gracePeriod := 2 * I in
  match lastGatewayHeartbeatReceived with
  | None => true
  | Some t => t <? now - gracePeriod
  end.

(** The variable at [now], when the read loop gets heartbeats at the instants [hs]. *)
Fixpoint last_received (last : option Z) (hs : list Z) (now : Z) : option Z :=
  match hs with
  | [] => last
  | h :: hs => if h <=? now then last_received (Some h) hs now else last
  end.

(** The instant at which the goroutine cancels the reader, for the instants at which it
    checks. *)
Definition monitor (hs checks : list Z) : option Z :=
  go_find (λ c, heartbeat_missed (last_received None hs c) c) checks.

(** When the n-th heartbeat is sent, and when the n-th check is due: the goroutine waits
    for an interval before it makes the ticker. *)
Definition beat_at (start : Z) (n : nat) : Z := start + (Z.of_nat n + 1) * I.
Definition check_at (start : Z) (n : nat) : Z := start + (Z.of_nat n + 2) * I.

(** The checks of a connection made at [start], each at most [d] late. *)
Definition on_time (start d : Z) (checks : list Z) : Prop := ∀ n c,
  checks !! n = Some c → check_at start n ≤ c ≤ check_at start n + d.

(** ** Lemmas *)

(** From [prev] on no two heartbeats are further apart than the grace period. *)
Fixpoint regular (prev : Z) (hs : list Z) : Prop :=
  match hs with
  | [] => True
  | h :: hs => prev ≤ h ≤ prev + 2 * I ∧ regular h hs
  end.

Fixpoint final (prev : Z) (hs : list Z) : Z :=
  match hs with [] => prev | h :: hs => final h hs end.

Lemma regular_received p hs c :
  regular p hs → p ≤ c → ∃ l, last_received (Some p) hs c = Some l ∧ l ≤ c ∧ l ≤ final p hs ∧
    (c ≤ final p hs + 2 * I → c - 2 * I ≤ l).
Proof.
  revert p. induction hs as [|h hs IH]; intros p Hr Hp; simpl.
  - exists p. split_and!; [done|lia..].
  - destruct Hr as [Hh Hr]. destruct (Z.leb_spec h c) as [Hle|Hgt]; [by apply IH|].
    assert (h ≤ final h hs) as Hfin.
    { clear -Hr. revert h Hr. induction hs as [|h' hs IH]; intros h Hr; simpl; [lia|].
      destruct Hr as [? Hr]. specialize (IH _ Hr). lia. }
    exists p. split_and!; [done|lia|lia|]. intros. lia.
Qed.

Lemma regular_first start h hs c :
  regular start (h :: hs) → start + 2 * I ≤ c → last_received None (h :: hs) c = last_received (Some h) hs c.
Proof. intros [Hh _] Hc. simpl. by rewrite (proj2 (Z.leb_le _ _)) by lia. Qed.

Lemma go_find_first {A} (p : A → bool) l k x :
  l !! k = Some x → p x = true → ∃ j y, (j ≤ k)%nat ∧ l !! j = Some y ∧ go_find p l = Some y ∧ p y = true.
Proof.
  revert k. induction l as [|z l IH]; intros [|k] Hk Hx; simplify_eq/=.
  - exists 0%nat, x. by rewrite Hx.
  - destruct (p z) eqn:Hz; [exists 0%nat, z; split_and!; [lia|done..]|].
    destruct (IH k Hk Hx) as (j & y & ? & ? & ? & ?). exists (S j), y. split_and!; [lia|done..].
Qed.

Lemma check_at_mono start j k : (j ≤ k)%nat → check_at start j ≤ check_at start k.
Proof. intros Hj. unfold check_at, I, second. lia. Qed.

(** The first check that is due more than two intervals after [t]. *)
Lemma first_late_check start t :
  start ≤ t → ∃ k, t + 2 * I < check_at start k ≤ t + 3 * I ∧
    ∀ n, t + 2 * I < check_at start n → (k ≤ n)%nat.
Proof.
  intros Ht. assert (0 < I) as HI by done.
  exists (Z.to_nat ((t - start) / I + 1)). unfold check_at.
  pose proof (Z.div_pos (t - start) I ltac:(lia) HI).
  pose proof (Z.div_mod (t - start) I ltac:(lia)). pose proof (Z.mod_pos_bound (t - start) I HI).
  rewrite Z2Nat.id by lia. split; [lia|]. intros n Hn.
  assert ((t - start) / I < Z.of_nat n); [|lia].
  apply Z.div_lt_upper_bound; lia.
Qed.

Lemma regular_final p hs : regular p hs → p ≤ final p hs.
Proof.
  revert p. induction hs as [|h hs IH]; intros p; simpl; [lia|]. intros [? Hr]. specialize (IH _ Hr). lia.
Qed.

#[local] Opaque WorkerHeartbeatInterval.

Lemma I_pos : 0 < I.
Proof. reflexivity. Qed.

(** ** Theorems *)

(** C33: when a lost connection is noticed: if the gateway sends heartbeats at most two
    intervals apart until [t] and none after it, the reader is cancelled more than two
    intervals after [t] and at most three, besides the delay of a check; a gateway that
    never sends one is dropped at the first check. *)
Theorem heartbeat_timeout start d hs checks :
  on_time start d checks → regular start hs →
  let t := final start hs in
  (∃ n, is_Some (checks !! n) ∧ t + 2 * I < check_at start n) →
  ∃ c, monitor hs checks = Some c ∧ c ≤ t + 3 * I + d ∧
       match hs with [] => checks !! 0%nat = Some c | _ => t + 2 * I < c end.
Proof.
  intros Hon Hreg t (n & Hn & Hlate). pose proof I_pos as HI.
  destruct (first_late_check start t (regular_final _ _ Hreg)) as (k & Hk & Hfirst).
  assert (is_Some (checks !! k)) as [ck Hck].
  { apply lookup_lt_is_Some_2. apply lookup_lt_is_Some_1 in Hn. specialize (Hfirst n Hlate). lia. }
  pose proof (Hon _ _ Hck) as Hckb.
  destruct hs as [|h hs].
  - assert (is_Some (checks !! 0%nat)) as [c Hc].
    { apply lookup_lt_is_Some_2. apply lookup_lt_Some in Hck. lia. }
    exists c. pose proof (Hon _ _ Hc). unfold monitor. destruct checks as [|c' checks]; [done|].
    simplify_eq/=. split; [done|]. split; [|done]. unfold check_at in *. subst t. simpl in *. lia.
  - assert (∀ c, start + 2 * I ≤ c → ∃ l, last_received None (h :: hs) c = Some l ∧ l ≤ t ∧
      (c ≤ t + 2 * I → c - 2 * I ≤ l)) as Hl.
    { intros c Hc. rewrite (regular_first start) by done. destruct Hreg as [Hh Hreg].
      destruct (regular_received h hs c Hreg ltac:(lia)) as (l & -> & _ & ? & ?). by exists l. }
    assert (∀ j c, checks !! j = Some c → start + 2 * I ≤ c) as Hmin.
    { intros j c Hc. pose proof (Hon _ _ Hc). unfold check_at in *. lia. }
    destruct (go_find_first (λ c, heartbeat_missed (last_received None (h :: hs) c) c) checks k ck Hck)
      as (j & c & Hj & Hc & Hfind & Hmiss).
    { destruct (Hl ck (Hmin _ _ Hck)) as (l & -> & ? & _). apply Z.ltb_lt. lia. }
    exists c. split; [done|]. pose proof (Hon _ _ Hc). pose proof (check_at_mono start j k Hj).
    split; [lia|]. destruct (Hl c (Hmin _ _ Hc)) as (l & Hlast & _ & Hge). rewrite Hlast in Hmiss.
    simpl in Hmiss. apply Z.ltb_lt in Hmiss. destruct (Z.le_gt_cases c (t + 2 * I)); [|lia].
    specialize (Hge ltac:(lia)). lia.
Qed.

(** C34: a gateway that answers every heartbeat of the worker within an interval is never
    dropped: no check up to two intervals after the last answer finds one missing. *)
Theorem answered_heartbeats_keep start d delays checks :
  on_time start d checks → delays ≠ [] → Forall (λ x, 0 ≤ x ≤ I) delays →
  let hs := imap (λ n x, beat_at start n + x) delays in
  Forall (λ c, c ≤ final start hs + 2 * I) checks → monitor hs checks = None.
Proof.
  intros Hon Hne Hd hs Hch. pose proof I_pos as HI.
  assert (regular start hs) as Hreg.
  { assert (∀ n p, beat_at start n - I ≤ p ≤ beat_at start n → Forall (λ x, 0 ≤ x ≤ I) delays →
      regular p (imap (λ k x, beat_at start (n + k) + x) delays)) as Hgen.
    { clear. induction delays as [|x ds IH]; intros n p Hp Hds; [done|].
      apply Forall_cons in Hds as [Hx Hds]. simpl. rewrite Nat.add_0_r. split; [lia|].
      erewrite imap_ext; [apply (IH (S n))|]; [unfold beat_at in *; lia|done|].
      intros i y _. unfold compose. by rewrite Nat.add_succ_r. }
    apply (Hgen 0%nat); [unfold beat_at; lia|done]. }
  apply go_find_None, Forall_forall. intros c Hc. rewrite Forall_forall in Hch. specialize (Hch c Hc).
  apply list_elem_of_lookup in Hc as [n Hn]. pose proof (Hon _ _ Hn).
  destruct hs as [|h hs'] eqn:Hhs; [by destruct delays|].
  rewrite (regular_first start) by (done || unfold check_at in *; lia). destruct Hreg as [Hh Hreg].
  destruct (regular_received h hs' c Hreg) as (l & -> & _ & _ & Hge);
    [unfold check_at in *; lia|]. simpl in *. apply Z.ltb_ge. specialize (Hge ltac:(lia)). lia.
Qed.

(** ** Examples *)

Lemma heartbeat_timeout_witness :
  let s := second in
  ∃ c, monitor [11 * s; 21 * s] [20 * s; 30 * s; 40 * s; 50 * s] = Some c ∧
       c ≤ 21 * s + 3 * I + 0 ∧ 21 * s + 2 * I < c.
Proof.
  intros s.
  apply (heartbeat_timeout 0 0 [11 * s; 21 * s] [20 * s; 30 * s; 40 * s; 50 * s]).
  - intros [|[|[|[|n]]]] c Hc; simplify_eq/=; vm_compute; split; congruence.
  - vm_compute. repeat split; congruence.
  - exists 3%nat. split; [by eexists|reflexivity].
Defined.

Lemma answered_heartbeats_keep_witness :
  let s := second in monitor [11 * s; 29 * s] [20 * s; 31 * s; 40 * s] = None.
Proof.
  intros s. apply (answered_heartbeats_keep 0 s [s; 9 * s] [20 * s; 31 * s; 40 * s]).
  - intros [|[|[|n]]] c Hc; simplify_eq/=; vm_compute; split; congruence.
  - discriminate.
  - repeat constructor; vm_compute; congruence.
  - repeat constructor; vm_compute; congruence.
Defined.
