(* ===== verification/WorkerFlow.v ===== *)
(** * A request's way through a worker (the read loop of connect/connection.go with
    connect/worker_pool.go, connect/invoke.go and connect/buffer.go)

    The read loop hands requests to the pool; a worker of the pool invokes the function,
    leaves the reply in the buffer and writes it; the buffer sends again what was not
    written.  The components meet here in one step relation, whose runs are runs of the
    pool and of the buffer. *)

From S2P Require Import Prelude GoBytes GoTime GoJson GoHttp Env Errors.
From S2P Require Import Manager Step Program Functions Handler Invoke Configs Serve ServeProps.
From S2P Require Import GoUrl GoUrlParse Signature Sync Buffer WorkerPool ConnectInvoke Handshake.

Open Scope Z_scope.

(** What [processExecutorRequest] logs about the error of a handler; it does nothing
    else with it. *)
Inductive process_log := LogNothing | LogClosed (reason : string) | LogEOF.

Definition log_of (err : option goerr) : process_log :=
  match err with
  | None => LogNothing
  | Some e =>
      match as_close e with
      | Some reason => LogClosed reason
      | None => if err_is (TSentinel ErrEOF) e then LogEOF else LogNothing
      end
  end.

Section flow.
Context {V : Type} (h : handler V).
Context (map_type : gotype V) (stack : string) (marshal_any : V → option json).
Context (decode_request : string → option ExecutorRequest).
Context (marshal_ack : ExecutorRequest → bool) (marshal_reply : SDKResponse → bool).
Context (unmarshal_ack : string → bool) (concurrency : nat).

Abbreviation connectInvoke_ write := (connectInvoke map_type stack marshal_any decode_request
  marshal_ack write h).
Abbreviation handleInvokeMessage_ write := (handleInvokeMessage map_type stack marshal_any
  decode_request marshal_ack marshal_reply write h).

(** [processExecutorRequest]: the messages written, and the buffer and what is logged;
    the pool's [Done] is deferred. *)
Definition processExecutorRequest (write : nat → worker_msg → option goerr) (payload : string)
  (b : messageBuffer) : list worker_msg * outcome (messageBuffer * process_log) :=
  let '(sent, r) := handleInvokeMessage_ write payload b in
  (sent, match r with
         | Return (b, err) => Return (b, log_of err)
         | Panic p => Panic p
         end).

(** The pool and the buffer of a worker, with what its handlers are doing: [f_invoking]
    are the requests whose function is being called, [f_replying] those whose reply is in
    the buffer and is being written.  [f_reading] tells that a read loop is running;
    [f_crashed], that a panic ended the process. *)
Record flow := {
  f_pool : pool (msg := string);
  f_buffer : messageBuffer;
  f_invoking : list string;
  f_replying : list (string * SDKResponse);
  f_reading : bool;
  f_crashed : bool }.

Definition new_flow : flow :=
  {| f_pool := NewWorkerPool concurrency; f_buffer := newMessageBuffer; f_invoking := [];
     f_replying := []; f_reading := false; f_crashed := false |}.

Inductive flow_event :=
  | Connected
  | Read (r : res goerr ConnectMessage)
  | Send (payload : string)
  | Take (payload : string)
  | Produce (payload : string) (resp : SDKResponse)
  | Reply (payload : string) (resp : SDKResponse) (err : option goerr)
  | Drop (payload : string)
  | Crash (payload : string)
  | Expire (resp : SDKResponse)
  | Flush (sent : gmap string SDKResponse)
  | CtxDone
  | WorkerExit.

(** What a round of the read loop does to the pool, to the buffer and to the loop. *)
Definition read_pool (r : res goerr ConnectMessage) : list (pool_event (msg := string)) :=
  match read_step r with RInvoke payload => [EvAdd payload] | _ => [] end.

Definition read_buffer (r : res goerr ConnectMessage) (b : messageBuffer) : messageBuffer :=
  match read_step r with
  | RReplyAck payload => (handleMessageReplyAck unmarshal_ack payload b).1
  | _ => b
  end.

Definition goes_on (r : res goerr ConnectMessage) : bool :=
  match read_step r with REnd _ => false | _ => true end.

(** The handler of [payload] may get [r] from [connectInvoke]; how its writes fare is
    not determined. *)
Definition may_get (payload : string) (r : outcome (res goerr SDKResponse)) : Prop :=
  ∃ write, (connectInvoke_ write payload).2 = r.

Definition with_pool (s : flow) (p : pool (msg := string)) : flow :=
  {| f_pool := p; f_buffer := f_buffer s; f_invoking := f_invoking s;
     f_replying := f_replying s; f_reading := f_reading s; f_crashed := f_crashed s |}.

Definition with_buffer (s : flow) (b : messageBuffer) : flow :=
  {| f_pool := f_pool s; f_buffer := b; f_invoking := f_invoking s;
     f_replying := f_replying s; f_reading := f_reading s; f_crashed := f_crashed s |}.

Definition with_reading (s : flow) (reading : bool) : flow :=
  {| f_pool := f_pool s; f_buffer := f_buffer s; f_invoking := f_invoking s;
     f_replying := f_replying s; f_reading := reading; f_crashed := f_crashed s |}.

Definition with_handlers (s : flow) (invoking : list string)
  (replying : list (string * SDKResponse)) : flow :=
  {| f_pool := f_pool s; f_buffer := f_buffer s; f_invoking := invoking;
     f_replying := replying; f_reading := f_reading s; f_crashed := f_crashed s |}.

Definition crashed (s : flow) : flow :=
  {| f_pool := f_pool s; f_buffer := f_buffer s; f_invoking := f_invoking s;
     f_replying := f_replying s; f_reading := f_reading s; f_crashed := true |}.

(** A new connection reads once the loop of the last one has ended; a loop whose [Add]
    waits for room does not read. *)
Inductive flow_step (s : flow) : flow_event → flow → Prop :=
  | flow_connected :
      f_reading s = false → flow_step s Connected (with_reading s true)
  | flow_read r p :
      f_reading s = true → wp_adding (f_pool s) = [] →
      pool_run concurrency (f_pool s) (read_pool r) p →
      flow_step s (Read r)
        (with_reading (with_buffer (with_pool s p) (read_buffer r (f_buffer s))) (goes_on r))
  | flow_send payload p :
      pool_step concurrency (f_pool s) (EvSend payload) p →
      flow_step s (Send payload) (with_pool s p)
  | flow_take payload p :
      pool_step concurrency (f_pool s) (EvTake payload) p →
      flow_step s (Take payload)
        (with_handlers (with_pool s p) (payload :: f_invoking s) (f_replying s))
  | flow_produce payload resp l1 l2 :
      f_invoking s = l1 ++ payload :: l2 → may_get payload (Return (Ok resp)) →
      marshal_reply resp = true →
      flow_step s (Produce payload resp)
        (with_handlers (with_buffer s (addPending resp (f_buffer s))) (l1 ++ l2)
           ((payload, resp) :: f_replying s))
  | flow_reply payload resp err l1 l2 p :
      f_replying s = l1 ++ (payload, resp) :: l2 →
      pool_step concurrency (f_pool s) (EvDone payload) p →
      flow_step s (Reply payload resp err)
        (with_handlers
           (with_buffer (with_pool s p)
              (match err with Some _ => append_msg resp (f_buffer s) | None => f_buffer s end))
           (f_invoking s) (l1 ++ l2))
  | flow_drop payload r l1 l2 p :
      f_invoking s = l1 ++ payload :: l2 → may_get payload (Return r) →
      match r with Ok resp => marshal_reply resp = false | Err _ => True end →
      pool_step concurrency (f_pool s) (EvDone payload) p →
      flow_step s (Drop payload) (with_handlers (with_pool s p) (l1 ++ l2) (f_replying s))
  | flow_crash payload text :
      payload ∈ f_invoking s → may_get payload (Panic text) →
      flow_step s (Crash payload) (crashed s)
  | flow_expire resp :
      resp ∈ waiters (f_buffer s) →
      flow_step s (Expire resp) (with_buffer s (expire resp (f_buffer s)))
  | flow_flush sent b :
      buffer_step (f_buffer s) (OpFlush sent) b → flow_step s (Flush sent) (with_buffer s b)
  | flow_ctx p :
      pool_step concurrency (f_pool s) EvCancel p → flow_step s CtxDone (with_pool s p)
  | flow_exit p :
      pool_step concurrency (f_pool s) EvExit p → flow_step s WorkerExit (with_pool s p).

(** A process that has crashed makes no step. *)
Inductive flow_run : flow → list flow_event → flow → Prop :=
  | flow_run_nil s : flow_run s [] s
  | flow_run_cons s1 e s2 es s3 :
      f_crashed s1 = false → flow_step s1 e s2 → flow_run s2 es s3 → flow_run s1 (e :: es) s3.

(** ** The runs of the pool and of the buffer *)

Definition pool_events (e : flow_event) : list pool_event :=
  match e with
  | Read r => read_pool r
  | Send payload => [EvSend payload]
  | Take payload => [EvTake payload]
  | Reply payload _ _ | Drop payload => [EvDone payload]
  | CtxDone => [EvCancel]
  | WorkerExit => [EvExit]
  | _ => []
  end.

Definition buffer_ops (e : flow_event) : list buffer_op :=
  match e with
  | Read r =>
      match read_step r with
      | RReplyAck payload => if unmarshal_ack payload then [OpAck ""] else []
      | _ => []
      end
  | Produce _ resp => [OpPending resp]
  | Reply _ resp (Some _) => [OpAppend resp]
  | Expire resp => [OpExpire resp]
  | Flush sent => [OpFlush sent]
  | _ => []
  end.

Implicit Types p : pool (msg := string).

Lemma pool_run_one p e p' : pool_step concurrency p e p' → pool_run concurrency p [e] p'.
Proof. intros. eapply pool_run_cons; [done|apply pool_run_nil]. Qed.

Lemma buffer_run_one b op b' : buffer_step b op b' → buffer_run b [op] b'.
Proof. intros. eapply run_step; [done|apply run_nil]. Qed.

Lemma buffer_run_app b1 ops1 b2 ops2 b3 :
  buffer_run b1 ops1 b2 → buffer_run b2 ops2 b3 → buffer_run b1 (ops1 ++ ops2) b3.
Proof. induction 1; simpl; eauto using buffer_run. Qed.

#[local] Hint Resolve pool_run_one buffer_run_one pool_run_nil run_nil : core.
#[local] Hint Constructors buffer_step : core.

Lemma flow_step_pool s e s' :
  flow_step s e s' → pool_run concurrency (f_pool s) (pool_events e) (f_pool s').
Proof. destruct 1; simpl; auto. Qed.

Lemma flow_step_buffer s e s' :
  flow_step s e s' → buffer_run (f_buffer s) (buffer_ops e) (f_buffer s').
Proof.
  destruct 1; simpl; auto.
  - unfold read_buffer, handleMessageReplyAck. destruct (read_step r); auto.
    destruct (unmarshal_ack payload); auto.
  - destruct err; auto.
Qed.

Lemma flow_run_refines s es s' :
  flow_run s es s' →
  pool_run concurrency (f_pool s) (es ≫= pool_events) (f_pool s') ∧
  buffer_run (f_buffer s) (es ≫= buffer_ops) (f_buffer s').
Proof.
  induction 1 as [s|s1 e s2 es s3 _ Hs _ [IHp IHb]]; [by split|]. split; simpl.
  - eapply pool_run_app; [by apply flow_step_pool|done].
  - eapply buffer_run_app; [by apply flow_step_buffer|done].
Qed.

(** ** Conservation *)

(** The requests that were read, and those whose handler has ended. *)
Definition requests (e : flow_event) : list string :=
  match e with
  | Read r => match read_step r with RInvoke payload => [payload] | _ => [] end
  | _ => []
  end.

Definition finished (e : flow_event) : list string :=
  match e with Reply payload _ _ | Drop payload => [payload] | _ => [] end.

(** The requests in the worker, from the read loop's [Add] to the pool's [Done]. *)
Definition inside (s : flow) : list string :=
  wp_adding (f_pool s) ++ wp_queue (f_pool s) ++ f_invoking s ++ (f_replying s).*1.

(** The pool's workers run the handlers, and one message at most waits in [Add]. *)
Record flow_ok (s : flow) : Prop := {
  fl_pool : pool_ok concurrency (f_pool s);
  fl_running : wp_running (f_pool s) ≡ₚ f_invoking s ++ (f_replying s).*1;
  fl_adding : (length (wp_adding (f_pool s)) ≤ 1)%nat }.

Lemma flow_ok_new : flow_ok new_flow.
Proof. split; simpl; [apply pool_ok_new|done|lia]. Qed.

(** The pool's part of a step. *)
Lemma pool_send_inv p m p' :
  pool_step concurrency p (EvSend m) p' →
  wp_adding p ++ wp_queue p ≡ₚ wp_adding p' ++ wp_queue p' ∧ wp_running p' = wp_running p ∧
  (length (wp_adding p') ≤ length (wp_adding p))%nat.
Proof.
  inversion 1 as [|? ? a1 a2 Ha _| | | |]; subst; simpl. rewrite Ha. split_and!; [|done|].
  - trans (m :: (a1 ++ a2) ++ wp_queue p).
    + rewrite <- !app_assoc. simpl. by rewrite <- Permutation_middle.
    + by rewrite (app_assoc _ _ [m]), (Permutation_app_comm _ [m]).
  - rewrite !length_app. simpl. lia.
Qed.

Lemma pool_take_inv p m p' :
  pool_step concurrency p (EvTake m) p' →
  wp_adding p' = wp_adding p ∧ wp_queue p = m :: wp_queue p' ∧ wp_running p' = m :: wp_running p.
Proof. by inversion 1. Qed.

Lemma pool_done_inv p m p' :
  pool_step concurrency p (EvDone m) p' →
  wp_adding p' = wp_adding p ∧ wp_queue p' = wp_queue p ∧ wp_running p ≡ₚ m :: wp_running p'.
Proof.
  inversion 1 as [| | |? ? r1 r2 Hr| |]; subst; simpl. rewrite Hr. split_and!; [done..|].
  by rewrite Permutation_middle.
Qed.

Lemma pool_still p e p' :
  pool_step concurrency p e p' → e = EvCancel ∨ e = EvExit →
  wp_adding p' = wp_adding p ∧ wp_queue p' = wp_queue p ∧ wp_running p' = wp_running p.
Proof. intros Hp [->| ->]; by inversion Hp. Qed.

Lemma read_pool_inv p r p' :
  pool_run concurrency p (read_pool r) p' → wp_adding p = [] →
  wp_adding p' = requests (Read r) ∧ wp_queue p' = wp_queue p ∧ wp_running p' = wp_running p.
Proof.
  unfold read_pool, requests. intros Hp Ha.
  destruct (read_step r); try (inversion Hp; subst; by rewrite Ha).
  inversion Hp as [|? ? ? ? ? H1 H2]; subst. inversion H2; subst. inversion H1; subst. simpl.
  by rewrite Ha.
Qed.

Lemma flow_ok_step s e s' : flow_step s e s' → flow_ok s → flow_ok s'.
Proof.
  intros Hs [Hp Hr Ha].
  assert (pool_ok concurrency (f_pool s')) as Hp'.
  { eapply pool_ok_run; [by eapply flow_step_pool|done]. }
  split; [done|..];
    destruct Hs as [|r p _ Hadd Hread|payload p Hsend|payload p Htake|payload resp l1 l2 Hin _ _
      |payload resp err l1 l2 p Hin Hdone|payload r l1 l2 p Hin _ _ Hdone|payload text Hin _| | |p Hc|p Hc];
    simpl in *; try done.
  - by destruct (read_pool_inv _ _ _ Hread Hadd) as (_ & _ & ->).
  - by destruct (pool_send_inv _ _ _ Hsend) as (_ & -> & _).
  - destruct (pool_take_inv _ _ _ Htake) as (_ & _ & ->). by rewrite Hr.
  - rewrite Hr, Hin, <- !app_assoc. simpl. by rewrite <- !Permutation_middle.
  - destruct (pool_done_inv _ _ _ Hdone) as (_ & _ & Hrun). rewrite Hrun, Hin, !fmap_app in Hr. simpl in Hr.
    apply (Permutation_cons_inv (a := payload)). rewrite Hr, fmap_app. by rewrite <- !Permutation_middle.
  - destruct (pool_done_inv _ _ _ Hdone) as (_ & _ & Hrun). rewrite Hrun, Hin in Hr.
    apply (Permutation_cons_inv (a := payload)). rewrite Hr, <- !app_assoc. simpl. by rewrite <- !Permutation_middle.
  - by destruct (pool_still _ _ _ Hc) as (_ & _ & ->); [left|].
  - by destruct (pool_still _ _ _ Hc) as (_ & _ & ->); [right|].
  - destruct (read_pool_inv _ _ _ Hread Hadd) as (-> & _). simpl. destruct (read_step r); simpl; lia.
  - destruct (pool_send_inv _ _ _ Hsend) as (_ & _ & ?). lia.
  - by destruct (pool_take_inv _ _ _ Htake) as (-> & _).
  - by destruct (pool_done_inv _ _ _ Hdone) as (-> & _).
  - by destruct (pool_done_inv _ _ _ Hdone) as (-> & _).
  - by destruct (pool_still _ _ _ Hc) as (-> & _); [left|].
  - by destruct (pool_still _ _ _ Hc) as (-> & _); [right|].
Qed.

Lemma flow_ok_run s es s' : flow_run s es s' → flow_ok s → flow_ok s'.
Proof. induction 1; eauto using flow_ok_step. Qed.

Lemma flow_step_conserves s e s' :
  flow_step s e s' → requests e ++ inside s ≡ₚ inside s' ++ finished e.
Proof.
  unfold inside.
  destruct 1 as [|r p _ Hadd Hread|payload p Hsend|payload p Htake|payload resp l1 l2 Hin _ _
      |payload resp err l1 l2 p Hin Hdone|payload r l1 l2 p Hin _ _ Hdone|payload text Hin _| | |p Hc|p Hc];
    cbn [with_pool with_buffer with_handlers with_reading crashed f_pool f_buffer f_invoking f_replying
         requests finished]; rewrite ?app_nil_r; try done.
  - destruct (read_pool_inv _ _ _ Hread Hadd) as (-> & -> & _). by rewrite Hadd.
  - destruct (pool_send_inv _ _ _ Hsend) as (Haq & _). simpl.
    by rewrite (app_assoc (wp_adding (f_pool s))), Haq, <- app_assoc.
  - destruct (pool_take_inv _ _ _ Htake) as (-> & -> & _). simpl. by rewrite <- !Permutation_middle.
  - rewrite Hin, <- !app_assoc. simpl. by rewrite <- !Permutation_middle.
  - destruct (pool_done_inv _ _ _ Hdone) as (-> & -> & _). rewrite Hin, !fmap_app. simpl.
    by rewrite <- !Permutation_middle, app_nil_r.
  - destruct (pool_done_inv _ _ _ Hdone) as (-> & -> & _). rewrite Hin, <- !app_assoc. simpl.
    by rewrite <- !Permutation_middle, app_nil_r.
  - by destruct (pool_still _ _ _ Hc) as (-> & -> & _); [left|].
  - by destruct (pool_still _ _ _ Hc) as (-> & -> & _); [right|].
Qed.

Lemma flow_run_conserves s es s' :
  flow_run s es s' → (es ≫= requests) ++ inside s ≡ₚ inside s' ++ (es ≫= finished).
Proof.
  induction 1 as [s|s1 e s2 es s3 _ Hs _ IH]; simpl; [by rewrite app_nil_r|].
  apply flow_step_conserves in Hs.
  rewrite (Permutation_app_comm (requests e)), <- app_assoc, Hs, app_assoc, IH, <- app_assoc.
  by rewrite (Permutation_app_comm (finished e)).
Qed.

Lemma inside_length s :
  flow_ok s → length (inside s) = wp_inProgress (f_pool s).
Proof.
  intros [[Hc _ _ _] Hr _]. unfold inside. rewrite Hc, Hr. rewrite !length_app. lia.
Qed.

(** What comes in, what is inside and what has ended. *)
Lemma flow_accounts es s :
  flow_run new_flow es s →
  es ≫= requests ≡ₚ inside s ++ (es ≫= finished) ∧
  (length (inside s) ≤ 2 * concurrency + 1)%nat ∧
  (wait_returns (f_pool s) ↔ inside s = []).
Proof.
  intros Hrun. pose proof (flow_ok_run _ _ _ Hrun flow_ok_new) as Hok.
  pose proof (inside_length s Hok) as Hlen. destruct Hok as [[Hc Hq Hw _] _ Ha].
  split; [|split].
  - pose proof (flow_run_conserves _ _ _ Hrun) as Hcons. by rewrite app_nil_r in Hcons.
  - rewrite Hlen. lia.
  - unfold wait_returns. rewrite <- Hlen. by rewrite length_zero_iff_nil.
Qed.

(** C30: the requests that were read are those inside the worker and those whose handler has
    ended, each as often as it was read.  At most [2 * concurrency + 1] are inside, and
    [Wait] returns exactly when none is. *)
Theorem requests_conserved es s :
  flow_run new_flow es s →
  es ≫= requests ≡ₚ inside s ++ (es ≫= finished) ∧
  (length (inside s) ≤ 2 * concurrency + 1)%nat ∧
  (wait_returns (f_pool s) ↔ inside s = []).
Proof. apply flow_accounts. Qed.

(** ** Replies *)

Definition produced (e : flow_event) : list SDKResponse :=
  match e with Produce _ resp => [resp] | _ => [] end.

(** The replies the buffer or a handler may still bring up. *)
Definition known (s : flow) : list SDKResponse := waiters (f_buffer s) ++ (f_replying s).*2.

Lemma buffer_step_waiters b op b' r :
  buffer_step b op b' → r ∈ waiters b' → r ∈ waiters b ∨ op = OpPending r.
Proof.
  destruct 1 as [r'|r'|r' Hw|id|send order n b' err Hp Hf]; simpl; auto.
  - intros [->|?]%elem_of_cons; auto.
  - unfold expire. destruct (pendingAck b !! _); auto.
  - intros Hr. left. unfold flush in Hf.
    destruct (flush_attempts send order 5 0 (buffered b)) as [[n' m'] err']. simplify_eq. done.
Qed.

Lemma flow_step_known s e s' r : flow_step s e s' → r ∈ known s' → r ∈ known s ++ produced e.
Proof.
  intros Hs. unfold known. rewrite <- app_assoc, !elem_of_app.
  destruct Hs as [|rr p _ Hadd Hread|payload p Hsend|payload p Htake|payload resp l1 l2 Hin _ _
      |payload resp err l1 l2 p Hin Hdone|payload rr l1 l2 p Hin _ _ Hdone|payload text Hin _
      |resp Hw|sent b Hb|p Hc|p Hc]; simpl; try tauto.
  - unfold read_buffer, handleMessageReplyAck. destruct (read_step rr); try tauto.
    destruct (unmarshal_ack payload); simpl; set_solver.
  - set_solver.
  - rewrite Hin, !fmap_app. simpl. destruct err; simpl; set_solver.
  - unfold expire. destruct (pendingAck _ !! _); simpl; tauto.
  - intros [Hr|]; [|tauto]. apply (buffer_step_waiters _ _ _ _ Hb) in Hr as [|]; [tauto|done].
Qed.

Lemma flow_step_op_replies s e s' op r :
  flow_step s e s' → op ∈ buffer_ops e → r ∈ op_replies op → r ∈ known s ++ produced e.
Proof.
  intros Hs. unfold known. destruct Hs as [|rr p _ Hadd Hread| | |payload resp l1 l2 Hin _ _
      |payload resp err l1 l2 p Hin Hdone| | |resp Hw| | |]; simpl; try by intros ?%elem_of_nil.
  - destruct (read_step rr); try by intros ?%elem_of_nil.
    destruct (unmarshal_ack payload); [|by intros ?%elem_of_nil].
    by intros ->%list_elem_of_singleton ?%elem_of_nil.
  - intros ->%list_elem_of_singleton. simpl. set_solver.
  - rewrite Hin, !fmap_app. destruct err; [|by intros ?%elem_of_nil]. intros ->%list_elem_of_singleton.
    simpl. set_solver.
  - intros ->%list_elem_of_singleton. simpl. set_solver.
  - intros ->%list_elem_of_singleton. simpl. set_solver.
Qed.

Lemma flow_run_op_replies s es s' op r :
  flow_run s es s' → op ∈ es ≫= buffer_ops → r ∈ op_replies op →
  r ∈ known s ++ (es ≫= produced).
Proof.
  intros Hrun. revert op. induction Hrun as [s|s1 e s2 es s3 _ Hs _ IH]; intros op Hop Hr; simpl in *;
    [by apply elem_of_nil in Hop|].
  apply elem_of_app in Hop as [Hop|Hop].
  - pose proof (flow_step_op_replies _ _ _ _ _ Hs Hop Hr). set_solver.
  - specialize (IH _ Hop Hr). apply elem_of_app in IH as [Hk|?]; [|set_solver].
    pose proof (flow_step_known _ _ _ _ Hs Hk). set_solver.
Qed.

Lemma in_bind {A} (f : flow_event → list A) es x : x ∈ es ≫= f ↔ ∃ e, e ∈ es ∧ x ∈ f e.
Proof. rewrite list_elem_of_bind. naive_solver. Qed.

Lemma op_keeps resp op :
  (∀ r, r ∈ op_replies op → sr_RequestId r = sr_RequestId resp → r = resp) →
  (∀ id, op = OpAck id → id ≠ sr_RequestId resp) → keeps resp op.
Proof. destruct op; simpl; intros H1 H2; try (apply H1; left); auto. Qed.

(** A reply that is handed over in the course of a run that keeps it. *)
Lemma pending_kept b ops b' resp :
  buffer_run b ops b' → OpPending resp ∈ ops → Forall (keeps resp) ops →
  held resp b' ∨ ∃ sent, OpFlush sent ∈ ops ∧ sent !! sr_RequestId resp = Some resp.
Proof.
  induction 1 as [b|b1 op b2 ops b3 Hs Hrun IH]; intros Hin Hk; [by apply elem_of_nil in Hin|].
  apply Forall_cons in Hk as [_ Hk]. apply elem_of_cons in Hin as [<-|Hin].
  - assert (held resp b2) as Hheld by (inversion Hs; subst; left; apply lookup_insert_eq).
    destruct (run_keeps _ _ _ _ Hrun Hk Hheld) as [|(sent & ? & ?)]; [by left|].
    right. exists sent. split; [by right|done].
  - destruct (IH Hin Hk) as [|(sent & ? & ?)]; [by left|]. right. exists sent. split; [by right|done].
Qed.

(** What the gateway acknowledges is the empty request, and only flushes send again. *)
Lemma buffer_ops_ack e id : OpAck id ∈ buffer_ops e → id = "".
Proof.
  destruct e as [|r| | | |? ? []| | | | | |]; simpl; try by intros ?%elem_of_nil.
  all: try by intros [=]%list_elem_of_singleton.
  destruct (read_step r); try by intros ?%elem_of_nil.
  destruct (unmarshal_ack _); [|by intros ?%elem_of_nil]. by intros [= ->]%list_elem_of_singleton.
Qed.

Lemma buffer_ops_flush e sent : OpFlush sent ∈ buffer_ops e → e = Flush sent.
Proof.
  destruct e as [|r| | | |? ? []| | | | | |]; simpl; try by intros ?%elem_of_nil.
  all: try by intros [=]%list_elem_of_singleton.
  - destruct (read_step r); try by intros ?%elem_of_nil.
    destruct (unmarshal_ack _); [|by intros ?%elem_of_nil]. by intros [=]%list_elem_of_singleton.
  - by intros [= ->]%list_elem_of_singleton.
Qed.

(** A reply that was produced is kept, unless another one to its request is produced. *)
Lemma produced_kept es s payload resp :
  flow_run new_flow es s → Produce payload resp ∈ es → sr_RequestId resp ≠ "" →
  (∀ r, r ∈ es ≫= produced → sr_RequestId r = sr_RequestId resp → r = resp) →
  held resp (f_buffer s) ∨ ∃ sent, Flush sent ∈ es ∧ sent !! sr_RequestId resp = Some resp.
Proof.
  intros Hrun Hin Hid Huniq. pose proof (flow_run_refines _ _ _ Hrun) as [_ Hb].
  destruct (pending_kept _ _ _ resp Hb) as [|(sent & Hsent & Hr)].
  - apply in_bind. exists (Produce payload resp). split; [done|]. by left.
  - apply Forall_forall. intros op Hop. apply op_keeps.
    + intros r Hr. apply Huniq. by apply (flow_run_op_replies _ _ _ _ _ Hrun Hop Hr).
    + intros id ->. apply in_bind in Hop as (e & _ & He). apply buffer_ops_ack in He. congruence.
  - by left.
  - right. exists sent. split; [|done]. apply in_bind in Hsent as (e & He & Hsent).
    by apply buffer_ops_flush in Hsent as ->.
Qed.

(** C31: no reply is lost on its way: in every run of a worker, a reply that a handler
    produced for a request with an ID is pending or buffered, unless a flush has sent it, as
    long as no other reply to its request is produced. *)
Theorem no_reply_lost es s payload resp :
  flow_run new_flow es s → Produce payload resp ∈ es → sr_RequestId resp ≠ "" →
  (∀ r, r ∈ es ≫= produced → sr_RequestId r = sr_RequestId resp → r = resp) →
  held resp (f_buffer s) ∨ ∃ sent, Flush sent ∈ es ∧ sent !! sr_RequestId resp = Some resp.
Proof. apply produced_kept. Qed.

(** ** A handler alone *)

(** The events of a worker that reads nothing more and is left alone; a request is dropped
    only if it has no reply that can be sent when the writes fare like [write]. *)
Definition working (write : nat → worker_msg → option goerr) (e : flow_event) : Prop :=
  match e with
  | Send _ | Take _ | Produce _ _ | Reply _ _ _ | Crash _ => True
  | Drop payload => ∀ resp,
      (connectInvoke_ write payload).2 = Return (Ok resp) → marshal_reply resp = false
  | _ => False
  end.

(** Writes that succeed. *)
Definition unhindered : nat → worker_msg → option goerr := λ _ _, None.

Lemma flow_run_one s e s' : f_crashed s = false → flow_step s e s' → flow_run s [e] s'.
Proof. intros. eapply flow_run_cons; [done..|apply flow_run_nil]. Qed.

(** [Done] for a message that is handled. *)
Lemma done_step s payload :
  payload ∈ wp_running (f_pool s) →
  ∃ p, pool_step concurrency (f_pool s) (EvDone payload) p ∧ wp_cancelled p = wp_cancelled (f_pool s).
Proof. intros (r1 & r2 & Hr)%list_elem_of_split. eexists. split; [by eapply pool_done|done]. Qed.

(** Handling a request without interruption is a run of the worker: from a state in which
    the request is being invoked, what [processExecutorRequest] does to the buffer is what
    the steps of this request do, and at their end the request is finished. *)
Lemma handler_runs write payload s :
  flow_ok s → payload ∈ f_invoking s → f_crashed s = false →
  match (processExecutorRequest write payload (f_buffer s)).2 with
  | Return (b, _) => ∃ es s', flow_run s es s' ∧ f_buffer s' = b ∧ es ≫= finished = [payload] ∧
      Forall (working write) es ∧ f_crashed s' = false ∧
      wp_cancelled (f_pool s') = wp_cancelled (f_pool s)
  | Panic _ => ∃ s', flow_run s [Crash payload] s' ∧ f_crashed s' = true
  end.
Proof.
  intros Hok Hin Hlive.
  pose proof Hin as (l1 & l2 & Hl)%list_elem_of_split.
  assert (payload ∈ wp_running (f_pool s)) as Hrun.
  { rewrite (fl_running _ Hok). apply elem_of_app. by left. }
  destruct (done_step s payload Hrun) as (p & Hp & Hcan).
  unfold processExecutorRequest, handleInvokeMessage.
  destruct (connectInvoke_ write payload) as [sent r] eqn:Hc.
  assert (may_get payload r) as Hget by (exists write; by rewrite Hc).
  destruct r as [[resp|e]|text].
  - destruct (marshal_reply resp) eqn:Hm; simpl.
    + set (out := write _ _).
      eassert (∃ es s', flow_run s es s' ∧ f_buffer s' = _ ∧ es ≫= finished = [payload] ∧
        Forall (working write) es ∧ f_crashed s' = false ∧
        wp_cancelled (f_pool s') = wp_cancelled (f_pool s)) as Hex.
      { exists [Produce payload resp; Reply payload resp out]. eexists. split.
        - eapply flow_run_cons; [done|by apply (flow_produce s payload resp l1 l2)|].
          apply flow_run_one; [done|].
          apply (flow_reply _ payload resp out [] (f_replying s) p); [done|exact Hp].
        - split; [reflexivity|]. split_and!; try done. by repeat constructor. }
      by destruct out.
    + exists [Drop payload]. eexists. split.
      { apply flow_run_one; [done|]. by apply (flow_drop s payload (Ok resp) l1 l2 p). }
      split_and!; try done. constructor; [|done]. simpl. rewrite Hc. by intros ? [= <-].
  - simpl. exists [Drop payload]. eexists. split.
    { apply flow_run_one; [done|]. by apply (flow_drop s payload (Err e) l1 l2 p). }
    split_and!; try done. constructor; [|done]. simpl. by rewrite Hc.
  - eexists. split; [apply flow_run_one; [done|by eapply flow_crash]|done].
Qed.

(** ** Draining *)

Lemma flow_run_app s1 es1 s2 es2 s3 :
  flow_run s1 es1 s2 → flow_run s2 es2 s3 → flow_run s1 (es1 ++ es2) s3.
Proof. induction 1; simpl; eauto using flow_run. Qed.

(** A run of its own that finishes a request, or ends the process. *)
Definition advances (s : flow) (n : nat) : Prop := ∃ es s',
  flow_run s es s' ∧ Forall (working unhindered) es ∧
  (f_crashed s' = true ∨
   f_crashed s' = false ∧ wp_cancelled (f_pool s') = false ∧ (length (inside s') < n)%nat).

Lemma advances_after s e s' n :
  f_crashed s = false → flow_step s e s' → working unhindered e → advances s' n → advances s n.
Proof.
  intros Hc Hs He (es & s'' & Hrun & Hes & Hend). exists (e :: es), s''.
  split; [by eapply flow_run_cons|]. split; [by constructor|done].
Qed.

Lemma working_requests write es : Forall (working write) es → es ≫= requests = [].
Proof. induction 1 as [|e es He _ IH]; [done|]. change (requests e ++ (es ≫= requests) = []).
  rewrite IH. by destruct e. Qed.

Lemma advances_invoking s payload :
  flow_ok s → payload ∈ f_invoking s → f_crashed s = false → wp_cancelled (f_pool s) = false →
  advances s (length (inside s)).
Proof.
  intros Hok Hin Hlive Hcan. pose proof (handler_runs unhindered payload s Hok Hin Hlive) as Hh.
  destruct (processExecutorRequest unhindered payload (f_buffer s)).2 as [[b l]|text].
  - destruct Hh as (es & s' & Hrun & _ & Hfin & Hes & Hc' & Hcan'). exists es, s'.
    split; [done|]. split; [done|]. right. split; [done|]. split; [congruence|].
    apply flow_run_conserves in Hrun. rewrite Hfin, (working_requests unhindered) in Hrun by done.
    simpl in Hrun. rewrite Hrun, length_app. simpl. lia.
  - destruct Hh as (s' & Hrun & Hc'). exists [Crash payload], s'. split; [done|].
    split; [by repeat constructor|]. by left.
Qed.

(** A step that finishes nothing keeps the requests that are inside. *)
Lemma inside_kept s e s' :
  flow_step s e s' → requests e = [] → finished e = [] → length (inside s') = length (inside s).
Proof.
  intros Hs Hr Hf. apply flow_step_conserves in Hs. rewrite Hr, Hf, app_nil_r in Hs. simpl in Hs.
  by rewrite Hs.
Qed.

Lemma advances_queue s m q n :
  flow_ok s → f_crashed s = false → wp_cancelled (f_pool s) = false →
  wp_queue (f_pool s) = m :: q → wp_idle (f_pool s) = S n → advances s (length (inside s)).
Proof.
  intros Hok Hlive Hcan Hq Hi.
  pose proof (flow_take s m _ (pool_take concurrency (f_pool s) m q n Hq Hi)) as Hs.
  eapply advances_after; [done|exact Hs|done|]. rewrite <- (inside_kept _ _ _ Hs) by done.
  apply (advances_invoking _ m); [by eapply flow_ok_step|by left|done|done].
Qed.

Lemma flow_progress s :
  (0 < concurrency)%nat → flow_ok s → f_crashed s = false → wp_cancelled (f_pool s) = false →
  inside s ≠ [] → advances s (length (inside s)).
Proof.
  intros Hpos Hok Hlive Hcan Hne. pose proof Hok as [[_ Hroom _ Hal] Hr _]. specialize (Hal Hcan).
  destruct (f_replying s) as [|[payload resp] rs] eqn:Hrep.
  2: { assert (payload ∈ wp_running (f_pool s)) as Hin.
       { rewrite Hr. simpl. set_solver. }
       destruct (done_step s payload Hin) as (p & Hp & Hcan').
       assert (flow_step s (Reply payload resp None) (with_handlers (with_buffer (with_pool s p)
         (f_buffer s)) (f_invoking s) rs)) as Hs.
       { by apply (flow_reply s payload resp None [] rs p). }
       eexists _, _. split; [by apply flow_run_one|]. split; [by repeat constructor|]. right.
       split; [done|]. simpl. split; [congruence|].
       apply flow_step_conserves in Hs. simpl in Hs. rewrite Hs, length_app. simpl. lia. }
  destruct (f_invoking s) as [|payload l] eqn:Hinv.
  2: { apply (advances_invoking s payload); [done|rewrite Hinv; by left|done|done]. }
  simpl in Hr. apply Permutation_nil_r in Hr. rewrite Hr in Hal. simpl in Hal.
  destruct (wp_idle (f_pool s)) as [|n] eqn:Hidle; [lia|].
  destruct (wp_queue (f_pool s)) as [|m q] eqn:Hq; [|by eapply advances_queue].
  unfold inside in Hne. rewrite Hq, Hinv, Hrep in Hne. simpl in Hne.
  destruct (wp_adding (f_pool s)) as [|m a] eqn:Ha; [done|].
  assert (length (wp_queue (f_pool s)) < concurrency)%nat as Hlt by (rewrite Hq; simpl; lia).
  pose proof (flow_send s m _ (pool_send concurrency (f_pool s) m [] a Ha Hlt)) as Hs.
  eapply advances_after; [done|exact Hs|done|]. rewrite <- (inside_kept _ _ _ Hs) by done.
  eapply advances_queue; [by eapply flow_ok_step|done|done|simpl; by rewrite Hq|exact Hidle].
Qed.

Lemma flow_drains_n k s :
  (0 < concurrency)%nat → flow_ok s → f_crashed s = false → wp_cancelled (f_pool s) = false →
  (length (inside s) ≤ k)%nat →
  ∃ es s', flow_run s es s' ∧ Forall (working unhindered) es ∧ (f_crashed s' = true ∨ wait_returns (f_pool s')).
Proof.
  intros Hpos. revert s. induction k as [|k IH]; intros s Hok Hlive Hcan Hlen.
  - exists [], s. split; [apply flow_run_nil|]. split; [done|]. right. unfold wait_returns.
    rewrite <- inside_length by done. lia.
  - destruct (inside s) as [|m l] eqn:Hin.
    + exists [], s. split; [apply flow_run_nil|]. split; [done|]. right. unfold wait_returns.
      rewrite <- inside_length, Hin by done. done.
    + destruct (flow_progress s Hpos Hok Hlive Hcan ltac:(by rewrite Hin))
        as (es & s' & Hrun & Hes & [Hc|(Hc & Hcan' & Hlt)]); [by exists es, s'; eauto|].
      destruct (IH s') as (es' & s'' & Hrun' & Hes' & Hend);
        [by eapply flow_ok_run|done|done|rewrite Hin in Hlt; simpl in *; lia|].
      exists (es ++ es'), s''. split; [by eapply flow_run_app|]. split; [by apply Forall_app|done].
Qed.

(** C32: a worker can always finish: from every state it reaches while its pool is alive and the
    process runs, the requests inside can be handled to the end, without anything being
    read or sent by others and without losing a reply that can be sent, and then [Wait]
    returns; or a handler's panic ends the process. *)
Theorem worker_can_drain es s :
  (0 < concurrency)%nat → flow_run new_flow es s → f_crashed s = false →
  wp_cancelled (f_pool s) = false →
  ∃ es' s', flow_run s es' s' ∧ Forall (working unhindered) es' ∧
    (f_crashed s' = true ∨ wait_returns (f_pool s') ∧ inside s' = []).
Proof.
  intros Hpos Hrun Hlive Hcan. pose proof (flow_ok_run _ _ _ Hrun flow_ok_new) as Hok.
  destruct (flow_drains_n _ s Hpos Hok Hlive Hcan (le_n _)) as (es' & s' & Hrun' & Hes & Hend).
  exists es', s'. split; [done|]. split; [done|]. destruct Hend as [|Hw]; [by left|].
  right. split; [done|]. apply nil_length_inv. rewrite inside_length by by eapply flow_ok_run.
  done.
Qed.
End flow.

(** ** Examples *)

Section examples.
Abbreviation echo_h := (echo_handler None false).
Abbreviation echo_step := (flow_step echo_h raw_type "" Some by_slug (λ _, true) (λ _, true) (λ _, true) 1).
Abbreviation echo_run := (flow_run echo_h raw_type "" Some by_slug (λ _, true) (λ _, true) (λ _, true) 1).

Abbreviation echo_working := (working echo_h raw_type "" Some by_slug (λ _, true) (λ _, true)).

(** A request for the echo function, read and taken by a worker that has its reply. *)
Definition echo_request_msg : res goerr ConnectMessage :=
  Ok {| cm_Kind := GATEWAY_EXECUTOR_REQUEST; cm_Payload := "app-echo" |}.

Definition echo_events : list flow_event :=
  [Connected; Read echo_request_msg; Send "app-echo"; Take "app-echo"; Produce "app-echo" echo_reply].

Definition echo_pool : pool (msg := string) :=
  {| wp_adding := []; wp_queue := []; wp_running := ["app-echo"]; wp_idle := 0;
     wp_cancelled := false; wp_inProgress := 1 |}.

Definition echo_flow : flow :=
  {| f_pool := echo_pool; f_buffer := addPending echo_reply newMessageBuffer; f_invoking := [];
     f_replying := [("app-echo", echo_reply)]; f_reading := true; f_crashed := false |}.

Lemma echo_flow_run : echo_run (new_flow 1) echo_events echo_flow.
Proof.
  eapply flow_run_cons; [reflexivity|by apply flow_connected|].
  eapply flow_run_cons; [reflexivity|apply flow_read; [reflexivity..|]|].
  { eapply pool_run_cons; [apply pool_add|apply pool_run_nil]. }
  eapply flow_run_cons; [reflexivity|apply flow_send, (pool_send 1 _ "app-echo" [] []); simpl; [reflexivity|lia]|].
  eapply flow_run_cons; [reflexivity|apply flow_take, (pool_take 1 _ "app-echo" [] 0); reflexivity|].
  eapply flow_run_cons; [reflexivity|apply (flow_produce _ _ _ _ _ _ _ _ _ _ "app-echo" echo_reply [] [])|].
  - reflexivity.
  - exists (takes 1). vm_compute. reflexivity.
  - reflexivity.
  - apply flow_run_nil.
Defined.

Lemma requests_conserved_witness :
  echo_events ≫= requests ≡ₚ inside echo_flow ++ (echo_events ≫= finished) ∧
  (length (inside echo_flow) ≤ 2 * 1 + 1)%nat ∧
  (wait_returns (f_pool echo_flow) ↔ inside echo_flow = []).
Proof.
  exact (requests_conserved echo_h raw_type "" Some by_slug (λ _, true) (λ _, true) (λ _, true) 1
    echo_events echo_flow echo_flow_run).
Defined.

Lemma no_reply_lost_witness :
  held echo_reply (f_buffer echo_flow) ∨
  ∃ sent, Flush sent ∈ echo_events ∧ sent !! "req-1" = Some echo_reply.
Proof.
  apply (no_reply_lost echo_h raw_type "" Some by_slug (λ _, true) (λ _, true) (λ _, true) 1
    echo_events echo_flow "app-echo" echo_reply echo_flow_run).
  - do 4 right. left.
  - discriminate.
  - intros r Hr _. by apply list_elem_of_singleton in Hr.
Defined.

Lemma worker_can_drain_witness :
  ∃ es' s', echo_run echo_flow es' s' ∧ Forall (echo_working unhindered) es' ∧
    (f_crashed s' = true ∨ wait_returns (f_pool s') ∧ inside s' = []).
Proof.
  apply (worker_can_drain echo_h raw_type "" Some by_slug (λ _, true) (λ _, true) (λ _, true) 1
    echo_events echo_flow); [lia|exact echo_flow_run|reflexivity|reflexivity].
Defined.
End examples.
