(* ===== verification/WorkerCalls.v ===== *)
(** * An executor and a worker

    The executor of [Executor] with a worker of [WorkerFlow] between it and the function: its
    calls are messages with a request's identifier, which wait to be read, are queued, invoked
    and answered in any order, among the requests of others; replies are written, lost, sent
    again and arrive more than once, and a message that was not acknowledged is sent again.
    What the executor makes of it is an execution in process, and the worker can always go on
    with it. *)

From S2P Require Import Prelude GoBytes GoTime GoJson GoHttp Env Errors.
From S2P Require Import Manager Step Program Functions Handler Invoke Replay Groups Durable.
From S2P Require Import Executor Configs Serve Sync ServeProps Wire Buffer WorkerPool ConnectInvoke.
From S2P Require Import EndToEnd Handshake WorkerFlow.

Open Scope Z_scope.

Section worker_calls.
Context {V : Type} (map_type : gotype V) (stack : string) (marshal_any : V → option json).
Context (decode_request : string → option ExecutorRequest) (encode_request : ExecutorRequest → string).
Context (marshal_ack : ExecutorRequest → bool) (marshal_reply : SDKResponse → bool).
Context (unmarshal_ack : string → bool) (concurrency : nat).
Context (h : handler V) (req : Request) (base : ExecutorRequest) (ans : GeneratorOpcode → json).

(** The identifiers of the requests of this execution. *)
Context (mine : string → Prop).

Notation wcall := (gmap string json * option string)%type.
Notation wreply := (list GeneratorOpcode + SDKResponseStatus * string)%type.
Notation exec := (executor (R := SDKResponseStatus * string)).

Abbreviation connection := (connection_call map_type stack marshal_any decode_request encode_request
  marshal_ack unhindered h req base).
Abbreviation invokes write := (connectInvoke map_type stack marshal_any decode_request marshal_ack write h).
Abbreviation fstep := (flow_step h map_type stack marshal_any decode_request marshal_ack
  marshal_reply unmarshal_ack concurrency).
Abbreviation frun := (flow_run h map_type stack marshal_any decode_request marshal_ack
  marshal_reply unmarshal_ack concurrency).
Abbreviation fworking := (working h map_type stack marshal_any decode_request marshal_ack
  marshal_reply).
Abbreviation gets := (may_get h map_type stack marshal_any decode_request marshal_ack).

(** The message of a call, and the reply to it. *)
Definition with_id (id : string) : ExecutorRequest :=
  {| er_RequestId := id; er_EnvId := er_EnvId base; er_AppId := er_AppId base;
     er_FunctionSlug := er_FunctionSlug base; er_StepId := er_StepId base;
     er_RequestPayload := er_RequestPayload base |}.

Definition message (id : string) (c : wcall) : string :=
  encode_request (gateway_message req (with_id id) c.1 c.2).

Definition reply_to (id : string) (c : wcall) : option SDKResponse :=
  match (invokes unhindered (message id c)).2 with
  | Return (Ok resp) => Some resp
  | _ => None
  end.

(** A request that is not of this execution. *)
Definition foreign (payload : string) : Prop :=
  ∀ m, decode_request payload = Some m → ¬ mine (er_RequestId m).

(** ** The system *)

(** The executor makes a call. *)
Inductive sends (s : exec) : wcall → exec → Prop :=
  | sends_call n :
      ex_done s = None → ex_calling s = None → ex_due s = S n →
      sends s (ex_known s, None) (set_calls (ex_planned s) (Some (ex_known s)) (ex_running s) n s)
  | sends_run hash steps0 steps l1 l2 :
      ex_done s = None → ex_planned s = l1 ++ (hash, steps0) :: l2 →
      steps0 ⊆ steps → steps ⊆ ex_known s →
      sends s (steps, Some hash)
        (set_calls (l1 ++ l2) (ex_calling s) ((hash, steps) :: ex_running s) (ex_due s) s).

(** It takes the reply to a call in flight. *)
Inductive receives (s : exec) : wcall → wreply → exec → Prop :=
  | receives_reply steps rep :
      ex_done s = None → ex_calling s = Some steps →
      receives s (steps, None) rep
        (receive_reply ans steps (set_calls (ex_planned s) None (ex_running s) (ex_due s) s) rep)
  | receives_result hash steps l1 l2 rep :
      ex_done s = None → ex_running s = l1 ++ (hash, steps) :: l2 →
      receives s (steps, Some hash) rep
        (receive_reply ans steps (set_calls (ex_planned s) (ex_calling s) (l1 ++ l2) (ex_due s) s) rep).

(** The executor and the worker, the calls that were made and those whose reply is waited for,
    by their identifiers, the messages that were not read yet, the replies that reached the
    gateway, the requests whose function was called, and those that were not acknowledged. *)
Record system := {
  y_ex : exec;
  y_worker : flow;
  y_made : gmap string wcall;
  y_waiting : gmap string wcall;
  y_wire : list string;
  y_net : list SDKResponse;
  y_called : list string;
  y_dropped : list string }.

Definition start : system :=
  {| y_ex := ex_start; y_worker := new_flow concurrency; y_made := ∅; y_waiting := ∅;
     y_wire := []; y_net := []; y_called := []; y_dropped := [] |}.

(** Requests that the worker reads are messages of the gateway, each of which is read once, or
    of others. *)
Definition takes (wire ps wire' : list string) : Prop :=
  (wire' = wire ∧ Forall foreign ps) ∨ wire ≡ₚ ps ++ wire'.

(** Replies that reach the gateway: those that were written or sent with success, and perhaps
    others of which the worker does not know. *)
Definition written (e : flow_event) : list SDKResponse :=
  match e with
  | Reply _ resp None => [resp]
  | Flush sent => (map_to_list sent).*2
  | _ => []
  end.

Definition attempted (w : flow) (e : flow_event) : list SDKResponse :=
  match e with
  | Reply _ resp _ => [resp]
  | Flush _ => (map_to_list (buffered (f_buffer w))).*2
  | _ => []
  end.

Definition arrives (w : flow) (e : flow_event) (new : list SDKResponse) : Prop :=
  written e ⊆ new ∧ new ⊆ attempted w e.

(** A request with a reply that can be sent. *)
Definition answerable (payload : string) : bool :=
  match (invokes unhindered payload).2 with Return (Ok resp) => marshal_reply resp | _ => false end.

(** A handler gives such a request up only when the acknowledgement cannot be written, before
    it calls the function ([unacknowledged] below). *)
Definition called (e : flow_event) : list string :=
  match e with
  | Produce payload _ => [payload]
  | Drop payload => if answerable payload then [] else [payload]
  | _ => []
  end.

Definition dropped (e : flow_event) : list string :=
  match e with Drop payload => if answerable payload then [payload] else [] | _ => [] end.

(** What the worker does: the wire and the new replies are given. *)
Definition worker_does (y : system) (e : flow_event) (w : flow) (wire : list string)
  (new : list SDKResponse) : system :=
  {| y_ex := y_ex y; y_worker := w; y_made := y_made y; y_waiting := y_waiting y;
     y_wire := wire; y_net := new ++ y_net y; y_called := called e ++ y_called y;
     y_dropped := dropped e ++ y_dropped y |}.

(** What the executor does: its state, and the calls it waits for. *)
Definition executor_does (y : system) (ex : exec) (waiting : gmap string wcall) : system :=
  {| y_ex := ex; y_worker := y_worker y; y_made := y_made y; y_waiting := waiting;
     y_wire := y_wire y; y_net := y_net y; y_called := y_called y; y_dropped := y_dropped y |}.

(** A call is made under a new identifier; a message that was not acknowledged is sent again. *)
Definition makes_call (y : system) (ex : exec) (id : string) (c : wcall) : system :=
  {| y_ex := ex; y_worker := y_worker y; y_made := <[id := c]> (y_made y);
     y_waiting := <[id := c]> (y_waiting y); y_wire := message id c :: y_wire y;
     y_net := y_net y; y_called := y_called y; y_dropped := y_dropped y |}.

Definition sends_again (y : system) (payload : string) (rest : list string) : system :=
  {| y_ex := y_ex y; y_worker := y_worker y; y_made := y_made y; y_waiting := y_waiting y;
     y_wire := payload :: y_wire y; y_net := y_net y; y_called := y_called y;
     y_dropped := rest |}.

Inductive sys_step (y : system) : system → Prop :=
  | sys_send id c ex :
      sends (y_ex y) c ex → mine id → y_made y !! id = None →
      sys_step y (makes_call y ex id c)
  | sys_resend id c d1 d2 :
      y_waiting y !! id = Some c → y_dropped y = d1 ++ message id c :: d2 →
      sys_step y (sends_again y (message id c) (d1 ++ d2))
  | sys_worker e w wire new :
      f_crashed (y_worker y) = false → fstep (y_worker y) e w →
      takes (y_wire y) (requests e) wire → arrives (y_worker y) e new →
      sys_step y (worker_does y e w wire new)
  | sys_receive c resp rep ex :
      y_waiting y !! sr_RequestId resp = Some c → resp ∈ y_net y →
      read_sdk_response resp = Some rep → receives (y_ex y) c rep ex →
      sys_step y (executor_does y ex (delete (sr_RequestId resp) (y_waiting y)))
  | sys_answer op :
      ex_done (y_ex y) = None → op ∈ ex_open (y_ex y) →
      sys_step y (executor_does y (answer_op ans (y_ex y) op) (y_waiting y)).

(** ** What a step of the worker keeps *)

(** The requests that were read and have no result yet. *)
Definition queued (w : flow) : list string :=
  wp_adding (f_pool w) ++ wp_queue (f_pool w) ++ f_invoking w.

Definition leaves (e : flow_event) : list string :=
  match e with Produce payload _ | Drop payload => [payload] | _ => [] end.

Lemma flow_step_queued w e w' : fstep w e w' → requests e ++ queued w ≡ₚ queued w' ++ leaves e.
Proof.
  unfold queued.
  destruct 1 as [|r p _ Hadd Hread|payload p Hsend|payload p Htake|payload resp l1 l2 Hin _ _
      |payload resp err l1 l2 p Hin Hdone|payload r l1 l2 p Hin _ _ Hdone|payload text Hin _| | |p Hc|p Hc];
    cbn [with_pool with_buffer with_handlers with_reading crashed f_pool f_buffer f_invoking f_replying
         requests leaves]; rewrite ?app_nil_r; try done.
  - destruct (read_pool_inv _ _ _ _ Hread Hadd) as (-> & -> & _). by rewrite Hadd.
  - destruct (pool_send_inv _ _ _ _ Hsend) as (Haq & _). simpl.
    by rewrite (app_assoc (wp_adding (f_pool w))), Haq, <- app_assoc.
  - destruct (pool_take_inv _ _ _ _ Htake) as (-> & -> & _). simpl. by rewrite <- !Permutation_middle.
  - rewrite Hin. solve_Permutation.
  - destruct (pool_done_inv _ _ _ _ Hdone) as (-> & -> & _). done.
  - destruct (pool_done_inv _ _ _ _ Hdone) as (-> & -> & _). rewrite Hin. solve_Permutation.
  - by destruct (pool_still _ _ _ _ Hc) as (-> & -> & _); [left|].
  - by destruct (pool_still _ _ _ _ Hc) as (-> & -> & _); [right|].
Qed.

Lemma leaves_split e : leaves e = called e ++ dropped e.
Proof. destruct e; simpl; try done. by destruct (answerable payload). Qed.

(** Where the requests of the system are. *)
Definition whereabouts (y : system) : list string :=
  y_wire y ++ queued (y_worker y) ++ y_called y ++ y_dropped y.

(** In exactly one place. *)
Definition once_in (payload : string) (l : list string) : Prop :=
  ∃ rest, l ≡ₚ payload :: rest ∧ payload ∉ rest.

#[export] Instance once_in_proper payload : Proper ((≡ₚ) ==> iff) (once_in payload).
Proof.
  intros l l' Hl. unfold once_in. split; intros (rest & Hrest & Hno); exists rest; (split; [|done]).
  - by rewrite <- Hl.
  - by rewrite Hl.
Qed.

Lemma once_in_more payload l l' : once_in payload l → payload ∉ l' → once_in payload (l' ++ l).
Proof.
  intros (rest & Hrest & Hno) Hl'. exists (l' ++ rest). split.
  - by rewrite Hrest, Permutation_middle.
  - rewrite elem_of_app. tauto.
Qed.

Lemma once_in_in payload l : once_in payload l → payload ∈ l.
Proof. intros (rest & -> & _). left. Qed.

(** The requests a worker reads are all that is new. *)
Lemma whereabouts_worker y e w wire new :
  fstep (y_worker y) e w → takes (y_wire y) (requests e) wire →
  ∃ others, Forall foreign others ∧
    whereabouts (worker_does y e w wire new) ≡ₚ others ++ whereabouts y.
Proof.
  intros Hs Htakes. pose proof (flow_step_queued _ _ _ Hs) as Hq. rewrite leaves_split in Hq.
  unfold whereabouts. simpl.
  assert (wire ++ queued w ++ (called e ++ y_called y) ++ dropped e ++ y_dropped y ≡ₚ
    wire ++ (requests e ++ queued (y_worker y)) ++ y_called y ++ y_dropped y) as Hperm.
  { trans (wire ++ (queued w ++ called e ++ dropped e) ++ y_called y ++ y_dropped y);
      [solve_Permutation|by rewrite Hq]. }
  destruct Htakes as [[-> Hf]|Hw].
  - exists (requests e). split; [done|]. rewrite Hperm. solve_Permutation.
  - exists []. split; [done|]. rewrite Hperm, Hw. simpl. solve_Permutation.
Qed.

(** The replies in a worker that may still reach the gateway. *)
Definition replies (w : flow) (resp : SDKResponse) : Prop :=
  resp ∈ known w ∨ ∃ k, buffered (f_buffer w) !! k = Some resp.

Lemma flow_step_replies w e w' resp :
  fstep w e w' → replies w' resp → replies w resp ∨ resp ∈ produced e.
Proof.
  intros Hs [Hk|[k Hk]].
  - apply (flow_step_known _ _ _ _ _ _ _ _ _ _ _ _ _ Hs) in Hk.
    apply elem_of_app in Hk as [?|?]; [by left; left|by right].
  - destruct (buffer_run_buffered _ _ _ k resp (flow_step_buffer _ _ _ _ _ _ _ _ _ _ _ _ Hs) Hk)
      as [?|(op & Hop & Hr)]; [by left; right; exists k|].
    pose proof (flow_step_op_replies _ _ _ _ _ _ _ _ _ _ _ _ _ _ Hs Hop Hr) as Hr'.
    apply elem_of_app in Hr' as [?|?]; [by left; left|by right].
Qed.

Lemma attempted_replies w e w' resp : fstep w e w' → resp ∈ attempted w e → replies w resp.
Proof.
  destruct 1 as [| | | | |payload resp' err l1 l2 p Hin Hdone| | | |sent b Hb| |]; simpl;
    try by intros ?%elem_of_nil.
  - intros ->%list_elem_of_singleton. left. unfold known. rewrite Hin, fmap_app. set_solver.
  - intros ([k r] & -> & Hk%elem_of_map_to_list)%list_elem_of_fmap. right. by exists k.
Qed.

(** ** The executor's calls *)

Lemma sends_step s c s' : sends s c s' → ex_step connection ans s s'.
Proof. destruct 1; [by apply ex_call|by eapply ex_run]. Qed.

Lemma receives_step s c rep s' :
  receives s c rep s' → connection c.1 c.2 = Some rep → ex_step connection ans s s'.
Proof. destruct 1; intros Hrep; [by apply ex_reply|by eapply ex_result]. Qed.

Lemma ex_step_kinds s s' :
  ex_step connection ans s s' →
  (∃ c, sends s c s') ∨ (∃ c rep, receives s c rep s' ∧ connection c.1 c.2 = Some rep) ∨
  ∃ op, ex_done s = None ∧ op ∈ ex_open s ∧ s' = answer_op ans s op.
Proof.
  destruct 1; [left|right; left|left|right; left|right; right].
  - eexists. by apply sends_call.
  - eexists (_, None), _. split; [by apply receives_reply|done].
  - eexists. by eapply sends_run.
  - eexists (_, Some _), _. split; [by eapply receives_result|done].
  - by eexists.
Qed.

(** A reply leaves the calls in flight alone. *)
Lemma receive_in_flight steps (s : exec) op : in_flight (receive ans steps s op) = in_flight s.
Proof. unfold receive. destruct (g_op op); try done; by destruct (decide _). Qed.

Lemma receive_reply_in_flight steps (s : exec) rep : in_flight (receive_reply ans steps s rep) = in_flight s.
Proof.
  destruct rep as [ops|fin]; [|done]. simpl. revert s.
  induction ops as [|op ops IH]; intros s; [done|]. simpl. by rewrite IH, receive_in_flight.
Qed.

Lemma sends_in_flight s c s' : sends s c s' → in_flight s' ≡ₚ c :: in_flight s.
Proof.
  destruct 1 as [n He Hc Hd|hash steps0 steps l1 l2 He Hp H0 H1]; unfold in_flight; simpl.
  - by rewrite Hc.
  - by rewrite <- Permutation_middle.
Qed.

Lemma receives_in_flight s c rep s' : receives s c rep s' → in_flight s ≡ₚ c :: in_flight s'.
Proof.
  destruct 1 as [steps rep He Hc|hash steps l1 l2 rep He Hr]; rewrite receive_reply_in_flight;
    unfold in_flight; simpl.
  - by rewrite Hc.
  - rewrite Hr, !fmap_app. simpl. by rewrite <- !Permutation_middle.
Qed.

(** ** The replies to the messages *)

Lemma sdk_response_id body i resp :
  sdk_response marshal_any body i = Return (Ok resp) → sr_RequestId resp = er_RequestId body.
Proof.
  unfold sdk_response. destruct (settle _ _) as [[? ?] [e|]].
  - destruct (err_msg e); [|done]. by intros [= <-].
  - destruct (inv_ops i); [|by intros [= <-]]. destruct (marshal_response _ _); [|done].
    by intros [= <-].
Qed.

(** A reply is for its request, and does not depend on how the writes fare. *)
Lemma gets_reply payload resp :
  gets payload (Return (Ok resp)) →
  ∃ m, decode_request payload = Some m ∧ sr_RequestId resp = er_RequestId m ∧
    (invokes unhindered payload).2 = Return (Ok resp).
Proof.
  intros [write Hr]. unfold connectInvoke in *.
  destruct (decode_request payload) as [m|]; [|done].
  destruct (unmarshal_Request _) as [request|]; [|done].
  destruct (marshal_ack m); [|done]. simpl in *. destruct (write 0%nat _); [done|]. simpl in *.
  destruct (InvokeFunction _ _ _ _ _ _) as [i|] eqn:Hi; [|done].
  exists m. split_and!; [done|by eapply sdk_response_id|done].
Qed.

Lemma gets_panic payload text :
  gets payload (Panic text) → (invokes unhindered payload).2 = Panic text.
Proof.
  intros [write Hr]. unfold connectInvoke in *.
  destruct (decode_request payload) as [m|]; [|done].
  destruct (unmarshal_Request _) as [request|]; [|done].
  destruct (marshal_ack m); [|done]. simpl in *. by destruct (write 0%nat _).
Qed.

(** A request with a reply that is given up was not acknowledged, and its function not called:
    [connectInvoke] fails before that. *)
Lemma unacknowledged payload r :
  gets payload (Return r) → match r with Ok resp => marshal_reply resp = false | Err _ => True end →
  answerable payload = true → r = Err (EPublic "" "failed to ack worker request" 400 None).
Proof.
  intros [write Hr] Hno Ha. unfold answerable, connectInvoke in *.
  destruct (decode_request payload) as [m|]; [|done].
  destruct (unmarshal_Request _) as [request|]; [|done].
  destruct (marshal_ack m); [|done]. simpl in *. destruct (write 0%nat _); simpl in *; [congruence|].
  destruct (InvokeFunction _ _ _ _ _ _) as [i|]; [|done]. rewrite Hr in Ha.
  destruct r as [resp|]; [congruence|done].
Qed.

Context (sf : ServableFunction V).

Section served.
Hypothesis Hcn : connected decode_request encode_request marshal_ack unhindered h sf base.

Lemma decode_message_of id c : decode_request (message id c) = Some (gateway_message req (with_id id) c.1 c.2).
Proof. apply Hcn. Qed.

(** A call has a reply if the function has one, whatever the identifier. *)
Lemma call_reply id c rep :
  connection c.1 c.2 = Some rep →
  ∃ resp, reply_to id c = Some resp ∧ sr_RequestId resp = id ∧ read_sdk_response resp = Some rep.
Proof.
  destruct Hcn as [Hdec Hack _ _].
  unfold connection_call, reply_to, message, connectInvoke. rewrite !Hdec. simpl.
  destruct (unmarshal_Request _) as [request|]; [|done]. rewrite !Hack. simpl.
  unfold connect_step. simpl.
  destruct (InvokeFunction _ _ _ _ _ _) as [i|]; [|done]. unfold sdk_response.
  destruct (settle _ _) as [[? ?] [e|]].
  - destruct (err_msg e); [|done]. intros Hr. by eexists.
  - destruct (inv_ops i); [|intros Hr; by eexists]. destruct (marshal_response _ _); [|done].
    intros Hr. by eexists.
Qed.


(** ** The invariant *)

(** What the messages and the replies of this execution are. *)
Definition ours (made : gmap string wcall) (payload : string) : Prop :=
  ∃ id c, made !! id = Some c ∧ payload = message id c.

Definition addressed (made : gmap string wcall) (payload : string) : Prop :=
  foreign payload ∨ ours made payload.

Definition genuine (made : gmap string wcall) (resp : SDKResponse) : Prop :=
  mine (sr_RequestId resp) →
  ∃ c, made !! sr_RequestId resp = Some c ∧ reply_to (sr_RequestId resp) c = Some resp.

(** The reply to a call is at the gateway, or in the worker's buffer. *)
Definition replied (y : system) (id : string) (c : wcall) : Prop :=
  ∃ resp, reply_to id c = Some resp ∧ (resp ∈ y_net y ∨ held resp (f_buffer (y_worker y))).

Record calls_ok (y : system) : Prop := {
  so_mine id c : y_made y !! id = Some c → mine id ∧ ∃ rep, connection c.1 c.2 = Some rep;
  so_wire payload : payload ∈ y_wire y → ours (y_made y) payload;
  so_requests payload : payload ∈ whereabouts y → addressed (y_made y) payload;
  so_replies resp : resp ∈ y_net y ∨ replies (y_worker y) resp → genuine (y_made y) resp;
  so_once id c : y_made y !! id = Some c → once_in (message id c) (whereabouts y);
  so_called id c : y_made y !! id = Some c → message id c ∈ y_called y → replied y id c }.

Hypothesis Hmine : ¬ mine "".

Lemma addressed_message made payload m :
  addressed made payload → decode_request payload = Some m → mine (er_RequestId m) →
  ∃ c, made !! er_RequestId m = Some c ∧ payload = message (er_RequestId m) c.
Proof.
  intros [Hf|(id & c & Hc & ->)] Hm Hid; [by destruct (Hf m Hm)|].
  rewrite decode_message_of in Hm. injection Hm as <-. by exists c.
Qed.

(** Handlers produce the replies to their requests. *)
Lemma produced_genuine y e w resp :
  calls_ok y → fstep (y_worker y) e w → resp ∈ produced e → genuine (y_made y) resp.
Proof.
  intros Hy Hs Hr. destruct Hs as [| | | |payload resp' l1 l2 Hin Hget _| | | | | | |]; simpl in Hr;
    try by apply elem_of_nil in Hr.
  apply list_elem_of_singleton in Hr as ->. intros Hid.
  destruct (gets_reply _ _ Hget) as (m & Hm & Heq & Hresp). rewrite Heq in *.
  destruct (addressed_message (y_made y) payload m) as (c & Hc & ->); [|done..|].
  - apply (so_requests y Hy). unfold whereabouts, queued. rewrite Hin. set_solver.
  - exists c. split; [done|]. unfold reply_to. by rewrite Hresp.
Qed.

(** A reply of ours can be sent. *)
Hypothesis Hmarshal : ∀ id c resp, reply_to id c = Some resp → marshal_reply resp = true.

Lemma ours_replied y id c :
  calls_ok y → y_made y !! id = Some c →
  ∃ resp, reply_to id c = Some resp ∧ sr_RequestId resp = id ∧
    (invokes unhindered (message id c)).2 = Return (Ok resp).
Proof.
  intros Hy Hc. destruct (so_mine y Hy id c Hc) as (_ & rep & Hrep).
  destruct (call_reply id c rep Hrep) as (resp & Hresp & Hid & _). exists resp. split; [done|].
  split; [done|]. unfold reply_to in Hresp. destruct (invokes _ _).2 as [[|]|]; congruence.
Qed.

Lemma ours_answerable y id c :
  calls_ok y → y_made y !! id = Some c → answerable (message id c) = true.
Proof.
  intros Hy Hc. destruct (ours_replied y id c Hy Hc) as (resp & Hresp & _ & Hinv).
  unfold answerable. rewrite Hinv. by apply (Hmarshal id c).
Qed.

(** What a handler of ours produces, or what becomes of a reply that is held. *)
Lemma called_replied y e w wire new id c :
  calls_ok y → fstep (y_worker y) e w → y_made y !! id = Some c → message id c ∈ called e →
  replied (worker_does y e w wire new) id c.
Proof.
  intros Hy Hs Hc Hin. destruct e as [| | | |payload resp| |payload| | | | |]; simpl in Hin;
    try by apply elem_of_nil in Hin.
  - apply list_elem_of_singleton in Hin as <-.
    inversion Hs as [| | | |? ? l1 l2 Hl Hget _| | | | | | |]; subst.
    destruct (gets_reply _ _ Hget) as (m & _ & _ & Hresp). exists resp. split.
    + unfold reply_to. by rewrite Hresp.
    + right. left. simpl. apply lookup_insert_eq.
  - destruct (answerable payload) eqn:Ha; [by apply elem_of_nil in Hin|].
    apply list_elem_of_singleton in Hin as <-. by rewrite (ours_answerable y id c Hy Hc) in Ha.
Qed.

Lemma held_replied y e w new id c resp :
  calls_ok y → fstep (y_worker y) e w → arrives (y_worker y) e new → y_made y !! id = Some c →
  reply_to id c = Some resp → held resp (f_buffer (y_worker y)) →
  resp ∈ new ∨ held resp (f_buffer w).
Proof.
  intros Hy Hs [Hnew _] Hc Hresp Hheld. destruct (so_mine y Hy id c Hc) as (Hid & _).
  destruct (ours_replied y id c Hy Hc) as (resp' & Hresp' & Hrid & _).
  assert (resp' = resp) as -> by congruence.
  destruct (run_keeps resp _ _ _ (flow_step_buffer _ _ _ _ _ _ _ _ _ _ _ _ Hs)) as [|(sent & Hf & Hsent)].
  - apply Forall_forall. intros op Hop. apply op_keeps.
    + intros r' Hr' Heq.
      assert (genuine (y_made y) r') as Hg.
      { pose proof (flow_step_op_replies _ _ _ _ _ _ _ _ _ _ _ _ _ _ Hs Hop Hr') as Hk.
        apply elem_of_app in Hk as [Hk|Hk]; [|by apply (produced_genuine y e w)].
        apply (so_replies y Hy). right. by left. }
      unfold genuine in Hg. rewrite Heq, Hrid in Hg.
      destruct (Hg Hid) as (c' & Hc' & Hr''). congruence.
    + intros id' ->. apply buffer_ops_ack in Hop as ->. rewrite Hrid. by intros <-.
  - done.
  - by right.
  - left. apply buffer_ops_flush in Hf as ->. apply Hnew. simpl.
    apply list_elem_of_fmap. exists (sr_RequestId resp, resp). split; [done|].
    by apply elem_of_map_to_list.
Qed.

Lemma ours_not_foreign y id c : calls_ok y → y_made y !! id = Some c → ¬ foreign (message id c).
Proof. intros Hy Hc Hf. destruct (Hf _ (decode_message_of id c)). by apply (so_mine y Hy id c). Qed.

Lemma worker_ok y e w wire new :
  calls_ok y → fstep (y_worker y) e w → takes (y_wire y) (requests e) wire →
  arrives (y_worker y) e new → calls_ok (worker_does y e w wire new).
Proof.
  intros Hy Hs Htakes Harr.
  destruct (whereabouts_worker y e w wire new Hs Htakes) as (others & Hothers & Hwhere).
  split.
  - apply (so_mine y Hy).
  - intros payload Hp. apply (so_wire y Hy). simpl in Hp.
    destruct Htakes as [[-> _]|Hw]; [done|]. rewrite Hw. apply elem_of_app. by right.
  - intros payload. rewrite Hwhere, elem_of_app. intros [Hp|Hp]; [|by apply (so_requests y Hy)].
    left. by eapply Forall_forall in Hothers.
  - intros resp Hr. simpl in *.
    assert (resp ∈ y_net y ∨ replies (y_worker y) resp ∨ resp ∈ produced e) as [?|[?|?]].
    { destruct Hr as [[Hr|?]%elem_of_app|Hr]; [|by left|].
      - right. left. eapply attempted_replies; [exact Hs|]. by apply Harr.
      - right. by apply (flow_step_replies _ _ _ _ Hs). }
    + apply (so_replies y Hy). by left.
    + apply (so_replies y Hy). by right.
    + by apply (produced_genuine y e w).
  - intros id c Hc. simpl in Hc. rewrite Hwhere. apply once_in_more; [by apply (so_once y Hy)|].
    intros Hin. eapply Forall_forall in Hothers; [|exact Hin]. by apply (ours_not_foreign y id c).
  - intros id c Hc Hin. simpl in Hc, Hin. apply elem_of_app in Hin as [Hin|Hin];
      [by apply called_replied|].
    destruct (so_called y Hy id c Hc Hin) as (resp & Hresp & Hl). exists resp. split; [done|]. simpl.
    destruct Hl as [Hl|Hl]; [left; apply elem_of_app; by right|].
    destruct (held_replied y e w new id c resp) as [?|?]; try done; [left|by right].
    apply elem_of_app. by left.
Qed.

(** ** Runs of the system *)

Section execution.
Context (p : prog V) (l : list (string * GeneratorOpcode)) (r : ending V).
Context (fin : SDKResponseStatus * string).
Hypothesis Hcaller : Caller connection received ans req p l fin.
Hypothesis (Hi : ideal (answer received ans) p = Some (l, r)) (Hids : NoDup (g_id <$> l.*2)).

Notation exec_ok := (ex_ok received ans req p l fin).

(** The executor's part of the state is one that it reaches with calls whose replies are those
    of [connectInvoke], and the calls it waits for are those in flight. *)
Record sys_ok (y : system) : Prop := {
  sy_run : ∃ n, nsteps (ex_step connection ans) n ex_start (y_ex y);
  sy_flight : in_flight (y_ex y) ≡ₚ (map_to_list (y_waiting y)).*2;
  sy_waiting : y_waiting y ⊆ y_made y;
  sy_flow : flow_ok concurrency (y_worker y);
  sy_pending : pending_waits (f_buffer (y_worker y));
  sy_calls : calls_ok y }.

Lemma start_sys_ok : sys_ok start.
Proof.
  split; simpl; [by exists 0%nat; constructor|by rewrite map_to_list_empty|done|apply flow_ok_new|done|].
  split; simpl.
  - intros id c. by rewrite lookup_empty.
  - by intros payload ?%elem_of_nil.
  - by intros payload ?%elem_of_nil.
  - intros resp [?%elem_of_nil|[Hk|[k Hk]]]; [done|by apply elem_of_nil in Hk|].
    simpl in Hk. by rewrite lookup_empty in Hk.
  - intros id c. by rewrite lookup_empty.
  - intros id c. by rewrite lookup_empty.
Qed.

Lemma reached_ok y : sys_ok y → exec_ok (y_ex y).
Proof.
  intros [[n Hn] _ _ _ _ _]. apply (ex_reachable_ok connection received ans req p l r fin
    received_view Hcaller Hi Hids n ex_start); [apply start_ok|done].
Qed.

(** The executor's steps prolong its run. *)
Lemma run_goes_on y ex : sys_ok y → ex_step connection ans (y_ex y) ex →
  ∃ n, nsteps (ex_step connection ans) n ex_start ex.
Proof. intros [[n Hn] _ _ _ _ _] Hs. exists (S n). by eapply nsteps_r. Qed.

Lemma ours_mono made id c payload :
  made !! id = None → ours made payload → ours (<[id := c]> made) payload.
Proof.
  intros Hnew (id' & c' & Hc' & ->). exists id', c'. split; [|done].
  rewrite lookup_insert_ne; [done|congruence].
Qed.

Lemma message_inj id c id' c' : message id c = message id' c' → id = id'.
Proof.
  intros Heq. pose proof (decode_message_of id c) as H1. rewrite Heq, decode_message_of in H1.
  by injection H1.
Qed.

Lemma calls_ok_send y id c :
  calls_ok y → y_made y !! id = None → mine id → (∃ rep, connection c.1 c.2 = Some rep) →
  ∀ ex, calls_ok (makes_call y ex id c).
Proof.
  intros [Hmade Hwire Hreq Hrep Honce Hcalled] Hnew Hid Hans ex.
  assert (message id c ∉ whereabouts y) as Hno.
  { intros [Hf|(id' & c' & Hc' & Heq)]%Hreq.
    - by destruct (Hf _ (decode_message_of id c)).
    - apply message_inj in Heq as <-. congruence. }
  assert (whereabouts (makes_call y ex id c) = message id c :: whereabouts y) as Hwhere by done.
  split; rewrite ?Hwhere; simpl.
  - intros id' c' [[<- <-]|[_ Hc]]%lookup_insert_Some; [done|by apply Hmade].
  - intros payload [->|Hp]%elem_of_cons; [exists id, c; by rewrite lookup_insert_eq|].
    by apply ours_mono, Hwire.
  - intros payload [->|Hp]%elem_of_cons; [right; exists id, c; by rewrite lookup_insert_eq|].
    destruct (Hreq payload Hp); [by left|right; by apply ours_mono].
  - intros resp Hr Hm. destruct (Hrep resp Hr Hm) as (c' & Hc' & Hresp). exists c'.
    split; [|done]. rewrite lookup_insert_ne; [done|congruence].
  - intros id' c' [[<- <-]|[Hne Hc]]%lookup_insert_Some; [by eexists|].
    apply (once_in_more _ _ [message id c]); [by apply Honce|].
    intros Heq%list_elem_of_singleton%message_inj. congruence.
  - intros id' c' [[<- <-]|[Hne Hc]]%lookup_insert_Some Hin; [|by apply (Hcalled id' c')].
    destruct Hno. unfold whereabouts. set_solver.
Qed.

Lemma send_ok y id c ex :
  sys_ok y → sends (y_ex y) c ex → mine id → y_made y !! id = None → sys_ok (makes_call y ex id c).
Proof.
  intros Hy Hs Hid Hnew. pose proof (sends_step _ _ _ Hs) as Hstep.
  pose proof Hy as [_ Hfly Hsub Hflow Hpend Hcalls].
  assert (y_waiting y !! id = None) as Hnew' by by eapply lookup_weaken_None.
  assert (exec_ok ex) as Hex.
  { eapply (ex_step_ok connection received ans req p l r fin received_view Hcaller Hi Hids);
      [by apply reached_ok|exact Hstep]. }
  split; simpl; [by eapply run_goes_on| |by apply insert_mono|done|done|].
  - rewrite map_to_list_insert by done. simpl. by rewrite (sends_in_flight _ _ _ Hs), Hfly.
  - apply calls_ok_send; try done.
    apply (in_flight_reply connection received ans req p l r fin Hcaller Hi ex c);
      [by eapply ok_inv|].
    rewrite (sends_in_flight _ _ _ Hs). left.
Qed.

(** A message that is sent again goes back to the wire. *)
Lemma calls_ok_resend y id c d1 d2 :
  calls_ok y → y_made y !! id = Some c → y_dropped y = d1 ++ message id c :: d2 →
  calls_ok (sends_again y (message id c) (d1 ++ d2)).
Proof.
  intros [Hmade Hwire Hreq Hrep Honce Hcalled] Hc Hd.
  assert (whereabouts (sends_again y (message id c) (d1 ++ d2)) ≡ₚ whereabouts y) as Hwhere.
  { unfold whereabouts. simpl. rewrite Hd. solve_Permutation. }
  split; try done.
  - intros payload [->|Hp]%elem_of_cons; [by exists id, c|by apply Hwire].
  - intros payload. rewrite Hwhere. apply Hreq.
  - intros id' c' Hc'. rewrite Hwhere. by apply Honce.
Qed.

Lemma receive_ok y c resp rep ex :
  sys_ok y → y_waiting y !! sr_RequestId resp = Some c → resp ∈ y_net y →
  read_sdk_response resp = Some rep → receives (y_ex y) c rep ex →
  sys_ok (executor_does y ex (delete (sr_RequestId resp) (y_waiting y))).
Proof.
  intros Hy Hc Hnet Hread Hr. pose proof Hy as [_ Hfly Hsub Hflow Hpend Hcalls].
  assert (y_made y !! sr_RequestId resp = Some c) as Hmade by by eapply lookup_weaken.
  destruct (so_mine y Hcalls _ c Hmade) as (Hid & rep' & Hrep').
  destruct (so_replies y Hcalls resp (or_introl Hnet) Hid) as (c' & Hc' & Hresp).
  assert (c' = c) as -> by congruence.
  destruct (call_reply (sr_RequestId resp) c rep' Hrep') as (resp' & Hresp' & _ & Hread').
  assert (rep' = rep) as -> by congruence.
  split; simpl; [by eapply run_goes_on, receives_step| |by etransitivity; [apply delete_subseteq|]|done|done|].
  - apply (Permutation_cons_inv (a := c)).
    rewrite <- (receives_in_flight _ _ _ _ Hr), Hfly.
    by rewrite <- (map_to_list_delete _ _ _ Hc).
  - by destruct Hcalls.
Qed.

Lemma sys_step_ok y y' : sys_step y y' → sys_ok y → sys_ok y'.
Proof.
  intros [id c ex Hs Hid Hnew|id c d1 d2 Hc Hd|e w wire new Hc Hs Ht Ha|c resp rep ex Hc Hnet Hread Hr
    |op Hd Hop] Hy.
  - by apply send_ok.
  - pose proof Hy as [Hrun Hfly Hsub Hflow Hpend Hcalls]. split; [done..|].
    apply calls_ok_resend; [done| |done]. by eapply lookup_weaken.
  - pose proof Hy as [Hrun Hfly Hsub Hflow Hpend Hcalls].
    split; [done..|by eapply flow_ok_step| |by apply worker_ok].
    eapply pending_waits_run, Hpend. by eapply flow_step_buffer.
  - by eapply receive_ok.
  - pose proof Hy as [_ Hfly Hsub Hflow Hpend Hcalls].
    split; simpl; [|done..|by destruct Hcalls]. eapply run_goes_on; [done|by apply ex_answer].
Qed.

Lemma sys_run_ok y y' : rtc sys_step y y' → sys_ok y → sys_ok y'.
Proof. induction 1; eauto using sys_step_ok. Qed.

(** A request of ours does not end the process. *)
Lemma no_crash_of_ours y payload w :
  sys_ok y → fstep (y_worker y) (Crash payload) w → foreign payload.
Proof.
  intros Hy Hs. inversion Hs as [| | | | | | |? text Hin Hget| | | |]; subst.
  apply gets_panic in Hget. pose proof (sy_calls y Hy) as Hcalls.
  destruct (so_requests y Hcalls payload) as [|(id & c & Hc & ->)]; [|done|].
  { unfold whereabouts, queued. set_solver. }
  destruct (ours_replied y id c Hcalls Hc) as (resp & _ & _ & Hresp). congruence.
Qed.


(** ** A worker that is left alone *)

(** A request whose function does not panic. *)
Definition calm (payload : string) : Prop := ∀ text, (invokes unhindered payload).2 ≠ Panic text.

(** The worker can handle what is sent to it: the process and its pool are alive, and will be
    when the requests in it are handled. *)
Record usable (y : system) : Prop := {
  us_alive : f_crashed (y_worker y) = false;
  us_pool : wp_cancelled (f_pool (y_worker y)) = false;
  us_calm : Forall calm (queued (y_worker y)) }.

(** What other parts do while the executor waits. *)
Record serves (y y' : system) : Prop := {
  sv_run : rtc sys_step y y';
  sv_ex : y_ex y' = y_ex y;
  sv_made : y_made y' = y_made y;
  sv_waiting : y_waiting y' = y_waiting y;
  sv_dropped payload : payload ∈ y_dropped y' → payload ∈ y_dropped y ∨ foreign payload }.

Hypothesis (Hconc : (0 < concurrency)%nat) (Hfresh : ∀ X : gset string, ∃ id, mine id ∧ id ∉ X).

Lemma serves_refl y : serves y y.
Proof. split; try done. by left. Qed.

Lemma serves_trans y1 y2 y3 : serves y1 y2 → serves y2 y3 → serves y1 y3.
Proof.
  intros [? ? ? ? H1] [? ? ? ? H2]. split; [by etransitivity|congruence..|].
  intros payload [?|?]%H2; [by apply H1|by right].
Qed.

Lemma serves_ok y y' : serves y y' → sys_ok y → sys_ok y'.
Proof. intros [Hrun _ _ _ _]. by apply sys_run_ok. Qed.

Lemma ours_calm y id c : sys_ok y → y_made y !! id = Some c → calm (message id c).
Proof.
  intros Hy Hc text. destruct (ours_replied y id c (sy_calls y Hy) Hc) as (resp & _ & _ & ->). done.
Qed.

(** Nothing that works ends the pool, and calm requests do not end the process. *)
Lemma working_alive w e w' :
  fstep w e w' → fworking unhindered e → f_crashed w = false → wp_cancelled (f_pool w) = false →
  Forall calm (queued w) → f_crashed w' = false ∧ wp_cancelled (f_pool w') = false.
Proof.
  intros Hs He Hal Hpool Hcalm.
  destruct Hs as [|rr pl _ Hadd Hread|payload pl Hsend|payload pl Htake|payload resp l1 l2 Hin _ _
      |payload resp err l1 l2 pl Hin Hdone|payload rr l1 l2 pl Hin _ _ Hdone|payload text Hin Hget
      | | |pl Hc|pl Hc]; simpl in *; try done.
  - by inversion Hsend; subst.
  - by inversion Htake; subst.
  - by inversion Hdone; subst.
  - by inversion Hdone; subst.
  - rewrite Forall_forall in Hcalm. destruct (Hcalm payload) with text; [|by apply gets_panic].
    unfold queued. set_solver.
Qed.

(** An event that reads nothing. *)
Lemma event_step y e w :
  sys_ok y → usable y → fstep (y_worker y) e w → requests e = [] →
  written e ⊆ attempted (y_worker y) e → Forall foreign (dropped e) →
  f_crashed w = false → wp_cancelled (f_pool w) = false →
  let y' := worker_does y e w (y_wire y) (written e) in serves y y' ∧ usable y'.
Proof.
  intros Hy [Hal Hpool Hcalm] Hs Hreq Harr Hdrop Hal' Hpool'. split; split; try done.
  - apply rtc_once, sys_worker; [done|done|left; by rewrite Hreq|done].
  - intros payload [Hp|Hp]%elem_of_app; [right|by left]. by eapply Forall_forall in Hdrop.
  - pose proof (flow_step_queued _ _ _ Hs) as Hq. rewrite Hreq in Hq. simpl in Hq.
    rewrite Hq, Forall_app in Hcalm. apply Hcalm.
Qed.

(** The events of a worker that is left alone are steps of the system, which keep it usable. *)
Lemma working_step y e w :
  sys_ok y → usable y → fstep (y_worker y) e w → fworking unhindered e →
  ∃ y', serves y y' ∧ usable y' ∧ y_worker y' = w ∧ y_wire y' = y_wire y.
Proof.
  intros Hy Hu Hs He.
  destruct (working_alive _ _ _ Hs He (us_alive y Hu) (us_pool y Hu) (us_calm y Hu)) as [Hal' Hpool'].
  destruct (event_step y e w Hy Hu Hs) as [Hsv Hu']; try done.
  - by destruct e.
  - destruct e as [| | | | |? ? []| | | | | |]; try done. simpl. set_solver.
  - destruct e as [| | | | | |payload| | | | |]; simpl; try done.
    destruct (answerable payload) eqn:Ha; [|done]. unfold answerable in Ha. simpl in He.
    destruct (invokes unhindered payload).2 as [[resp|]|]; [|done..]. by rewrite He in Ha.
  - by eexists.
Qed.

Lemma working_run w es w' :
  frun w es w' → Forall (fworking unhindered) es → ∀ y, y_worker y = w → sys_ok y → usable y →
  ∃ y', serves y y' ∧ usable y' ∧ y_worker y' = w' ∧ y_wire y' = y_wire y.
Proof.
  induction 1 as [w|w1 e w2 es w3 _ Hs _ IH]; intros Hes y <- Hy Hu;
    [exists y; split; [apply serves_refl|done]|].
  apply Forall_cons in Hes as [He Hes].
  destruct (working_step y e w2 Hy Hu Hs He) as (y1 & Hsv & Hu1 & Hw1 & Hwire).
  destruct (IH Hes y1 Hw1) as (y2 & Hsv2 & Hu2 & Hw2 & Hwire2); [by eapply serves_ok|done|].
  exists y2. split; [by eapply serves_trans|]. split_and!; [done..|congruence].
Qed.

(** What is in the worker is handled. *)
Lemma drain y :
  sys_ok y → usable y →
  ∃ y', serves y y' ∧ usable y' ∧ inside (y_worker y') = [] ∧ y_wire y' = y_wire y.
Proof.
  intros Hy Hu.
  destruct (flow_drains_n h map_type stack marshal_any decode_request marshal_ack marshal_reply
    unmarshal_ack concurrency _ (y_worker y) Hconc (sy_flow y Hy) (us_alive y Hu) (us_pool y Hu)
    (le_n _)) as (es & w & Hrun & Hes & Hend).
  destruct (working_run _ _ _ Hrun Hes y eq_refl Hy Hu) as (y' & Hsv & Hu' & Hw & Hwire).
  exists y'. split_and!; [done..| |done]. pose proof (us_alive y' Hu') as Hal. rewrite Hw in *.
  destruct Hend as [|Hwait]; [congruence|]. unfold wait_returns in Hwait.
  rewrite <- (inside_length concurrency) in Hwait; [by apply nil_length_inv|].
  rewrite <- Hw. by apply sy_flow, (serves_ok y).
Qed.

(** A message that the gateway sends is read. *)
Definition request_msg (payload : string) : res goerr ConnectMessage :=
  Ok {| cm_Kind := GATEWAY_EXECUTOR_REQUEST; cm_Payload := payload |}.

(** The read loop runs, or starts with a new connection. *)
Lemma starts_reading y :
  sys_ok y → usable y → inside (y_worker y) = [] →
  ∃ y', serves y y' ∧ usable y' ∧ inside (y_worker y') = [] ∧ y_wire y' = y_wire y ∧
    f_reading (y_worker y') = true.
Proof.
  intros Hy Hu Hin. destruct (f_reading (y_worker y)) eqn:Hr;
    [exists y; split; [apply serves_refl|done]|].
  destruct (event_step y Connected (with_reading (y_worker y) true)) as [Hsv Hu']; try done.
  - by apply flow_connected.
  - apply (us_alive y Hu).
  - apply (us_pool y Hu).
  - by eexists.
Qed.

Lemma read_one y payload wire :
  sys_ok y → usable y → inside (y_worker y) = [] → y_wire y = payload :: wire →
  ∃ y', serves y y' ∧ usable y' ∧ y_wire y' = wire.
Proof.
  intros Hy Hu Hin Hwire.
  destruct (starts_reading y Hy Hu Hin) as (y1 & Hsv & [Hal Hpool _] & Hin1 & Hwire1 & Hread).
  pose proof Hin1 as [Hadd _]%app_nil. set (p1 := f_pool (y_worker y1)) in *.
  set (w := with_reading (with_buffer (with_pool (y_worker y1)
    {| wp_adding := wp_adding p1 ++ [payload]; wp_queue := wp_queue p1; wp_running := wp_running p1;
       wp_idle := wp_idle p1; wp_cancelled := wp_cancelled p1;
       wp_inProgress := S (wp_inProgress p1) |}) (f_buffer (y_worker y1))) true).
  assert (fstep (y_worker y1) (Read (request_msg payload)) w) as Hs.
  { unfold w. by apply flow_read; [..|apply pool_run_one, pool_add]. }
  pose proof (flow_step_queued _ _ _ Hs) as Hq. simpl in Hq. rewrite app_nil_r in Hq.
  assert (queued (y_worker y1) = []) as Hq1.
  { unfold inside, queued in *. apply app_nil in Hin1 as [-> [-> [-> _]%app_nil]%app_nil]. done. }
  exists (worker_does y1 (Read (request_msg payload)) w wire []). split; [|split; [|done]].
  - eapply serves_trans; [exact Hsv|]. split; try done; [|by left].
    apply rtc_once, sys_worker; [done|done| |done]. right. by rewrite Hwire1, Hwire.
  - split; simpl; [done|done|]. rewrite <- Hq, Hq1. apply Forall_singleton.
    destruct (so_wire y (sy_calls y Hy) payload) as (id & c & Hc & ->); [rewrite Hwire; left|].
    by eapply ours_calm.
Qed.

(** Everything that the gateway has sent is handled. *)
Lemma settle_all k y :
  sys_ok y → usable y → length (y_wire y) = k →
  ∃ y', serves y y' ∧ usable y' ∧ y_wire y' = [] ∧ inside (y_worker y') = [].
Proof.
  revert y. induction k as [|k IH]; intros y Hy Hu Hk;
    destruct (drain y Hy Hu) as (y1 & Hsv & Hu1 & Hin & Hwire).
  - exists y1. split_and!; [done..| |done]. rewrite Hwire. by apply nil_length_inv.
  - destruct (y_wire y) as [|payload wire] eqn:Hw; [done|]. simpl in Hk. injection Hk as Hk.
    pose proof (serves_ok _ _ Hsv Hy) as Hy1.
    destruct (read_one y1 payload wire Hy1 Hu1 Hin Hwire) as (y2 & Hsv2 & Hu2 & Hwire2).
    destruct (IH y2) as (y3 & Hsv3 & ?); [by eapply serves_ok|done|by rewrite Hwire2|].
    exists y3. split; [|done]. eapply serves_trans; [|exact Hsv3]. by eapply serves_trans.
Qed.

(** An event of the buffer. *)
Lemma buffer_event y e b :
  sys_ok y → usable y → fstep (y_worker y) e (with_buffer (y_worker y) b) → requests e = [] →
  dropped e = [] → written e ⊆ attempted (y_worker y) e →
  ∃ y', serves y y' ∧ usable y' ∧ f_buffer (y_worker y') = b ∧ y_net y' = written e ++ y_net y.
Proof.
  intros Hy Hu Hs Hreq Hdrop Harr.
  destruct (event_step y e _ Hy Hu Hs Hreq Harr) as [Hsv Hu']; [by rewrite Hdrop|apply Hu..|].
  by eexists.
Qed.

(** The reply to a call can reach the gateway. *)
Lemma deliver y id c :
  sys_ok y → usable y → y_made y !! id = Some c → replied y id c →
  ∃ y' resp, serves y y' ∧ usable y' ∧ reply_to id c = Some resp ∧ resp ∈ y_net y'.
Proof.
  intros Hy Hu Hc (resp & Hresp & Hat).
  assert (∃ y1, serves y y1 ∧ usable y1 ∧
    (resp ∈ y_net y1 ∨ buffered (f_buffer (y_worker y1)) !! sr_RequestId resp = Some resp))
    as (y1 & Hsv1 & Hu1 & Hat1).
  { destruct Hat as [Hnet|[Hp|Hb]]; [exists y; split; [apply serves_refl|auto]| |
      exists y; split; [apply serves_refl|auto]].
    destruct (sy_pending y Hy _ _ Hp) as [Hw _].
    destruct (buffer_event y (Expire resp) (expire resp (f_buffer (y_worker y))))
      as (y1 & Hsv & Hu1 & Hb & _); [done|done|by apply flow_expire|done..|].
    exists y1. split_and!; [done..|]. right. rewrite Hb. unfold expire. rewrite Hp.
    apply lookup_insert_eq. }
  destruct Hat1 as [Hnet|Hb]; [by exists y1, resp|].
  destruct (flush_sends (f_buffer (y_worker y1))) as [b Hflush].
  destruct (buffer_event y1 (Flush (buffered (f_buffer (y_worker y1)))) b)
    as (y2 & Hsv2 & Hu2 & _ & Hnet); [by eapply serves_ok|done|by apply flow_flush|done..|].
  exists y2, resp. split; [by eapply serves_trans|]. split_and!; [done..|].
  rewrite Hnet. apply elem_of_app. left. simpl. apply list_elem_of_fmap.
  exists (sr_RequestId resp, resp). split; [done|]. by apply elem_of_map_to_list.
Qed.

(** A message that is not acknowledged is sent again. *)
Lemma acknowledged y id c :
  sys_ok y → usable y → y_waiting y !! id = Some c →
  ∃ y', serves y y' ∧ usable y' ∧ message id c ∉ y_dropped y'.
Proof.
  intros Hy Hu Hc. destruct (decide (message id c ∈ y_dropped y)) as [Hd|Hd];
    [|exists y; split; [apply serves_refl|done]].
  assert (y_made y !! id = Some c) as Hmade by (eapply lookup_weaken; [done|apply (sy_waiting y Hy)]).
  apply list_elem_of_split in Hd as (d1 & d2 & Hd).
  exists (sends_again y (message id c) (d1 ++ d2)). split; [|split; [by destruct Hu|]].
  - split; try done; [by eapply rtc_once, sys_resend|]. simpl. rewrite Hd. set_solver.
  - pose proof (so_once _ (sy_calls y Hy) id c Hmade) as Honce. unfold whereabouts in Honce.
    rewrite Hd in Honce. destruct Honce as (rest & Hrest & Hno). simpl. intros Hin. apply Hno.
    assert (rest ≡ₚ y_wire y ++ queued (y_worker y) ++ y_called y ++ d1 ++ d2) as ->.
    { apply (Permutation_cons_inv (a := message id c)). rewrite <- Hrest. solve_Permutation. }
    set_solver.
Qed.

(** A call that is waited for can be answered. *)
Lemma answer_call y id c :
  sys_ok y → usable y → y_waiting y !! id = Some c →
  ∃ y' resp, serves y y' ∧ usable y' ∧ reply_to id c = Some resp ∧ resp ∈ y_net y'.
Proof.
  intros Hy Hu Hc. destruct (acknowledged y id c Hy Hu Hc) as (y0 & Hsv0 & Hu0 & Hkept).
  pose proof (serves_ok _ _ Hsv0 Hy) as Hy0.
  destruct (settle_all _ y0 Hy0 Hu0 eq_refl) as (y1 & Hsv & Hu1 & Hwire & Hin).
  pose proof (serves_ok _ _ Hsv Hy0) as Hy1. pose proof (sy_calls y1 Hy1) as Hcalls.
  assert (y_made y1 !! id = Some c) as Hc1.
  { rewrite (sv_made _ _ Hsv), (sv_made _ _ Hsv0). eapply lookup_weaken; [done|apply (sy_waiting y Hy)]. }
  assert (replied y1 id c) as Hrep.
  { pose proof (once_in_in _ _ (so_once y1 Hcalls id c Hc1)) as Hl. unfold whereabouts in Hl.
    assert (queued (y_worker y1) = []) as Hq.
    { unfold inside, queued in *. apply app_nil in Hin as [-> [-> [-> _]%app_nil]%app_nil]. done. }
    rewrite Hwire, Hq in Hl. simpl in Hl. apply elem_of_app in Hl as [Hl|Hl]; [apply (so_called y1 Hcalls id c Hc1 Hl)|].
    apply (sv_dropped _ _ Hsv) in Hl as [Hl|Hl]; [done|]. by destruct (ours_not_foreign y1 id c Hcalls Hc1). }
  destruct (deliver y1 id c Hy1 Hu1 Hc1 Hrep) as (y2 & resp & Hsv2 & ?).
  exists y2, resp. split; [|done]. eapply serves_trans; [|done]. by eapply serves_trans.
Qed.

(** Whatever the executor may do, the system can do. *)
Lemma simulate y ex :
  sys_ok y → usable y → ex_step connection ans (y_ex y) ex →
  ∃ y', rtc sys_step y y' ∧ usable y' ∧ y_ex y' = ex.
Proof.
  intros Hy Hu [(c & Hs)|[(c & rep & Hr & Hrep)|(op & Hd & Hop & ->)]]%ex_step_kinds.
  - destruct (Hfresh (dom (y_made y))) as (id & Hid & Hnew%not_elem_of_dom).
    exists (makes_call y ex id c). split; [by apply rtc_once, sys_send|]. split; [by destruct Hu|done].
  - assert (c ∈ (map_to_list (y_waiting y)).*2) as Hc.
    { rewrite <- (sy_flight y Hy), (receives_in_flight _ _ _ _ Hr). left. }
    apply list_elem_of_fmap in Hc as ([id c'] & -> & Hc%elem_of_map_to_list). simpl in *.
    destruct (answer_call y id c' Hy Hu Hc) as (y1 & resp & [Hrun Hex Hm Hw _] & Hu1 & Hresp & Hnet).
    destruct (call_reply id c' rep Hrep) as (resp' & Hresp' & Hrid & Hread).
    assert (resp' = resp) as -> by congruence. subst id.
    eexists. split; [eapply rtc_r; [exact Hrun|];
      apply (sys_receive y1 c' resp rep ex); [by rewrite Hw|done..|by rewrite Hex]|].
    split; [by destruct Hu1|done].
  - eexists. split; [by apply rtc_once, (sys_answer y op)|]. split; [by destruct Hu|done].
Qed.

Lemma simulate_run n ex ex' :
  nsteps (ex_step connection ans) n ex ex' → ∀ y, sys_ok y → usable y → y_ex y = ex →
  ∃ y', rtc sys_step y y' ∧ usable y' ∧ y_ex y' = ex'.
Proof.
  induction 1 as [ex|n ex1 ex2 ex3 Hs _ IH]; intros y Hy Hu <-; [by exists y|].
  destruct (simulate y ex2 Hy Hu Hs) as (y1 & Hrun & Hu1 & Hex1).
  destruct (IH y1) as (y2 & Hrun2 & ?); [by eapply sys_run_ok|done..|].
  exists y2. split; [by etransitivity|done].
Qed.

(** The execution can be completed. *)
Lemma completes k y :
  sys_ok y → usable y → (measure l (y_ex y) ≤ k)%nat →
  ∃ y', rtc sys_step y y' ∧ usable y' ∧ ex_done (y_ex y') = Some fin.
Proof.
  revert y. induction k as [|k IH]; intros y Hy Hu Hk; pose proof (reached_ok y Hy) as Hex.
  all: destruct (ex_done (y_ex y)) as [rep|] eqn:Hd;
    [exists y; destruct (ok_done _ _ _ _ _ _ _ Hex rep Hd) as [-> _]; by rewrite Hd|].
  all: destruct (progress connection received ans req p l r fin Hcaller Hi (y_ex y) Hex Hd) as [ex Hs].
  all: destruct (ex_step_ok connection received ans req p l r fin received_view Hcaller Hi Hids _ _ Hex Hs)
    as [_ Hm].
  - lia.
  - destruct (simulate y ex Hy Hu Hs) as (y1 & Hrun & Hu1 & Hex1).
    destruct (IH y1) as (y2 & Hrun2 & ?); [by eapply sys_run_ok|done|rewrite Hex1; lia|].
    exists y2. split; [by etransitivity|done].
Qed.
End execution.
End served.

(** ** Executions over a worker *)

(** The worker serves the function, under requests with identifiers, and replies and the result
    of the execution can be sent. *)
Record setup (p : prog V) (l : list (string * GeneratorOpcode)) (r : ending V)
  (status : SDKResponseStatus) (text : string) : Prop := {
  st_connected : connected decode_request encode_request marshal_ack unhindered h sf base;
  st_named : ¬ mine "";
  st_sendable id c resp : reply_to id c = Some resp → marshal_reply resp = true;
  st_documents : documents ans req l;
  st_text : reply_text marshal_any (final stack r) = Some (status, text);
  st_program : runs_program map_type sf req p;
  st_serialisable f arg : Func sf = Some f → serialisable (f arg);
  st_ideal : ideal (answer received ans) p = Some (l, r);
  st_names : NoDup (g_id <$> l.*2) }.

Lemma setup_caller p l r status text :
  setup p l r status text → Caller connection received ans req p l (status, text).
Proof.
  intros [Hc _ _ Hd Ht Hp Hser Hi' Hids'].
  by eapply (connection_caller map_type stack marshal_any decode_request encode_request
    marshal_ack unhindered h sf req base ans p l r).
Qed.

(** C3: executions over a worker.  The executor's calls are messages for a worker, which reads,
    queues, invokes and answers them in any order among the requests of others, at the pace of
    its pool; its writes may fail or arrive nevertheless, the buffer sends replies again, and
    what was not acknowledged may be sent again.  In every state that this system reaches the
    executor is in the course of a run with the replies of [connectInvoke] alone, so that no
    step runs twice and the end is that of the ideal execution; the calls in flight are those
    it waits for; every message that was sent is in exactly one place, on the wire, in the
    worker, among those whose function was called or those that were not acknowledged, so that
    no function is called twice for it, and once it was called the reply is in the buffer or at
    the gateway; and no request of the execution ends the process. *)
Theorem executes_over_worker p l r status text y :
  setup p l r status text → rtc sys_step start y →
  (∃ n, nsteps (ex_step connection ans) n ex_start (y_ex y) ∧
    run_ok connection received ans l (status, text) n (y_ex y)) ∧
  (in_flight (y_ex y) ≡ₚ (map_to_list (y_waiting y)).*2 ∧ y_waiting y ⊆ y_made y) ∧
  (∀ id c, y_made y !! id = Some c →
    once_in (message id c) (y_wire y ++ queued (y_worker y) ++ y_called y ++ y_dropped y) ∧
    (message id c ∈ y_called y → replied y id c)) ∧
  (∀ payload w, fstep (y_worker y) (Crash payload) w → foreign payload).
Proof.
  intros Hst Hrun. pose proof (setup_caller _ _ _ _ _ Hst) as Hcaller.
  destruct Hst as [Hcn Hmine Hsend _ _ _ _ Hi Hids].
  pose proof (sys_run_ok Hcn Hmine Hsend p l r _ Hcaller Hi Hids _ _ Hrun (start_sys_ok)) as Hy.
  destruct (sy_run y Hy) as [n Hn]. split_and!.
  - exists n. split; [done|].
    by apply (caller_runs connection received ans req p l r _ n _ received_view).
  - apply (sy_flight y Hy).
  - apply (sy_waiting y Hy).
  - intros id c Hc. split; [by apply (so_once y (sy_calls y Hy))|by apply (so_called y (sy_calls y Hy))].
  - intros payload w. by eapply (no_crash_of_ours Hcn).
Qed.

(** C4: the worker does not hold an execution up.  From every state that is reached while the
    process and its pool are alive, and with no request of others inside that panics, there is
    a continuation in which the execution ends as the ideal one does: connections can be made,
    messages read, handled, and their replies sent, for as long as there are fresh
    identifiers. *)
Theorem worker_completes p l r status text y :
  setup p l r status text → (0 < concurrency)%nat →
  (∀ X : gset string, ∃ id, mine id ∧ id ∉ X) →
  rtc sys_step start y → usable y →
  ∃ y', rtc sys_step y y' ∧ usable y' ∧ ex_done (y_ex y') = Some (status, text).
Proof.
  intros Hst Hconc Hfresh Hrun Hu. pose proof (setup_caller _ _ _ _ _ Hst) as Hcaller.
  destruct Hst as [Hcn Hmine Hsend _ _ _ _ Hi Hids].
  pose proof (sys_run_ok Hcn Hmine Hsend p l r _ Hcaller Hi Hids _ _ Hrun (start_sys_ok)) as Hy.
  by eapply (completes Hcn Hmine Hsend p l r).
Qed.
End worker_calls.

(** ** Example: the trip over a worker *)

(** The identifiers of its requests. *)
Definition trip_id (id : string) : Prop := ∃ s, id = String "r" s.

Abbreviation trip_sys := (sys_step raw_type "" Some decode_message encode_message (λ _, true) (λ _, true)
  (λ _, true) 2 trip_handler trip_request trip_message stored trip_id).
Abbreviation trip_setup := (setup raw_type "" Some decode_message encode_message (λ _, true) (λ _, true)
  trip_handler trip_request trip_message stored trip_id trip_function).

Lemma trip_ids_fresh (X : gset string) : ∃ id, trip_id id ∧ id ∉ X.
Proof.
  pose (tail := λ s, match s with String _ s => s | "" => "" end).
  pose (s := fresh (set_map (C := gset string) (D := gset string) tail X)).
  exists (String "r" s). split; [by exists s|]. intros Hin.
  apply (is_fresh (set_map (C := gset string) (D := gset string) tail X)).
  apply elem_of_map. by exists (String "r" s).
Qed.

Lemma trip_sets_up : trip_setup trip (trip_calls stored) (Returns (trip_result, None)) DONE trip_text.
Proof.
  split.
  - exact trip_connected.
  - by intros [s Hs].
  - done.
  - exact trip_documents.
  - exact trip_reply_text.
  - exact trip_runs.
  - exact trip_serialisable.
  - exact trip_answered.
  - exact trip_names.
Qed.

Abbreviation trip_start := (start 2).

Lemma trip_usable :
  usable raw_type "" Some decode_message (λ _, true) trip_handler trip_start.
Proof. split; simpl; [done|done|constructor]. Qed.

(** The schedule of [EndToEnd], over the worker. *)
Lemma trip_over_worker :
  ∃ y, rtc trip_sys trip_start y ∧
    g_name <$> ex_ran (y_ex y) = trip_steps ∧ ex_done (y_ex y) = Some (DONE, trip_text).
Proof.
  pose proof trip_sets_up as Hst. pose proof (setup_caller _ _ _ _ _ _ _ _ _ _ _ _ _ _ _ _ _ _ Hst) as Hcaller.
  destruct (scheduled_run trip_connection received stored trip_request trip (trip_calls stored)
    (Returns (trip_result, None)) (DONE, trip_text) trip_schedule trip_steps) as (s & Hn & Hran & Hdone).
  - exact received_view.
  - exact Hcaller.
  - exact trip_answered.
  - exact trip_names.
  - exact trip_connection_ends.
  - assert (¬ trip_id "") as Hne by by intros [].
    destruct (simulate_run raw_type "" Some decode_message encode_message (λ _, true) (λ _, true)
      (λ _, true) 2 trip_handler trip_request trip_message stored trip_id trip_function trip_connected
      Hne ltac:(done) trip (trip_calls stored) (Returns (trip_result, None)) (DONE, trip_text) Hcaller
      trip_answered trip_names ltac:(lia) trip_ids_fresh _ _ _ Hn trip_start)
      as (y & Hrun & _ & Hy); [by apply start_sys_ok|exact trip_usable|done|].
    exists y. rewrite Hy. done.
Qed.

Lemma executes_over_worker_witness :
  ∃ y n, rtc trip_sys trip_start y ∧ ex_done (y_ex y) = Some (DONE, trip_text) ∧
    g_name <$> ex_ran (y_ex y) = trip_steps ∧
    run_ok trip_connection received stored (trip_calls stored) (DONE, trip_text) n (y_ex y).
Proof.
  destruct trip_over_worker as (y & Hrun & Hran & Hdone).
  destruct (executes_over_worker raw_type "" Some decode_message encode_message (λ _, true) (λ _, true)
    (λ _, true) 2 trip_handler trip_request trip_message stored trip_id trip_function trip
    (trip_calls stored) (Returns (trip_result, None)) DONE trip_text y trip_sets_up Hrun)
    as ((n & _ & Hok) & _).
  exists y, n. split; [exact Hrun|]. split; [exact Hdone|]. split; [exact Hran|exact Hok].
Defined.

Lemma worker_completes_witness :
  ∃ y, rtc trip_sys trip_start y ∧ ex_done (y_ex y) = Some (DONE, trip_text).
Proof.
  destruct (worker_completes raw_type "" Some decode_message encode_message (λ _, true) (λ _, true)
    (λ _, true) 2 trip_handler trip_request trip_message stored trip_id trip_function trip
    (trip_calls stored) (Returns (trip_result, None)) DONE trip_text trip_start trip_sets_up
    ltac:(lia) trip_ids_fresh (rtc_refl _ _) trip_usable) as (y & Hrun & _ & Hdone).
  exists y. split; [exact Hrun|exact Hdone].
Defined.
