(* ===== verification/Connection.v ===== *)
(** * The life of a connection (handleConnection in connect/connection.go)

    From the flush at its start to its end: what it does to the worker is a run of
    [WorkerFlow], and a graceful shutdown leaves no request unfinished. *)

From S2P Require Import Prelude GoBytes GoTime GoJson GoHttp Env Errors.
From S2P Require Import Manager Step Program Functions Handler Invoke Configs Serve ServeProps.
From S2P Require Import GoUrl GoUrlParse Signature Sync Buffer WorkerPool ConnectInvoke Handshake.
From S2P Require Import WorkerFlow.

Open Scope Z_scope.

(** What the function does besides reading: flush the buffer over the API, start a
    connection to another gateway and wait for it, and what it sends to the gateway. *)
Inductive conn_act :=
  | ActFlush
  | ActConnect (excludeGateways : list string)
  | ActPause
  | ActWait
  | ActClose (reason : string)
  | ActCloseNow.

(** [connectproto.WorkerDisconnectReason_WORKER_SHUTDOWN] (generated code). *)
Definition WORKER_SHUTDOWN : string := "WORKER_SHUTDOWN".

(** [if h.messageBuffer.hasMessages() { h.messageBuffer.flush(..) }] *)
Definition flush_acts (b : messageBuffer) : list conn_act := if hasMessages b then [ActFlush] else [].

Definition flush_events (b b' : messageBuffer) : list flow_event :=
  if hasMessages b then [Flush (buffered b ∖ buffered b')] else [].

(** The acts after the read loop: when the gateway drains, and when the worker is closed
    with the buffer [b] once its requests are done. *)
Definition drain_acts (gatewayGroupName : string) : list conn_act :=
  [ActConnect [gatewayGroupName]; ActCloseNow].

Definition shutdown_acts (b : messageBuffer) : list conn_act :=
  [ActPause; ActWait; ActClose WORKER_SHUTDOWN] ++ flush_acts b ++ [ActCloseNow].

Definition send_buffered_err (e : goerr) : goerr :=
  newReconnectErr (errorf "could not send buffered messages: " e "").

(** The rest of the worker goes on while a connection does not read. *)
Definition unread (e : flow_event) : Prop :=
  match e with Connected | Read _ => False | _ => True end.

Section connection.
Context {V : Type} (h : handler V).
Context (map_type : gotype V) (stack : string) (marshal_any : V → option json).
Context (decode_request : string → option ExecutorRequest).
Context (marshal_ack : ExecutorRequest → bool) (marshal_reply : SDKResponse → bool).
Context (unmarshal_ack : string → bool) (concurrency : nat) (gatewayGroupName : string).

Abbreviation run := (flow_run h map_type stack marshal_any decode_request marshal_ack
  marshal_reply unmarshal_ack concurrency).

(** The read loop, on a connection that has just been flushed: it reads until a round ends
    it with [e]. *)
Inductive reading (s : flow) (e : goerr) : list flow_event → flow → Prop :=
  | reading_ends es r s' :
      run s (Connected :: es ++ [Read r]) s' → Forall (λ e, e ≠ Connected) es →
      read_step r = REnd e → reading s e (Connected :: es ++ [Read r]) s'.

(** [handleConnection]: the events of the worker, the acts, and how it returns.  [missed]
    tells that the heartbeat check has cancelled the reader. *)
Inductive handleConnection (s : flow) : list flow_event → list conn_act → flow → connection_end → Prop :=
  | conn_unflushed b e :
      flush_to (f_buffer s) b (Some e) →
      handleConnection s (flush_events (f_buffer s) b) (flush_acts (f_buffer s) ++ [ActCloseNow])
        (with_buffer s b) (EndError (send_buffered_err e))
  | conn_failed b es s1 es2 s2 missed e e' :
      flush_to (f_buffer s) b None → reading (with_buffer s b) e es s1 →
      run s1 es2 s2 → Forall unread es2 → connection_ended false missed e = EndError e' →
      handleConnection s (flush_events (f_buffer s) b ++ es ++ es2)
        (flush_acts (f_buffer s) ++ [ActCloseNow]) s2 (EndError e')
  | conn_drained b es s1 es2 s2 missed e :
      flush_to (f_buffer s) b None → reading (with_buffer s b) e es s1 →
      run s1 es2 s2 → connection_ended false missed e = EndDraining →
      handleConnection s (flush_events (f_buffer s) b ++ es ++ es2)
        (flush_acts (f_buffer s) ++ drain_acts gatewayGroupName) s2 EndDraining
  | conn_shutdown b es s1 es2 s2 missed e b2 err :
      flush_to (f_buffer s) b None → reading (with_buffer s b) e es s1 →
      run s1 es2 s2 → Forall unread es2 → connection_ended true missed e = EndShutdown →
      wait_returns (f_pool s2) → f_crashed s2 = false → flush_to (f_buffer s2) b2 err →
      handleConnection s
        (flush_events (f_buffer s) b ++ es ++ es2 ++ flush_events (f_buffer s2) b2)
        (flush_acts (f_buffer s) ++ shutdown_acts (f_buffer s2)) (with_buffer s2 b2) EndShutdown.

Lemma flush_is_run s b err :
  f_crashed s = false → flush_to (f_buffer s) b err →
  run s (flush_events (f_buffer s) b) (with_buffer s b).
Proof.
  intros Hc Hf. pose proof (flush_to_run _ _ _ Hf) as Hrun. unfold flush_to, flush_events in *.
  destruct (hasMessages (f_buffer s)).
  - destruct Hf as (send & order & n & Hord & Hf). eapply flow_run_cons; [done| |apply flow_run_nil].
    apply flow_flush. by eapply step_flush.
  - destruct Hf as [-> _]. destruct s. apply flow_run_nil.
Qed.

(** Everything a connection does to the worker is a run of it. *)
Lemma connection_is_run s evs acts s' r :
  f_crashed s = false → handleConnection s evs acts s' r → run s evs s'.
Proof.
  intros Hc. destruct 1 as [b e Hf|b es s1 es2 s2 missed e e' Hf [? ? ? Hr] Hr2 _ _
    |b es s1 es2 s2 missed e Hf [? ? ? Hr] Hr2 _|b es s1 es2 s2 missed e b2 err Hf [? ? ? Hr] Hr2 _ _ _ Hc2 Hf2].
  - by eapply flush_is_run.
  - eapply flow_run_app; [by eapply flush_is_run|]. by eapply flow_run_app.
  - eapply flow_run_app; [by eapply flush_is_run|]. by eapply flow_run_app.
  - eapply flow_run_app; [by eapply flush_is_run|]. eapply flow_run_app; [done|].
    eapply flow_run_app; [done|]. by eapply flush_is_run.
Qed.

(** C29: a graceful shutdown: a connection that ends because the worker is closed tells the
    gateway to send nothing more, waits, closes and flushes, in this order.  Then no
    request is left inside the worker: the handlers of all requests that were read, over
    this connection or before it, have ended, each as often as it was read; and a reply
    they produced for a request with an ID is pending or buffered unless a flush has sent
    it, as long as no other reply to the same request was produced. *)
Theorem graceful_shutdown es0 s evs acts s' :
  run (new_flow concurrency) es0 s → f_crashed s = false →
  handleConnection s evs acts s' EndShutdown →
  (∃ b b', acts = flush_acts b ++ [ActPause; ActWait; ActClose WORKER_SHUTDOWN] ++
                  flush_acts b' ++ [ActCloseNow]) ∧
  inside s' = [] ∧ (es0 ++ evs) ≫= requests ≡ₚ (es0 ++ evs) ≫= finished ∧
  ∀ payload resp, Produce payload resp ∈ es0 ++ evs → sr_RequestId resp ≠ "" →
    (∀ r, r ∈ (es0 ++ evs) ≫= produced → sr_RequestId r = sr_RequestId resp → r = resp) →
    held resp (f_buffer s') ∨
    ∃ sent, Flush sent ∈ es0 ++ evs ∧ sent !! sr_RequestId resp = Some resp.
Proof.
  intros Hrun0 Hc Hconn. pose proof (connection_is_run _ _ _ _ _ Hc Hconn) as Hrun1.
  assert (run (new_flow concurrency) (es0 ++ evs) s') as Hrun by by eapply flow_run_app.
  assert (wait_returns (f_pool s') ∧ ∃ b b', acts = flush_acts b ++ shutdown_acts b') as [Hw Hacts].
  { inversion Hconn; subst. split; [done|by eauto]. }
  pose proof (flow_accounts _ _ _ _ _ _ _ _ _ _ _ Hrun) as (Hcons & _ & Hin).
  apply Hin in Hw. rewrite Hw in Hcons. split; [done|]. split; [done|]. split; [done|].
  intros payload resp. by apply (produced_kept _ _ _ _ _ _ _ _ _ _ _ _ _ Hrun).
Qed.
End connection.

(** ** Examples *)

Section examples.
Abbreviation echo_h := (echo_handler None false).
Abbreviation echo_run := (flow_run echo_h raw_type "" Some by_slug (λ _, true) (λ _, true) (λ _, true) 1).

Definition canceled : res goerr ConnectMessage := Err (ESentinel ErrCanceled).

(** The worker after a request was read and the read loop ended, and once it is done. *)
Definition read_flow : flow :=
  {| f_pool := {| wp_adding := []; wp_queue := ["app-echo"]; wp_running := []; wp_idle := 1;
                  wp_cancelled := false; wp_inProgress := 1 |};
     f_buffer := newMessageBuffer; f_invoking := []; f_replying := []; f_reading := false;
     f_crashed := false |}.

Definition done_flow : flow :=
  {| f_pool := NewWorkerPool 1; f_buffer := addPending echo_reply newMessageBuffer;
     f_invoking := []; f_replying := []; f_reading := false; f_crashed := false |}.

Definition closing_events : list flow_event :=
  [Connected; Read echo_request_msg; Send "app-echo"; Read canceled; Take "app-echo";
   Produce "app-echo" echo_reply; Reply "app-echo" echo_reply None].

Lemma echo_read :
  echo_run (new_flow 1) (Connected :: [Read echo_request_msg; Send "app-echo"] ++ [Read canceled])
    read_flow.
Proof.
  eapply flow_run_cons; [reflexivity|by apply flow_connected|].
  eapply flow_run_cons; [reflexivity|apply flow_read; [reflexivity..|]|].
  { eapply pool_run_cons; [apply pool_add|apply pool_run_nil]. }
  eapply flow_run_cons; [reflexivity|apply flow_send, (pool_send 1 _ "app-echo" [] []); simpl; [reflexivity|lia]|].
  eapply flow_run_cons; [reflexivity|apply flow_read; [reflexivity..|apply pool_run_nil]|].
  apply flow_run_nil.
Defined.

Lemma echo_handled :
  echo_run read_flow [Take "app-echo"; Produce "app-echo" echo_reply; Reply "app-echo" echo_reply None]
    done_flow.
Proof.
  eapply flow_run_cons; [reflexivity|apply flow_take, (pool_take 1 _ "app-echo" [] 0); reflexivity|].
  eapply flow_run_cons; [reflexivity|apply (flow_produce _ _ _ _ _ _ _ _ _ _ "app-echo" echo_reply [] [])|].
  - reflexivity.
  - exists (takes 1). vm_compute. reflexivity.
  - reflexivity.
  - eapply flow_run_cons; [reflexivity|eapply (flow_reply _ _ _ _ _ _ _ _ _ _ "app-echo" echo_reply None [] [])|].
    + reflexivity.
    + apply (pool_done 1 _ "app-echo" [] []). reflexivity.
    + apply flow_run_nil.
Defined.

Lemma graceful_shutdown_witness :
  inside done_flow = [] ∧ closing_events ≫= requests ≡ₚ closing_events ≫= finished ∧
  held echo_reply (f_buffer done_flow).
Proof.
  destruct (graceful_shutdown echo_h raw_type "" Some by_slug (λ _, true) (λ _, true) (λ _, true) 1
    "group-a" [] (new_flow 1) closing_events (shutdown_acts (f_buffer done_flow)) done_flow)
    as (_ & Hin & Hreq & Hreply).
  - apply flow_run_nil.
  - reflexivity.
  - apply (conn_shutdown _ _ _ _ _ _ _ _ _ "group-a" (new_flow 1) newMessageBuffer
      (Connected :: [Read echo_request_msg; Send "app-echo"] ++ [Read canceled]) read_flow
      [Take "app-echo"; Produce "app-echo" echo_reply; Reply "app-echo" echo_reply None] done_flow
      false (ESentinel ErrCanceled) (f_buffer done_flow) None).
    + by split.
    + apply reading_ends; [exact echo_read|by repeat constructor|reflexivity].
    + exact echo_handled.
    + by repeat constructor.
    + reflexivity.
    + reflexivity.
    + reflexivity.
    + by split.
  - split; [exact Hin|]. split; [exact Hreq|].
    destruct (Hreply "app-echo" echo_reply) as [Hheld|(sent & Hsent & _)].
    + do 5 right. left.
    + discriminate.
    + intros r Hr _. by apply list_elem_of_singleton in Hr.
    + exact Hheld.
    + exfalso. clear -Hsent. simpl in Hsent. set_solver.
Defined.
End examples.
