(* ===== verification/RunLoop.v ===== *)
(** * The connection loop of a worker (connect/handler.go, connect in
    connect/connection.go)

    [connectHandler.Connect] starts a loop that owns the connection's state, a
    goroutine that waits for the loop, and one goroutine per connection; they
    communicate over channels without room, and the caller waits among them.  The
    goroutines are a step relation; what the loop does with a message is a function. *)

From S2P Require Import Prelude GoBytes GoUrl GoUrlParse GoTime GoJson Errors GoHttp Env Sync.
From S2P Require Import Buffer Handshake.

Open Scope Z_scope.

(** ** Data *)

Inductive ConnectionState :=
  | CONNECTING | ACTIVE | PAUSED | RECONNECTING | CLOSING | CLOSED.

(** [type authContext struct] *)
Record authContext := { hashedSigningKey : string; fallback : bool }.

(** [type connectReport struct] *)
Record connectReport := { reconnect : bool; rp_err : option goerr }.

(** A goroutine of [connect].  [Dialing doomed] has not prepared its connection yet;
    [doomed] tells that its context had ended before it was started.  The next two wait
    to tell the loop, [Reporting] waits to report its end. *)
Inductive conn :=
  | Dialing (doomed : bool) (key : string) (exclude : list string)
  | Connected (key group : string)
  | Starting (key group : string)
  | Running (key group : string)
  | Reporting (r : connectReport).

(** The options of [connect]: whether another channel is told of the connection, and the
    gateways to avoid. *)
Record connectOpts := { notifyConnectedChan : bool; excludeGateways : list string }.

Definition connectOpt := connectOpts → connectOpts.

Definition withNotifyConnectedChan : connectOpt := λ opts,
  {| notifyConnectedChan := true; excludeGateways := excludeGateways opts |}.

Definition withExcludeGateways (exclude : list string) : connectOpt := λ opts,
  {| notifyConnectedChan := notifyConnectedChan opts; excludeGateways := exclude |}.

Definition connectOpts_of (opts : list connectOpt) : connectOpts :=
  foldl (λ o opt, opt o) {| notifyConnectedChan := false; excludeGateways := [] |} opts.

(** [go h.connect(...)] *)
Definition go_connect (doomed : bool) (key : string) (opts : list connectOpt) : conn :=
  Dialing doomed key (excludeGateways (connectOpts_of opts)).

(** What follows once the first result has been handed over: carry on as connected, or
    leave the loop. *)
Inductive after := ThenActive | ThenReturn (err : option goerr).

(** Where the loop is: at its [select], sending the first result, waiting to reconnect,
    or finished. *)
Inductive loop_at :=
  | Selecting
  | SendingInitial (r : option goerr) (next : after)
  | BackingOff
  | Finished (err : option goerr).

(** Where [Connect] is: about to start the first connection, waiting for its result,
    inside [Close], or returned. *)
Inductive main_at := Initiating | Waiting | InClose | Returned (err : option goerr).

(** Where the goroutine of [h.eg] is. *)
Inductive finisher_at := AwaitingLoop | AwaitingSignal | FinisherDone.

(** The variables of [connectHandler] and of [Connect], with the contexts. *)
Record worker := {
  w_loop : loop_at;
  w_main : main_at;
  w_finisher : finisher_at;
  w_attempts : nat;
  w_isInitial : bool;
  w_auth : authContext;
  w_state : ConnectionState;
  w_startCancelled : bool;
  w_workerCancelled : bool;
  w_conns : list conn;
  w_buffer : messageBuffer }.

(** [expBackoff] *)
Definition backoffTimes : list Z :=
  [second; 2 * second; 5 * second; 10 * second; 20 * second; 30 * second; minute; 2 * minute;
   5 * minute].

Definition expBackoff (attempt : nat) : Z :=
  if (length backoffTimes <=? attempt)%nat then List.last backoffTimes 0
  else nth attempt backoffTimes 0.

(** Record updates. *)
Definition set_loop (l : loop_at) (w : worker) : worker :=
  {| w_loop := l; w_main := w_main w; w_finisher := w_finisher w; w_attempts := w_attempts w;
     w_isInitial := w_isInitial w; w_auth := w_auth w; w_state := w_state w;
     w_startCancelled := w_startCancelled w; w_workerCancelled := w_workerCancelled w;
     w_conns := w_conns w; w_buffer := w_buffer w |}.

Definition set_main (m : main_at) (start_cancelled worker_cancelled : bool) (w : worker) : worker :=
  {| w_loop := w_loop w; w_main := m; w_finisher := w_finisher w; w_attempts := w_attempts w;
     w_isInitial := w_isInitial w; w_auth := w_auth w; w_state := w_state w;
     w_startCancelled := start_cancelled; w_workerCancelled := worker_cancelled;
     w_conns := w_conns w; w_buffer := w_buffer w |}.

Definition set_finisher (f : finisher_at) (w : worker) : worker :=
  {| w_loop := w_loop w; w_main := w_main w; w_finisher := f; w_attempts := w_attempts w;
     w_isInitial := w_isInitial w; w_auth := w_auth w; w_state := w_state w;
     w_startCancelled := w_startCancelled w; w_workerCancelled := w_workerCancelled w;
     w_conns := w_conns w; w_buffer := w_buffer w |}.

Definition set_attempts (n : nat) (w : worker) : worker :=
  {| w_loop := w_loop w; w_main := w_main w; w_finisher := w_finisher w; w_attempts := n;
     w_isInitial := w_isInitial w; w_auth := w_auth w; w_state := w_state w;
     w_startCancelled := w_startCancelled w; w_workerCancelled := w_workerCancelled w;
     w_conns := w_conns w; w_buffer := w_buffer w |}.

Definition clear_initial (w : worker) : worker :=
  {| w_loop := w_loop w; w_main := w_main w; w_finisher := w_finisher w; w_attempts := w_attempts w;
     w_isInitial := false; w_auth := w_auth w; w_state := w_state w;
     w_startCancelled := w_startCancelled w; w_workerCancelled := w_workerCancelled w;
     w_conns := w_conns w; w_buffer := w_buffer w |}.

Definition set_auth (a : authContext) (w : worker) : worker :=
  {| w_loop := w_loop w; w_main := w_main w; w_finisher := w_finisher w; w_attempts := w_attempts w;
     w_isInitial := w_isInitial w; w_auth := a; w_state := w_state w;
     w_startCancelled := w_startCancelled w; w_workerCancelled := w_workerCancelled w;
     w_conns := w_conns w; w_buffer := w_buffer w |}.

Definition set_state (s : ConnectionState) (w : worker) : worker :=
  {| w_loop := w_loop w; w_main := w_main w; w_finisher := w_finisher w; w_attempts := w_attempts w;
     w_isInitial := w_isInitial w; w_auth := w_auth w; w_state := s;
     w_startCancelled := w_startCancelled w; w_workerCancelled := w_workerCancelled w;
     w_conns := w_conns w; w_buffer := w_buffer w |}.

Definition set_conns (cs : list conn) (w : worker) : worker :=
  {| w_loop := w_loop w; w_main := w_main w; w_finisher := w_finisher w; w_attempts := w_attempts w;
     w_isInitial := w_isInitial w; w_auth := w_auth w; w_state := w_state w;
     w_startCancelled := w_startCancelled w; w_workerCancelled := w_workerCancelled w;
     w_conns := cs; w_buffer := w_buffer w |}.

Definition set_buffer (b : messageBuffer) (w : worker) : worker :=
  {| w_loop := w_loop w; w_main := w_main w; w_finisher := w_finisher w; w_attempts := w_attempts w;
     w_isInitial := w_isInitial w; w_auth := w_auth w; w_state := w_state w;
     w_startCancelled := w_startCancelled w; w_workerCancelled := w_workerCancelled w;
     w_conns := w_conns w; w_buffer := b |}.

(** ** The loop *)

(** Close reasons of the gateway, from the vendored package [syscode]. *)
Definition CodeConnectAuthFailed : string := "connect_authentication_failed".
Definition CodeConnectGatewayClosing : string := "connect_gateway_closing".
Definition CodeConnectInternal : string := "connect_internal_error".
Definition CodeConnectWorkerHelloTimeout : string := "connect_worker_hello_timeout".

Definition retriable_reasons : list string :=
  [CodeConnectAuthFailed; CodeConnectGatewayClosing; CodeConnectInternal;
   CodeConnectWorkerHelloTimeout].

Definition resume (next : after) (w : worker) : worker :=
  match next with
  | ThenActive => set_loop Selecting (set_attempts 0 (set_state ACTIVE w))
  | ThenReturn err => set_loop (Finished err) w
  end.

(** [if isInitialConnection { isInitialConnection = false; initialConnectionDone <- r }],
    and then what follows. *)
Definition hand_over (r : option goerr) (next : after) (w : worker) : worker :=
  if w_isInitial w then set_loop (SendingInitial r next) (clear_initial w) else resume next w.

(** The loop returns an error, which is also the first result. *)
Definition stop_with (e : goerr) : worker → worker := hand_over (Some e) (ThenReturn (Some e)).

(** [case <-h.notifyConnectedChan] *)
Definition on_connected (w : worker) : worker := hand_over None ThenActive w.

(** From the end of the [select]: give up, or start a connection. *)
Definition try_connect (w : worker) : worker :=
  if decide (w_attempts w = 5%nat) then
    stop_with (EText "could not establish connection after 5 attempts") w
  else
    set_loop Selecting (set_attempts (S (w_attempts w))
      (set_conns (go_connect (w_startCancelled w) (hashedSigningKey (w_auth w)) [] :: w_conns w) w)).

Definition tooMany : goerr :=
  EText ("too many connections, please disconnect other workers or upgrade your billing " +:+
         "plan for more concurrent connections").

(** What comes before the delay; [b] is the buffer after the flush. *)
Definition back_off (b : messageBuffer) (w : worker) : worker :=
  set_loop BackingOff (set_buffer b w).

(** The part of the loop's body that looks at a close reason. *)
Definition check_reason (e : goerr) (b : messageBuffer) (w : worker) : worker :=
  match as_close e with
  | Some reason =>
      if decide (reason ∈ retriable_reasons) then back_off b w
      else stop_with (EText ("connect failed with error code " +:+ go_quote reason)) w
  | None => back_off b w
  end.

Section run_loop.
(** [HashedSigningKey] and [HashedSigningKeyFallback] of the options. *)
Context (signingKey signingKeyFallback : string).

(** [case msg := <-h.notifyConnectDoneChan], up to the delay.  [err] is the variable of
    [Connect], which is nil since the configuration was serialised. *)
Definition on_done (msg : connectReport) (b : messageBuffer) (w : worker) : worker :=
  if negb (reconnect msg) then hand_over None (ThenReturn None) (set_state CLOSED w)
  else
    let w := set_state RECONNECTING w in
    match rp_err msg with
    | None => back_off b w
    | Some e =>
        if err_is (TSentinel ErrTooManyConnections) e && w_isInitial w then
          hand_over (Some tooMany) (ThenReturn None) w
        else if err_is (TSentinel ErrUnauthenticated) e then
          if fallback (w_auth w) then
            stop_with (EText "failed to authenticate with fallback key, exiting") w
          else if str_empty signingKeyFallback then
            stop_with (EText "fallback signing key is required") w
          else check_reason e b (set_auth {| hashedSigningKey := signingKeyFallback;
                                             fallback := true |} w)
        else check_reason e b w
    end.

(** ** The goroutines *)

(** The worker's API client, protocol buffers and options, for [prepareConnection]. *)
Context (api : workerApiClient) (marshal_start : list string → option string).
Context (decode_start : string → option StartResponse).
Context (marshal_connect : StartResponse → string → option string).
Context (RewriteGatewayEndpoint : option (url → res goerr url)).

(** A possible result of [prepareConnection]: once its context has ended, no request is
    sent. *)
Definition prepared (doomed : bool) (key : string) (exclude : list string) (r : res goerr string) :
  Prop :=
  ∃ io connectionId,
    (doomed = true → ∀ req, is_ok (io_do io req) = false) ∧
    r = prepareConnection marshal_start decode_start marshal_connect RewriteGatewayEndpoint
          api io connectionId key exclude.

Definition report_of (text : string) (e : goerr) : connectReport :=
  {| reconnect := shouldReconnect e; rp_err := Some (errorf text e "") |}.

(** The steps of [connect] that are not rendezvous: the goroutine becomes others, given
    whether the worker is being closed; a draining gateway is replaced by a connection
    whose context never ends, and its own goroutine reports nothing. *)
Inductive conn_step (closing : bool) : messageBuffer → conn → list conn → messageBuffer → Prop :=
  | dial_ok b doomed key exclude group :
      prepared doomed key exclude (Ok group) →
      conn_step closing b (Dialing doomed key exclude) [Connected key group] b
  | dial_error b doomed key exclude e :
      prepared doomed key exclude (Err e) →
      conn_step closing b (Dialing doomed key exclude)
        [Reporting (report_of "could not establish connection: " e)] b
  | starts b b' key group :
      flush_to b b' None → conn_step closing b (Starting key group) [Running key group] b'
  | start_error b b' key group e :
      flush_to b b' (Some e) →
      conn_step closing b (Starting key group)
        [Reporting (report_of "could not handle connection: "
           (newReconnectErr (errorf "could not send buffered messages: " e "")))] b'
  | read_error b key group missed e e' :
      connection_ended closing missed e = EndError e' →
      conn_step closing b (Running key group)
        [Reporting (report_of "could not handle connection: " e')] b
  | drained b key group missed e :
      connection_ended closing missed e = EndDraining →
      conn_step closing b (Running key group)
        [go_connect false key [withNotifyConnectedChan; withExcludeGateways [group]]] b
  | shut_down b b' key group missed e err :
      connection_ended closing missed e = EndShutdown → flush_to b b' err →
      conn_step closing b (Running key group)
        [Reporting {| reconnect := false; rp_err := None |}] b'.

(** The end of the goroutine of [h.eg], once the connection has ended too, or did not end
    in time: buffered replies are flushed, whatever comes of it. *)
Definition finish (w w' : worker) : Prop :=
  ∃ b err, flush_to (w_buffer w) b err ∧ w' = set_finisher FinisherDone (set_buffer b w).

(** [Close]: it ends the context of the worker, waits for the goroutine of [h.eg], and
    closes the state.  The user calls it, or [Connect] when its own context has ended. *)
Definition close (from_Connect : bool) (w : worker) : worker :=
  set_main (if from_Connect then InClose else w_main w) (w_startCancelled w) true w.

Definition closed (w : worker) : worker := set_state CLOSED w.

(** What [Connect] makes of the first result. *)
Definition first_result (r : option goerr) : option goerr :=
  (λ e, errorf "could not establish connection: " e "") <$> r.

(** [Connect] has received the first result, or [Close] has returned inside it. *)
Definition connect_returns (r : option goerr) (w : worker) : worker :=
  set_main (Returned r) true (w_workerCancelled w) w.

(** [State] *)
Definition State (w : worker) : ConnectionState := w_state w.

(** The steps of the whole worker. *)
Inductive step : worker → worker → Prop :=
  | initiate w :
      w_main w = Initiating → w_loop w = Selecting →
      step w (try_connect (set_main Waiting (w_startCancelled w) (w_workerCancelled w) w))
  | loop_cancelled w :
      w_loop w = Selecting → w_workerCancelled w = true → step w (set_loop (Finished None) w)
  | connected w c1 c2 key group :
      w_loop w = Selecting → w_conns w = c1 ++ Connected key group :: c2 →
      step w (on_connected (set_conns (c1 ++ Starting key group :: c2) w))
  | connect_done w c1 c2 msg b err :
      w_loop w = Selecting → w_conns w = c1 ++ Reporting msg :: c2 → flush_to (w_buffer w) b err →
      step w (on_done msg b (set_conns (c1 ++ c2) w))
  | delay_over w : w_loop w = BackingOff → step w (try_connect w)
  | delay_cancelled w :
      w_loop w = BackingOff → w_workerCancelled w = true →
      step w (hand_over None (ThenReturn None) w)
  | initial_result w r next :
      w_loop w = SendingInitial r next → w_main w = Waiting →
      step w (connect_returns (first_result r) (resume next w))
  | start_expires w :
      step w (set_main (w_main w) true (w_workerCancelled w) w)
  | main_gives_up w :
      w_main w = Waiting → w_startCancelled w = true →
      step w (close true w)
  | close_returns w :
      w_main w = InClose → w_finisher w = FinisherDone →
      step w (connect_returns (Some (EText "context canceled while establishing connection"))
                (closed w))
  | user_closes w :
      w_main w = Returned None → step w (close false w)
  | user_close_returns w :
      w_main w = Returned None → w_workerCancelled w = true → w_finisher w = FinisherDone →
      step w (closed w)
  | loop_awaited w err :
      w_finisher w = AwaitingLoop → w_loop w = Finished err →
      step w (set_finisher AwaitingSignal w)
  | signal_timeout w w' :
      w_finisher w = AwaitingSignal → finish w w' → step w w'
  | signal_done w w' c1 c2 msg :
      w_finisher w = AwaitingSignal → w_conns w = c1 ++ Reporting msg :: c2 →
      finish (set_conns (c1 ++ c2) w) w' → step w w'
  | conn_steps w c1 c2 c cs b :
      w_conns w = c1 ++ c :: c2 → conn_step (w_workerCancelled w) (w_buffer w) c cs b →
      step w (set_buffer b (set_conns (c1 ++ cs ++ c2) w))
  | buffer_steps w op b :
      buffer_step (w_buffer w) op b → step w (set_buffer b w).

Inductive steps : worker → worker → Prop :=
  | steps_refl w : steps w w
  | steps_trans w1 w2 w3 : steps w1 w2 → step w2 w3 → steps w1 w3.

(** [connectHandler.Connect], when it reaches its loop. *)
Definition new_worker : worker :=
  {| w_loop := Selecting; w_main := Initiating; w_finisher := AwaitingLoop; w_attempts := 0;
     w_isInitial := true;
     w_auth := {| hashedSigningKey := signingKey; fallback := false |};
     w_state := CONNECTING; w_startCancelled := false; w_workerCancelled := false;
     w_conns := []; w_buffer := newMessageBuffer |}.

Definition reachable (w : worker) : Prop := steps new_worker w.

(** ** What the loop does with a report *)

Definition fallback_auth : authContext :=
  {| hashedSigningKey := signingKeyFallback; fallback := true |}.

(** The fallback key replaces the signing key, or nothing changes. *)
Definition next_auth (a a' : authContext) : Prop :=
  a' = a ∨ (fallback a = false ∧ str_empty signingKeyFallback = false ∧ a' = fallback_auth).

(** The loop leaves, or waits to reconnect. *)
Lemma on_done_cases msg b w :
  ∃ s a, next_auth (w_auth w) a ∧
    let w1 := set_auth a (set_state s w) in
    (∃ r e, on_done msg b w = hand_over r (ThenReturn e) w1) ∨ on_done msg b w = back_off b w1.
Proof.
  assert (∀ s, set_state s w = set_auth (w_auth w) (set_state s w)) as Hid by by destruct w.
  unfold on_done. destruct (reconnect msg); simpl.
  2: { exists CLOSED, (w_auth w). split; [by left|]. left. rewrite <- Hid. eauto. }
  destruct (rp_err msg) as [e|].
  2: { exists RECONNECTING, (w_auth w). split; [by left|]. right. by rewrite <- Hid. }
  assert (∀ a, let w1 := set_auth a (set_state RECONNECTING w) in
    (∃ r e', check_reason e b w1 = hand_over r (ThenReturn e') w1) ∨
    check_reason e b w1 = back_off b w1) as Hcheck.
  { intros a w1. unfold check_reason, stop_with. destruct (as_close e); [case_decide|]; eauto. }
  destruct (_ && w_isInitial w).
  { exists RECONNECTING, (w_auth w). split; [by left|]. left. rewrite <- Hid. eauto. }
  destruct (err_is (TSentinel ErrUnauthenticated) e).
  2: { exists RECONNECTING, (w_auth w). split; [by left|]. specialize (Hcheck (w_auth w)).
       by rewrite <- Hid in *. }
  destruct (fallback (w_auth w)) eqn:Hfb.
  { exists RECONNECTING, (w_auth w). split; [by left|]. left. rewrite <- Hid. unfold stop_with. eauto. }
  destruct (str_empty signingKeyFallback) eqn:Hk.
  { exists RECONNECTING, (w_auth w). split; [by left|]. left. rewrite <- Hid. unfold stop_with. eauto. }
  exists RECONNECTING, fallback_auth. split; [right; auto|]. apply Hcheck.
Qed.

(** C36: how the loop reacts to a connection that failed, once the first result is out.
    It waits and reconnects unless the key was refused and there is no fallback key
    left, or the gateway gave a reason that is not a reason to try again; otherwise it
    stops with an error.  Only a refused key makes it change to the fallback key: the
    gateway's own "authentication failed" does not. *)
Theorem reconnect_decision e b w :
  w_isInitial w = false →
  let w' := on_done {| reconnect := true; rp_err := Some e |} b w in
  let refused := err_is (TSentinel ErrUnauthenticated) e in
  let usable := negb (fallback (w_auth w)) && negb (str_empty signingKeyFallback) in
  (w_loop w' = BackingOff ↔
     (refused = true → usable = true) ∧
     (∀ reason, as_close e = Some reason → reason ∈ retriable_reasons)) ∧
  (w_loop w' ≠ BackingOff → ∃ err, w_loop w' = Finished (Some err)) ∧
  w_auth w' = (if refused && usable then fallback_auth else w_auth w) ∧
  w_attempts w' = w_attempts w ∧ w_conns w' = w_conns w ∧ w_state w' = RECONNECTING.
Proof.
  intros Hinit. unfold on_done. simpl. rewrite Hinit, andb_false_r.
  assert (∀ w1, w_isInitial w1 = false → w_state w1 = RECONNECTING →
    let w' := check_reason e b w1 in
    (w_loop w' = BackingOff ↔ (∀ reason, as_close e = Some reason → reason ∈ retriable_reasons)) ∧
    (w_loop w' ≠ BackingOff → ∃ err, w_loop w' = Finished (Some err)) ∧
    w_auth w' = w_auth w1 ∧ w_attempts w' = w_attempts w1 ∧ w_conns w' = w_conns w1 ∧
    w_state w' = RECONNECTING) as Hcheck.
  { intros w1 Hi Hs. unfold check_reason, stop_with, hand_over. rewrite Hi.
    destruct (as_close e) as [reason|]; [case_decide as Hin|]; simpl.
    - split_and!; try done. split; [|done]. by intros _ ? [= <-].
    - split_and!; try done; [|by eauto]. split; [done|]. intros Hall. by destruct Hin; apply Hall.
    - split_and!; try done. }
  destruct (err_is _ e); simpl.
  - destruct (fallback (w_auth w)) eqn:Hfb; simpl;
      [|destruct (str_empty signingKeyFallback) eqn:Hk; simpl];
      unfold stop_with, hand_over; simpl; rewrite ?Hinit; simpl.
    1,2: split_and!; [split; [done|intros [Hu _]; by specialize (Hu eq_refl)]|by eauto|done..].
    destruct (Hcheck (set_auth fallback_auth (set_state RECONNECTING w)) Hinit eq_refl)
      as (H1 & H2 & H3 & H4 & H5 & H6).
    split_and!; [|done..]. rewrite H1. split; [by intros Hr|by intros [_ Hr]].
  - destruct (Hcheck (set_state RECONNECTING w) Hinit eq_refl) as (H1 & H2 & H3 & H4 & H5 & H6).
    split_and!; [|done..]. rewrite H1. split; [by intros Hr|by intros [_ Hr]].
Qed.

(** C39: a connection whose reading ends with [net.ErrClosed] or [io.EOF] is not replaced:
    the error that is reported for it wraps an empty close error, whose empty reason the
    loop takes for one that must not be retried, so the worker stops once its first
    connection has been established.  A missed heartbeat and every other error of reading
    carry no close error, and the loop tries again. *)
Theorem lost_connection_stops_worker missed err :
  as_close err = None →
  err_is (TSentinel ErrNetClosed) err = true ∨ err_is (TSentinel ErrEOF) err = true →
  err_is (TSentinel ErrGatewayDraining) err = false →
  ∃ e, connection_ended false missed err = EndError e ∧
    let msg := report_of "could not handle connection: " e in
    reconnect msg = true ∧
    ∀ b w, w_isInitial w = false →
      w_loop (on_done msg b w) =
        Finished (Some (EText ("connect failed with error code " +:+ go_quote ""))).
Proof.
  intros Hc Hlost Hd. unfold connection_ended. simpl. rewrite Hd.
  assert (err_find (λ e, match e with EClose reason _ => Some (reason, e) | _ => None end) err =
          None) as ->.
  { destruct (err_find _ err) eqn:Hf; [|done]. exfalso.
    assert (is_Some (as_close err)) as [? ?]; [|congruence].
    apply err_find_Some. assert (is_Some (err_find (λ e, match e with
      EClose reason _ => Some (reason, e) | _ => None end) err)) as (n & Hn & Hf')%err_find_Some
      by by eexists.
    exists n. split; [done|]. destruct n; destruct Hf' as [? ?]; by eauto. }
  assert (err_is (TSentinel ErrNetClosed) err || err_is (TSentinel ErrEOF) err = true) as ->
    by (destruct Hlost as [-> | ->]; [done|apply orb_true_r]).
  eexists. split; [done|]. split; [done|]. intros b w Hi. 
  unfold on_done, check_reason, stop_with, hand_over. simpl. by rewrite Hi.
Qed.

(** ** Invariant *)

Definition good_key (key : string) : Prop :=
  key = signingKey ∨ (key = signingKeyFallback ∧ str_empty signingKeyFallback = false).

Definition good_auth (a : authContext) : Prop :=
  a = {| hashedSigningKey := signingKey; fallback := false |} ∨
  (a = fallback_auth ∧ str_empty signingKeyFallback = false).

Definition conn_key (c : conn) : option string :=
  match c with
  | Dialing _ key _ | Connected key _ | Starting key _ | Running key _ => Some key
  | Reporting _ => None
  end.

Definition good_conn (c : conn) : Prop := ∀ key, conn_key c = Some key → good_key key.

(** Where [Connect] can be, given the rest. *)
Definition main_ok (w : worker) : Prop :=
  match w_main w with
  | Initiating => w_loop w = Selecting ∧ w_conns w = [] ∧ w_workerCancelled w = false
  | Waiting => True
  | InClose => w_startCancelled w = true
  | Returned r => w_startCancelled w = true ∧ (r = None → w_isInitial w = false) ∧
      (w_isInitial w = false ∨ ∃ err, w_loop w = Finished err) ∧
      ∀ r n, w_loop w ≠ SendingInitial r n
  end.

Record worker_ok (w : worker) : Prop := {
  ok_attempts : (w_attempts w ≤ 5)%nat;
  ok_auth : good_auth (w_auth w);
  ok_conns : Forall good_conn (w_conns w);
  ok_sending r n : w_loop w = SendingInitial r n → w_isInitial w = false;
  ok_awaited : w_finisher w ≠ AwaitingLoop → ∃ err, w_loop w = Finished err;
  ok_main : main_ok w }.

Definition active (w : worker) : Prop := w_loop w = Selecting ∨ w_loop w = BackingOff.

Lemma hand_over_ok r n w :
  worker_ok w → active w → w_main w ≠ Initiating → worker_ok (hand_over r n w).
Proof.
  intros [Hatt Hauth Hconns Hs Hf Hm] Hact Hni. unfold hand_over.
  assert (w_finisher w = AwaitingLoop) as Haw.
  { destruct (w_finisher w) eqn:E; [done|..]; destruct Hf as [err Hf]; try done;
      destruct Hact; congruence. }
  destruct (w_isInitial w) eqn:Hi; [|destruct n]; split; simpl; try done; try lia;
    unfold main_ok in *; simpl; destruct (w_main w) as [| | |e] eqn:E; try done.
  - destruct Hm as (? & ? & [|[err Hm]] & ?); [congruence|]. destruct Hact; congruence.
  - destruct Hm as (? & ? & ? & ?). split_and!; auto.
  - destruct Hm as (? & ? & ? & ?). split_and!; eauto; congruence.
Qed.

Lemma try_connect_ok w :
  worker_ok w → active w → w_main w ≠ Initiating → worker_ok (try_connect w).
Proof.
  intros Hok Hact Hni. unfold try_connect. destruct (decide _) as [|Hn].
  { by apply hand_over_ok. }
  destruct Hok as [Hatt Hauth Hconns Hs Hf Hm].
  split; simpl; try done.
  - lia.
  - constructor; [|done]. intros key [= <-].
    destruct Hauth as [->|[-> ?]]; [by left|by right].
  - intros Hfin. destruct (Hf Hfin) as [err Hl]. destruct Hact; congruence.
  - unfold main_ok in *. simpl. destruct (w_main w) as [| | |e] eqn:E; try done.
    destruct Hm as (? & ? & [|[err Hl]] & ?); [|destruct Hact; congruence]. by split_and!; auto.
Qed.

Lemma set_auth_ok a s b cs w :
  worker_ok w → next_auth (w_auth w) a → Forall good_conn cs → w_conns w ≠ [] →
  worker_ok (set_auth a (set_state s (set_buffer b (set_conns cs w)))).
Proof.
  intros [Hatt Hauth Hconns Hs Hf Hm] Ha Hcs Hne. split; simpl; try done.
  - destruct Ha as [->|(? & ? & ->)]; [done|by right].
  - unfold main_ok in *. simpl. destruct (w_main w); try done. by destruct Hm as (_ & ? & _).
Qed.

Lemma back_off_ok b w :
  worker_ok w → active w → w_main w ≠ Initiating → worker_ok (back_off b w).
Proof.
  intros [Hatt Hauth Hconns Hs Hf Hm] Hact Hni. split; simpl; try done.
  - intros Hfin. destruct (Hf Hfin) as [err Hl]. destruct Hact; congruence.
  - unfold main_ok in *. simpl. destruct (w_main w) as [| | |e] eqn:E; try done.
    destruct Hm as (? & ? & [|[err Hl]] & ?); [|destruct Hact; congruence]. by split_and!; auto.
Qed.

Lemma Forall_without (P : conn → Prop) c1 c c2 : Forall P (c1 ++ c :: c2) → Forall P (c1 ++ c2).
Proof. rewrite !Forall_app, Forall_cons. by intros (? & ? & ?). Qed.

Lemma not_initiating w : worker_ok w → w_conns w ≠ [] → w_main w ≠ Initiating.
Proof. intros [_ _ _ _ _ Hm] Hne E. unfold main_ok in Hm. rewrite E in Hm. by destruct Hm as (_ & ? & _). Qed.

(** Steps that leave the loop where it is. *)
Lemma quiet_ok w cs b st :
  worker_ok w → (w_conns w = [] → cs = []) → Forall good_conn cs →
  worker_ok (set_state st (set_buffer b (set_conns cs w))).
Proof.
  intros [Hatt Hauth Hconns Hs Hf Hm] Hne Hcs. split; simpl; try done.
  unfold main_ok in *. simpl. destruct (w_main w); try done.
  destruct Hm as (? & ? & ?). split_and!; auto.
Qed.

Lemma good_conn_step closing b c cs b' :
  conn_step closing b c cs b' → good_conn c → Forall good_conn cs.
Proof.
  intros Hstep Hc. destruct Hstep; apply Forall_singleton; intros k Hk; simpl in Hk; simplify_eq;
    by apply Hc.
Qed.

Lemma set_eta w : set_state (w_state w) (set_buffer (w_buffer w) (set_conns (w_conns w) w)) = w.
Proof. by destruct w. Qed.

Lemma step_ok w w' : step w w' → worker_ok w → worker_ok w'.
Proof.
  intros Hstep Hok. pose proof Hok as [Hatt Hauth Hconns Hs Hf Hm].
  destruct Hstep as [w Hmain Hl|w Hl Hc|w c1 c2 key group Hl Hcs|w c1 c2 msg b err Hl Hcs Hfl
    |w Hl|w Hl Hc|w r next Hl Hmain|w|w Hmain Hc|w Hmain Hfin|w Hmain|w Hmain Hc Hfin|w err Hfin Hl
    |w w' Hfin (b & err & Hfl & ->)|w w' c1 c2 msg Hfin Hcs (b & err & Hfl & ->)
    |w c1 c2 c cs b Hcs Hcstep|w op b Hop].
  - apply try_connect_ok; [|by left|done]. split; simpl; try done.
  - split; simpl; try done; [by eauto|]. unfold main_ok in *. simpl.
    destruct (w_main w) as [| | |e] eqn:E; try done; [destruct Hm as (_ & _ & ?); congruence|].
    destruct Hm as (? & ? & ? & ?). split_and!; eauto.
  - assert (w_main w ≠ Initiating) by (apply not_initiating; [done|rewrite Hcs; by destruct c1]).
    apply hand_over_ok; [|by left|done].
    pose proof (quiet_ok w (c1 ++ Starting key group :: c2) (w_buffer w) (w_state w)) as Hq.
    destruct w; apply Hq; simpl in *; [done|subst; by destruct c1|].
    rewrite Hcs in Hconns. rewrite !Forall_app, !Forall_cons in *.
    destruct Hconns as (? & Hk & ?). split_and!; try done.
  - assert (w_main w ≠ Initiating) by (apply not_initiating; [done|rewrite Hcs; by destruct c1]).
    destruct (on_done_cases msg b (set_conns (c1 ++ c2) w)) as (s & a & Ha & Hcase).
    assert (worker_ok (set_auth a (set_state s (set_conns (c1 ++ c2) w)))) as Hok'.
    { pose proof (set_auth_ok a s (w_buffer w) (c1 ++ c2) w Hok Ha) as Hq.
      destruct w; apply Hq; simpl in *; [|subst; by destruct c1].
      rewrite Hcs in Hconns. by eapply Forall_without. }
    destruct Hcase as [(r & e & ->)| ->]; [apply hand_over_ok|apply back_off_ok]; try done; by left.
  - apply try_connect_ok; [done|by right|]. intros E. unfold main_ok in Hm. rewrite E in Hm.
    destruct Hm; congruence.
  - apply hand_over_ok; [done|by right|]. intros E. unfold main_ok in Hm. rewrite E in Hm.
    destruct Hm; congruence.
  - pose proof (Hs _ _ Hl) as Hi. unfold resume. destruct next; split; simpl; try done; try lia;
      unfold main_ok; simpl; try (by split_and!; eauto); intros Hfin;
      destruct (Hf Hfin); congruence.
  - split; simpl; try done. unfold main_ok in *. simpl. destruct (w_main w); try done.
    by destruct Hm as (_ & ? & ? & ?).
  - split; simpl; try done.
  - destruct Hf as [err Hl]; [by rewrite Hfin|]. split; simpl; try done; [by eauto|].
    unfold main_ok. simpl. rewrite Hl. split_and!; try done. by right; eauto.
  - split; simpl; try done. unfold main_ok in *. simpl. by rewrite Hmain in *.
  - split; simpl; try done.
  - split; simpl; try done. by eauto.
  - split; simpl; try done. intros _. apply Hf. by rewrite Hfin.
  - pose proof (quiet_ok w (c1 ++ c2) b (w_state w)) as Hq.
    assert (worker_ok (set_buffer b (set_conns (c1 ++ c2) w))) as Hok'.
    { destruct w; apply Hq; simpl in *; [done|subst; by destruct c1|].
      rewrite Hcs in Hconns. by eapply Forall_without. }
    destruct Hok' as [? ? ? ? Hf' ?]. split; simpl in *; try done. intros _. apply Hf'. by rewrite Hfin.
  - pose proof (quiet_ok w (c1 ++ cs ++ c2) b (w_state w)) as Hq.
    destruct w; apply Hq; simpl in *; [done|subst; by destruct c1|].
    rewrite Hcs in Hconns. rewrite !Forall_app, !Forall_cons in *.
    destruct Hconns as (? & ? & ?). split_and!; try done. by eapply good_conn_step.
  - pose proof (quiet_ok w (w_conns w) b (w_state w)) as Hq. destruct w; by apply Hq.
Qed.

Lemma reachable_ok w : reachable w → worker_ok w.
Proof.
  unfold reachable. intros Hr. remember new_worker as w0 eqn:H0.
  induction Hr as [w|w1 w2 w3 _ IH Hstep]; [|eapply step_ok; by eauto].
  subst. split; simpl; try done; [lia|by left].
Qed.

(** What one step can change of the first result and of the key in use. *)
Record moves (w w' : worker) : Prop := {
  moves_initial : w_isInitial w = false →
    w_isInitial w' = false ∧ ∀ r n, w_loop w' = SendingInitial r n → w_loop w = SendingInitial r n;
  moves_auth : next_auth (w_auth w) (w_auth w') }.

Lemma hand_over_moves r n w a :
  next_auth a (w_auth w) →
  next_auth a (w_auth (hand_over r n w)) ∧
  (w_isInitial w = false → w_isInitial (hand_over r n w) = false ∧
     ∀ r' n', w_loop (hand_over r n w) ≠ SendingInitial r' n').
Proof. unfold hand_over. by destruct (w_isInitial w) eqn:Hi, n. Qed.

Lemma try_connect_moves w :
  w_auth (try_connect w) = w_auth w ∧
  (w_isInitial w = false → w_isInitial (try_connect w) = false ∧
     ∀ r' n', w_loop (try_connect w) ≠ SendingInitial r' n').
Proof.
  unfold try_connect, stop_with, hand_over. destruct (decide _); [|done].
  by destruct (w_isInitial w) eqn:Hi.
Qed.

Lemma step_moves w w' : step w w' → moves w w'.
Proof.
  intros Hstep.
  assert (∀ w1, w_auth w1 = w_auth w → w_isInitial w1 = w_isInitial w → w_loop w1 = w_loop w →
    moves w w1) as Hsame.
  { intros w1 Ha Hi Hl. split; [|by left]. intros H0. rewrite Hi, Hl. by split. }
  destruct Hstep as [w Hmain Hl|w Hl Hc|w c1 c2 key group Hl Hcs|w c1 c2 msg b err Hl Hcs Hfl
    |w Hl|w Hl Hc|w r next Hl Hmain|w|w Hmain Hc|w Hmain Hfin|w Hmain|w Hmain Hc Hfin|w err Hfin Hl
    |w w' Hfin (b & err & Hfl & ->)|w w' c1 c2 msg Hfin Hcs (b & err & Hfl & ->)
    |w c1 c2 c cs b Hcs Hcstep|w op b Hop];
    try (by apply Hsame).
  - destruct (try_connect_moves (set_main Waiting (w_startCancelled w) (w_workerCancelled w) w))
      as [Ha Hi]. split; [|left; by rewrite Ha]. intros H0. destruct (Hi H0) as [? Hne].
    split; [done|]. intros r n Hr. by destruct (Hne r n).
  - split; [done|by left].
  - destruct (hand_over_moves None ThenActive (set_conns (c1 ++ Starting key group :: c2) w)
      (w_auth w)) as [Ha Hi]; [by left|]. split; [|done]. intros H0. destruct (Hi H0) as [? Hne].
    split; [done|]. intros r n Hr. by destruct (Hne r n).
  - destruct (on_done_cases msg b (set_conns (c1 ++ c2) w)) as (s & a & Ha & [(r & e & ->)| ->]).
    + destruct (hand_over_moves r (ThenReturn e) (set_auth a (set_state s (set_conns (c1 ++ c2) w)))
        (w_auth w)) as [Ha' Hi]; [done|]. split; [|done]. intros H0. destruct (Hi H0) as [? Hne].
      split; [done|]. intros r' n Hr. by destruct (Hne r' n).
    + by split.
  - destruct (try_connect_moves w) as [Ha Hi]. split; [|left; by rewrite Ha]. intros H0.
    destruct (Hi H0) as [? Hne]. split; [done|]. intros r n Hr. by destruct (Hne r n).
  - destruct (hand_over_moves None (ThenReturn None) w (w_auth w)) as [Ha Hi]; [by left|].
    split; [|done]. intros H0. destruct (Hi H0) as [? Hne].
    split; [done|]. intros r n Hr. by destruct (Hne r n).
  - split; [|destruct next; by left]. intros H0. by destruct next.
Qed.

(** ** Attempts in a row *)

Definition is_starting (c : conn) : bool := match c with Starting _ _ => true | _ => false end.

Definition starting (w : worker) : nat := length (filter (λ c, is_starting c = true) (w_conns w)).

(** The connections the loop has started since it last heard of one that succeeded, after a
    step from [w] to [w'], when they were [n] before: one more when the step starts a
    goroutine, none when the loop takes the news of a connection.  The goroutine that
    replaces another one, when a gateway drains, is not started by the loop. *)
Definition next_tries (w w' : worker) (n : nat) : nat :=
  if (length (w_conns w) <? length (w_conns w'))%nat then S n
  else if (starting w <? starting w')%nat then 0%nat
  else n.

(** [w] is reached by a run with [n] such connections. *)
Inductive tried : worker → nat → Prop :=
  | tried_new : tried new_worker 0
  | tried_step w w' n : tried w n → step w w' → tried w' (next_tries w w' n).

Lemma tried_reachable w n : tried w n → reachable w.
Proof. induction 1; [apply steps_refl|by eapply steps_trans]. Qed.

Lemma reachable_tried w : reachable w → ∃ n, tried w n.
Proof.
  unfold reachable. intros Hr. remember new_worker as w0 eqn:H0.
  induction Hr as [w|w1 w2 w3 _ IH Hstep]; [subst; exists 0%nat; apply tried_new|].
  destruct (IH H0) as [n Hn]. eexists. by eapply tried_step.
Qed.

(** The counter of the loop, once it has been reset. *)
Definition tries_ok (w : worker) (n : nat) : Prop :=
  match w_loop w with SendingInitial _ ThenActive => n = 0%nat | _ => n = w_attempts w end.

Lemma filter_starting_app c1 c c2 :
  length (filter (λ c, is_starting c = true) (c1 ++ c :: c2)) =
  (length (filter (λ c, is_starting c = true) (c1 ++ c2)) + if is_starting c then 1 else 0)%nat.
Proof.
  rewrite !filter_app, filter_cons, !length_app.
  destruct (is_starting c); [rewrite decide_True by done|rewrite decide_False by done]; simpl; lia.
Qed.

Lemma next_tries_fewer w w' n :
  (length (w_conns w') ≤ length (w_conns w))%nat → (starting w' ≤ starting w)%nat →
  next_tries w w' n = n.
Proof.
  intros Hl Hs. unfold next_tries.
  destruct (Nat.ltb_spec (length (w_conns w)) (length (w_conns w'))); [lia|].
  by destruct (Nat.ltb_spec (starting w) (starting w')); [lia|].
Qed.

Lemma next_tries_same w w' n : w_conns w' = w_conns w → next_tries w w' n = n.
Proof. intros Hc. apply next_tries_fewer; unfold starting; by rewrite Hc. Qed.

Lemma try_connect_tries w w0 n :
  w_conns w0 = w_conns w → n = w_attempts w →
  tries_ok (try_connect w) (next_tries w0 (try_connect w) n).
Proof.
  intros Hc ->. unfold try_connect, stop_with, hand_over. destruct (decide _) as [|Hne].
  - rewrite next_tries_same by by destruct (w_isInitial w).
    unfold tries_ok. by destruct (w_isInitial w).
  - unfold tries_ok, next_tries. simpl. rewrite Hc.
    destruct (Nat.ltb_spec (length (w_conns w)) (S (length (w_conns w)))); [done|lia].
Qed.

Lemma tries_ok_hand_over r e w n :
  n = w_attempts w → tries_ok (hand_over r (ThenReturn e) w) n.
Proof. intros ->. unfold tries_ok, hand_over. by destruct (w_isInitial w). Qed.

(** A step of a connection is one goroutine for one, and no new one is being started. *)
Lemma conn_step_starting closing b c cs b' :
  conn_step closing b c cs b' → ∃ c', cs = [c'] ∧ is_starting c' = false.
Proof. destruct 1; eexists; (split; [reflexivity|done]). Qed.

Lemma tries_step w w' n : step w w' → tries_ok w n → tries_ok w' (next_tries w w' n).
Proof.
  intros Hstep Hok.
  destruct Hstep as [w Hmain Hl|w Hl Hc|w c1 c2 key group Hl Hcs|w c1 c2 msg b err Hl Hcs Hfl
    |w Hl|w Hl Hc|w r next Hl Hmain|w|w Hmain Hc|w Hmain Hfin|w Hmain|w Hmain Hc Hfin|w err Hfin Hl
    |w w' Hfin (b & err & Hfl & ->)|w w' c1 c2 msg Hfin Hcs (b & err & Hfl & ->)
    |w c1 c2 c cs b Hcs Hcstep|w op b Hop];
    try (rewrite next_tries_same by done; exact Hok).
  - apply try_connect_tries; [done|]. unfold tries_ok in Hok. by rewrite Hl in Hok.
  - rewrite next_tries_same by done. unfold tries_ok in *. by rewrite Hl in Hok.
  - assert (next_tries w (on_connected (set_conns (c1 ++ Starting key group :: c2) w)) n = 0%nat) as ->.
    { assert (w_conns (on_connected (set_conns (c1 ++ Starting key group :: c2) w)) =
        c1 ++ Starting key group :: c2) as Hc
        by (unfold on_connected, hand_over; simpl; by destruct (w_isInitial w)).
      unfold next_tries, starting. rewrite Hc, Hcs, !filter_starting_app, !length_app. simpl.
      rewrite Nat.ltb_irrefl. case_match eqn:Hlt; [done|]. apply Nat.ltb_ge in Hlt. lia. }
    unfold tries_ok, on_connected, hand_over. simpl. by destruct (w_isInitial w).
  - unfold tries_ok in Hok. rewrite Hl in Hok.
    rewrite next_tries_fewer.
    + destruct (on_done_cases msg b (set_conns (c1 ++ c2) w)) as (s & a & _ & [(r & e & ->)| ->]);
        [by apply tries_ok_hand_over|done].
    + destruct (on_done_cases msg b (set_conns (c1 ++ c2) w)) as (s & a & _ & [(r & e & ->)| ->]);
        unfold hand_over; simpl; try destruct (w_isInitial w); simpl;
        rewrite Hcs, !length_app; simpl; lia.
    + assert (w_conns (on_done msg b (set_conns (c1 ++ c2) w)) = c1 ++ c2) as Hc.
      { destruct (on_done_cases msg b (set_conns (c1 ++ c2) w)) as (s & a & _ & [(r & e & ->)| ->]);
          unfold hand_over; simpl; by try destruct (w_isInitial w). }
      unfold starting. rewrite Hc, Hcs, filter_starting_app. lia.
  - apply try_connect_tries; [done|]. unfold tries_ok in Hok. by rewrite Hl in Hok.
  - unfold tries_ok in Hok. rewrite Hl in Hok. rewrite next_tries_same; [by apply tries_ok_hand_over|].
    unfold hand_over. by destruct (w_isInitial w).
  - rewrite next_tries_same by by destruct next. unfold tries_ok in *. rewrite Hl in Hok. by destruct next.
  - rewrite next_tries_fewer; [exact Hok|..]; unfold starting; simpl;
      rewrite Hcs, ?filter_starting_app, ?length_app; simpl; lia.
  - destruct (conn_step_starting _ _ _ _ _ Hcstep) as (c' & -> & Hc').
    rewrite next_tries_fewer; [exact Hok|..]; unfold starting; simpl;
      rewrite Hcs, ?filter_starting_app, ?length_app; simpl; [lia|]. rewrite Hc'. lia.
Qed.

Lemma tried_ok w n : tried w n → tries_ok w n.
Proof. induction 1; [done|by eapply tries_step]. Qed.

Lemma tried_bound w n : tried w n → (n ≤ 5)%nat.
Proof.
  intros Ht. pose proof (tried_ok w n Ht) as Hok.
  pose proof (ok_attempts _ (reachable_ok w (tried_reachable w n Ht))) as Ha.
  unfold tries_ok in Hok. destruct (w_loop w) as [|r [|]| |]; lia.
Qed.

(** C35: the connection loop, in every run, however its goroutines interleave.  It starts
    at most five connections without hearing of one that succeeds; the connection that
    replaces that of a draining gateway is started beside the loop and is not counted, but
    its success is heard of.  Only the two configured keys are used, by the loop and by
    every connection; the first result is handed over at most once; and the loop changes
    to the fallback key at most once, and never back. *)
Theorem run_loop_invariant w n w' :
  tried w n → step w w' →
  (next_tries w w' n ≤ 5)%nat ∧ (w_attempts w' ≤ 5)%nat ∧
  good_auth (w_auth w') ∧ Forall good_conn (w_conns w') ∧
  (w_isInitial w = false → w_isInitial w' = false ∧
     ∀ r n, w_loop w' = SendingInitial r n → w_loop w = SendingInitial r n) ∧
  (fallback (w_auth w) = true → w_auth w' = w_auth w).
Proof.
  intros Ht Hstep. pose proof (tried_bound w' _ (tried_step w w' n Ht Hstep)) as Hn.
  pose proof (step_ok w w' Hstep (reachable_ok w (tried_reachable w n Ht))) as [? ? ? _ _ _].
  destruct (step_moves w w' Hstep) as [Hi Ha]. split_and!; try done.
  intros Hfb. destruct Ha as [|(Hno & _)]; congruence.
Qed.

(** ** Reconnecting after [Connect] has returned *)

(** A goroutine that will not be connected: it has reported, or its context had ended
    before it started. *)
Definition dead (c : conn) : Prop :=
  match c with Dialing doomed _ _ => doomed = true | Reporting _ => True | _ => False end.

Lemma start_unreachable io key exclude e :
  (∀ req, io_do io req = Err e) →
  ∃ e', start marshal_start decode_start api io key exclude = Err e' ∧
    (as_close e = None → as_close e' = None) ∧ (foreign e → foreign e').
Proof.
  intros He. unfold start. destruct (marshal_start exclude) as [body|]; simpl.
  2: { eexists. split; [done|]. split; [done|]. intros _. apply foreign_errorf, foreign_text. }
  unfold api_request. destruct (url_parse _); simpl.
  2: { eexists. split; [done|]. split; [done|]. intros _. apply foreign_errorf, foreign_text. }
  rewrite He. simpl. eexists. split; [done|]. split; [done|]. apply foreign_errorf.
Qed.

Lemma start_fails io key exclude :
  (∀ req, is_ok (io_do io req) = false) →
  ∃ e, start marshal_start decode_start api io key exclude = Err e.
Proof.
  intros Hio. unfold start. destruct (marshal_start exclude); simpl; [|by eauto].
  destruct (api_request _ _ _ _) as [req|]; simpl; [|by eauto].
  specialize (Hio req). destruct (io_do io req); simpl; [done|by eauto].
Qed.

Lemma prepared_doomed key exclude r : prepared true key exclude r → ∃ e, r = Err e.
Proof.
  intros (io & id & Hio & ->).
  destruct (start_fails io key exclude) as (e & He); [auto|].
  unfold prepareConnection. rewrite He. simpl. eauto.
Qed.

Lemma dead_step closing b c cs b' : conn_step closing b c cs b' → dead c → Forall dead cs.
Proof.
  intros Hstep Hd. destruct Hstep; simpl in Hd; try done; apply Forall_singleton; try done.
  subst. match goal with H : prepared true _ _ _ |- _ => apply prepared_doomed in H as [e ?] end.
  done.
Qed.

(** The worker once [Connect] has returned it and its last connection has ended. *)
Record lost (w : worker) : Prop := {
  lost_start : w_startCancelled w = true;
  lost_initial : w_isInitial w = false;
  lost_sending r n : w_loop w ≠ SendingInitial r n;
  lost_conns : Forall dead (w_conns w) }.

Lemma lost_hand_over r e w : lost w → lost (hand_over r (ThenReturn e) w) ∧
  w_attempts (hand_over r (ThenReturn e) w) = w_attempts w.
Proof. intros [? Hi ? ?]. unfold hand_over. rewrite Hi. by repeat split. Qed.

Lemma lost_try_connect w : lost w → lost (try_connect w) ∧
  (w_attempts w ≤ w_attempts (try_connect w))%nat.
Proof.
  intros Hl. unfold try_connect. destruct (decide _).
  - destruct (lost_hand_over (Some (EText "could not establish connection after 5 attempts"))
      (Some (EText "could not establish connection after 5 attempts")) w Hl) as [? Ha].
    split; [done|]. unfold stop_with. rewrite Ha. lia.
  - destruct Hl as [Hs Hi Hn Hc]. split; [|simpl; lia]. split; simpl; try done.
    by constructor.
Qed.

(** Steps that only change the rest. *)
Lemma lost_same w w' :
  lost w → w_startCancelled w' = true → w_isInitial w' = w_isInitial w →
  (w_loop w' = w_loop w ∨ ∃ e, w_loop w' = Finished e) → Forall dead (w_conns w') → lost w'.
Proof.
  intros [Hs Hi Hn Hc] H1 H2 [H3|[e H3]] H4; (split; [done|congruence| |done]);
    intros r n; rewrite H3; [apply Hn|done].
Qed.

Lemma lost_step w w' : step w w' → lost w → lost w' ∧ (w_attempts w ≤ w_attempts w')%nat.
Proof.
  intros Hstep Hlost. pose proof Hlost as [Hs Hi Hn Hc].
  destruct Hstep as [w Hmain Hl|w Hl Hcan|w c1 c2 key group Hl Hcs|w c1 c2 msg b err Hl Hcs Hfl
    |w Hl|w Hl Hcan|w r next Hl Hmain|w|w Hmain Hcan|w Hmain Hfin|w Hmain|w Hmain Hcan Hfin
    |w err Hfin Hl|w w' Hfin (b & err & Hfl & ->)|w w' c1 c2 msg Hfin Hcs (b & err & Hfl & ->)
    |w c1 c2 c cs b Hcs Hcstep|w op b Hop];
    try (split; [eapply lost_same; [exact Hlost|..]; simpl; by eauto|simpl; lia]).
  - destruct (lost_try_connect (set_main Waiting (w_startCancelled w) (w_workerCancelled w) w));
      [|by split]. eapply lost_same; [exact Hlost|..]; simpl; eauto.
  - exfalso. rewrite Hcs, Forall_app, Forall_cons in Hc. by destruct Hc as (_ & ? & _).
  - rewrite Hcs in Hc. apply Forall_without in Hc.
    destruct (on_done_cases msg b (set_conns (c1 ++ c2) w)) as (s & a & _ & [(r & e & ->)| ->]).
    + destruct (lost_hand_over r e (set_auth a (set_state s (set_conns (c1 ++ c2) w)))) as [? ->];
        [|done]. by split.
    + split; [by split|done].
  - by apply lost_try_connect.
  - destruct (lost_hand_over None None w Hlost) as [? ->]. done.
  - by destruct (Hn r next).
  - split; [|simpl; lia]. eapply lost_same; [exact Hlost|..]; simpl; eauto.
    rewrite Hcs in Hc. by apply Forall_without in Hc.
  - split; [|simpl; lia]. eapply lost_same; [exact Hlost|..]; simpl; eauto.
    rewrite Hcs in Hc. rewrite !Forall_app, ?Forall_cons in *. destruct Hc as (? & ? & ?).
    split_and!; try done. by eapply dead_step.
Qed.

(** C38: once [Connect] has returned, the loop cannot reconnect: the connections it
    starts use the context of [Connect], which ended when it returned, so that after
    the last connection has ended no execution ever has a connection again; the
    attempts only count up, to at most five. *)
Theorem reconnects_always_fail w w' :
  reachable w → w_main w = Returned None → Forall dead (w_conns w) → steps w w' →
  Forall dead (w_conns w') ∧ (w_attempts w ≤ w_attempts w' ≤ 5)%nat.
Proof.
  intros Hr Hmain Hdead Hsteps.
  assert (lost w) as Hlost.
  { destruct (reachable_ok w Hr) as [_ _ _ _ _ Hm]. unfold main_ok in Hm. rewrite Hmain in Hm.
    destruct Hm as (? & ? & _ & ?). split; auto. }
  assert (reachable w' ∧ lost w' ∧ (w_attempts w ≤ w_attempts w')%nat) as (Hr' & Hlost' & Hle).
  { clear Hmain Hdead. induction Hsteps as [w|w1 w2 w3 _ IH Hstep]; [by split_and!; try lia|].
    destruct (IH Hr Hlost) as (Hr2 & Hl2 & Hle2). destruct (lost_step w2 w3 Hstep Hl2) as [? ?].
    split; [by econstructor|]. split; [done|lia]. }
  destruct Hlost' as [_ _ _ ?]. destruct (reachable_ok w' Hr') as [? _ _ _ _ _]. auto.
Qed.

(** ** Giving up while connecting *)

(** [Connect] is inside [Close], and the loop waits for it to take a result. *)
Definition hung (w : worker) : Prop :=
  w_main w = InClose ∧ w_finisher w = AwaitingLoop ∧ ∃ r n, w_loop w = SendingInitial r n.

Lemma hung_step w w' : step w w' → hung w → hung w'.
Proof.
  intros Hstep (Hm & Hf & r & n & Hl). unfold hung.
  destruct Hstep; simpl in *; try congruence; by eauto.
Qed.

(** An attempt that finds no network. *)
Lemma unreachable_result key exclude :
  ∃ e, prepared false key exclude (Err e) ∧ shouldReconnect e = true ∧ as_close e = None ∧
    foreign e.
Proof.
  pose (io := {| io_do := λ _, Err (EText "connection refused"); io_dial := λ _, None;
                 io_read := λ _, Err (EText "closed"); io_write := λ _, None |}).
  destruct (start_unreachable io key exclude (EText "connection refused")) as (e & He & Hc & Hf);
    [done|].
  exists (newReconnectErr (errorf "could not start connection: " e "")).
  split; [|split; [done|split; [by apply Hc|by apply foreign_reconnect, foreign_errorf, Hf]]].
  exists io, "". split; [done|]. unfold prepareConnection. by rewrite He.
Qed.

(** [Connect] has given up and is inside [Close], while the loop waits to try again and owes
    it the first result. *)
Definition gives_up (w : worker) : Prop :=
  w_main w = InClose ∧ w_loop w = BackingOff ∧ w_isInitial w = true ∧ w_workerCancelled w = true.

Lemma cancelled_delay_hangs w :
  reachable w → gives_up w → hung (hand_over None (ThenReturn None) w).
Proof.
  intros Hr (Hm & Hl & Hi & _). unfold hung, hand_over. rewrite Hi. simpl.
  split_and!; [done| |by eexists _, _]. destruct (reachable_ok w Hr) as [_ _ _ _ Hf _].
  destruct (w_finisher w); [done|..]; destruct Hf as [err Hf]; congruence.
Qed.

(** Giving up while the loop waits can happen. *)
Lemma gives_up_reachable : ∃ w, reachable w ∧ gives_up w.
Proof.
  destruct (unreachable_result signingKey []) as (e & Hprep & Hre & Hc & [Hu Ht]).
  set (msg := report_of "could not establish connection: " e).
  assert (∀ b w, w_isInitial w = true → on_done msg b w =
            back_off b (set_state RECONNECTING w)) as Hdone.
  { intros b w Hi. unfold on_done, msg, report_of. simpl. rewrite Hre. simpl.
    rewrite !err_is_errorf, Hu, Ht. simpl. unfold check_reason. by rewrite as_close_errorf, Hc. }
  assert (∀ b, hasMessages b = false → flush_to b b None) as Hflush.
  { intros b Hb. unfold flush_to. by rewrite Hb. }
  eexists. split.
  - eapply steps_trans; [|apply main_gives_up].
    { eapply steps_trans; [|apply start_expires].
      eapply steps_trans; [|eapply (connect_done _ [] [] msg)].
      - eapply steps_trans; [|eapply (conn_steps _ [] [] (Dialing false signingKey []))].
        + eapply steps_trans; [apply steps_refl|by apply initiate].
        + reflexivity.
        + by apply dial_error.
      - reflexivity.
      - reflexivity.
      - by apply Hflush. }
    { by rewrite Hdone. }
    { reflexivity. }
  - by rewrite Hdone.
Qed.

(** C40: a connection that cannot be established can hang its caller.  When the context of
    [Connect] ends while the loop waits to try again, [Connect] enters [Close], which ends
    the context of the loop too.  Then the loop takes that end, hands its result to nobody,
    and [Connect] waits for it in [Close] for ever; the only other way out of the delay is
    that it is over at that very moment.  It does happen: with attempts that fail at once
    the delays before the fifth attempt are longer than the thirty seconds [Connect] is
    given. *)
Theorem cancelled_connect_hangs :
  (∃ w, reachable w ∧ gives_up w) ∧
  (∀ w, reachable w → gives_up w → ∃ w', step w w' ∧ hung w') ∧
  (∀ w w', reachable w → gives_up w → step w w' → gives_up w' ∨ hung w' ∨ w' = try_connect w) ∧
  (∀ w w', hung w → steps w w' → w_main w' = InClose) ∧
  30 * second < expBackoff 1 + expBackoff 2 + expBackoff 3 + expBackoff 4.
Proof.
  split; [exact gives_up_reachable|]. split; [|split; [|split; [|done]]].
  - intros w Hr Hg. eexists. split; [|by apply cancelled_delay_hangs].
    destruct Hg as (? & ? & _ & ?). by apply delay_cancelled.
  - intros w w' Hr Hg Hstep. pose proof (cancelled_delay_hangs w Hr Hg) as Hh.
    destruct Hg as (Hm & Hl & Hi & Hc).
    assert (w_finisher w = AwaitingLoop) as Hfin.
    { destruct (reachable_ok w Hr) as [_ _ _ _ Hf _].
      destruct (w_finisher w); [done|..]; destruct Hf as [err Hf]; congruence. }
    destruct Hstep; simpl in *; try congruence; auto; left; by split_and!.
  - intros w w' Hh Hsteps. assert (hung w') as (? & _); [|done].
    induction Hsteps as [|w1 w2 w3 _ IH Hstep]; [done|]. eapply hung_step; [done|by apply IH].
Qed.
End run_loop.

(** ** Examples *)

Section examples.
Abbreviation example_step :=
  (step "" example_api example_start example_response example_hello None).
Abbreviation example_steps :=
  (steps "" example_api example_start example_response example_hello None).
Abbreviation example_reachable :=
  (reachable "signkey" "" example_api example_start example_response example_hello None).

(** The worker connects, [Connect] returns it, and its connection breaks. *)
Definition w_dialing : worker :=
  try_connect (set_main Waiting false false (new_worker "signkey")).
Definition w_connected : worker :=
  set_buffer newMessageBuffer (set_conns [Connected "signkey" "group-a"] w_dialing).
Definition w_starting : worker :=
  on_connected (set_conns [Starting "signkey" "group-a"] w_connected).
Definition w_returned : worker := set_main (Returned None) true false (resume ThenActive w_starting).
Definition w_running : worker :=
  set_buffer newMessageBuffer (set_conns [Running "signkey" "group-a"] w_returned).
Definition broken : connectReport :=
  report_of "could not handle connection: "
    (newReconnectErr (EText "connection closed unexpectedly due to missed heartbeat")).
Definition w_broken : worker := set_buffer newMessageBuffer (set_conns [Reporting broken] w_running).
Definition w_waiting : worker := on_done "" broken newMessageBuffer (set_conns [] w_broken).
Definition w_retrying : worker := try_connect w_waiting.

Lemma w_broken_reachable : example_reachable w_broken.
Proof.
  eapply steps_trans; [eapply steps_trans; [eapply steps_trans; [eapply steps_trans;
    [eapply steps_trans; [eapply steps_trans; [apply steps_refl|]|]|]|]|]|].
  - by apply (initiate _ _ _ _ _ _ (new_worker "signkey")).
  - apply (conn_steps _ _ _ _ _ _ w_dialing [] [] (Dialing false "signkey" [])
      [Connected "signkey" "group-a"]); [reflexivity|].
    apply dial_ok. exists (example_io 200), "01J". split; [done|]. symmetry. vm_compute. reflexivity.
  - by apply (connected _ _ _ _ _ _ w_connected [] [] "signkey" "group-a").
  - by apply (initial_result _ _ _ _ _ _ w_starting None ThenActive).
  - apply (conn_steps _ _ _ _ _ _ w_returned [] [] (Starting "signkey" "group-a")
      [Running "signkey" "group-a"]); [reflexivity|]. by apply starts.
  - apply (conn_steps _ _ _ _ _ _ w_running [] [] (Running "signkey" "group-a")
      [Reporting broken]); [reflexivity|].
    by apply (read_error _ _ _ _ _ _ _ "signkey" "group-a" true (EText "context canceled")).
Defined.

Lemma w_waiting_step : example_step w_broken w_waiting.
Proof. by apply (connect_done _ _ _ _ _ _ w_broken [] [] broken newMessageBuffer None). Defined.

Lemma run_loop_invariant_witness :
  example_step w_broken w_waiting ∧ ∃ n,
  tried "signkey" "" example_api example_start example_response example_hello None w_broken n ∧
  (next_tries w_broken w_waiting n ≤ 5)%nat ∧ good_auth "signkey" "" (w_auth w_waiting).
Proof.
  split; [exact w_waiting_step|].
  destruct (reachable_tried "signkey" "" example_api example_start example_response example_hello
    None w_broken w_broken_reachable) as [n Hn].
  exists n. split; [exact Hn|].
  destruct (run_loop_invariant "signkey" "" example_api example_start example_response example_hello
    None w_broken n w_waiting Hn w_waiting_step) as (? & _ & ? & _). by split.
Defined.

Lemma reconnects_always_fail_witness :
  w_main w_broken = Returned None ∧ example_steps w_broken w_retrying ∧
  w_conns w_retrying = [Dialing true "signkey" []] ∧ Forall dead (w_conns w_retrying) ∧
  (w_attempts w_broken ≤ w_attempts w_retrying ≤ 5)%nat.
Proof.
  assert (example_steps w_broken w_retrying) as Hsteps.
  { eapply steps_trans; [eapply steps_trans; [apply steps_refl|exact w_waiting_step]|].
    by apply delay_over. }
  split; [reflexivity|]. split; [exact Hsteps|]. split; [reflexivity|].
  apply (reconnects_always_fail "signkey" "" example_api example_start example_response example_hello
    None w_broken w_retrying w_broken_reachable eq_refl); [by constructor|exact Hsteps].
Defined.

Lemma reconnect_decision_witness :
  let e := errorf "could not establish connection: "
             (newReconnectErr (ESentinel ErrUnauthenticated)) "" in
  let w' := on_done "fallback" {| reconnect := true; rp_err := Some e |} newMessageBuffer w_returned in
  w_isInitial w_returned = false ∧ w_loop w' = BackingOff ∧ w_auth w' = fallback_auth "fallback".
Proof.
  intros e w'. split; [reflexivity|].
  destruct (reconnect_decision "fallback" e newMessageBuffer w_returned eq_refl) as (H & _ & Ha & _).
  split; [|exact Ha]. apply H. split; [done|]. intros reason [=].
Defined.

Lemma lost_connection_stops_worker_witness :
  ∃ e, connection_ended false false (EWrap "failed to get websocket reader: EOF" (ESentinel ErrEOF)) =
       EndError e ∧
  w_loop (on_done "" (report_of "could not handle connection: " e) newMessageBuffer w_returned) =
    Finished (Some (EText ("connect failed with error code " +:+ go_quote ""))).
Proof.
  destruct (lost_connection_stops_worker "" false
    (EWrap "failed to get websocket reader: EOF" (ESentinel ErrEOF)) eq_refl (or_intror eq_refl)
    eq_refl) as (e & He & _ & Hw).
  exists e. split; [exact He|]. by apply Hw.
Defined.
End examples.
