(* ===== verification/StartWorker.v ===== *)
(** * Starting a worker (handler.Connect in connect.go, Connect and the first part of
    connectHandler.Connect in connect/handler.go)

    From the options of the user to the connection loop: the checks on the way, what
    every connection of the worker tells the gateway, and the state the loop, the pool
    and the buffer start in. *)

From S2P Require Import Prelude GoBytes GoUrl GoUrlParse GoHash GoTime GoHttp Env Errors Signature.
From S2P Require Import Step Program Functions Handler Configs Serve ServeProps Sync Buffer WorkerPool.
From S2P Require Import ConnectInvoke Handshake WorkerFlow RunLoop.

Open Scope Z_scope.

#[local] Arguments hex_encode : simpl never.

(** [int32(n)] *)
Definition wrap32 (n : Z) : Z := (n + 2 ^ 31) mod 2 ^ 32 - 2 ^ 31.

(** [type connectionEstablishData struct] *)
Record connectionEstablishData := {
  ed_hashedSigningKey : string; ed_numCpuCores : Z; ed_totalMem : Z;
  ed_marshaledFns : string; ed_marshaledCapabilities : string; ed_manualReadinessAck : bool }.

(** [connectproto.WorkerConnectRequestData] (generated code), as the handshake fills it
    in. *)
Record WorkerConnectRequestData := {
  wc_AppVersion : option string; wc_InstanceId : string; wc_ConnectionId : string;
  wc_SessionToken : string; wc_SyncToken : string; wc_AppName : string;
  wc_Capabilities : string; wc_Functions : string; wc_CpuCores : Z; wc_MemBytes : Z; wc_Os : string;
  wc_Environment : option string; wc_Platform : string; wc_SdkVersion : string;
  wc_SdkLanguage : string; wc_WorkerManualReadinessAck : bool; wc_StartedAt : time }.

(** [instanceId], with the name of the host; none is the empty name. *)
Definition instanceId (InstanceID : option string) (hostname : string) : string :=
  match InstanceID with
  | Some id => id
  | None => if str_empty hostname then "<missing-instance-id>" else hostname
  end.

(** What [connect.Connect] has built when the loop starts; [sw_flow] is its pool and its
    buffer. *)
Record started := {
  sw_api : workerApiClient;
  sw_flow : flow;
  sw_data : connectionEstablishData;
  sw_worker : worker }.

Section start_worker.
Context {V : Type} (Getenv : string → string).

(** JSON of the vendored types of the configurations and of the capabilities; the
    machine: its processors, memory, name and system; and when the attempt with a
    connection ID began. *)
Context (marshal_fns : list SDKFunction → option string) (marshal_capabilities : option string).
Context (numCPU totalMemory : Z) (hostname GOOS : string) (startTime : string → time).

Definition errMarshal : goerr := EText "json: unsupported value".

(** [connectHandler.Connect], up to its loop; the step URLs it collects are only logged. *)
Definition connectHandler_Connect (opts : ConnectionOpts) :
  res goerr (connectionEstablishData * worker) :=
  let signingKey := co_HashedSigningKey opts in
  if str_empty signingKey then Err (EText "hashed signing key is required")
  else
    let serialized r := failing "failed to serialize connect config: " (res_of_option errMarshal r) in
    try fns <- serialized (marshal_fns (co_Functions opts)) ;
    try caps <- serialized marshal_capabilities ;
    Ok ({| ed_hashedSigningKey := signingKey; ed_numCpuCores := wrap32 numCPU;
           ed_totalMem := wrap64 totalMemory; ed_marshaledFns := fns;
           ed_marshaledCapabilities := caps; ed_manualReadinessAck := false |},
        new_worker signingKey).

(** [connect.Connect] *)
Definition Connect (opts : ConnectionOpts) : res goerr started :=
  let apiClient := newWorkerApiClient (co_APIBaseUrl opts) (co_Env opts) in
  let wp := new_flow (Z.to_nat (co_MaxConcurrency opts)) in
  try conn <- failing "could not establish connection: " (connectHandler_Connect opts) ;
  Ok {| sw_api := apiClient; sw_flow := wp; sw_data := fst conn; sw_worker := snd conn |}.

(** The call in [handler.Connect]. *)
Definition start_worker (h : handler V) (InstanceID : option string) (MaxConcurrency : Z) :
  outcome (res goerr started) :=
  match handler_Connect Getenv h InstanceID MaxConcurrency with
  | Panic p => Panic p
  | Return opts => Return (try opts <- opts ; Connect opts)
  end.

(** The connect message of [performConnectHandshake]. *)
Definition connect_message (opts : ConnectionOpts) (data : connectionEstablishData)
  (startResponse : StartResponse) (connectionId : string) : WorkerConnectRequestData :=
  {| wc_AppVersion := co_AppVersion opts;
     wc_InstanceId := instanceId (Some (co_InstanceID opts)) hostname;
     wc_ConnectionId := connectionId;
     wc_SessionToken := st_SessionToken startResponse; wc_SyncToken := st_SyncToken startResponse;
     wc_AppName := co_AppName opts;
     wc_Capabilities := ed_marshaledCapabilities data; wc_Functions := ed_marshaledFns data;
     wc_CpuCores := ed_numCpuCores data; wc_MemBytes := ed_totalMem data; wc_Os := GOOS;
     wc_Environment := co_Env opts; wc_Platform := co_Platform opts;
     wc_SdkVersion := SDKVersion; wc_SdkLanguage := SDKLanguage;
     wc_WorkerManualReadinessAck := ed_manualReadinessAck data;
     wc_StartedAt := startTime connectionId |}.

(** ** What makes a worker start *)

Definition has_trigger (fn : ServableFunction V) : Prop := is_ok (config_trigger (Trigger fn)) = true.

Lemma config_trigger_cases t :
  (∃ ts, config_trigger t = Ok ts) ∨ config_trigger t = Err (CfgPanic nil_deref).
Proof. unfold config_trigger. destruct (tr_event t), (tr_cron t); eauto. Qed.

Lemma configs_loop_cases appName (fns : list (ServableFunction V)) u :
  (Forall has_trigger fns ∧ ∃ cfgs, configs_loop appName fns u = Ok cfgs) ∨
  (¬ Forall has_trigger fns ∧ configs_loop appName fns u = Err (CfgPanic nil_deref)).
Proof.
  revert u. induction fns as [|fn fns IH]; intros u; simpl; [by left; eauto|].
  set (u' := set_RawQuery _ _). rewrite Forall_cons. unfold has_trigger at 1 3, function_config.
  destruct (config_trigger_cases (Trigger fn)) as [[ts ->]| ->]; simpl.
  2: { right. split; [by intros [? _]|done]. }
  destruct (IH u') as [[Hall [cfgs ->]]|[Hno ->]]; simpl; [left|right]; split; try done; [by eauto|].
  by intros [_ ?].
Qed.

Lemma str_empty_reflect s : reflect (s = "") (str_empty s).
Proof. by destruct s; constructor. Qed.

(** The keys of a handler that can be hashed: the signing key there is, and the fallback
    key if there is one. *)
Definition good_keys (h : handler V) (hashed hashedFallback : string) : Prop :=
  let signingKey := GetSigningKey Getenv (h_opts h) in
  let fallbackKey := GetSigningKeyFallback Getenv (h_opts h) in
  signingKey ≠ "" ∧ Signature.hashedSigningKey signingKey = Some hashed ∧
  if str_empty fallbackKey then hashedFallback = ""
  else Signature.hashedSigningKey fallbackKey = Some hashedFallback.

Lemma hashedSigningKey_nonempty key hashed : Signature.hashedSigningKey key = Some hashed → hashed ≠ "".
Proof.
  unfold Signature.hashedSigningKey. intros (dst & _ & [= <-])%bind_Some Hempty.
  apply (f_equal String.length) in Hempty.
  rewrite length_app', hex_encode_length, sha256_sum_length in Hempty. simpl in Hempty. lia.
Qed.

Definition concurrency_of (MaxConcurrency : Z) : Z :=
  if MaxConcurrency <? 1 then defaultMaxWorkerConcurrency else MaxConcurrency.

Definition worker_configs (h : handler V) : res cfg_failure (list SDKFunction) :=
  createFunctionConfigs (h_appName h) (h_funcs h) connectPlaceholder true.

Lemma worker_configs_cases h :
  (h_appName h = "" ∧ ∃ e, worker_configs h = Err (CfgError e)) ∨
  (h_appName h ≠ "" ∧
    ((Forall has_trigger (h_funcs h) ∧ ∃ cfgs, worker_configs h = Ok cfgs) ∨
     (¬ Forall has_trigger (h_funcs h) ∧ worker_configs h = Err (CfgPanic nil_deref)))).
Proof.
  unfold worker_configs, createFunctionConfigs.
  destruct (str_empty_reflect (h_appName h)) as [Happ|Happ]; simpl; [left|right]; [by eauto|].
  split; [done|]. apply configs_loop_cases.
Qed.

(** What a worker of the handler [h] starts with. *)
Record starts_as (h : handler V) (MaxConcurrency : Z) (s : started) : Prop := {
  as_keys : ∃ fb, good_keys h (ed_hashedSigningKey (sw_data s)) fb;
  as_flow : sw_flow s = new_flow (Z.to_nat (concurrency_of MaxConcurrency)) ∧
            (1 ≤ Z.to_nat (concurrency_of MaxConcurrency))%nat;
  as_loop : w_conns (try_connect (set_main Waiting false false (sw_worker s))) =
            [Dialing false (ed_hashedSigningKey (sw_data s)) []];
  as_functions : ∃ cfgs, worker_configs h = Ok cfgs ∧
                 Forall2 (is_config (h_appName h) connectPlaceholder) (h_funcs h) cfgs ∧
                 marshal_fns cfgs = Some (ed_marshaledFns (sw_data s)) }.

(** Hashing a key as [handler.Connect] does. *)
Lemma hashed_cases (what key : string) :
  (∃ hashed, Signature.hashedSigningKey key = Some hashed ∧
     res_map_err (λ e, errorf what e "")
       (res_of_option (EText "encoding/hex: invalid") (Signature.hashedSigningKey key)) = Ok hashed) ∨
  (Signature.hashedSigningKey key = None ∧
     is_ok (res_map_err (λ e, errorf what e "")
       (res_of_option (EText "encoding/hex: invalid") (Signature.hashedSigningKey key))) = false).
Proof. destruct (Signature.hashedSigningKey key); [left|right]; by eauto. Qed.

(** What follows when [handler.Connect] has its options. *)
Lemma Connect_cases (h : handler V) MaxConcurrency opts fb :
  good_keys h (co_HashedSigningKey opts) fb →
  co_MaxConcurrency opts = concurrency_of MaxConcurrency →
  worker_configs h = Ok (co_Functions opts) →
  match Connect opts with
  | Ok s => is_Some marshal_capabilities ∧ starts_as h MaxConcurrency s
  | Err _ => marshal_capabilities = None ∨ marshal_fns (co_Functions opts) = None
  end.
Proof.
  intros Hkeys Hmax Hcfgs. unfold Connect, connectHandler_Connect.
  destruct (str_empty_reflect (co_HashedSigningKey opts)) as [He|He].
  { destruct Hkeys as (_ & Hk & _). by apply hashedSigningKey_nonempty in Hk. }
  destruct (marshal_fns (co_Functions opts)) as [fns|] eqn:Hfns; simpl; [|by right].
  destruct marshal_capabilities as [caps|]; simpl; [|by left].
  split; [by eauto|]. split; simpl; [by eauto| |done|].
  2: { eexists. split_and!; [done|by eapply createFunctionConfigs_spec|done]. }
  rewrite Hmax. split; [done|]. unfold concurrency_of, defaultMaxWorkerConcurrency.
  destruct (Z.ltb_spec MaxConcurrency 1); lia.
Qed.

Lemma start_worker_cases h InstanceID MaxConcurrency :
  match start_worker h InstanceID MaxConcurrency with
  | Panic p => p = UserPanic nil_deref ∧ is_Some InstanceID ∧ h_appName h ≠ "" ∧
               ¬ Forall has_trigger (h_funcs h)
  | Return (Ok s) => is_Some InstanceID ∧ h_appName h ≠ "" ∧ Forall has_trigger (h_funcs h) ∧
      is_Some marshal_capabilities ∧ starts_as h MaxConcurrency s
  | Return (Err _) => InstanceID = None ∨ h_appName h = "" ∨
      (Forall has_trigger (h_funcs h) ∧
       ((∀ k fb, ¬ good_keys h k fb) ∨ marshal_capabilities = None ∨
        ∃ cfgs, worker_configs h = Ok cfgs ∧ marshal_fns cfgs = None))
  end.
Proof.
  unfold start_worker, handler_Connect. destruct InstanceID as [instance|]; simpl; [|by left].
  fold (worker_configs h).
  destruct (worker_configs_cases h) as [(Happ & e & ->)|[Happ [[Hall [cfgs Hcfgs]]|[Hno ->]]]]; simpl;
    [by right; left| |by split_and!; eauto].
  pattern (worker_configs h) at 1. eapply eq_ind_r; [|exact Hcfgs]. simpl.
  destruct (str_empty_reflect (GetSigningKey Getenv (h_opts h))) as [Hkey|Hkey]; simpl.
  { right; right. split; [done|]. left. by intros k fb [? _]. }
  destruct (hashed_cases "failed to hash signing key: " (GetSigningKey Getenv (h_opts h)))
    as [(hashed & Hk & ->)|[Hk Hbad]].
  2: { destruct (res_map_err _ _); [done|]. simpl. right; right. split; [done|]. left.
       intros k fb (_ & ? & _). congruence. }
  simpl.
  (* With options, [Connect] decides. *)
  assert (∀ opts fb, good_keys h (co_HashedSigningKey opts) fb →
    co_MaxConcurrency opts = concurrency_of MaxConcurrency → co_Functions opts = cfgs →
    match Connect opts with
    | Ok s => is_Some (Some instance) ∧ h_appName h ≠ "" ∧ Forall has_trigger (h_funcs h) ∧
        is_Some marshal_capabilities ∧ starts_as h MaxConcurrency s
    | Err _ => Some instance = None ∨ h_appName h = "" ∨
        (Forall has_trigger (h_funcs h) ∧
         ((∀ k fb, ¬ good_keys h k fb) ∨ marshal_capabilities = None ∨
          ∃ cfgs, worker_configs h = Ok cfgs ∧ marshal_fns cfgs = None))
    end) as Hconn.
  { intros opts fb Hk' Hm <-. pose proof (Connect_cases h MaxConcurrency opts fb Hk' Hm Hcfgs) as Hc.
    destruct (Connect opts); [by destruct Hc; split_and!; eauto|].
    right; right. split; [done|]. right. destruct Hc; by eauto. }
  destruct (str_empty (GetSigningKeyFallback _ _)) eqn:Hfb; simpl;
    [|destruct (hashed_cases "failed to hash fallback signing key: "
        (GetSigningKeyFallback Getenv (h_opts h))) as [(fb & Hf & ->)|[Hf Hbad]]; simpl].
  - apply (Hconn _ ""); [|done..]. unfold good_keys. by rewrite Hfb.
  - apply (Hconn _ fb); [|done..]. unfold good_keys. by rewrite Hfb.
  - destruct (res_map_err _ _); [done|]. simpl. right; right. split; [done|]. left.
    intros k fb (_ & _ & Hx). rewrite Hfb in Hx. congruence.
Qed.

(** C15: [handler.Connect] starts a worker, for every handler and every way to call it: it
    panics exactly when the handler has a name and a function without a trigger; and it
    reaches its loop exactly when there is an instance ID, an app name and triggers, the
    keys can be hashed, and the configurations can be serialised.  The worker then begins
    with the registered functions' configurations, its first connection dials with the
    hashed signing key, and at least one goroutine handles requests.  Without an instance
    ID it fails; the comment on [ConnectOpts] promises the machine's hostname instead. *)
Theorem worker_starts h InstanceID MaxConcurrency :
  let run := start_worker h InstanceID MaxConcurrency in
  ((∃ p, run = Panic p) ↔
     is_Some InstanceID ∧ h_appName h ≠ "" ∧ ¬ Forall has_trigger (h_funcs h)) ∧
  ((∃ s, run = Return (Ok s)) ↔
     is_Some InstanceID ∧ h_appName h ≠ "" ∧ Forall has_trigger (h_funcs h) ∧
     (∃ k fb, good_keys h k fb) ∧ is_Some marshal_capabilities ∧
     ∃ cfgs, worker_configs h = Ok cfgs ∧ is_Some (marshal_fns cfgs)) ∧
  (InstanceID = None → run = Return (Err (EText "missing required Instance ID"))) ∧
  ∀ s, run = Return (Ok s) → starts_as h MaxConcurrency s.
Proof.
  intros run. pose proof (start_worker_cases h InstanceID MaxConcurrency) as Hc. fold run in Hc.
  assert (InstanceID = None → run = Return (Err (EText "missing required Instance ID"))) as Hmiss.
  { unfold run. by intros ->. }
  destruct run as [[s|e]|p].
  - destruct Hc as (Hid & Happ & Hall & Hcaps & Hs). split; [|split; [split; [intros _|by eauto]|split; [exact Hmiss|]]].
    + split; [by intros [? ?]|]. by intros (_ & _ & ?).
    + destruct Hs as [[fb ?] _ _ (cfgs & ? & _ & ?)]. split_and!; eauto.
    + by intros s' [= <-].
  - split; [|split; [split; [by intros [? ?]|]|by split]].
    + split; [by intros [? ?]|]. intros ([id ->] & Happ & Hno). destruct Hc as [|[|[? _]]]; done.
    + intros ([id ->] & Happ & _ & (k & fb & Hk) & [caps Hcaps] & cfgs & Hcfg & [fns Hfns]).
      destruct Hc as [|[|[_ [Hno|[|(cfgs' & Hcfg' & Hnone)]]]]]; try done; [by destruct (Hno k fb)|..];
        congruence.
  - destruct Hc as (-> & Hid & Happ & Hno). split; [|split; [split; [by intros [? ?]|]|by split]].
    + split; [done|]. by eauto.
    + by intros (_ & _ & ? & _).
Qed.
End start_worker.

(** ** Examples *)

Section examples.
(** The environment of the shop of [Configs], in the cloud. *)
Definition shop_env (k : string) : string :=
  if decide (k = "INNGEST_SIGNING_KEY") then testKey else "".

Abbreviation shop_start := (start_worker shop_env (λ _, Some "[..]") (Some "{..}") 8 (2 ^ 34)).

Lemma worker_starts_witness :
  ∃ s, shop_start shop (Some "host-1") 0 = Return (Ok s) ∧
    sw_flow s = new_flow 1000 ∧
    w_conns (try_connect (set_main Waiting false false (sw_worker s))) =
      [Dialing false (ed_hashedSigningKey (sw_data s)) []].
Proof.
  destruct (worker_starts shop_env (λ _, Some "[..]") (Some "{..}") 8 (2 ^ 34) shop (Some "host-1") 0)
    as (_ & [_ Hstart] & _ & Hs).
  destruct Hstart as [s Hrun].
  - split_and!; [by eexists|discriminate|by repeat constructor| |by eexists|].
    + eexists _, _. split; [discriminate|]. split; [vm_compute; reflexivity|reflexivity].
    + eexists. split; [vm_compute; reflexivity|by eexists].
  - exists s. split; [exact Hrun|]. by destruct (Hs s Hrun) as [_ [Hf _] Hl _].
Defined.
End examples.
