(* ===== verification/Examples.v ===== *)
(** * The example programs (examples/http/main.go, examples/connect/main.go)

    The functions the repository's examples register, as programs over the tools of the
    SDK, and what an executor sees when it runs them. *)

From S2P Require Import Prelude GoBytes GoTime GoHash GoJson JsonWire Errors Manager Step Program.
From S2P Require Import Functions Handler Invoke Replay Wire.

Open Scope Z_scope.

#[local] Arguments step_hash : simpl never.

(** ** Values of the examples *)

(** [type TodoItem struct] *)
Record TodoItem := { ti_ID : Z; ti_UserID : Z; ti_Title : string; ti_Completed : bool }.

(** The parts of [FunctionCreatedEvent] that the function reads. *)
Record FunctionCreatedEvent := { fce_Name : string; fce_FunctionID : string }.

(** Nil pointers and nil interfaces, pointers to todo items, events, and the documents
    that stand for the values of type [any]. *)
Inductive value :=
  | VNil
  | VTodo (t : TodoItem)
  | VCreated (e : FunctionCreatedEvent)
  | VAny (j : json).

Definition is_nil (v : value) : bool := match v with VNil => true | _ => false end.

Definition TodoItem_json (t : TodoItem) : json :=
  JObj [("id", jint (ti_ID t)); ("userId", jint (ti_UserID t)); ("title", JStr (ti_Title t));
        ("bool", JBool (ti_Completed t))].

Definition zero_TodoItem : TodoItem :=
  {| ti_ID := 0; ti_UserID := 0; ti_Title := ""; ti_Completed := false |}.

Definition TodoItem_fields : list (string * decoder TodoItem) :=
  [("id", dec_int (λ v t, {| ti_ID := v; ti_UserID := ti_UserID t; ti_Title := ti_Title t;
      ti_Completed := ti_Completed t |}));
   ("userId", dec_int (λ v t, {| ti_ID := ti_ID t; ti_UserID := v; ti_Title := ti_Title t;
      ti_Completed := ti_Completed t |}));
   ("title", dec_string (λ v t, {| ti_ID := ti_ID t; ti_UserID := ti_UserID t; ti_Title := v;
      ti_Completed := ti_Completed t |}));
   ("bool", dec_bool (λ v t, {| ti_ID := ti_ID t; ti_UserID := ti_UserID t; ti_Title := ti_Title t;
      ti_Completed := v |}))].

(** A decoded value, with the error of a decoding that failed. *)
Definition decoded {S} (wrap : S → value) (r : S * bool) : value * option goerr :=
  (wrap r.1, if r.2 then None else Some errType).

Definition value_json (v : value) : json :=
  match v with
  | VNil => JNull
  | VTodo t => TodoItem_json t
  | VCreated e => JObj [("name", JStr (fce_Name e));
                        ("data", JObj [("FunctionID", JStr (fce_FunctionID e))])]
  | VAny j => j
  end.

(** The types [*TodoItem], [any] and [FunctionCreatedEvent]. *)
Definition todo_type : gotype value :=
  {| gt_zero := VNil; gt_kind := KPtr; gt_marshal := λ v, Some (value_json v);
     gt_unmarshal := λ j, match j with
       | JNull => (VNil, None)
       | _ => decoded VTodo (decode_struct TodoItem_fields j zero_TodoItem)
       end;
     gt_unmarshal_elem := λ j, decoded VTodo (decode_struct TodoItem_fields j zero_TodoItem) |}.

Definition any_value (j : json) : value := match j with JNull => VNil | _ => VAny j end.

Definition any_type : gotype value :=
  {| gt_zero := VNil; gt_kind := KInterface; gt_marshal := λ v, Some (value_json v);
     gt_unmarshal := λ j, (any_value j, None); gt_unmarshal_elem := λ j, (any_value j, None) |}.

Definition zero_event : FunctionCreatedEvent := {| fce_Name := ""; fce_FunctionID := "" |}.

(** The other fields of a [GenericEvent] only matter by their types. *)
Definition typed {S} (ok : json → bool) : decoder S := λ j s, (s, ok j).

Definition FunctionCreatedEvent_fields : list (string * decoder FunctionCreatedEvent) :=
  [("id", typed (λ j, match j with JStr _ | JNull => true | _ => false end));
   ("name", dec_string (λ v e, {| fce_Name := v; fce_FunctionID := fce_FunctionID e |}));
   ("data", decode_struct [("FunctionID",
      dec_string (λ v e, {| fce_Name := fce_Name e; fce_FunctionID := v |}))]);
   ("user", typed (λ _, true));
   ("ts", dec_int (λ _ e, e));
   ("v", typed (λ j, match j with JStr _ | JNull => true | _ => false end))].

Definition created_type : gotype value :=
  {| gt_zero := VCreated zero_event; gt_kind := KOther; gt_marshal := λ v, Some (value_json v);
     gt_unmarshal := λ j, decoded VCreated (decode_struct FunctionCreatedEvent_fields j zero_event);
     gt_unmarshal_elem := λ j,
       decoded VCreated (decode_struct FunctionCreatedEvent_fields j zero_event) |}.

(** ** The account workflow *)

Section account_created.
(** [time.Parse]: the instant a text stands for in a layout. *)
Context (time_Parse : string → string → option time).

Definition RFC1123 : string := "Mon, 02 Jan 2006 15:04:05 MST".
Definition RFC850 : string := "Monday, 02-Jan-06 15:04:05 MST".
Definition ANSIC : string := "Mon Jan _2 15:04:05 2006".
Definition RFC3339 : string := "2006-01-02T15:04:05Z07:00".

Definition zero_time : time := Time 0 0 0.

(** [parseRetryAfter], at [now]: a delay is only used when [strconv.Atoi] has failed. *)
Definition parseRetryAfter (now : time) (input : string) : time :=
  match head (omap (λ format, time_Parse format input) [RFC1123; RFC850; ANSIC; RFC3339]) with
  | Some t => t
  | None =>
      match atoi input with
      | None => time_add now (wrap64 (atoi_error_value input * second))
      | Some _ => zero_time
      end
  end.

(** What [http.Get] gives: the header [Retry-After] and the body, or an error. *)
Context (http_Get : res goerr (string * string)) (now : time).

(** The function of the step "fetch todo". *)
Definition fetch_todo : prog value :=
  PLog "GET https://jsonplaceholder.typicode.com/todos/1"
    match http_Get with
    | Err e => PRet VNil (Some e)
    | Ok (retryAfter, body) =>
        let at_ := parseRetryAfter now retryAfter in
        if negb (is_zero at_) then PRet VNil (Some (RetryAtError (EText "rate-limited") at_))
        else
          match parse_value (S (String.length body)) body with
          | Some (j, _) =>
              let '(item, err) := decoded VTodo (decode_struct TodoItem_fields j zero_TodoItem) in
              PRet item err
          | None => PRet (VTodo zero_TodoItem) (Some errUnexpectedEnd)
          end
    end.

Definition loadUser (id : Z) : prog value := PRet VNil None.

Definition todo_UserID (v : value) : Z := match v with VTodo t => ti_UserID t | _ => 0 end.
Definition created_FunctionID (v : value) : string :=
  match v with VCreated e => fce_FunctionID e | _ => "" end.

Definition hour : Z := 60 * minute.

Definition activity : WaitForEventOpts :=
  {| wo_name := "Wait for a function to be created"; wo_event := "api/function.created";
     wo_timeout := hour * 72; wo_if := Some "event.data.user_id == async.data.user_id" |}.

Definition follow_up : prog value :=
  PRun Given any_type "follow-up-email" (PRet (VAny (JBool true)) None) (λ _ _, PRet VNil None).

(** After the author has been loaded. *)
Definition await_activity : prog value :=
  PWait Given created_type "wait-for-activity" activity (λ fn err,
    match err with
    | Some (ESentinel ErrEventNotReceived) => follow_up
    | _ => PLog (created_FunctionID fn) (PRet VNil None)
    end).

(** [AccountCreated] *)
Definition AccountCreated (input : Input value) : prog value :=
  PSleep Given "initial-delay" second (
  PRun Given todo_type "fetch todo" fetch_todo (λ result err,
    if is_nil result || bool_decide (err ≠ None) then PRet VNil err
    else
      PRun Given any_type "load todo author" (loadUser (todo_UserID result)) (λ _ _,
      await_activity))).

(** The event type [AccountCreatedEvent]: the function does not look at the event. *)
Context (account_type : gotype value).

Definition account_function (slug_Make : string → string) : res string (ServableFunction value) :=
  CreateFunction slug_Make
    {| fo_id := "account-created"; fo_name := "Account creation flow"; fo_priority := None;
       fo_concurrency := []; fo_idempotency := None; fo_retries := Some 5; fo_cancel := [];
       fo_debounce := None; fo_timeouts := None; fo_throttle := None; fo_rateLimit := None;
       fo_batchEvents := None |}
    (EventTrigger "api/account.created" None) (EvConcrete account_type) AccountCreated.
End account_created.

(** ** What an executor sees *)

Section follow.
Context {V : Type} (stack : string) (answer : GeneratorOpcode → json) (req : Request).
Hypothesis Himmediate : disableImmediateExecution (r_callCtx req) = false.

Notation execution := (execution (V:=V)).

(** One call more in front of an execution. *)
Definition called (h : string) (op : GeneratorOpcode) (e : execution) : execution :=
  ((h, Some op) :: e.1, e.2).

(** A tool that reports [op] and whose answer gives [a]. *)
Lemma ask_tool {A} o id args (memo : json → M A) fresh idx (k : A → execution) w p op w' a :
  fresh (with_steps req ∅) (fn_ctx None) (tool_op o id args idx) (live (used idx id) []) = (w, Panic p) →
  unwound (V:=V) stack w p = ReplyOps [op] →
  memo (answer op) (live (used idx id) []) = (w', Return a) →
  ask stack answer (tool_shape o id args memo fresh Given) req idx id k =
    called (step_hash idx id) op (k a).
Proof.
  intros Hf Hu Hm. unfold ask. rewrite tool_shape_unanswered, Hf by done. rewrite Hu.
  rewrite (tool_shape_answered _ _ _ _ _ _ _ _ _ (answer op)), Hm by (done || apply lookup_insert_eq).
  unfold called. by destruct (k a).
Qed.

Definition sleep_op (h id : string) (d : Z) : GeneratorOpcode :=
  {| g_id := h; g_op := OpcodeSleep; g_name := id;
     g_opts := JObj [("duration", JStr (str2duration_string d))]; g_data := None; g_error := None |}.

Lemma resume_sleep id d (k : prog V) idx :
  resume stack answer req (PSleep Given id d k) idx =
    called (step_hash idx id) (sleep_op (step_hash idx id) id d)
      (resume stack answer req k (used idx id)).
Proof.
  apply (ask_tool OpcodeSleep id JNull (λ _, ret tt)
    (λ _ _ u, appendOp (sleep_op (MustHash u) id d);;; panic ControlHijack) idx
    (λ _, resume stack answer req k (used idx id)) _ _ _ _ tt eq_refl eq_refl eq_refl).
Qed.

(** A step that succeeds now, and its value decoded from the answer. *)
Lemma resume_run t id body (k : V → option goerr → prog V) idx v d d' v' :
  let op := step_run_op (step_hash idx id) id (Some d) in
  plain body → plain_outcome body = Return (v, None) → gt_marshal t v = Some d →
  answer op = JObj [("data", d')] → gt_unmarshal t d' = (v', None) →
  resume stack answer req (PRun Given t id body k) idx =
    called (step_hash idx id) op (resume stack answer req (k v' None) (used idx id)).
Proof.
  intros op Hb Ho Hd Hans Hu. cbn [resume].
  eapply (ask_tool OpcodeStep id JNull (run_memo t id) (run_fresh t id body) idx
    (λ '(v, e), resume stack answer req (k v e) (used idx id)) _ _ op _ (v', None)).
  - rewrite run_fresh_now by (split; [done|by right]). rewrite run_body_live, Ho by done.
    unfold run_finish. rewrite Hd. reflexivity.
  - done.
  - rewrite Hans. by apply memo_data.
Qed.

(** A step that fails now: the function gets a [StepError]. *)
Lemma resume_run_error t id body (k : V → option goerr → prog V) idx v e msg u v' d' :
  let op := step_error_op (step_hash idx id) id msg (gt_marshal t v) in
  plain body → plain_outcome body = Return (v, Some e) → IsStepError e = false →
  err_msg e = Some msg → answer op = JObj [("error", u)] →
  decode_StepError u = Some d' → unmarshal_raw t (se_data d') = (v', None) →
  resume stack answer req (PRun Given t id body k) idx =
    called (step_hash idx id) op
      (resume stack answer req (k v' (Some (EStep (se_name d') (se_message d') (se_data d'))))
         (used idx id)).
Proof.
  intros op Hb Ho Hs Hmsg Hans Hu Hd. cbn [resume].
  eapply (ask_tool OpcodeStep id JNull (run_memo t id) (run_fresh t id body) idx
    (λ '(v, e), resume stack answer req (k v e) (used idx id)) _ _ op _ (v', Some _)).
  - rewrite run_fresh_now by (split; [done|by right]). rewrite run_body_live, Ho by done.
    unfold run_finish. rewrite Hs, Hmsg. reflexivity.
  - unfold unwound, reply_of. simpl. by destruct (IsNoRetryError e).
  - rewrite Hans. unfold run_memo. simpl. rewrite Hu, Hd. reflexivity.
Qed.

Definition wait_args (o : WaitForEventOpts) : json :=
  JObj ([("event", JStr (wo_event o))] ++
        match wo_if o with Some e => [("if", JStr e)] | None => [] end ++
        [("timeout", JStr (str2duration_string (wo_timeout o)))]).

Definition wait_op (h id : string) (o : WaitForEventOpts) : GeneratorOpcode :=
  {| g_id := h; g_op := OpcodeWaitForEvent;
     g_name := if str_empty (wo_name o) then id else wo_name o;
     g_opts := wait_args o; g_data := None; g_error := None |}.

(** Waiting for an event: the function gets the event, or the error that none came. *)
Definition wait_answer (t : gotype V) (j : json) (v : V) (err : option goerr) : Prop :=
  match j with
  | JNull => (v, err) = (gt_zero t, Some (ESentinel ErrEventNotReceived))
  | _ => gt_unmarshal t j = (v, None) ∧ err = None
  end.

Lemma resume_wait t id o (k : V → option goerr → prog V) idx v err :
  let op := wait_op (step_hash idx id) id o in
  wait_answer t (answer op) v err →
  resume stack answer req (PWait Given t id o k) idx =
    called (step_hash idx id) op (resume stack answer req (k v err) (used idx id)).
Proof.
  intros op Hans.
  apply (ask_tool OpcodeWaitForEvent id (wait_args o)
    (λ val, match val with
            | JNull => ret (gt_zero t, Some (ESentinel ErrEventNotReceived))
            | val => match gt_unmarshal t val with
                     | (_, Some e) => fail_hijack (errorf (in_quotes
                          "error unmarshalling wait for event value in" (wo_event o)) e "")
                     | (v, None) => ret (v, None)
                     end
            end)
    (λ _ _ u, appendOp {| g_id := MustHash u; g_op := uo_op u;
       g_name := if str_empty (wo_name o) then id else wo_name o;
       g_opts := uo_opts u; g_data := None; g_error := None |};;; panic ControlHijack) idx
    (λ '(v, e), resume stack answer req (k v e) (used idx id)) _ _ op (live (used idx id) []) (v, err)
    eq_refl eq_refl).
  unfold wait_answer in Hans. destruct (answer op); [by injection Hans as -> ->|..]; by destruct Hans as [-> ->].
Qed.
End follow.

(** *** Items survive their JSON *)

Definition item_ok (t : TodoItem) : Prop := in_int64 (ti_ID t) ∧ in_int64 (ti_UserID t).

Lemma atoi_in_int64 s n : atoi s = Some n → in_int64 n.
Proof.
  unfold atoi. destruct (match s with "" => _ | String _ _ => _ end) as [neg rest].
  destruct (str_empty rest); [done|]. intros (m & _ & Hn)%bind_Some. by case_decide; simplify_eq.
Qed.

Lemma decode_struct_inv {S} (P : S → Prop) (fields : list (string * decoder S)) j s :
  Forall (λ f, ∀ j s, P s → P (f.2 j s).1) fields → P s → P (decode_struct fields j s).1.
Proof.
  intros Hf Hs. destruct j; simpl; try done. clear -Hf Hs.
  assert (∀ (acc : S * bool), P acc.1 → P (foldl (λ acc kv, match find_field fields kv.1 with
    | Some d => let '(s, ok) := d kv.2 acc.1 in (s, ok && acc.2) | None => acc end) acc kvs).1)
    as Hfold; [|by apply Hfold].
  induction kvs as [|[k j] kvs IH]; intros acc Hacc; simpl; [done|]. apply IH.
  destruct (find_field fields k) as [d|] eqn:Hd; [|done].
  assert (P (d j acc.1).1) as Hp; [|by destruct (d j acc.1)].
  assert (∃ k', (k', d) ∈ fields) as [k' Hin].
  { unfold find_field in Hd. destruct (go_find _ fields) as [[k' d']|] eqn:Hg; simplify_eq/=.
    - apply go_find_Some in Hg as (l1 & l2 & -> & _). exists k'. set_solver.
    - destruct (go_find (λ f, bool_decide (fold_name _ = _)) fields) as [[k' d']|] eqn:Hg2; simplify_eq/=.
      apply go_find_Some in Hg2 as (l1 & l2 & -> & _). exists k'. set_solver. }
  rewrite Forall_forall in Hf. by apply (Hf (k', d)).
Qed.

Lemma decoded_item_ok j : item_ok (decode_struct TodoItem_fields j zero_TodoItem).1.
Proof.
  apply decode_struct_inv; [|split; simpl; unfold in_int64, min_int64, max_int64; lia].
  assert (∀ lit t, item_ok t → ∀ set : Z → TodoItem → TodoItem,
    (∀ n, in_int64 n → item_ok (set n t)) → item_ok (dec_int set (JNum lit) t).1) as Hint.
  { intros lit t Ht set Hset. simpl. destruct (atoi lit) as [n|] eqn:Hn; [|done].
    by apply Hset, (atoi_in_int64 lit). }
  repeat (apply Forall_cons_2; [intros [] t [H1 H2]; try done; apply (Hint _ t); by split|]).
  apply Forall_nil_2.
Qed.

Lemma todo_round_trip t :
  item_ok t → gt_unmarshal todo_type (TodoItem_json t) = (VTodo t, None).
Proof.
  destruct t as [i u title b]. intros [H1 H2]. simpl in H1, H2.
  change (decoded VTodo (decode_members TodoItem_fields [("id", jint i); ("userId", jint u);
    ("title", JStr title); ("bool", JBool b)] zero_TodoItem) =
    (VTodo {| ti_ID := i; ti_UserID := u; ti_Title := title; ti_Completed := b |}, None)).
  assert (decode_members TodoItem_fields [("id", jint i); ("userId", jint u);
    ("title", JStr title); ("bool", JBool b)] zero_TodoItem =
    ({| ti_ID := i; ti_UserID := u; ti_Title := title; ti_Completed := b |}, true)) as ->; [|done].
  members (cbn -[atoi format_int]; rewrite atoi_format_int by done; reflexivity).
Qed.

(** *** The executor's loop *)

(** The answers of an executor that stores results, and answers the wait with [event]. *)
Definition executor (event : json) (op : GeneratorOpcode) : json :=
  match g_op op with OpcodeWaitForEvent => event | _ => stored op end.

Section workflow.
Context (map_type : gotype value) (stack : string) (sf : ServableFunction value) (req : Request).
Context (time_Parse : string → string → option time) (http_Get : res goerr (string * string)).
Context (now : time) (input : Input value).

Abbreviation program := (AccountCreated time_Parse http_Get now input).
Abbreviation drive_it event := (drive map_type stack (executor event) 6 sf req ∅).

Hypothesis Hprogram : runs_program map_type sf req program.

Lemma fetch_plain : plain (fetch_todo time_Parse http_Get now).
Proof.
  unfold fetch_todo. clear. destruct http_Get as [[h body]|e]; [|done].
  cbn -[decode_struct parse_value]. destruct (negb _); [done|].
  destruct (parse_value _ body) as [[j rest]|]; done.
Qed.

Lemma program_sequential : sequential program.
Proof.
  simpl. split; [apply fetch_plain|]. intros result err.
  destruct (is_nil result || bool_decide (err ≠ None)); [done|]. simpl. split; [done|].
  intros _ _ fn [[]|]; try done. by destruct s.
Qed.

(** The counts of the step names along the function. *)
Definition idx1 := used ∅ "initial-delay".
Definition idx2 := used idx1 "fetch todo".
Definition idx3 := used idx2 "load todo author".
Definition idx4 := used idx3 "wait-for-activity".

Lemma drive_program event e ops r :
  resume stack (executor event) (immediate req) program ∅ = e →
  e.1.*1 `sublist_of` [step_hash ∅ "initial-delay"; step_hash idx1 "fetch todo";
    step_hash idx2 "load todo author"; step_hash idx3 "wait-for-activity";
    step_hash idx4 "follow-up-email"] →
  omap snd e.1 = ops → e.2 = r → drive_it event = Some (ops, r).
Proof.
  intros He Hsub <- <-. rewrite <- He in *. apply (drive_follows _ _ _ _ _ program 6 [] _ ∅).
  - done.
  - apply program_sequential.
  - done.
  - eapply sublist_NoDup; [|exact Hsub]. apply (bool_decide_unpack _). vm_compute. exact I.
  - constructor.
  - done.
  - apply sublist_length in Hsub. rewrite length_fmap in Hsub. cbn [length] in Hsub. lia.
Qed.

(** A run of the workflow that goes through: the delay, the fetch, the load and the wait,
    each once and in this order, then the follow-up only if no event came; the function
    returns nil. *)
Definition completes (event : json) : Prop :=
  ∃ ops, drive_it event = Some (ops, ReplyResponse (Some VNil)) ∧
    (λ op, (g_op op, g_name op)) <$> ops =
      [(OpcodeSleep, "initial-delay"); (OpcodeStepRun, "fetch todo");
       (OpcodeStepRun, "load todo author");
       (OpcodeWaitForEvent, "Wait for a function to be created")] ++
      match event with JNull => [(OpcodeStepRun, "follow-up-email")] | _ => [] end.

(** A run that ends at the fetch, which was taken for rate-limited. *)
Definition rate_limited (event : json) : Prop :=
  ∃ ops, drive_it event = Some (ops, ReplyError (EText "Unhandled step error: rate-limited")) ∧
    (λ op, (g_op op, g_name op)) <$> ops =
      [(OpcodeSleep, "initial-delay"); (OpcodeStepError, "fetch todo")].

Lemma fetched_completes event retryAfter body j rest item :
  http_Get = Ok (retryAfter, body) → is_zero (parseRetryAfter time_Parse now retryAfter) = true →
  parse_value (S (String.length body)) body = Some (j, rest) →
  decode_struct TodoItem_fields j zero_TodoItem = (item, true) →
  (event = JNull ∨ ∃ e, event ≠ JNull ∧ gt_unmarshal created_type event = (VCreated e, None)) →
  completes event.
Proof.
  intros Hget Hzero Hparse Hdec Hevent.
  assert (plain_outcome (fetch_todo time_Parse http_Get now) = Return (VTodo item, None)) as Hfetch.
  { unfold fetch_todo. rewrite Hget. cbn -[decode_struct parse_value is_zero parseRetryAfter].
    rewrite Hzero, Hparse. unfold decoded. by rewrite Hdec. }
  assert (item_ok item) as Hitem.
  { pose proof (decoded_item_ok j) as Hi. by rewrite Hdec in Hi. }
  set (tail := match event with
    JNull => called (step_hash idx4 "follow-up-email")
      (step_run_op (step_hash idx4 "follow-up-email") "follow-up-email" (Some (JBool true)))
      ([], ReplyResponse (Some VNil))
    | _ => ([], ReplyResponse (Some VNil)) end : execution (V:=value)).
  assert (∃ v err, wait_answer created_type event v err ∧
    resume stack (executor event) (immediate req)
      (match err with Some (ESentinel ErrEventNotReceived) => follow_up
       | _ => PLog (created_FunctionID v) (PRet VNil None) end) idx4 = tail) as (v & err & Hans & Htail).
  { destruct Hevent as [->|(e & Hne & He)].
    - eexists _, _. split; [reflexivity|]. unfold tail, follow_up.
      by rewrite (resume_run stack (executor JNull) (immediate req) eq_refl any_type "follow-up-email"
        (PRet (VAny (JBool true)) None) _ idx4 (VAny (JBool true)) (JBool true) (JBool true) (VAny (JBool true)) I eq_refl eq_refl eq_refl eq_refl).
    - exists (VCreated e), None. unfold tail. destruct event; done. }
  eexists. split.
  { eapply drive_program.
    - unfold AccountCreated. rewrite resume_sleep.
      rewrite (resume_run stack (executor event) (immediate req) eq_refl todo_type "fetch todo" _ _ _ (VTodo item) (TodoItem_json item)
        (TodoItem_json item) (VTodo item) fetch_plain Hfetch eq_refl eq_refl (todo_round_trip item Hitem)).
      cbn [is_nil orb bool_decide decide_rel].
      rewrite bool_decide_eq_false_2 by (by intros []).
      rewrite (resume_run stack (executor event) (immediate req) eq_refl any_type "load todo author" (PRet VNil None) _ _ VNil JNull JNull VNil I eq_refl
        eq_refl eq_refl eq_refl).
      unfold await_activity. rewrite (resume_wait stack (executor event) (immediate req) created_type
        "wait-for-activity" activity _ _ v err Hans).
      fold idx1. fold idx2. fold idx3. fold idx4. rewrite Htail. reflexivity.
    - unfold tail. destruct event; cbn [called fst fmap list_fmap]; [done|..];
        by do 4 apply sublist_skip; apply sublist_nil_l.
    - reflexivity.
    - unfold tail. by destruct event. }
  unfold tail. by destruct event.
Qed.

Lemma limited_fails event retryAfter body :
  http_Get = Ok (retryAfter, body) → is_zero (parseRetryAfter time_Parse now retryAfter) = false →
  rate_limited event.
Proof.
  intros Hget Hzero. set (at_ := parseRetryAfter time_Parse now retryAfter) in *.
  assert (plain_outcome (fetch_todo time_Parse http_Get now) =
    Return (VNil, Some (RetryAtError (EText "rate-limited") at_))) as Hfetch.
  { unfold fetch_todo. rewrite Hget. cbn -[is_zero parseRetryAfter]. fold at_. by rewrite Hzero. }
  eexists. split.
  { eapply drive_program.
    - unfold AccountCreated. rewrite resume_sleep.
      rewrite (resume_run_error stack (executor event) (immediate req) eq_refl todo_type "fetch todo"
        _ _ _ VNil _ "rate-limited" (JObj [("name", JStr "Step failed");
          ("message", JStr "rate-limited"); ("data", JNull)]) VNil
        {| se_name := "Step failed"; se_message := "rate-limited"; se_data := Some JNull |}
        fetch_plain Hfetch eq_refl eq_refl eq_refl eq_refl eq_refl).
      reflexivity.
    - cbn [is_nil orb resume called fst fmap list_fmap].
      do 2 apply sublist_skip. apply sublist_nil_l.
    - reflexivity.
    - reflexivity. }
  reflexivity.
Qed.

(** A real clock and a delay never add up to the zero time. *)
Lemma delayed_not_zero d : clock_ok now → is_zero (time_add now (wrap64 d)) = false.
Proof.
  intros [Hext Hnsec]. pose proof (wrap64_range d) as Hd. set (x := wrap64 d) in *. clearbody x.
  unfold is_zero, time_add. cbn [t_ext t_nsec]. apply andb_false_iff. left. apply Z.eqb_neq.
  set (q := (t_nsec now + x) / second).
  assert (- 9223372037 ≤ q ≤ 9223372037) as Hq.
  { unfold q, in_int64, min_int64, max_int64, second in *. split.
    - apply Z.div_le_lower_bound; lia.
    - apply Z.lt_succ_r, Z.div_lt_upper_bound; lia. }
  unfold unix_to_internal, max_int64 in Hext. clearbody q. unfold wrap64.
  destruct (Z_lt_dec (t_ext now + q) (2 ^ 63)) as [Hlt|Hge].
  - rewrite Z.mod_small; lia.
  - replace (t_ext now + q + 2 ^ 63) with (t_ext now + q - 2 ^ 63 + 1 * 2 ^ 64) by lia.
    rewrite Z.mod_add, Z.mod_small; lia.
Qed.

(** The instant of the header, when it is one in a layout of the function. *)
Definition header_instant (retryAfter : string) : option time :=
  head (omap (λ layout, time_Parse layout retryAfter) [RFC1123; RFC850; ANSIC; RFC3339]).

(** C26: the workflow of the HTTP example once its request has been answered with a todo
    item, for every header [Retry-After], and an awaited event that does not come or can be
    read.  If the header is a number of seconds, the delay
    is ignored and the workflow is executed as it is written, to its end.  If it is missing,
    or is neither an instant nor such a number, or is an instant other than the zero time,
    the response is taken for rate-limited: the step fails, and the function ends with its
    error.  The comments of the example mean a number of seconds to be a delay, and a
    response without the header to be used. *)
Theorem account_created_completes event retryAfter body j rest item :
  http_Get = Ok (retryAfter, body) → clock_ok now →
  parse_value (S (String.length body)) body = Some (j, rest) →
  decode_struct TodoItem_fields j zero_TodoItem = (item, true) →
  (event = JNull ∨ ∃ e, event ≠ JNull ∧ gt_unmarshal created_type event = (VCreated e, None)) →
  match header_instant retryAfter with
  | Some t => if is_zero t then completes event else rate_limited event
  | None => match atoi retryAfter with
            | Some _ => completes event
            | None => rate_limited event
            end
  end.
Proof.
  intros Hget Hclock Hparse Hdec Hevent.
  assert (parseRetryAfter time_Parse now retryAfter =
    match header_instant retryAfter with
    | Some t => t
    | None => match atoi retryAfter with
              | Some _ => zero_time
              | None => time_add now (wrap64 (atoi_error_value retryAfter * second))
              end
    end) as Hat.
  { unfold parseRetryAfter, header_instant. destruct (head _); [done|]. by destruct (atoi _). }
  pose proof (fetched_completes event retryAfter body j rest item Hget) as Hdone.
  pose proof (limited_fails event retryAfter body Hget) as Hfail. rewrite Hat in *.
  destruct (header_instant retryAfter) as [t|]; [destruct (is_zero t) eqn:Hz; by auto|].
  destruct (atoi retryAfter); [by apply Hdone|]. by apply Hfail, delayed_not_zero.
Qed.

End workflow.

(** ** The worker example and the runs *)

(** The function of examples/connect/main.go. *)
Definition testRun (input : Input value) : prog value :=
  PLog "HELLO" (PRet (VAny (JStr "Connected!!")) None).

(** The handler it registers it with, and the key. *)
Definition connect_test (T : event_type value) (slug_Make : string → string) :
  res string (ServableFunction value) :=
  CreateFunction slug_Make (basic_opts "conntest" "connect test")
    (EventTrigger "test/connect.run" None) T testRun.

(** ** Witnesses *)

Section witnesses.
Definition todo_body : string :=
  json_encode (JObj [("userId", jint 1); ("id", jint 7); ("title", JStr "write"); ("bool", JBool false)]).

Definition example_input : Input value :=
  {| in_event := VAny (JObj []); in_events := [];
     in_ctx := {| ic_env := ""; ic_functionID := ""; ic_runID := ""; ic_stepID := "step"; ic_attempt := 0 |} |}.

Definition no_layout (_ _ : string) : option time := None.

Definition example_function (get : res goerr (string * string)) (now : time) : ServableFunction value :=
  {| Slug := λ _, "account-created"; Name := "Account creation flow"; Config := basic_opts "account-created" "";
     Trigger := EventTrigger "api/account.created" None; ZeroEvent := Some any_type;
     Func := Some (AccountCreated no_layout get now) |}.

Definition example_now : time := Time (unix_to_internal + 1700000000) 0 0.

Lemma example_runs get planned :
  runs_program any_type (example_function get example_now) (order_request planned)
    (AccountCreated no_layout get example_now example_input).
Proof. by exists (AccountCreated no_layout get example_now), (VAny (JObj [])), []. Qed.

(** With the delay of two minutes the workflow completes; without a header it does not. *)
Lemma account_created_completes_witness :
  let run ra := example_function (Ok (ra, todo_body)) example_now in
  (∃ ops, drive any_type "" (executor JNull) 6 (run "120") (order_request true) ∅ =
           Some (ops, ReplyResponse (Some VNil)) ∧ length ops = 5%nat) ∧
  ∃ ops, drive any_type "" (executor JNull) 6 (run "") (order_request true) ∅ =
           Some (ops, ReplyError (EText "Unhandled step error: rate-limited")) ∧ length ops = 2%nat.
Proof.
  intros run.
  assert (clock_ok example_now) as Hc by (unfold clock_ok; vm_compute; repeat split; discriminate).
  assert (∀ ra, let get : res goerr (string * string) := Ok (ra, todo_body) in
    match atoi ra with
    | Some _ => completes any_type "" (run ra) (order_request true) JNull
    | None => rate_limited any_type "" (run ra) (order_request true) JNull
    end) as Hrun.
  { intros ra get.
    refine (account_created_completes any_type "" (run ra) (order_request true) no_layout get example_now
      example_input (example_runs get true) JNull ra todo_body
      (JObj [("userId", jint 1); ("id", jint 7); ("title", JStr "write"); ("bool", JBool false)]) newline
      {| ti_ID := 7; ti_UserID := 1; ti_Title := "write"; ti_Completed := false |} _ Hc _ _ _);
      [reflexivity|vm_compute; reflexivity|reflexivity|by left]. }
  split.
  - destruct (Hrun "120") as (ops & Hd & Hops). exists ops. split; [exact Hd|].
    apply (f_equal length) in Hops. by rewrite length_fmap in Hops.
  - destruct (Hrun "") as (ops & Hd & Hops). exists ops. split; [exact Hd|].
    apply (f_equal length) in Hops. by rewrite length_fmap in Hops.
Defined.
End witnesses.
