(* ===== verification/Mains.v ===== *)
(** * The main functions of the examples (examples/http/main.go, examples/connect/main.go)

    The handlers that the two programs set up: what the first serves, and the worker that
    the second starts. *)

From S2P Require Import Prelude GoBytes GoTime GoJson GoHttp Env Errors Signature Manager Step.
From S2P Require Import Program Functions Handler Configs Serve Sync ConnectInvoke WorkerFlow RunLoop.
From S2P Require Import StartWorker Examples.

Open Scope Z_scope.

(** [inngestgo.HandlerOpts{}] *)
Definition zero_opts : HandlerOpts :=
  {| ho_Logger := false; ho_SigningKey := None; ho_SigningKeyFallback := None;
     ho_APIBaseURL := None; ho_EventAPIBaseURL := None; ho_ServeOrigin := None;
     ho_ServePath := None; ho_Env := None; ho_RegisterURL := None; ho_AppVersion := None;
     ho_MaxBodySize := 0; ho_URL := None; ho_UseStreaming := false;
     ho_AllowInBandSync := None; ho_Dev := None |}.

(** A handler with one function. *)
Lemma registers_one {V} appName opts (f : ServableFunction V) h :
  Register [f] (NewHandler appName opts) h →
  h_appName h = appName ∧ h_opts h = h_opts (NewHandler (V:=V) appName opts) ∧ h_funcs h = [f].
Proof.
  intros (Hopts & Happ & Hfuncs). split_and!; [done..|].
  unfold slug_map in Hfuncs. simpl in Hfuncs. rewrite insert_empty, map_to_list_singleton in Hfuncs.
  by apply Permutation_singleton_r in Hfuncs.
Qed.

Lemma dispatch_one {V} (f : ServableFunction V) h fnID :
  h_funcs h = [f] →
  find_function h fnID = if decide (Slug f (h_appName h) = fnID ∨ Slug f "" = fnID) then Some f else None.
Proof.
  intros Hf. unfold find_function. rewrite Hf. simpl.
  by repeat case_bool_decide; case_decide; simpl; try tauto.
Qed.

(** ** examples/http/main.go *)

Section http.
Context (ParseTime : string → string → option time) (get : res goerr (string * string)) (now : time).
Context (account_type : gotype value) (slug_Make : string → string).

(** The handler that is served, once [main] has set it up; the order of a map with one
    entry leaves no choice. *)
Definition http_main (h : handler value) : Prop :=
  ∃ f, account_function ParseTime get now account_type slug_Make = Ok f ∧
       Register [f] (NewHandler "billing" zero_opts) h.

(** The program serves its function, under its ID with and without the name of the app, and
    nothing else. *)
Theorem http_main_serves h fnID f :
  http_main h →
  find_function h fnID = Some f ↔
    h_funcs h = [f] ∧ (fnID = "billing-account-created" ∨ fnID = "account-created").
Proof.
  intros (g & Hg & Hreg). destruct (registers_one _ _ _ _ Hreg) as (Happ & _ & Hf).
  rewrite (dispatch_one g h fnID Hf), Hf, Happ. injection Hg as <-. simpl.
  case_decide as Hd; split; [|by intros [[= ->] _]| |]; [intros [= <-]|done|].
  - split; [done|]. by destruct Hd; [left|right].
  - intros [_ [-> | ->]]; destruct Hd; [by left|by right].
Qed.
End http.

(** ** examples/connect/main.go *)

Section connect.
Context (T : event_type value) (slug_Make : string → string).
Context (Getenv : string → string) (marshal_fns : list SDKFunction → option string).
Context (marshal_capabilities : option string) (numCPU totalMemory : Z).

Definition connect_opts : HandlerOpts :=
  {| ho_Logger := true; ho_SigningKey := Some "signkey-test-12345678"; ho_SigningKeyFallback := None;
     ho_APIBaseURL := None; ho_EventAPIBaseURL := None; ho_ServeOrigin := None;
     ho_ServePath := None; ho_Env := None; ho_RegisterURL := None; ho_AppVersion := None;
     ho_MaxBodySize := 0; ho_URL := None; ho_UseStreaming := false;
     ho_AllowInBandSync := None; ho_Dev := Some true |}.

(** The handler that [main] connects. *)
Definition connect_main (h : handler value) : Prop :=
  ∃ f, connect_test T slug_Make = Ok f ∧
       Register [f] (NewHandler "connect-test" connect_opts) h.

(** The call of [Connect] in [main]. *)
Definition main_connects (h : handler value) : outcome (res goerr started) :=
  start_worker Getenv marshal_fns marshal_capabilities numCPU totalMemory h (Some "example-worker") 0.

(** The program's worker starts, unless a fallback key in the environment cannot be hashed,
    or the configurations cannot be serialised; it begins with the key it gives, and with a
    thousand goroutines for requests. *)
Theorem connect_main_starts h :
  connect_main h → Getenv "INNGEST_SIGNING_KEY_FALLBACK" = "" →
  (∀ cfgs, is_Some (marshal_fns cfgs)) → is_Some marshal_capabilities →
  ∃ s, main_connects h = Return (Ok s) ∧ sw_flow s = new_flow 1000 ∧
       Some (ed_hashedSigningKey (sw_data s)) = Signature.hashedSigningKey "signkey-test-12345678".
Proof.
  intros (f & Hf & Hreg) Henv Hfns Hcaps.
  destruct (registers_one _ _ _ _ Hreg) as (Happ & Hopts & Hfuncs).
  assert (Trigger f = EventTrigger "test/connect.run" None) as Htr.
  { unfold connect_test, CreateFunction in Hf. by destruct T as [[|n]|t]; [injection Hf as <-| |injection Hf as <-]. }
  assert (Forall has_trigger (h_funcs h)) as Hall.
  { rewrite Hfuncs. constructor; [|constructor]. unfold has_trigger. by rewrite Htr. }
  assert (∃ k, good_keys Getenv h k "") as [k Hk].
  { eexists. unfold good_keys. rewrite Hopts. unfold GetSigningKeyFallback. simpl. rewrite Henv.
    split; [done|]. split; [vm_compute; reflexivity|done]. }
  pose proof (start_worker_cases Getenv marshal_fns marshal_capabilities numCPU totalMemory h
    (Some "example-worker") 0) as Hc. fold (main_connects h) in Hc.
  destruct (main_connects h) as [[s|e]|p].
  - destruct Hc as (_ & _ & _ & _ & Hs). exists s. split; [done|].
    destruct Hs as [(fb & _ & Hkey & _) [Hflow _] _ _]. split; [done|].
    rewrite <- Hkey, Hopts. done.
  - exfalso. destruct Hc as [|[|[_ [Hno|[Hno|(cfgs & _ & Hno)]]]]]; [done|congruence|..].
    + by apply (Hno k "").
    + by destruct Hcaps as [? ?]; congruence.
    + destruct (Hfns cfgs) as [? ?]. congruence.
  - exfalso. by destruct Hc as (_ & _ & _ & Hno).
Qed.
End connect.
