(* ===== verification/Package.v ===== *)
(** * The package-level functions (handler.go, client.go)

    The default handler and the default client: the global variables of the package, and
    the functions that use them. *)

From S2P Require Import Prelude GoBytes GoTime GoJson Errors GoHttp Env Step Program Functions.
From S2P Require Import Handler Configs Serve Sync Client StartWorker.

Open Scope Z_scope.

(** [DefaultHandler] and [DefaultClient], which is nil until the user sets it. *)
Record globals (V : Type) := {
  DefaultHandler : handler V;
  DefaultClient : option ClientOpts }.
Arguments DefaultHandler {V} g.
Arguments DefaultClient {V} g.

Section package.
Context {V : Type}.
Implicit Types g : globals V.

Definition initial : globals V :=
  {| DefaultHandler := NewHandler "Go app" zero_opts; DefaultClient := None |}.

(** [DefaultClient = NewClient(opts)], by the user. *)
Definition set_client (opts : ClientOpts) g : globals V :=
  {| DefaultHandler := DefaultHandler g; DefaultClient := Some (NewClient opts) |}.

Definition pkg_Register (fs : list (ServableFunction V)) g g' : Prop :=
  Register fs (DefaultHandler g) (DefaultHandler g') ∧ DefaultClient g' = DefaultClient g.

Section serve.
Context (Getenv : string → string) (jcs : string → option string).
Context (map_type : gotype V) (stack : string) (marshal_any : V → option json) (now : time).
Context (marshal_configs : list SDKFunction → option json) (fmt_value : json → string).
Context (Do : nat → out_request → res goerr out_response).

Definition pkg_Serve g : heartbeats → http_request → writer → outcome (list out_request * writer) :=
  ServeHTTP Getenv jcs map_type stack marshal_any now marshal_configs fmt_value Do (DefaultHandler g).
End serve.

Section connect.
Context (Getenv : string → string) (marshal_fns : list SDKFunction → option string).
Context (marshal_capabilities : option string) (numCPU totalMemory : Z).

Definition pkg_Connect g : option string → Z → outcome (res goerr started) :=
  start_worker Getenv marshal_fns marshal_capabilities numCPU totalMemory (DefaultHandler g).
End connect.

Section send.
Context (Getenv : string → string) (Post : out_request → res goerr out_response).

Definition errNoClient : goerr := EText "no default client initialized for inngest".

Definition pkg_Send g (e : sendable) : list out_request * res goerr string :=
  match DefaultClient g with
  | None => ([], Err errNoClient)
  | Some client => Send Getenv Post client e
  end.

Definition pkg_SendMany g (e : list sendable) : list out_request * res goerr (option (list string)) :=
  match DefaultClient g with
  | None => ([], Err errNoClient)
  | Some client => SendMany Getenv Post client e
  end.
End send.

(** ** Programs that use the package *)

(** The calls of [Register] of a program, in the order its packages are initialised. *)
Inductive registered : list (list (ServableFunction V)) → globals V → Prop :=
  | registered_none : registered [] initial
  | registered_more calls fs g g' :
      registered calls g → pkg_Register fs g g' → registered (calls ++ [fs]) g'.

(** However the registrations are split over calls, and in whatever order each call
    leaves the functions, it is as if they had been made at once. *)
Lemma registered_at_once calls g :
  registered calls g → Register (concat calls) (DefaultHandler initial) (DefaultHandler g).
Proof.
  induction 1 as [|calls fs g g' _ IH [Hr _]]; [by split_and!|].
  rewrite concat_app. simpl. rewrite app_nil_r. by eapply Register_app.
Qed.

(** A request reaches the function that was registered last under its slug, over all
    calls, when no slug without the app's name is another function's; and the default
    handler has a logger, so that serving never stops at its absence. *)
Theorem package_dispatch calls g f :
  registered calls g →
  (∀ f', f' ∈ concat calls → Slug f' "" = Slug f "Go app" → Slug f' "Go app" = Slug f "Go app") →
  latest "Go app" (concat calls) (Slug f "Go app") = Some f →
  find_function (DefaultHandler g) (Slug f "Go app") = Some f ∧
  ho_Logger (h_opts (DefaultHandler g)) = true.
Proof.
  intros Hreg Hold Hf. apply registered_at_once in Hreg as Hr.
  pose proof Hr as (Ho & Ha & _).
  split; [|by rewrite Ho].
  assert (∀ x, x ∈ h_funcs (DefaultHandler g) → x ∈ concat calls) as Hsub.
  { intros x Hx. apply (registered_latest _ _ _ _ Hr) in Hx. by apply latest_slug in Hx as [_ Hx]. }
  change "Go app" with (h_appName (DefaultHandler initial)) in *. rewrite <- Ha in *.
  apply find_function_own.
  - apply (registered_latest _ _ _ _ Hr). by rewrite <- Ha.
  - rewrite Ha. by apply (registered_slugs_NoDup (concat calls)).
  - intros k Hk. by apply Hold, Hsub.
Qed.
End package.
