(* ===== verification/TestUtils.v ===== *)
(** * The helpers of the integration tests (tests/utils.go)

    Polling the development server until a run has a status, and the synchronisation
    of a test server.  The server is a parameter: what the n-th request gets. *)

From S2P Require Import Prelude GoBytes GoTime GoJson JsonWire GoFloat Errors GoHttp Env Step Program.
From S2P Require Import Functions Handler Configs Sync.

Open Scope Z_scope.

Definition StatusFailed : string := "Failed".

(** [type Run struct], a run as the server's API shows it; [Output] has no tag and is decoded
    under its own name.  It is an [any], nil as [JNull]: its numbers become float64, and one
    that is out of range fails the decoding. *)
Record ApiRun := { run_Output : json; run_Status : string }.

Definition zero_Run : ApiRun := {| run_Output := JNull; run_Status := "" |}.

Definition Run_fields : list (string * decoder ApiRun) :=
  [("Output", dec_any (λ v r, {| run_Output := default JNull v; run_Status := run_Status r |}));
   ("status", dec_string (λ v r, {| run_Output := run_Output r; run_Status := v |}))].

Definition run_url (id : string) : string := "http://localhost:8288/v1/runs/" +:+ id.

Section wait.
(** The n-th [http.Get], and what reading its body gives; and the clock when the n-th
    round starts, in nanoseconds since the call. *)
Context (http_Get : nat → string → res goerr (res goerr string)) (clock : nat → Z).

Definition getRun (n : nat) (id : string) : res goerr ApiRun :=
  try response <- http_Get n (run_url id) ;
  try byt <- response ;
  match json_parse byt with
  | None => Err (EText "invalid character")
  | Some j =>
      match unmarshal (decode_struct [("data", decode_struct Run_fields)]) zero_Run j with
      | Some run => Ok run
      | None => Err errType
      end
  end.

Definition timeout : Z := 5 * second.
Definition pause : Z := second / 10.

(** The result after the timeout. *)
Definition timed_out (id : option string) (status : string) : res goerr ApiRun :=
  match id with
  | None | Some "" => Err (EText "run ID is empty")
  | Some _ => Err (EText ("run did not reach status " +:+ status))
  end.

(** The loop of [waitForRun] from its n-th round; [None] is more rounds than [fuel]. *)
Fixpoint wait_rounds (fuel n : nat) (id : option string) (status : string) :
  option (outcome (res goerr ApiRun)) :=
  match fuel with
  | O => None
  | S fuel =>
      if timeout <? clock n then Some (Return (timed_out id status))
      else
        match id with
        | None => Some (Panic (UserPanic nil_deref))
        | Some "" => wait_rounds fuel (S n) id status
        | Some rid =>
            match getRun n rid with
            | Err e => Some (Return (Err e))
            | Ok run =>
                if bool_decide (run_Status run = status) then Some (Return (Ok run))
                else wait_rounds fuel (S n) id status
            end
        end
  end.

(** Fifty-two rounds are enough, since each but the last sleeps a tenth of a second. *)
Definition max_rounds : nat := 52.

Definition waitForRun (id : option string) (status : string) : option (outcome (res goerr ApiRun)) :=
  wait_rounds max_rounds 0 id status.

(** ** Properties *)

(** Every round ends with a pause. *)
Hypothesis clock_pauses : ∀ n, clock n + pause ≤ clock (S n).
Hypothesis clock_starts : 0 ≤ clock 0.

Lemma clock_after n : Z.of_nat n * pause ≤ clock n.
Proof using clock_pauses clock_starts.
  induction n as [|n IH]; [done|]. pose proof (clock_pauses n). lia.
Qed.

Lemma early_round n : clock n ≤ timeout → (S n < max_rounds)%nat.
Proof using clock_pauses clock_starts.
  intros Hearly. pose proof (clock_after n) as Hc. unfold timeout, pause, max_rounds in *.
  assert (second / 10 = 100000000) as E by done. rewrite E in Hc. unfold second in *. lia.
Qed.

(** Without an ID nothing is asked. *)
Lemma wait_rounds_empty fuel n status :
  (max_rounds ≤ n + fuel)%nat → (n < max_rounds)%nat →
  wait_rounds fuel n (Some "") status = Some (Return (Err (EText "run ID is empty"))).
Proof using clock_pauses clock_starts.
  revert n. induction fuel as [|fuel IH]; intros n Hfuel Hn; [lia|]. cbn [wait_rounds].
  destruct (Z.ltb_spec timeout (clock n)) as [|Hearly]; [done|].
  pose proof (early_round n Hearly). apply IH; lia.
Qed.

(** How a document of the server is read. *)
Example decoded_runs :
  let read t := unmarshal (decode_struct Run_fields) zero_Run <$> json_parse t in
  let doc n := json_print (JObj [("Output", JNum n); ("status", JStr "Completed")]) in
  read (doc "9007199254740993") =
    Some (Some {| run_Output := JNum "9007199254740992"; run_Status := "Completed" |}) ∧
  read (doc "1e999") = Some None.
Proof. vm_compute. split; reflexivity. Qed.

(** The n-th request finds a run that has not the status. *)
Definition pending (n : nat) (rid status : string) : Prop :=
  ∃ run, getRun n rid = Ok run ∧ run_Status run ≠ status.

(** What the rounds from the n-th on end with. *)
Definition wait_result (n : nat) (rid status : string) (r : res goerr ApiRun) : Prop :=
  ∃ m, (n ≤ m)%nat ∧ (∀ k, (n ≤ k < m)%nat → clock k ≤ timeout ∧ pending k rid status) ∧
    ((timeout < clock m ∧ r = timed_out (Some rid) status) ∨
     (clock m ≤ timeout ∧ getRun m rid = r ∧ ∀ run, r = Ok run → run_Status run = status)).

Lemma wait_rounds_result fuel n rid status :
  rid ≠ "" → (max_rounds ≤ n + fuel)%nat → (n < max_rounds)%nat →
  ∃ r, wait_rounds fuel n (Some rid) status = Some (Return r) ∧ wait_result n rid status r.
Proof using clock_pauses clock_starts.
  intros Hrid. revert n. induction fuel as [|fuel IH]; intros n Hfuel Hn; [lia|].
  cbn [wait_rounds]. destruct (Z.ltb_spec timeout (clock n)) as [Hlate|Hearly].
  { exists (timed_out (Some rid) status). split; [done|]. exists n. split; [lia|]. split; [lia|by left]. }
  pose proof (early_round n Hearly) as Hsn.
  destruct rid as [|c rid]; [done|]. set (id := String c rid) in *.
  destruct (getRun n id) as [run|e] eqn:Hget.
  2: { exists (Err e). split; [done|]. exists n. split; [lia|]. split; [lia|]. by right. }
  case_bool_decide as Hstatus.
  { exists (Ok run). split; [done|]. exists n. split; [lia|]. split; [lia|]. right.
    split; [done|]. split; [done|]. by intros ? [= <-]. }
  destruct (IH (S n)) as (r & Hr & m & Hm & Hall & Hend); [lia|lia|].
  exists r. split; [done|]. exists m. split; [lia|]. split; [|done].
  intros k Hk. destruct (decide (k = n)) as [->|]; [|apply Hall; lia]. split; [done|by exists run].
Qed.

(** C27: [waitForRun] returns, after at most fifty-two rounds: with the first run that has
    the status, or the first error of the server, or the timeout's error once five
    seconds have passed without either, which is all that happens for an empty ID.
    Called with a nil ID it panics. *)
Theorem wait_for_run_returns id status :
  match id with
  | Some "" => waitForRun id status = Some (Return (Err (EText "run ID is empty")))
  | Some rid => ∃ r, waitForRun id status = Some (Return r) ∧ wait_result 0 rid status r
  | None => clock 0 ≤ timeout → waitForRun id status = Some (Panic (UserPanic nil_deref))
  end.
Proof using clock_pauses clock_starts.
  destruct id as [[|c rid]|].
  - apply wait_rounds_empty; unfold max_rounds; lia.
  - apply wait_rounds_result; [done|unfold max_rounds; lia..].
  - intros Hearly. unfold waitForRun, max_rounds. cbn [wait_rounds].
    by destruct (Z.ltb_spec timeout (clock 0)); [lia|].
Qed.
End wait.

(** [serve]'s [sync]: the request to the test server, and the error for its status. *)
Definition sync (Do : out_request → res goerr out_response) (server : string) : res goerr unit :=
  try resp <- Do {| or_method := MethodPut; or_url := server; or_header := ∅; or_body := "" |} ;
  if 299 <? os_status resp then
    Err (EText ("invalid status code: " +:+ format_int (os_status resp) +:+ " (" +:+
                os_body resp +:+ ")"))
  else Ok tt.

(** ** Example *)

Section examples.
(** A server on which the run completes by the third request. *)
Definition example_server (n : nat) (_ : string) : res goerr (res goerr string) :=
  Ok (Ok (json_encode (JObj [("data", JObj [("Output", jint 3);
    ("status", JStr (if (n <? 2)%nat then "Running" else "Completed"))])]))).

Definition steady (n : nat) : Z := Z.of_nat n * pause.

Lemma wait_for_run_returns_witness :
  waitForRun example_server steady (Some "run-1") "Completed" =
    Some (Return (Ok {| run_Output := jint 3; run_Status := "Completed" |})) ∧
  ∃ r, waitForRun example_server steady (Some "run-1") "Completed" = Some (Return r) ∧
       wait_result example_server steady 0 "run-1" "Completed" r.
Proof.
  split; [vm_compute; reflexivity|].
  refine (wait_for_run_returns example_server steady _ _ (Some "run-1") "Completed").
  - intros n. unfold steady. lia.
  - reflexivity.
Defined.
End examples.
